(* ===== verification/_CoqProject ===== *)
-Q . S2P
Prelude.v
Types.v
OrdMap.v
OrderBook.v
BookSpec.v
BookInv.v
BookMatch.v
BookEdit.v
BookRefine.v
BookProps.v
BookQueries.v
Bytes.v
Protocol.v
ProtocolInv.v
ProtocolProps.v
Spsc.v
SpscProps.v
MarketData.v
MarketDataProps.v
EventLog.v
EventLogProps.v
Observability.v
Engine.v
EngineProps.v
EngineSystem.v
Gateway.v
GatewayFrames.v
GatewayProps.v
ReferenceBook.v
ReferenceProps.v
ReferenceEquiv.v
StdRandom.v
Benchmark.v
BenchmarkProps.v
Console.v
App.v
AppProps.v
Replies.v
TypeSafety.v
System.v
BenchmarkApp.v
BenchmarkAppProps.v
Loopback.v
BenchmarkRun.v
