(* ===== verification/Prelude.v ===== *)
(** * Verification of the low-latency exchange

    A limit order book exchange: commands arrive over TCP, a single-writer
    engine matches them, replies go back over TCP, market data and an event log
    are fed from the engine over bounded queues.  The parts of the program and
    the files that model them ([include/...] stands for
    [src/include/low_latency_exchange], [src/...] for [src/src]):

    - Domain values and commands, [include/types.hpp] and
      [include/order_command.hpp]: [Types].  Strong integer types are one-field
      records over [Z]; the fallible constructors return [option]; 64-bit
      arithmetic is written with [wrap 64].
    - Order book, [include/order_book.hpp] and [src/order_book.cpp]: [OrdMap]
      ([std::map] as a sorted association list) and [OrderBook], every member
      function of the class.  A [std::list] of orders is a list of nodes, each
      with an identity; an iterator is that identity, and dereferencing one
      that is not live is undefined behaviour.  [BookSpec] is the abstract book
      (two priority lists and the set of used ids), [BookInv] the
      representation invariant and the abstraction function, [BookMatch],
      [BookEdit] and [BookRefine] the simulation, [BookProps] the claims on
      commands, [BookQueries] those on depth, digest and self-check.
    - Wire protocol, [include/protocol.hpp] and [src/protocol.cpp]: [Bytes]
      (little-endian accessors on byte spans), [Protocol] (all codecs),
      [ProtocolInv] (the classes [Codec] and [CanonicalCodec] and their
      instances), [ProtocolProps].
    - Single-producer single-consumer queue, [include/spsc_queue.hpp]: [Spsc]
      (the member functions, and their shared-memory steps for the interleaved
      semantics) and [SpscProps].  The class [BoundedQueue] is what the other
      components rely on; [spsc_bounded_queue] is its instance.
    - Market data, [include/market_data.hpp] and [src/market_data.cpp]:
      [MarketData], [MarketDataProps].
    - Event log, [include/event_log.hpp] and [src/event_log.cpp]: [EventLog],
      [EventLogProps].
    - Latency histogram, [include/observability.hpp]: [Observability].
    - Matching engine service, the class [MatchingEngineService] of
      [include/tcp_gateway.hpp] and [src/tcp_gateway.cpp]: [Engine] (handlers,
      outbound path, [process_one], [process_available]), [EngineProps]
      (lemmas), [EngineSystem] (the engine among the gateway and recorder
      threads, claims).
    - TCP gateway, [serialize_outbound], [TcpSession] and [TcpGateway] of the
      same files: [Gateway] (members and completion handlers), [GatewayFrames]
      (what clients read), [GatewayProps] (the transition system of pending
      operations, claims), [Replies] (what the engine pushes for a command and a
      client reads of it).
    - The whole exchange: [System] puts the gateway and the engine over the
      queues they share, with the publisher and recorder threads behind the
      feeds; [TypeSafety] says that every value in a reachable book and in every
      result is one its constructor accepts.
    - The reference order book of the differential tests,
      [src/tests/reference_order_book.hpp]: [ReferenceBook], [ReferenceProps]
      (matching by scans of one vector is the sweep of a priority list),
      [ReferenceEquiv].
    - The benchmark library, [include/benchmark.hpp] and [src/benchmark.cpp]:
      [StdRandom] ([std::mt19937_64] and binary64), [Benchmark],
      [BenchmarkProps].
    - The programs, [src/apps]: [Console] (command lines and exit codes of the
      exchange and replay programs, the version string), [App] (the threads and
      the shutdown of [run_gateway]), [AppProps]; [BenchmarkApp] (the benchmark
      program with its client), [BenchmarkAppProps] (the class [Peer]: what the
      client needs of a server), [Loopback] (the gateway and engine of the
      benchmark as an instance of [Peer]), [BenchmarkRun] (the claims, with that
      instance as the server).

    Computations return an [outcome]: a value, undefined behaviour (an
    out-of-range access, a dead iterator, an empty optional dereferenced), or
    an exhausted fuel.  Every theorem about a computation states that it
    returns a value, so it excludes the other two.

    What the theorems show:

    - [BookProps]: submit, cancel and replace refine the abstract book and keep
      the invariant; price-time priority, conservation of units (the remainder
      of a market order is cancelled), limit prices respected, an uncrossed
      book, ids never reused, priority kept by quantity reductions.
    - [BookQueries]: depth queries, digest and the program's own invariant
      check are exact on books whose level totals fit in 64 bits;
      [level_total_wraps] exhibits a book where they do not.
    - [ProtocolProps]: round trips of headers, commands and events through
      frames; decoders are safe on all bytes and accept only canonical
      payloads; the header check accepts exactly the documented headers.
    - [SpscProps]: under every interleaving with stale index caches and
      wrapping counters the queue is FIFO, loses and duplicates nothing, and
      producer and consumer never touch a slot at the same time.
    - [MarketDataProps]: whatever the queue drops, a subscriber that is handed
      the queued events in order is always synchronized on a published book and
      shows the depth the feed made of it, its five best levels when no level
      total reaches 2^64.
    - [EventLogProps]: replay rebuilds the book from a flushed log; a full device
      makes an append or the flush fail and replay recovers the torn file up to
      the last whole record; replay detects every corrupted payload byte and
      terminates on every file.
    - [Observability]: the histogram is exact; a percentile is located to its
      bucket, whose lower end is returned.
    - [EngineSystem]: one message is one step of the book with well-framed
      replies; the routing table holds exactly the resting orders; draining
      processes the queue in order; the log file, however the stream buffers,
      replays to a book the engine went through, and once flushed to the book of
      all commands handed to the writer.
    - [Replies], [GatewayProps]: clients decode every message the engine pushes;
      no handler can fail; commands of a session are valid and strictly
      increasing in sequence; a fatal error ends the session; replies are
      queued for their sessions in order.
    - [System]: between the bytes the clients sent and the book nothing is lost,
      duplicated, reordered or invented; the metrics count what was applied.
    - [ReferenceEquiv]: the order book and the reference book agree on every
      result and query while sequence numbers do not decrease
      ([reference_differs_out_of_order] shows that they must not).
    - [AppProps]: a run that returns 0 flushed a complete log; the shutdown hangs
      when the outbound queue is full at the signal.
    - [Console], [BenchmarkProps], [BenchmarkAppProps], [BenchmarkRun]: ports and
      options are parsed exactly; generated workloads of at most 100000 levels
      are well formed, and on them the two modes of the benchmark finish and
      report the same counts.

    Fuel.  The matching loops run with one iteration more than the orders of
    the level and the levels of the side they walk,
    replay with the length of the file (every iteration that does not return
    reads a header), draining with the capacity of the queue; the theorems
    prove these bounds sufficient.  The engine's retry of a full outbound queue
    has fuel of its own: one retry is enough when the consumer takes at least
    one message per yield ([consumer_runs]), a hypothesis on the gateway thread.
    The reference book matches with one iteration more than it has orders.  The
    benchmark client waits for at most 100 executions before a terminal reply:
    a generated order has at most 100 units.

    Parameters.  Boost.Asio (a started operation is a pending field whose
    completion delivers an error or exactly the bytes asked for; fewer than
    2^64 connections), the gateway thread while the engine yields ([env]), the clock,
    the rank a floating-point percentile is truncated to, and the value a
    moved-from slot is left with, and the file system of the replay program.  An
    output stream has a buffer in front of a bounded device; how much of the
    buffer a write pushes out is a parameter ([os_spill]), so the theorems hold
    for every buffering strategy ([filebuf_spill] is the one of libstdc++, used
    in the witnesses).  What closing the stream does is not modelled: the
    theorem about the exit code shows that nothing is left to write then.

    Not modelled: the text the benchmark program prints for a result
    ([print_result], a decimal rendering of a [double]), the line announcing the
    port, [local_port], the sleeps of idle threads, and the test drivers other
    than the reference book. *)

From stdpp Require Import prelude gmap list sorting.
From Stdlib Require Import ZArith Lia.

Open Scope Z_scope.

(** ** Machine integers

    A C++ integer of width [w] is a [Z] in [0, 2^w); every arithmetic operation
    of the code that can leave the range is written with the wrap-around. *)

Definition wrap (w z : Z) : Z := z `mod` 2 ^ w.
Definition u64_max : Z := 2 ^ 64 - 1.
Definition i64_max : Z := 2 ^ 63 - 1.
Definition u64_add (a b : Z) : Z := wrap 64 (a + b).
Definition u64_sub (a b : Z) : Z := wrap 64 (a - b).
Definition u64_mul (a b : Z) : Z := wrap 64 (a * b).

(** [static_cast<std::int64_t>] of an unsigned value and back (two's
    complement, as C++20 defines both conversions). *)
Definition to_i64 (v : Z) : Z := if v <? 2 ^ 63 then v else v - 2 ^ 64.
Definition of_i64 (v : Z) : Z := wrap 64 v.

(** [std::bit_width]. *)
Definition bit_width (v : Z) : Z := if v =? 0 then 0 else Z.log2 v + 1.

(** ** Outcomes

    The result of running a piece of C++: a value, undefined behaviour (a null
    optional or a dangling iterator dereferenced, an index out of range), or a
    loop that used up the fuel it was given. *)

Inductive outcome (A : Type) : Type :=
| Val (a : A)
| Undef
| OutOfFuel.
Arguments Val {A} a.
Arguments Undef {A}.
Arguments OutOfFuel {A}.

#[export] Instance outcome_ret : MRet outcome := λ A a, Val a.
#[export] Instance outcome_bind : MBind outcome := λ A B f o,
  match o with
  | Val a => f a
  | Undef => Undef
  | OutOfFuel => OutOfFuel
  end.

#[export] Instance outcome_fmap : FMap outcome := λ A B f o, o ≫= λ a, Val (f a).

(** [*opt]: dereferencing an empty [std::optional] is undefined. *)
Definition deref_opt {A} (o : option A) : outcome A :=
  match o with
  | Some a => Val a
  | None => Undef
  end.

(** [while (cond) body] over an explicit loop state. *)
Fixpoint while {S} (fuel : nat) (cond : S → outcome bool) (body : S → outcome S) (s : S)
  : outcome S :=
  match cond s with
  | Val true =>
      match fuel with
      | O => OutOfFuel
      | Datatypes.S fuel' => s' ← body s; while fuel' cond body s'
      end
  | Val false => Val s
  | Undef => Undef
  | OutOfFuel => OutOfFuel
  end.

(** [for (i = start; i < start + n; ++i) body] over an explicit loop state. *)
Fixpoint for_from {S} (i n : nat) (body : nat → S → outcome S) (s : S) : outcome S :=
  match n with
  | O => Val s
  | Datatypes.S n' => s' ← body i s; for_from (Datatypes.S i) n' body s'
  end.
Notation for_range := (for_from 0).

(** ** Notations and tactics *)

Declare Scope exchange_scope.
Delimit Scope exchange_scope with exchange.
Notation "a +64 b" := (u64_add a b) (at level 50, left associativity) : exchange_scope.
Notation "a -64 b" := (u64_sub a b) (at level 50, left associativity) : exchange_scope.
Notation "a *64 b" := (u64_mul a b) (at level 40, left associativity) : exchange_scope.

Create HintDb exchange.
Create Rewrite HintDb exchange.

(** Splits on every integer comparison of the goal, keeping the facts as
    hypotheses [lia] can use. *)
Ltac zcase :=
  repeat match goal with
  | |- context [ (?a <? ?b)%Z ] => destruct (Z.ltb_spec a b)
  | |- context [ (?a <=? ?b)%Z ] => destruct (Z.leb_spec a b)
  | |- context [ (?a =? ?b)%Z ] => destruct (Z.eqb_spec a b)
  end.

(** Membership in concatenations. *)
Ltac list_elem :=
  repeat (setoid_rewrite elem_of_app || setoid_rewrite elem_of_cons);
  repeat match goal with
  | H : context [ _ ∈ _ ++ _ ] |- _ => rewrite elem_of_app in H
  | H : context [ _ ∈ _ :: _ ] |- _ => rewrite elem_of_cons in H
  end; tauto.

(** ** Lemmas on machine integers *)

Lemma wrap_small w z : 0 ≤ z < 2 ^ w → wrap w z = z.
Proof. intros. by apply Z.mod_small. Qed.

Lemma wrap_range w z : 0 ≤ w → 0 ≤ wrap w z < 2 ^ w.
Proof. intros. apply Z.mod_pos_bound, Z.pow_pos_nonneg; lia. Qed.

Lemma wrap_wrap w z : wrap w (wrap w z) = wrap w z.
Proof. unfold wrap. by rewrite Zmod_mod. Qed.

Lemma u64_add_wrap_l a b : u64_add (wrap 64 a) b = wrap 64 (a + b).
Proof. unfold u64_add, wrap. by rewrite Zplus_mod_idemp_l. Qed.

Lemma u64_sub_wrap_l a b : u64_sub (wrap 64 a) b = wrap 64 (a - b).
Proof. unfold u64_sub, wrap. by rewrite Zminus_mod_idemp_l. Qed.

Lemma u64_sub_small a b : 0 ≤ b ≤ a → a < 2 ^ 64 → u64_sub a b = a - b.
Proof. intros. apply wrap_small. lia. Qed.

Lemma u64_add_small a b : 0 ≤ a + b < 2 ^ 64 → u64_add a b = a + b.
Proof. apply wrap_small. Qed.

Lemma to_i64_of_i64 v : - 2 ^ 63 ≤ v < 2 ^ 63 → to_i64 (of_i64 v) = v.
Proof.
  intros Hv. unfold to_i64, of_i64, wrap.
  destruct (Z.leb_spec 0 v).
  - rewrite Z.mod_small by lia. destruct (Z.ltb_spec v (2 ^ 63)); lia.
  - assert (v `mod` 2 ^ 64 = v + 2 ^ 64) as ->.
    { symmetry. apply Z.mod_unique with (-1); lia. }
    zcase; lia.
Qed.

Lemma of_i64_to_i64 v : 0 ≤ v < 2 ^ 64 → of_i64 (to_i64 v) = v.
Proof.
  intros Hv. unfold to_i64, of_i64, wrap. zcase.
  - by rewrite Z.mod_small by lia.
  - replace (v - 2 ^ 64) with (v + (-1) * 2 ^ 64) by lia.
    by rewrite Z_mod_plus_full, Z.mod_small by lia.
Qed.

(** ** The loop rule

    Total correctness of [while]: an invariant the body preserves and a measure
    it decreases give a result, reached within [m s] iterations, in which the
    invariant holds and the condition is false. *)

Lemma bind_Val {A B} (a : A) (f : A → outcome B) : (Val a ≫= f) = f a.
Proof. done. Qed.

Lemma fmap_Val {A B} (a : A) (f : A → B) : f <$> Val a = Val (f a).
Proof. done. Qed.

Lemma bind_Val_inv {A B} (o : outcome A) (f : A → outcome B) b :
  o ≫= f = Val b → ∃ a, o = Val a ∧ f a = Val b.
Proof. destruct o; naive_solver. Qed.

Lemma while_total {S} (I : S → Prop) (m : S → nat) (cond : S → outcome bool)
    (body : S → outcome S) :
  (∀ s, I s → ∃ c, cond s = Val c) →
  (∀ s, I s → cond s = Val true → ∃ s', body s = Val s' ∧ I s' ∧ (m s' < m s)%nat) →
  ∀ fuel s, I s → (m s ≤ fuel)%nat →
  ∃ s', while fuel cond body s = Val s' ∧ I s' ∧ cond s' = Val false.
Proof.
  intros Hc Hb fuel. induction fuel as [|fuel IH]; intros s HI Hm.
  - destruct (Hc s HI) as [[|] Hs]; simpl; rewrite Hs; [|eauto].
    destruct (Hb s HI Hs) as (s' & _ & _ & ?). lia.
  - destruct (Hc s HI) as [[|] Hs]; simpl; rewrite Hs; [|eauto].
    destruct (Hb s HI Hs) as (s' & -> & HI' & ?). simpl. apply IH; [done|lia].
Qed.

(** ** Lists and finite maps *)

Lemma list_to_map_perm {K V} `{Countable K} (l1 l2 : list (K * V)) :
  NoDup (l1.*1) → l1 ≡ₚ l2 → (list_to_map l1 : gmap K V) = list_to_map l2.
Proof. intros. by apply list_to_map_proper. Qed.

Lemma Forall_bind_list {A B} (P : B → Prop) (f : A → list B) l :
  Forall P (l ≫= f) ↔ Forall (λ x, Forall P (f x)) l.
Proof. apply Forall_bind. Qed.

Lemma fmap_bind_list {A B C} (f : A → list B) (g : B → C) (l : list A) :
  g <$> (l ≫= f) = l ≫= (λ x, g <$> f x).
Proof. induction l as [|a l IH]; csimpl; [done|]. by rewrite fmap_app, IH. Qed.

(** ** Counting *)

Definition tally {A} (P : A → bool) (l : list A) : Z := Z.of_nat (length (filter P l)).

Lemma tally_snoc {A} (P : A → bool) l x : tally P (l ++ [x]) = tally P l + (if P x then 1 else 0).
Proof.
  unfold tally. rewrite filter_app, length_app, filter_cons. simpl.
  destruct (P x); simpl; lia.
Qed.

Lemma tally_bound {A} (P : A → bool) l : 0 ≤ tally P l ≤ Z.of_nat (length l).
Proof. unfold tally. pose proof (length_filter P l). lia. Qed.

(** Each element satisfies exactly as many of [P] and [Q] as of [R]. *)
Lemma tally_split {A} (P Q R : A → bool) l :
  (∀ x, (if P x then 1 else 0) + (if Q x then 1 else 0) = if R x then 1 else 0) →
  tally P l + tally Q l = tally R l.
Proof.
  intros HR. induction l as [|x l IH] using rev_ind; [done|]. rewrite !tally_snoc.
  specialize (HR x). lia.
Qed.

Lemma tally_ext {A} (P Q : A → bool) l : Forall (λ x, P x = Q x) l → tally P l = tally Q l.
Proof.
  induction l as [|x l IH] using rev_ind; [done|]. intros [Hl [Hx _]%Forall_cons]%Forall_app.
  rewrite !tally_snoc, Hx. by rewrite IH.
Qed.

Lemma tally_all {A} (l : list A) : tally (λ _, true) l = Z.of_nat (length l).
Proof. induction l as [|x l IH] using rev_ind; [done|]. rewrite tally_snoc, length_app. simpl. lia. Qed.

Lemma tally_perm {A} (P : A → bool) l1 l2 : l1 ≡ₚ l2 → tally P l1 = tally P l2.
Proof. intros Hp. unfold tally. by rewrite Hp. Qed.

Lemma Forall_sublist {A} (P : A → Prop) l k : l `sublist_of` k → Forall P k → Forall P l.
Proof.
  induction 1; intros Hk; [done|..]; apply Forall_cons in Hk as [? ?];
    [constructor|]; auto.
Qed.

Lemma StronglySorted_sublist {A} (R : A → A → Prop) l k :
  l `sublist_of` k → StronglySorted R k → StronglySorted R l.
Proof.
  induction 1; intros Hk; [done|..]; inversion Hk; subst;
    [constructor|]; eauto using Forall_sublist.
Qed.

Lemma sublist_fmap {A B} (f : A → B) l k :
  l `sublist_of` k → (f <$> l) `sublist_of` (f <$> k).
Proof. induction 1; csimpl; by constructor. Qed.

(** At most [n] distinct numbers fit in [1, n]. *)
Lemma NoDup_Z_bound (l : list Z) (n : Z) :
  NoDup l → Forall (λ z, 0 < z ≤ n) l → Z.of_nat (length l) ≤ Z.max 0 n.
Proof.
  intros Hnd Hb.
  assert (l ⊆+ (Z.of_nat <$> seq 1 (Z.to_nat n))) as Hsub.
  { apply NoDup_submseteq; [done|]. intros z Hz. rewrite Forall_forall in Hb.
    apply Hb in Hz. apply list_elem_of_fmap. exists (Z.to_nat z).
    split; [lia|]. apply elem_of_seq. lia. }
  apply submseteq_length in Hsub. rewrite length_fmap, length_seq in Hsub. lia.
Qed.

#[export] Hint Resolve wrap_range : exchange.
#[export] Hint Rewrite @bind_Val u64_add_wrap_l u64_sub_wrap_l wrap_wrap : exchange.
