(* ===== verification/Types.v ===== *)
(** * Domain primitives and order commands

    Models [include/low_latency_exchange/types.hpp] (the strongly typed
    wrappers [Price], [Quantity], [OrderId], [SequenceNumber], [FeedSequence]
    with their validating constructors, [Side], [OrderType]) and
    [include/low_latency_exchange/order_command.hpp] (the three commands and
    [validate]).  The wrapped constructors are private in the code, so a value
    exists only as the result of [from_ticks], [from_units] or [from_value];
    the predicates [valid] state what those constructors guarantee. *)

From stdpp Require Import prelude gmap countable.
From Stdlib Require Import ZArith Lia.
From S2P Require Import Prelude.

Open Scope Z_scope.

(** ** Wrapped integers *)

Module Price.
Record t : Type := mk { ticks : Z }.

Definition from_ticks (ticks : Z) : option t :=
  if ticks <=? 0 then None else Some (mk ticks).

Definition ltb (a b : t) : bool := ticks a <? ticks b.
Definition leb (a b : t) : bool := ticks a <=? ticks b.
Definition gtb (a b : t) : bool := ticks b <? ticks a.
Definition geb (a b : t) : bool := ticks b <=? ticks a.
Definition eqb (a b : t) : bool := ticks a =? ticks b.

Definition valid (p : t) : Prop := 0 < ticks p ≤ i64_max.

#[export] Instance eq_dec : EqDecision t.
Proof. solve_decision. Defined.
#[export] Instance valid_dec (p : t) : Decision (valid p).
Proof. unfold valid. apply _. Defined.
End Price.

Module Quantity.
Record t : Type := mk { units : Z }.

Definition from_units (units : Z) : option t :=
  if units =? 0 then None else Some (mk units).

Definition valid (q : t) : Prop := 0 < units q ≤ u64_max.

#[export] Instance eq_dec : EqDecision t.
Proof. solve_decision. Defined.
#[export] Instance valid_dec (q : t) : Decision (valid q).
Proof. unfold valid. apply _. Defined.
End Quantity.

Module OrderId.
Record t : Type := mk { value : Z }.

Definition from_value (value : Z) : option t :=
  if value =? 0 then None else Some (mk value).

Definition valid (i : t) : Prop := 0 < value i ≤ u64_max.

#[export] Instance eq_dec : EqDecision t.
Proof. solve_decision. Defined.
#[export] Instance valid_dec (i : t) : Decision (valid i).
Proof. unfold valid. apply _. Defined.
#[export] Instance countable : Countable t.
Proof. apply (inj_countable' value mk). by intros []. Defined.
End OrderId.

Module SequenceNumber.
Record t : Type := mk { value : Z }.

Definition from_value (value : Z) : option t :=
  if value =? 0 then None else Some (mk value).

Definition ltb (a b : t) : bool := value a <? value b.
Definition valid (s : t) : Prop := 0 < value s ≤ u64_max.

#[export] Instance eq_dec : EqDecision t.
Proof. solve_decision. Defined.
#[export] Instance valid_dec (s : t) : Decision (valid s).
Proof. unfold valid. apply _. Defined.
End SequenceNumber.

Module FeedSequence.
Record t : Type := mk { value : Z }.

Definition from_value (value : Z) : option t :=
  if value =? 0 then None else Some (mk value).

Definition valid (s : t) : Prop := 0 < value s ≤ u64_max.

#[export] Instance eq_dec : EqDecision t.
Proof. solve_decision. Defined.
End FeedSequence.

Export (hints) Price Quantity OrderId SequenceNumber FeedSequence.

Inductive Side : Type := buy | sell.
Inductive OrderType : Type := limit | market.

#[export] Instance Side_eq_dec : EqDecision Side.
Proof. solve_decision. Defined.
#[export] Instance OrderType_eq_dec : EqDecision OrderType.
Proof. solve_decision. Defined.

(** [static_cast<std::uint64_t>(side)]: the enumerators in order. *)
Definition side_value (s : Side) : Z :=
  match s with
  | buy => 0
  | sell => 1
  end.

(** ** Commands *)

Record NewOrder : Type := {
  no_sequence : SequenceNumber.t;
  no_order_id : OrderId.t;
  no_side : Side;
  no_type : OrderType;
  no_quantity : Quantity.t;
  no_limit_price : option Price.t;
}.

Inductive NewOrderValidationError : Type :=
| limit_order_missing_price
| market_order_has_price.

Definition validate (order : NewOrder) : option NewOrderValidationError :=
  if bool_decide (no_type order = limit) && negb (bool_decide (is_Some (no_limit_price order)))
  then Some limit_order_missing_price
  else if bool_decide (no_type order = market) && bool_decide (is_Some (no_limit_price order))
  then Some market_order_has_price
  else None.

Record CancelOrder : Type := {
  co_sequence : SequenceNumber.t;
  co_order_id : OrderId.t;
}.

Record ReplaceOrder : Type := {
  rp_sequence : SequenceNumber.t;
  rp_order_id : OrderId.t;
  rp_new_quantity : Quantity.t;
  rp_new_price : Price.t;
}.

#[export] Instance NewOrder_eq_dec : EqDecision NewOrder.
Proof. solve_decision. Defined.
#[export] Instance CancelOrder_eq_dec : EqDecision CancelOrder.
Proof. solve_decision. Defined.
#[export] Instance ReplaceOrder_eq_dec : EqDecision ReplaceOrder.
Proof. solve_decision. Defined.

(** What the types of the fields guarantee of a command: every wrapped value
    came from its validating constructor. *)
Definition NewOrder_wf (o : NewOrder) : Prop :=
  SequenceNumber.valid (no_sequence o) ∧ OrderId.valid (no_order_id o) ∧
  Quantity.valid (no_quantity o) ∧ default True (Price.valid <$> no_limit_price o).

Definition CancelOrder_wf (c : CancelOrder) : Prop :=
  SequenceNumber.valid (co_sequence c) ∧ OrderId.valid (co_order_id c).

Definition ReplaceOrder_wf (r : ReplaceOrder) : Prop :=
  SequenceNumber.valid (rp_sequence r) ∧ OrderId.valid (rp_order_id r) ∧
  Quantity.valid (rp_new_quantity r) ∧ Price.valid (rp_new_price r).

(** [std::variant<std::monostate, NewOrder, CancelOrder, ReplaceOrder>], the
    [InboundCommand] of the gateway and the [CapturedCommand] of the log. *)
Inductive Command : Type :=
| monostate
| CmdNew (o : NewOrder)
| CmdCancel (c : CancelOrder)
| CmdReplace (r : ReplaceOrder).

#[export] Instance Command_eq_dec : EqDecision Command.
Proof. solve_decision. Defined.

Definition Command_wf (c : Command) : Prop :=
  match c with
  | monostate => True
  | CmdNew o => NewOrder_wf o
  | CmdCancel c => CancelOrder_wf c
  | CmdReplace r => ReplaceOrder_wf r
  end.

(** The sequence number a command carries. *)
Definition sequence_of (c : Command) : Z :=
  match c with
  | monostate => 0
  | CmdNew o => SequenceNumber.value (no_sequence o)
  | CmdCancel o => SequenceNumber.value (co_sequence o)
  | CmdReplace o => SequenceNumber.value (rp_sequence o)
  end.

(** ** Lemmas *)

Lemma from_units_nonzero u : u ≠ 0 → Quantity.from_units u = Some (Quantity.mk u).
Proof. intros. unfold Quantity.from_units. by destruct (Z.eqb_spec u 0). Qed.

Lemma from_ticks_pos t : 0 < t → Price.from_ticks t = Some (Price.mk t).
Proof. intros. unfold Price.from_ticks. destruct (Z.leb_spec t 0); [lia|done]. Qed.

Lemma OrderId_from_nonzero v : v ≠ 0 → OrderId.from_value v = Some (OrderId.mk v).
Proof. intros. unfold OrderId.from_value. by destruct (Z.eqb_spec v 0). Qed.

Lemma SequenceNumber_from_nonzero v :
  v ≠ 0 → SequenceNumber.from_value v = Some (SequenceNumber.mk v).
Proof. intros. unfold SequenceNumber.from_value. by destruct (Z.eqb_spec v 0). Qed.

#[export] Instance OrderId_value_inj : Inj (=) (=) OrderId.value.
Proof. intros [a] [b]; simpl; congruence. Qed.

Lemma Price_ticks_inj p q : Price.ticks p = Price.ticks q → p = q.
Proof. destruct p, q; simpl; congruence. Qed.

Lemma Price_eqb_spec p q : reflect (p = q) (Price.eqb p q).
Proof.
  apply iff_reflect. unfold Price.eqb. rewrite Z.eqb_eq.
  split; [by intros ->|apply Price_ticks_inj].
Qed.

(** A command that passes [validate] carries a price exactly when it is a limit order. *)
Lemma validate_None o :
  validate o = None ↔ (no_type o = limit ∧ is_Some (no_limit_price o)) ∨
                      (no_type o = market ∧ no_limit_price o = None).
Proof.
  unfold validate. destruct (no_type o), (no_limit_price o); simpl; split;
    first [by eauto | by intros [[? [??]]|[??]]].
Qed.
