(* ===== verification/OrdMap.v ===== *)
(** * [std::map]

    The standard library's ordered map as the order book uses it: an
    association list kept strictly increasing in the comparator [ltb] (the
    [Compare] template argument: [std::greater<Price>] for bids,
    [std::less<Price>] for asks).  Keys [a] and [b] are equivalent when neither
    is less than the other.  [om_find], [om_put] and [om_erase] are [find],
    assignment through a reference or [operator[]], and [erase]; iteration
    order is the list order and [begin()] is the head. *)

From stdpp Require Import prelude list sorting.
From Stdlib Require Import ZArith Lia.
From S2P Require Import Prelude.

Open Scope Z_scope.

(** What a comparator must satisfy for [std::map] to be an ordered map. *)
Class KeyOrder {K} (ltb : K → K → bool) : Prop := {
  ltb_irrefl k : ltb k k = false;
  ltb_trans a b c : ltb a b = true → ltb b c = true → ltb a c = true;
  ltb_total a b : ltb a b = false → ltb b a = false → a = b;
}.

Section ordmap.
Context {K V : Type} (ltb : K → K → bool).
Implicit Types (m : list (K * V)) (k : K) (v : V).

Fixpoint om_find k m : option V :=
  match m with
  | [] => None
  | (k', v') :: m' =>
      if ltb k k' then None
      else if ltb k' k then om_find k m'
      else Some v'
  end.

Fixpoint om_put k v m : list (K * V) :=
  match m with
  | [] => [(k, v)]
  | (k', v') :: m' =>
      if ltb k k' then (k, v) :: m
      else if ltb k' k then (k', v') :: om_put k v m'
      else (k', v) :: m'
  end.

Fixpoint om_erase k m : list (K * V) :=
  match m with
  | [] => []
  | (k', v') :: m' =>
      if ltb k k' then m
      else if ltb k' k then (k', v') :: om_erase k m'
      else m'
  end.

(** The value [operator[]] refers to: [d], the default-constructed value, is
    inserted first when the key is absent. *)
Definition om_index (d : V) k m : V :=
  match om_find k m with
  | Some v => v
  | None => d
  end.

(** ** Well-formed maps *)

Definition om_sorted m : Prop := StronglySorted (λ a b, ltb a b = true) (m.*1).

Definition keys_lt k m : Prop := Forall (λ kv, ltb kv.1 k = true) m.
Definition keys_gt k m : Prop := Forall (λ kv, ltb k kv.1 = true) m.

(** ** Lemmas *)

Context `{!KeyOrder ltb}.

Lemma ltb_antisym a b : ltb a b = true → ltb b a = false.
Proof.
  intros H. destruct (ltb b a) eqn:E; [|done].
  pose proof (ltb_trans _ _ _ H E). by rewrite ltb_irrefl in *.
Qed.

Lemma om_sorted_cons k v m : om_sorted ((k, v) :: m) ↔ om_sorted m ∧ keys_gt k m.
Proof.
  unfold om_sorted, keys_gt. csimpl. split.
  - intros Hs. inversion Hs; subst. by rewrite Forall_fmap in *.
  - intros [??]. constructor; [done|]. by rewrite Forall_fmap.
Qed.

Lemma om_sorted_nil : om_sorted [].
Proof. constructor. Qed.

Lemma keys_gt_trans a b m : ltb a b = true → keys_gt b m → keys_gt a m.
Proof.
  intros Hab Hb. apply (Forall_impl _ _ _ Hb). intros [k v]. by apply ltb_trans.
Qed.

Lemma om_sorted_app m1 m2 k :
  om_sorted m1 → om_sorted m2 → keys_lt k m1 → keys_gt k m2 → om_sorted (m1 ++ m2).
Proof.
  induction m1 as [|[k1 v1] m1 IH]; intros Hs1 Hs2 Hl Hg; [done|].
  apply om_sorted_cons in Hs1 as [? Hgt]. inversion Hl; subst.
  apply om_sorted_cons. split; [by apply IH|].
  apply Forall_app. split; [done|]. by apply keys_gt_trans with k.
Qed.

(** A sorted map splits around a present key, and the operations at that key
    act at the split. *)
Lemma om_find_Some m k v :
  om_sorted m → om_find k m = Some v →
  ∃ m1 m2, m = m1 ++ (k, v) :: m2 ∧ keys_lt k m1 ∧ keys_gt k m2 ∧
    om_sorted m1 ∧ om_sorted m2 ∧
    (∀ v', om_put k v' m = m1 ++ (k, v') :: m2) ∧ om_erase k m = m1 ++ m2.
Proof.
  induction m as [|[k' v'] m IH]; intros Hs Hf; [done|]. simpl in *.
  apply om_sorted_cons in Hs as [Hs Hgt].
  destruct (ltb k k') eqn:E1; [done|]. destruct (ltb k' k) eqn:E2.
  - destruct (IH Hs Hf) as (m1 & m2 & -> & Hl & Hg & Hs1 & Hs2 & Hp & He).
    exists ((k', v') :: m1), m2. apply Forall_app in Hgt as [? _].
    split_and!; try done.
    + by constructor.
    + by apply om_sorted_cons.
    + intros. by rewrite Hp.
    + by rewrite He.
  - assert (k = k') as -> by (by apply ltb_total). simplify_eq.
    exists [], m. split_and!; try done; constructor.
Qed.

(** The same for an absent key: [om_put] inserts at the split. *)
Lemma om_find_None m k :
  om_sorted m → om_find k m = None →
  ∃ m1 m2, m = m1 ++ m2 ∧ keys_lt k m1 ∧ keys_gt k m2 ∧
    om_sorted m1 ∧ om_sorted m2 ∧ (∀ v, om_put k v m = m1 ++ (k, v) :: m2).
Proof.
  induction m as [|[k' v'] m IH]; intros Hs Hf.
  { exists [], []. split_and!; try done; constructor. }
  pose proof Hs as Hs0. simpl in *. apply om_sorted_cons in Hs as [Hs Hgt].
  destruct (ltb k k') eqn:E1.
  - exists [], ((k', v') :: m). split_and!; try done; constructor; [done|].
    by apply keys_gt_trans with k'.
  - destruct (ltb k' k) eqn:E2; [|done].
    destruct (IH Hs Hf) as (m1 & m2 & -> & Hl & Hg & Hs1 & Hs2 & Hp).
    exists ((k', v') :: m1), m2. apply Forall_app in Hgt as [? _].
    split_and!; try done.
    + by constructor.
    + by apply om_sorted_cons.
    + intros. by rewrite Hp.
Qed.

(** Putting a key back together: the map around a key is sorted again. *)
Lemma om_sorted_middle m1 k v m2 :
  om_sorted m1 → om_sorted m2 → keys_lt k m1 → keys_gt k m2 →
  om_sorted (m1 ++ (k, v) :: m2).
Proof.
  intros Hs1 Hs2 Hl Hg. induction m1 as [|[k1 v1] m1 IH]; simpl.
  - by apply om_sorted_cons.
  - apply om_sorted_cons in Hs1 as [? ?]. inversion Hl; subst.
    apply om_sorted_cons. split; [by apply IH|].
    apply Forall_app. split; [done|]. constructor; [done|].
    by apply keys_gt_trans with k.
Qed.

Lemma om_find_middle m1 k v m2 :
  om_sorted (m1 ++ (k, v) :: m2) → om_find k (m1 ++ (k, v) :: m2) = Some v.
Proof.
  induction m1 as [|[k1 v1] m1 IH]; simpl; intros Hs.
  - by rewrite ltb_irrefl.
  - apply om_sorted_cons in Hs as [Hs Hgt].
    apply Forall_app in Hgt as [_ Hgt]. inversion Hgt as [|?? Hk]; subst. simpl in *.
    rewrite (ltb_antisym _ _ Hk), Hk. by apply IH.
Qed.

Lemma om_put_middle m1 k v v' m2 :
  om_sorted (m1 ++ (k, v) :: m2) →
  om_put k v' (m1 ++ (k, v) :: m2) = m1 ++ (k, v') :: m2.
Proof.
  induction m1 as [|[k1 v1] m1 IH]; simpl; intros Hs.
  - by rewrite ltb_irrefl.
  - apply om_sorted_cons in Hs as [Hs Hgt].
    apply Forall_app in Hgt as [_ Hgt]. inversion Hgt as [|?? Hk]; subst. simpl in *.
    rewrite (ltb_antisym _ _ Hk), Hk. by rewrite IH.
Qed.

Lemma om_erase_middle m1 k v m2 :
  om_sorted (m1 ++ (k, v) :: m2) → om_erase k (m1 ++ (k, v) :: m2) = m1 ++ m2.
Proof.
  induction m1 as [|[k1 v1] m1 IH]; simpl; intros Hs.
  - by rewrite ltb_irrefl.
  - apply om_sorted_cons in Hs as [Hs Hgt].
    apply Forall_app in Hgt as [_ Hgt]. inversion Hgt as [|?? Hk]; subst. simpl in *.
    rewrite (ltb_antisym _ _ Hk), Hk. by rewrite IH.
Qed.

Lemma om_find_elem m k v : om_sorted m → (k, v) ∈ m → om_find k m = Some v.
Proof.
  intros Hs (m1 & m2 & ->)%list_elem_of_split. by apply om_find_middle.
Qed.

Lemma om_sorted_app_inv m1 k v m2 :
  om_sorted (m1 ++ (k, v) :: m2) →
  om_sorted m1 ∧ om_sorted m2 ∧ keys_lt k m1 ∧ keys_gt k m2.
Proof.
  induction m1 as [|[k1 v1] m1 IH]; simpl; intros Hs.
  - apply om_sorted_cons in Hs as [??]. split_and!; try done; constructor.
  - apply om_sorted_cons in Hs as [Hs Hgt].
    destruct (IH Hs) as (? & ? & ? & ?).
    apply Forall_app in Hgt as [? Hgt]. inversion Hgt; subst.
    split_and!; try done; [by apply om_sorted_cons|by constructor].
Qed.

(** ** Laws of lookup *)

Lemma om_put_sorted k v m : om_sorted m → om_sorted (om_put k v m).
Proof.
  intros Hs. destruct (om_find k m) eqn:E.
  - destruct (om_find_Some m k _ Hs E) as (m1 & m2 & -> & ? & ? & ? & ? & -> & _).
    by apply om_sorted_middle.
  - destruct (om_find_None m k Hs E) as (m1 & m2 & -> & ? & ? & ? & ? & ->).
    by apply om_sorted_middle.
Qed.

Lemma om_find_put_eq k v m : om_find k (om_put k v m) = Some v.
Proof.
  induction m as [|[k1 v1] m IH]; simpl; [by rewrite ltb_irrefl|].
  destruct (ltb k k1) eqn:E1; simpl; [by rewrite ltb_irrefl|].
  destruct (ltb k1 k) eqn:E2; simpl; rewrite E1, E2; done.
Qed.

Lemma om_find_put_ne k k' v m : k ≠ k' → om_find k' (om_put k v m) = om_find k' m.
Proof.
  intros Hne. assert (ltb k' k = false → ltb k k' = true) as Hlt.
  { intros E. destruct (ltb k k') eqn:E'; [done|]. by destruct Hne; apply ltb_total. }
  induction m as [|[k1 v1] m IH]; simpl.
  - destruct (ltb k' k) eqn:E; [done|]. by rewrite Hlt.
  - destruct (ltb k k1) eqn:E1; simpl.
    + destruct (ltb k' k) eqn:E; [by rewrite (ltb_trans _ _ _ E E1)|]. by rewrite Hlt.
    + destruct (ltb k1 k) eqn:E2; simpl; [by rewrite IH|].
      assert (k = k1) as <- by (by apply ltb_total).
      destruct (ltb k' k) eqn:E; [done|]. by rewrite Hlt.
Qed.

Lemma om_find_gt k k' m : keys_gt k m → ltb k k' = false → om_find k' m = None.
Proof.
  intros [|[k1 v1] ? Hk _] Hn; simpl in *; [done|]. destruct (ltb k' k) eqn:E.
  - by rewrite (ltb_trans _ _ _ E Hk).
  - by rewrite (ltb_total _ _ E Hn), Hk.
Qed.

(** Sorted maps are determined by their lookups. *)
Lemma om_ext m1 m2 :
  om_sorted m1 → om_sorted m2 → (∀ k, om_find k m1 = om_find k m2) → m1 = m2.
Proof.
  revert m2. induction m1 as [|[k1 v1] m1 IH]; intros [|[k2 v2] m2] Hs1 Hs2 Hf.
  - done.
  - specialize (Hf k2). simpl in Hf. by rewrite ltb_irrefl in Hf.
  - specialize (Hf k1). simpl in Hf. by rewrite ltb_irrefl in Hf.
  - apply om_sorted_cons in Hs1 as [Hs1 Hg1], Hs2 as [Hs2 Hg2].
    pose proof (Hf k1) as H1. pose proof (Hf k2) as H2. simpl in H1, H2.
    rewrite ltb_irrefl in H1, H2. destruct (ltb k1 k2) eqn:E1; [done|].
    destruct (ltb k2 k1) eqn:E2; [done|]. assert (k1 = k2) as <- by (by apply ltb_total).
    injection H1 as <-. f_equal. apply IH; [done..|]. intros k. specialize (Hf k). simpl in Hf.
    destruct (ltb k1 k) eqn:E; [by rewrite (ltb_antisym _ _ E) in Hf|].
    by rewrite !(om_find_gt k1 k).
Qed.

End ordmap.

Lemma om_find_fmap {K V W} (ltb : K → K → bool) (f : V → W) k (m : list (K * V)) :
  om_find ltb k (prod_map id f <$> m) = f <$> om_find ltb k m.
Proof.
  induction m as [|[k1 v1] m IH]; csimpl; [done|]. rewrite IH.
  by destruct (ltb k k1), (ltb k1 k).
Qed.

Lemma om_sorted_fmap {K V W} (ltb : K → K → bool) (f : V → W) (m : list (K * V)) :
  om_sorted ltb m → om_sorted ltb (prod_map id f <$> m).
Proof. unfold om_sorted. by rewrite <- list_fmap_compose. Qed.

Arguments om_sorted {K V} ltb m.
