(* ===== verification/OrderBook.v ===== *)
(** * The limit order book

    Models [include/low_latency_exchange/order_book.hpp] and
    [src/order_book.cpp]: the state of [OrderBook], every operation that
    changes it ([submit], [cancel], [replace] and the private
    [match_against_book], [insert_resting_order], [remove_resting_order]) and
    every query.

    The order index stores [std::list] iterators.  A list node is a pair of an
    address and a [RestingOrder]; an iterator is an address; dereferencing it
    finds the node that carries the address, in whichever list of the book
    holds it, and is undefined when no list does (a dangling iterator).
    [next_addr_] is the allocator: it hands out addresses not in use. *)

From stdpp Require Import prelude gmap list.
From Stdlib Require Import ZArith Lia.
From S2P Require Import Prelude Types OrdMap.

Open Scope Z_scope.

(** ** Results *)

Module OrderRejectReason.
Inductive t : Type := invalid_order | market_orders_not_supported | duplicate_order_id.
End OrderRejectReason.

Module CancelRejectReason.
Inductive t : Type := order_not_found.
End CancelRejectReason.

Module ReplaceRejectReason.
Inductive t : Type := order_not_found.
End ReplaceRejectReason.

Record Execution : Type := mkExecution {
  ex_resting_order_id : OrderId.t;
  ex_incoming_order_id : OrderId.t;
  ex_price : Price.t;
  ex_quantity : Quantity.t;
}.

Record SubmitResult : Type := mkSubmitResult {
  sr_executions : list Execution;
  sr_rejection : option OrderRejectReason.t;
  sr_remaining_quantity : option Quantity.t;
}.

Record CancelResult : Type := mkCancelResult {
  cr_order_id : OrderId.t;
  cr_cancelled_quantity : option Quantity.t;
  cr_rejection : option CancelRejectReason.t;
}.

Record ReplaceResult : Type := mkReplaceResult {
  rr_order_id : OrderId.t;
  rr_executions : list Execution;
  rr_remaining_quantity : option Quantity.t;
  rr_rejection : option ReplaceRejectReason.t;
}.

Definition is_none {A} (o : option A) : bool :=
  match o with
  | None => true
  | Some _ => false
  end.

Definition submit_accepted (r : SubmitResult) : bool := is_none (sr_rejection r).
Definition cancel_accepted (r : CancelResult) : bool := is_none (cr_rejection r).
Definition replace_accepted (r : ReplaceResult) : bool := is_none (rr_rejection r).

Record LevelQuote : Type := mkLevelQuote {
  lq_price : Price.t;
  lq_quantity : Quantity.t;
  lq_order_count : Z;
}.

Record BookDepth : Type := mkBookDepth {
  bd_bids : list LevelQuote;
  bd_asks : list LevelQuote;
}.

(** ** State *)

Record RestingOrder : Type := mkRestingOrder {
  ro_order_id : OrderId.t;
  ro_sequence : SequenceNumber.t;
  ro_remaining_quantity : Quantity.t;
}.

Definition node : Type := N * RestingOrder.

Record PriceLevel : Type := mkPriceLevel {
  total_units : Z;
  orders : list node;
}.

Record OrderLocation : Type := mkOrderLocation {
  loc_side : Side;
  loc_price : Price.t;
  loc_it : N;
}.

Record OrderBook : Type := mkOrderBook {
  bids_ : list (Price.t * PriceLevel);
  asks_ : list (Price.t * PriceLevel);
  resting_orders_ : gmap OrderId.t OrderLocation;
  seen_order_ids_ : gset OrderId.t;
  resting_order_count_ : Z;
  next_addr_ : N;
}.

Definition empty_book : OrderBook := mkOrderBook [] [] ∅ ∅ 0 0.
Definition empty_level : PriceLevel := mkPriceLevel 0 [].

(** The comparator of the side's map: [std::greater] for bids, [std::less] for asks. *)
Definition side_ltb (s : Side) : Price.t → Price.t → bool :=
  match s with
  | buy => Price.gtb
  | sell => Price.ltb
  end.

Definition levels (s : Side) (b : OrderBook) : list (Price.t * PriceLevel) :=
  match s with
  | buy => bids_ b
  | sell => asks_ b
  end.

Definition set_levels (s : Side) (l : list (Price.t * PriceLevel)) (b : OrderBook) : OrderBook :=
  match s with
  | buy => mkOrderBook l (asks_ b) (resting_orders_ b) (seen_order_ids_ b)
             (resting_order_count_ b) (next_addr_ b)
  | sell => mkOrderBook (bids_ b) l (resting_orders_ b) (seen_order_ids_ b)
              (resting_order_count_ b) (next_addr_ b)
  end.

Definition set_index (idx : gmap OrderId.t OrderLocation) (count : Z) (b : OrderBook) : OrderBook :=
  mkOrderBook (bids_ b) (asks_ b) idx (seen_order_ids_ b) count (next_addr_ b).

Definition set_seen (seen : gset OrderId.t) (b : OrderBook) : OrderBook :=
  mkOrderBook (bids_ b) (asks_ b) (resting_orders_ b) seen (resting_order_count_ b) (next_addr_ b).

Definition set_next_addr (a : N) (b : OrderBook) : OrderBook :=
  mkOrderBook (bids_ b) (asks_ b) (resting_orders_ b) (seen_order_ids_ b)
    (resting_order_count_ b) a.

Definition opposite (s : Side) : Side :=
  match s with
  | buy => sell
  | sell => buy
  end.

(** ** List nodes and iterators *)

Definition side_nodes (l : list (Price.t * PriceLevel)) : list node := l ≫= (λ pl, orders pl.2).
Definition all_nodes (b : OrderBook) : list node := side_nodes (bids_ b) ++ side_nodes (asks_ b).

Fixpoint node_at (it : N) (ns : list node) : option RestingOrder :=
  match ns with
  | [] => None
  | n :: ns' => if bool_decide (n.1 = it) then Some n.2 else node_at it ns'
  end.

(** [*it] *)
Definition deref (it : N) (b : OrderBook) : outcome RestingOrder :=
  deref_opt (node_at it (all_nodes b)).

(** [orders.erase(it)]: undefined unless [it] belongs to this list. *)
Fixpoint erase_node (it : N) (ns : list node) : outcome (list node) :=
  match ns with
  | [] => Undef
  | n :: ns' => if bool_decide (n.1 = it) then Val ns' else ns'' ← erase_node it ns'; Val (n :: ns'')
  end.

Definition set_remaining (q : Quantity.t) (o : RestingOrder) : RestingOrder :=
  mkRestingOrder (ro_order_id o) (ro_sequence o) q.

Definition assign_node (it : N) (q : Quantity.t) (n : node) : node :=
  if bool_decide (n.1 = it) then (n.1, set_remaining q n.2) else n.

Definition assign_levels (it : N) (q : Quantity.t) (l : list (Price.t * PriceLevel))
  : list (Price.t * PriceLevel) :=
  (λ pl, (pl.1, mkPriceLevel (total_units pl.2) (assign_node it q <$> orders pl.2))) <$> l.

(** [it->remaining_quantity = q] *)
Definition assign_remaining (it : N) (q : Quantity.t) (b : OrderBook) : outcome OrderBook :=
  _ ← deref it b;
  Val (mkOrderBook (assign_levels it q (bids_ b)) (assign_levels it q (asks_ b))
         (resting_orders_ b) (seen_order_ids_ b) (resting_order_count_ b) (next_addr_ b)).

(** ** Matching *)

(** The variables the inner loop of [match_against_book] reads and writes: the
    level it holds a reference to, the index, the count, [remaining_units] and
    [executions]. *)
Record MatchState : Type := mkMatchState {
  ms_level : PriceLevel;
  ms_index : gmap OrderId.t OrderLocation;
  ms_count : Z;
  ms_remaining : Z;
  ms_executions : list Execution;
}.

Definition match_level_cond (s : MatchState) : outcome bool :=
  Val ((0 <? ms_remaining s) && negb (bool_decide (orders (ms_level s) = []))).

Definition match_level_body (incoming_order_id : OrderId.t) (execution_price : Price.t)
    (s : MatchState) : outcome MatchState :=
  match orders (ms_level s) with
  | [] => Undef
  | (addr, resting_order) :: rest =>
      let resting_units := Quantity.units (ro_remaining_quantity resting_order) in
      let executed_units := Z.min (ms_remaining s) resting_units in
      executed_quantity ← deref_opt (Quantity.from_units executed_units);
      let executions := ms_executions s ++
        [mkExecution (ro_order_id resting_order) incoming_order_id execution_price
           executed_quantity] in
      let remaining_units := u64_sub (ms_remaining s) executed_units in
      let total := u64_sub (total_units (ms_level s)) executed_units in
      let resting_remaining := u64_sub resting_units executed_units in
      if resting_remaining =? 0 then
        Val (mkMatchState (mkPriceLevel total rest)
               (delete (ro_order_id resting_order) (ms_index s))
               (u64_sub (ms_count s) 1) remaining_units executions)
      else
        q ← deref_opt (Quantity.from_units resting_remaining);
        Val (mkMatchState (mkPriceLevel total ((addr, set_remaining q resting_order) :: rest))
               (ms_index s) (ms_count s) remaining_units executions)
  end.

Definition match_level (incoming_order_id : OrderId.t) (execution_price : Price.t)
    (s : MatchState) : outcome MatchState :=
  while (S (length (orders (ms_level s)))) match_level_cond
    (match_level_body incoming_order_id execution_price) s.

(** The price test of the outer loop: the best ask is at most the limit of a
    buy, the best bid at least the limit of a sell. *)
Definition crosses (side : Side) (best lim : Price.t) : bool :=
  match side with
  | buy => Price.leb best lim
  | sell => Price.geb best lim
  end.

Definition match_book_cond (side : Side) (type : OrderType) (limit_price : option Price.t)
    (s : OrderBook * Z * list Execution) : outcome bool :=
  let '(b, remaining_units, _) := s in
  if negb (0 <? remaining_units) then Val false
  else match levels (opposite side) b with
       | [] => Val false
       | (best, _) :: _ =>
           if bool_decide (type = market) then Val true
           else lim ← deref_opt limit_price; Val (crosses side best lim)
       end.

Definition match_book_body (incoming_order_id : OrderId.t) (side : Side)
    (s : OrderBook * Z * list Execution) : outcome (OrderBook * Z * list Execution) :=
  let '(b, remaining_units, executions) := s in
  match levels (opposite side) b with
  | [] => Undef
  | (execution_price, level) :: rest =>
      ms ← match_level incoming_order_id execution_price
             (mkMatchState level (resting_orders_ b) (resting_order_count_ b)
                remaining_units executions);
      let b := set_index (ms_index ms) (ms_count ms) b in
      let b := set_levels (opposite side)
                 (if bool_decide (orders (ms_level ms) = []) then rest
                  else (execution_price, ms_level ms) :: rest) b in
      Val (b, ms_remaining ms, ms_executions ms)
  end.

Definition match_against_book (incoming_order_id : OrderId.t) (side : Side) (type : OrderType)
    (limit_price : option Price.t) (remaining_units : Z) (executions : list Execution)
    (b : OrderBook) : outcome (OrderBook * Z * list Execution) :=
  while (S (length (levels (opposite side) b))) (match_book_cond side type limit_price)
    (match_book_body incoming_order_id side) (b, remaining_units, executions).

(** ** Insertion and removal *)

(** [resting_orders_.emplace]: no effect when the key is present. *)
Definition emplace (id : OrderId.t) (loc : OrderLocation) (m : gmap OrderId.t OrderLocation)
  : gmap OrderId.t OrderLocation :=
  match m !! id with
  | Some _ => m
  | None => <[id := loc]> m
  end.

Definition insert_resting_order (order_id : OrderId.t) (sequence : SequenceNumber.t) (side : Side)
    (price : Price.t) (quantity : Quantity.t) (b : OrderBook) : OrderBook :=
  let units := Quantity.units quantity in
  let resting_order := mkRestingOrder order_id sequence quantity in
  let it := next_addr_ b in
  let level := om_index (side_ltb side) empty_level price (levels side b) in
  let level := mkPriceLevel (u64_add (total_units level) units)
                 (orders level ++ [(it, resting_order)]) in
  let b := set_next_addr (it + 1)%N b in
  let b := set_levels side (om_put (side_ltb side) price level (levels side b)) b in
  set_index (emplace order_id (mkOrderLocation side price it) (resting_orders_ b))
    (u64_add (resting_order_count_ b) 1) b.

Definition remove_resting_order (loc : OrderLocation) (order_id : OrderId.t) (b : OrderBook)
  : outcome (Quantity.t * OrderBook) :=
  let side := loc_side loc in
  let price := loc_price loc in
  o ← deref (loc_it loc) b;
  let cancelled_quantity := ro_remaining_quantity o in
  let units := Quantity.units cancelled_quantity in
  b ← match om_find (side_ltb side) price (levels side b) with
      | Some level =>
          let total := u64_sub (total_units level) units in
          rest ← erase_node (loc_it loc) (orders level);
          Val (set_levels side
                 (if bool_decide (rest = []) then om_erase (side_ltb side) price (levels side b)
                  else om_put (side_ltb side) price (mkPriceLevel total rest) (levels side b)) b)
      | None => Val b
      end;
  Val (cancelled_quantity,
       set_index (delete order_id (resting_orders_ b)) (u64_sub (resting_order_count_ b) 1) b).

(** ** Commands *)

Definition submit (order : NewOrder) (b : OrderBook) : outcome (SubmitResult * OrderBook) :=
  if negb (is_none (validate order)) then
    Val (mkSubmitResult [] (Some OrderRejectReason.invalid_order) None, b)
  else if bool_decide (no_order_id order ∈ seen_order_ids_ b) then
    Val (mkSubmitResult [] (Some OrderRejectReason.duplicate_order_id) None, b)
  else
    let b := set_seen ({[no_order_id order]} ∪ seen_order_ids_ b) b in
    r ← match_against_book (no_order_id order) (no_side order) (no_type order)
          (no_limit_price order) (Quantity.units (no_quantity order)) [] b;
    let '(b, remaining_units, executions) := r in
    if bool_decide (no_type order = limit) && (0 <? remaining_units) then
      remaining_quantity ← deref_opt (Quantity.from_units remaining_units);
      price ← deref_opt (no_limit_price order);
      let b := insert_resting_order (no_order_id order) (no_sequence order) (no_side order)
                 price remaining_quantity b in
      Val (mkSubmitResult executions None (Some remaining_quantity), b)
    else Val (mkSubmitResult executions None None, b).

Definition cancel (command : CancelOrder) (b : OrderBook) : outcome (CancelResult * OrderBook) :=
  match resting_orders_ b !! co_order_id command with
  | None => Val (mkCancelResult (co_order_id command) None
                   (Some CancelRejectReason.order_not_found), b)
  | Some loc =>
      r ← remove_resting_order loc (co_order_id command) b;
      Val (mkCancelResult (co_order_id command) (Some r.1) None, r.2)
  end.

Definition replace (command : ReplaceOrder) (b : OrderBook) : outcome (ReplaceResult * OrderBook) :=
  match resting_orders_ b !! rp_order_id command with
  | None => Val (mkReplaceResult (rp_order_id command) [] None
                   (Some ReplaceRejectReason.order_not_found), b)
  | Some loc =>
      let side := loc_side loc in
      let old_price := loc_price loc in
      o ← deref (loc_it loc) b;
      let current_units := Quantity.units (ro_remaining_quantity o) in
      let new_units := Quantity.units (rp_new_quantity command) in
      if Price.eqb (rp_new_price command) old_price && (new_units <=? current_units) then
        let unit_diff := u64_sub current_units new_units in
        let level := om_index (side_ltb side) empty_level old_price (levels side b) in
        let level := mkPriceLevel (u64_sub (total_units level) unit_diff) (orders level) in
        let b := set_levels side (om_put (side_ltb side) old_price level (levels side b)) b in
        b ← assign_remaining (loc_it loc) (rp_new_quantity command) b;
        Val (mkReplaceResult (rp_order_id command) [] (Some (rp_new_quantity command)) None, b)
      else
        removed ← remove_resting_order loc (rp_order_id command) b;
        r ← match_against_book (rp_order_id command) side limit (Some (rp_new_price command))
              new_units [] removed.2;
        let '(b, remaining_units, executions) := r in
        if 0 <? remaining_units then
          remaining_quantity ← deref_opt (Quantity.from_units remaining_units);
          let b := insert_resting_order (rp_order_id command) (rp_sequence command) side
                     (rp_new_price command) remaining_quantity b in
          Val (mkReplaceResult (rp_order_id command) executions (Some remaining_quantity) None, b)
        else Val (mkReplaceResult (rp_order_id command) executions None None, b)
  end.

(** ** Queries *)

Definition best (s : Side) (b : OrderBook) : option Price.t := fst <$> head (levels s b).
Definition best_bid : OrderBook → option Price.t := best buy.
Definition best_ask : OrderBook → option Price.t := best sell.

(** The [LevelQuote] of a level: undefined when the aggregate is zero, since
    [*Quantity::from_units(0)] dereferences an empty optional. *)
Definition level_quote (pl : Price.t * PriceLevel) : outcome LevelQuote :=
  q ← deref_opt (Quantity.from_units (total_units pl.2));
  Val (mkLevelQuote pl.1 q (Z.of_nat (length (orders pl.2)))).

Definition top (s : Side) (b : OrderBook) : outcome (option LevelQuote) :=
  match levels s b with
  | [] => Val None
  | pl :: _ => q ← level_quote pl; Val (Some q)
  end.
Definition top_bid : OrderBook → outcome (option LevelQuote) := top buy.
Definition top_ask : OrderBook → outcome (option LevelQuote) := top sell.

(** The range-for of [bid_depth]/[ask_depth] with its [break]. *)
Fixpoint depth_loop (max_depth : nat) (l : list (Price.t * PriceLevel)) (out : list LevelQuote)
  : outcome (list LevelQuote) :=
  match l with
  | [] => Val out
  | pl :: l' =>
      if bool_decide (length out = max_depth) then Val out
      else q ← level_quote pl; depth_loop max_depth l' (out ++ [q])
  end.
Definition bid_depth (max_depth : nat) (b : OrderBook) : outcome (list LevelQuote) :=
  depth_loop max_depth (bids_ b) [].
Definition ask_depth (max_depth : nat) (b : OrderBook) : outcome (list LevelQuote) :=
  depth_loop max_depth (asks_ b) [].
Definition depth (max_depth : nat) (b : OrderBook) : outcome BookDepth :=
  bids ← bid_depth max_depth b;
  asks ← ask_depth max_depth b;
  Val (mkBookDepth bids asks).

(** [copy_depth] writes into two caller-provided spans. *)
Fixpoint copy_loop (l : list (Price.t * PriceLevel)) (index : nat)
    (out : list (option LevelQuote)) : outcome (list (option LevelQuote)) :=
  match l with
  | [] => Val out
  | pl :: l' =>
      if bool_decide (index = length out) then Val out
      else q ← level_quote pl; copy_loop l' (S index) (<[index := Some q]> out)
  end.
Definition copy_depth (bid_out ask_out : list (option LevelQuote)) (b : OrderBook)
  : outcome (list (option LevelQuote) * list (option LevelQuote)) :=
  let bid_out := (λ _, None) <$> bid_out in
  let ask_out := (λ _, None) <$> ask_out in
  bid_out ← copy_loop (bids_ b) 0 bid_out;
  ask_out ← copy_loop (asks_ b) 0 ask_out;
  Val (bid_out, ask_out).

Definition resting_order_count (b : OrderBook) : Z := resting_order_count_ b.
Definition contains (id : OrderId.t) (b : OrderBook) : bool :=
  bool_decide (is_Some (resting_orders_ b !! id)).

(** The loop over the orders of a level in [validate_invariants]: [None] is its
    [return false]. *)
Fixpoint check_orders (b : OrderBook) (side : Side) (price : Price.t) (os : list node)
    (counted_units : Z) : outcome (option Z) :=
  match os with
  | [] => Val (Some counted_units)
  | (_, order) :: os' =>
      let counted_units := u64_add counted_units (Quantity.units (ro_remaining_quantity order)) in
      match resting_orders_ b !! ro_order_id order with
      | None => Val None
      | Some loc =>
          if negb (bool_decide (loc_side loc = side)) || negb (Price.eqb (loc_price loc) price)
          then Val None
          else
            o ← deref (loc_it loc) b;
            if negb (bool_decide (ro_order_id o = ro_order_id order)) then Val None
            else check_orders b side price os' counted_units
      end
  end.

Fixpoint check_levels (b : OrderBook) (side : Side) (l : list (Price.t * PriceLevel))
    (total_orders : Z) : outcome (option Z) :=
  match l with
  | [] => Val (Some total_orders)
  | (price, level) :: l' =>
      if bool_decide (orders level = []) || (total_units level =? 0) then Val None
      else
        counted ← check_orders b side price (orders level) 0;
        match counted with
        | None => Val None
        | Some counted_units =>
            if negb (counted_units =? total_units level) then Val None
            else check_levels b side l'
                   (u64_add total_orders (Z.of_nat (length (orders level))))
        end
  end.

Definition validate_invariants (b : OrderBook) : outcome bool :=
  let crossed :=
    match bids_ b, asks_ b with
    | (bid, _) :: _, (ask, _) :: _ => Price.geb bid ask
    | _, _ => false
    end in
  if crossed then Val false
  else
    bid_orders ← check_levels b buy (bids_ b) 0;
    match bid_orders with
    | None => Val false
    | Some n =>
        ask_orders ← check_levels b sell (asks_ b) n;
        match ask_orders with
        | None => Val false
        | Some total_orders =>
            Val (negb (negb (total_orders =? resting_order_count_ b)
                       || negb (total_orders =? Z.of_nat (size (resting_orders_ b)))))
        end
    end.

(** ** Digest *)

Definition kFnvOffsetBasis : Z := 14695981039346656037.
Definition kFnvPrime : Z := 1099511628211.

Definition hash_u64 (value hash : Z) : Z :=
  foldl (λ h byte, u64_mul (Z.lxor h (Z.land (Z.shiftr value (byte * 8)) 255)) kFnvPrime)
    hash [0; 1; 2; 3; 4; 5; 6; 7].

Definition hash_order (h : Z) (n : node) : Z :=
  let h := hash_u64 (OrderId.value (ro_order_id n.2)) h in
  let h := hash_u64 (SequenceNumber.value (ro_sequence n.2)) h in
  hash_u64 (Quantity.units (ro_remaining_quantity n.2)) h.

Definition hash_level (h : Z) (pl : Price.t * PriceLevel) : Z :=
  let h := hash_u64 (of_i64 (Price.ticks pl.1)) h in
  let h := hash_u64 (total_units pl.2) h in
  let h := hash_u64 (Z.of_nat (length (orders pl.2))) h in
  foldl hash_order h (orders pl.2).

Definition hash_side (l : list (Price.t * PriceLevel)) (side : Side) (h : Z) : Z :=
  let h := hash_u64 (side_value side) h in
  let h := hash_u64 (Z.of_nat (length l)) h in
  foldl hash_level h l.

Definition state_digest (b : OrderBook) : Z :=
  let h := hash_side (bids_ b) buy kFnvOffsetBasis in
  let h := hash_side (asks_ b) sell h in
  hash_u64 (resting_order_count_ b) h.
