(* ===== verification/BookSpec.v ===== *)
(** * Abstract specification of the order book

    What the book promises, with no levels, aggregates, index or iterators:
    each side is one list of resting orders in priority order (better price
    first, earlier arrival first within a price), an incoming order sweeps the
    opposite list from its head, a remainder is inserted behind every order at
    least as good.  [BookRefine] proves that the operations of [OrderBook]
    implement these definitions. *)

From stdpp Require Import prelude gmap list.
From Stdlib Require Import ZArith Lia.
From S2P Require Import Prelude Types OrderBook.

Open Scope Z_scope.

Definition quote : Type := Price.t * RestingOrder.

Record SpecBook : Type := mkSpecBook {
  sb_bids : list quote;
  sb_asks : list quote;
  sb_seen : gset OrderId.t;
}.

Definition spec_side (s : Side) (sb : SpecBook) : list quote :=
  match s with
  | buy => sb_bids sb
  | sell => sb_asks sb
  end.

Definition set_spec_side (s : Side) (l : list quote) (sb : SpecBook) : SpecBook :=
  match s with
  | buy => mkSpecBook l (sb_asks sb) (sb_seen sb)
  | sell => mkSpecBook (sb_bids sb) l (sb_seen sb)
  end.

Definition quote_id (q : quote) : OrderId.t := ro_order_id q.2.
Definition quote_units (q : quote) : Z := Quantity.units (ro_remaining_quantity q.2).

(** Which prices of the opposite side an incoming order may trade at. *)
Definition tradable (side : Side) (type : OrderType) (limit_price : option Price.t)
    (p : Price.t) : bool :=
  match type with
  | market => true
  | limit =>
      match limit_price with
      | Some lim => crosses side p lim
      | None => false
      end
  end.

(** Executes [rem] units against the head of the priority list as long as its
    price is tradable. *)
Fixpoint sweep (ok : Price.t → bool) (incoming : OrderId.t) (rem : Z) (l : list quote)
  : list Execution * list quote * Z :=
  match l with
  | [] => ([], [], rem)
  | (p, o) :: l' =>
      if (0 <? rem) && ok p then
        let units := Quantity.units (ro_remaining_quantity o) in
        if rem <? units then
          ([mkExecution (ro_order_id o) incoming p (Quantity.mk rem)],
           (p, set_remaining (Quantity.mk (units - rem)) o) :: l', 0)
        else
          let '(es, l'', rem') := sweep ok incoming (rem - units) l' in
          (mkExecution (ro_order_id o) incoming p (Quantity.mk units) :: es, l'', rem')
      else ([], l, rem)
  end.

(** Behind every order that is at least as good, before the first worse one. *)
Fixpoint spec_insert (s : Side) (q : quote) (l : list quote) : list quote :=
  match l with
  | [] => [q]
  | q' :: l' => if side_ltb s q.1 q'.1 then q :: l else q' :: spec_insert s q l'
  end.

Fixpoint spec_find (id : OrderId.t) (l : list quote) : option quote :=
  match l with
  | [] => None
  | q :: l' => if bool_decide (quote_id q = id) then Some q else spec_find id l'
  end.

Definition spec_remove (id : OrderId.t) (l : list quote) : list quote :=
  filter (λ q, quote_id q ≠ id) l.

Definition spec_set_units (id : OrderId.t) (q : Quantity.t) (l : list quote) : list quote :=
  (λ x, if bool_decide (quote_id x = id) then (x.1, set_remaining q x.2) else x) <$> l.

Definition spec_locate (id : OrderId.t) (sb : SpecBook) : option (Side * quote) :=
  match spec_find id (sb_bids sb) with
  | Some q => Some (buy, q)
  | None => (λ q, (sell, q)) <$> spec_find id (sb_asks sb)
  end.

(** Sweep, then rest a positive remainder of a limit order. *)
Definition spec_place (id : OrderId.t) (seq : SequenceNumber.t) (side : Side) (type : OrderType)
    (limit_price : option Price.t) (units : Z) (sb : SpecBook)
  : list Execution * option Quantity.t * SpecBook :=
  let '(es, contra, rem) :=
    sweep (tradable side type limit_price) id units (spec_side (opposite side) sb) in
  let sb := set_spec_side (opposite side) contra sb in
  match type, limit_price with
  | limit, Some p =>
      if 0 <? rem then
        (es, Some (Quantity.mk rem),
         set_spec_side side
           (spec_insert side (p, mkRestingOrder id seq (Quantity.mk rem)) (spec_side side sb)) sb)
      else (es, None, sb)
  | _, _ => (es, None, sb)
  end.

Definition spec_submit (o : NewOrder) (sb : SpecBook) : SubmitResult * SpecBook :=
  if negb (is_none (validate o)) then
    (mkSubmitResult [] (Some OrderRejectReason.invalid_order) None, sb)
  else if bool_decide (no_order_id o ∈ sb_seen sb) then
    (mkSubmitResult [] (Some OrderRejectReason.duplicate_order_id) None, sb)
  else
    let sb := mkSpecBook (sb_bids sb) (sb_asks sb) ({[no_order_id o]} ∪ sb_seen sb) in
    let '(es, rem, sb) :=
      spec_place (no_order_id o) (no_sequence o) (no_side o) (no_type o) (no_limit_price o)
        (Quantity.units (no_quantity o)) sb in
    (mkSubmitResult es None rem, sb).

Definition spec_cancel (c : CancelOrder) (sb : SpecBook) : CancelResult * SpecBook :=
  match spec_locate (co_order_id c) sb with
  | None =>
      (mkCancelResult (co_order_id c) None (Some CancelRejectReason.order_not_found), sb)
  | Some (s, q) =>
      (mkCancelResult (co_order_id c) (Some (ro_remaining_quantity q.2)) None,
       set_spec_side s (spec_remove (co_order_id c) (spec_side s sb)) sb)
  end.

Definition spec_replace (r : ReplaceOrder) (sb : SpecBook) : ReplaceResult * SpecBook :=
  let id := rp_order_id r in
  match spec_locate id sb with
  | None => (mkReplaceResult id [] None (Some ReplaceRejectReason.order_not_found), sb)
  | Some (s, q) =>
      if Price.eqb (rp_new_price r) q.1 &&
         (Quantity.units (rp_new_quantity r) <=? quote_units q) then
        (mkReplaceResult id [] (Some (rp_new_quantity r)) None,
         set_spec_side s (spec_set_units id (rp_new_quantity r) (spec_side s sb)) sb)
      else
        let sb := set_spec_side s (spec_remove id (spec_side s sb)) sb in
        let '(es, rem, sb) :=
          spec_place id (rp_sequence r) s limit (Some (rp_new_price r))
            (Quantity.units (rp_new_quantity r)) sb in
        (mkReplaceResult id es rem None, sb)
  end.

(** ** The abstraction function *)

Definition level_quotes (pl : Price.t * PriceLevel) : list quote :=
  (λ n, (pl.1, n.2)) <$> orders pl.2.
Definition flat (l : list (Price.t * PriceLevel)) : list quote := l ≫= level_quotes.

Definition abs (b : OrderBook) : SpecBook :=
  mkSpecBook (flat (bids_ b)) (flat (asks_ b)) (seen_order_ids_ b).
