(* ===== verification/BookInv.v ===== *)
(** * Representation invariant of the order book

    [wf] is the invariant every operation of [OrderBook] keeps: levels sorted
    and non-empty, aggregates equal to the queue's sum modulo 2^64, the index
    exactly the set of resting orders with an iterator that points at each,
    the counter equal to their number, every resting id seen, and an uncrossed
    spread.  The first half of the file is the ledger ([index_ok]), the part
    of the invariant that ties the index to the queues; it only depends on the
    multiset of resting orders, so every operation is a push, a pop or a
    permutation of it. *)

From stdpp Require Import prelude gmap list sorting.
From Stdlib Require Import ZArith Lia.
From S2P Require Import Prelude Types OrdMap OrderBook BookSpec.

Open Scope Z_scope.

(** ** Definitions *)

Definition kv_of (s : Side) (p : Price.t) (n : node) : OrderId.t * OrderLocation :=
  (ro_order_id n.2, mkOrderLocation s p n.1).
Definition level_kvs (s : Side) (pl : Price.t * PriceLevel) : list (OrderId.t * OrderLocation) :=
  kv_of s pl.1 <$> orders pl.2.
Definition side_kvs (s : Side) (l : list (Price.t * PriceLevel))
  : list (OrderId.t * OrderLocation) := l ≫= level_kvs s.
Definition book_kvs (b : OrderBook) : list (OrderId.t * OrderLocation) :=
  side_kvs buy (bids_ b) ++ side_kvs sell (asks_ b).

Definition kv_addr (kv : OrderId.t * OrderLocation) : N := loc_it kv.2.

Record index_ok (kvs : list (OrderId.t * OrderLocation)) (idx : gmap OrderId.t OrderLocation)
    (count : Z) (next : N) (seen : gset OrderId.t) : Prop := {
  ix_ids : NoDup (kvs.*1);
  ix_addrs : NoDup (kv_addr <$> kvs);
  ix_fresh : Forall (λ kv, (kv_addr kv < next)%N) kvs;
  ix_valid : Forall (λ kv, OrderId.valid kv.1 ∧ kv.1 ∈ seen) kvs;
  ix_map : idx = list_to_map kvs;
  ix_count : count = Z.of_nat (length kvs);
}.

Definition node_units (n : node) : Z := Quantity.units (ro_remaining_quantity n.2).
Definition sum_units (ns : list node) : Z := foldr (λ n acc, node_units n + acc) 0 ns.

Definition node_ok (n : node) : Prop :=
  Quantity.valid (ro_remaining_quantity n.2) ∧ SequenceNumber.valid (ro_sequence n.2).

Record level_ok (pl : Price.t * PriceLevel) : Prop := {
  lv_price : Price.valid pl.1;
  lv_nonempty : orders pl.2 ≠ [];
  lv_total : total_units pl.2 = wrap 64 (sum_units (orders pl.2));
  lv_nodes : Forall node_ok (orders pl.2);
}.

Definition side_ok (s : Side) (l : list (Price.t * PriceLevel)) : Prop :=
  om_sorted (side_ltb s) l ∧ Forall level_ok l.

Definition uncrossed (b : OrderBook) : Prop :=
  ∀ pb pa, pb ∈ bids_ b → pa ∈ asks_ b → Price.ticks pb.1 < Price.ticks pa.1.

Record wf (b : OrderBook) : Prop := {
  wf_side s : side_ok s (levels s b);
  wf_index : index_ok (book_kvs b) (resting_orders_ b) (resting_order_count_ b)
               (next_addr_ b) (seen_order_ids_ b);
  wf_uncrossed : uncrossed b;
}.

Arguments level_kvs : simpl never.
Arguments level_quotes : simpl never.
Arguments kv_of : simpl never.

(** No level's true total reaches 2^64: the condition under which the
    aggregates, and so the depth queries, are exact. *)
Definition no_overflow (b : OrderBook) : Prop :=
  ∀ s, Forall (λ pl, sum_units (orders pl.2) ≤ u64_max) (levels s b).

(** ** Projections of a level *)

Lemma level_kvs_cons s p t n ns :
  level_kvs s (p, mkPriceLevel t (n :: ns)) =
  (ro_order_id n.2, mkOrderLocation s p n.1) :: level_kvs s (p, mkPriceLevel t ns).
Proof. done. Qed.

Lemma level_quotes_cons p t n ns :
  level_quotes (p, mkPriceLevel t (n :: ns)) = (p, n.2) :: level_quotes (p, mkPriceLevel t ns).
Proof. done. Qed.

(** The ledger and the quotes of a level do not depend on its aggregate. *)
Lemma level_kvs_total s p t t' ns :
  level_kvs s (p, mkPriceLevel t ns) = level_kvs s (p, mkPriceLevel t' ns).
Proof. done. Qed.

Lemma level_quotes_total p t t' ns :
  level_quotes (p, mkPriceLevel t ns) = level_quotes (p, mkPriceLevel t' ns).
Proof. done. Qed.

(** ** Comparators *)

#[export] Instance side_ltb_order (s : Side) : KeyOrder (side_ltb s).
Proof.
  destruct s; split; unfold side_ltb, Price.gtb, Price.ltb; intros;
    repeat match goal with
    | H : (_ <? _) = _ |- _ => apply Z.ltb_lt in H || apply Z.ltb_ge in H
    end; first [apply Z.ltb_ge; lia | apply Z.ltb_lt; lia | apply Price_ticks_inj; lia].
Qed.

Lemma crosses_opposite s p lim : crosses s p lim = negb (side_ltb (opposite s) lim p).
Proof.
  destruct s; simpl; unfold Price.leb, Price.geb, Price.ltb, Price.gtb; zcase; simpl; lia.
Qed.

Lemma levels_set_levels s l b : levels s (set_levels s l b) = l.
Proof. by destruct s. Qed.

Lemma levels_set_levels_opp s l b : levels (opposite s) (set_levels s l b) = levels (opposite s) b.
Proof. by destruct s. Qed.

Lemma opposite_opposite s : opposite (opposite s) = s.
Proof. by destruct s. Qed.

(** ** The ledger *)

Section ledger.
Implicit Types (kvs : list (OrderId.t * OrderLocation)) (idx : gmap OrderId.t OrderLocation).

Lemma index_ok_perm_1 kvs kvs' idx count next seen :
  kvs ≡ₚ kvs' → index_ok kvs idx count next seen → index_ok kvs' idx count next seen.
Proof.
  intros Hp [? ? ? ? -> ->]. split; try by rewrite <- Hp. by apply list_to_map_perm.
Qed.

(** The ledger only depends on the multiset of resting orders. *)
#[export] Instance index_ok_perm : Proper ((≡ₚ) ==> (=) ==> (=) ==> (=) ==> (=) ==> iff) index_ok.
Proof.
  intros kvs kvs' Hp ? ? <- ? ? <- ? ? <- ? ? <-.
  split; by apply index_ok_perm_1.
Qed.

Lemma index_ok_bound kvs idx count next seen :
  index_ok kvs idx count next seen → 0 ≤ count ≤ u64_max.
Proof.
  intros [Hnd _ _ Hv _ ->]. split; [lia|].
  pose proof (NoDup_Z_bound (OrderId.value <$> kvs.*1) u64_max) as Hb.
  rewrite !length_fmap in Hb. etrans; [apply Hb|unfold u64_max; lia].
  - by apply NoDup_fmap_2; [apply _|].
  - rewrite !Forall_fmap. apply (Forall_impl _ _ _ Hv). intros kv [? _]. done.
Qed.

Lemma index_ok_lookup kvs idx count next seen id loc :
  index_ok kvs idx count next seen → idx !! id = Some loc ↔ (id, loc) ∈ kvs.
Proof. intros [? _ _ _ -> _]. symmetry. by apply elem_of_list_to_map. Qed.

Lemma index_ok_lookup_None kvs idx count next seen id :
  index_ok kvs idx count next seen → idx !! id = None ↔ id ∉ kvs.*1.
Proof. intros [? _ _ _ -> _]. symmetry. apply not_elem_of_list_to_map. Qed.

(** A filled or cancelled order leaves the ledger. *)
Lemma index_ok_pop id loc kvs idx count next seen :
  index_ok ((id, loc) :: kvs) idx count next seen →
  index_ok kvs (delete id idx) (u64_sub count 1) next seen.
Proof.
  intros Hok. pose proof (index_ok_bound _ _ _ _ _ Hok) as Hb.
  destruct Hok as [Hids Haddrs Hfresh Hvalid -> ->]. csimpl in *.
  apply NoDup_cons in Hids as [Hnin Hids]. apply NoDup_cons in Haddrs as [_ Haddrs].
  inversion Hfresh; subst. inversion Hvalid; subst. split; try done.
  - rewrite delete_insert_eq. apply delete_id. by apply not_elem_of_list_to_map_1.
  - rewrite u64_sub_small; unfold u64_max in *; lia.
Qed.

(** A new resting order enters it at the next free address. *)
Lemma index_ok_push id s p kvs idx count next seen :
  index_ok kvs idx count next seen → id ∉ kvs.*1 → OrderId.valid id → id ∈ seen →
  index_ok ((id, mkOrderLocation s p next) :: kvs)
    (emplace id (mkOrderLocation s p next) idx) (u64_add count 1) (next + 1)%N seen.
Proof.
  intros Hok Hnin Hv Hs.
  assert (idx !! id = None) as Hnone by (by eapply index_ok_lookup_None).
  destruct Hok as [Hids Haddrs Hfresh Hvalid -> ->].
  assert (NoDup (((id, mkOrderLocation s p next) :: kvs).*1)) as Hnd by (by constructor).
  assert (Forall (λ kv, OrderId.valid kv.1 ∧ kv.1 ∈ seen)
            ((id, mkOrderLocation s p next) :: kvs)) as Hvs by (by constructor).
  split; try done.
  - csimpl. apply NoDup_cons. split; [|done]. intros [kv [Hk Hin]]%list_elem_of_fmap.
    rewrite Forall_forall in Hfresh. apply Hfresh in Hin. unfold kv_addr in *. simpl in *. lia.
  - constructor; [unfold kv_addr; simpl; lia|].
    apply (Forall_impl _ _ _ Hfresh). intros. lia.
  - unfold emplace. by rewrite Hnone.
  - pose proof (NoDup_Z_bound (OrderId.value <$> ((id, mkOrderLocation s p next) :: kvs).*1)
      u64_max) as Hb.
    rewrite !length_fmap in Hb. rewrite u64_add_small; csimpl in *; [lia|].
    assert (Z.of_nat (S (length kvs)) ≤ Z.max 0 u64_max); [|unfold u64_max in *; lia].
    apply Hb; [by apply (NoDup_fmap_2 OrderId.value (id :: kvs.*1))|].
    constructor; [apply Hv|]. rewrite !Forall_fmap. inversion Hvs; subst.
    apply (Forall_impl _ _ _ Hvalid). by intros kv [? _].
Qed.

Lemma index_ok_seen kvs idx count next seen seen' :
  index_ok kvs idx count next seen → seen ⊆ seen' → index_ok kvs idx count next seen'.
Proof.
  intros [? ? ? Hv ? ?] Hs. split; try done.
  apply (Forall_impl _ _ _ Hv). intros kv [? ?]. split; [done|]. by apply Hs.
Qed.

End ledger.

Lemma book_kvs_side s b :
  book_kvs b ≡ₚ side_kvs s (levels s b) ++ side_kvs (opposite s) (levels (opposite s) b).
Proof. destruct s; simpl; [done|]. unfold book_kvs. by rewrite Permutation_app_comm. Qed.

Lemma book_kvs_contra s b :
  book_kvs b ≡ₚ side_kvs (opposite s) (levels (opposite s) b) ++ side_kvs s (levels s b).
Proof. rewrite (book_kvs_side s). apply Permutation_app_comm. Qed.

(** ** Nodes and iterators *)

Lemma node_at_elem (ns : list node) a o :
  NoDup (ns.*1) → (a, o) ∈ ns → node_at a ns = Some o.
Proof.
  intros Hnd Hin. induction ns as [|[a' o'] ns IH]; [by apply elem_of_nil in Hin|].
  csimpl in *. apply NoDup_cons in Hnd as [Hnin Hnd]. apply elem_of_cons in Hin as [Heq|Hin].
  - simplify_eq. by rewrite bool_decide_eq_true_2.
  - rewrite bool_decide_eq_false_2; [by apply IH|]. intros ->. apply Hnin.
    apply list_elem_of_fmap. by exists (a, o).
Qed.

Lemma erase_node_split (ns1 ns2 : list node) a o :
  a ∉ ns1.*1 → erase_node a (ns1 ++ (a, o) :: ns2) = Val (ns1 ++ ns2).
Proof.
  induction ns1 as [|n ns1 IH]; csimpl; intros Hn.
  - by rewrite bool_decide_eq_true_2.
  - apply not_elem_of_cons in Hn as [??].
    rewrite bool_decide_eq_false_2 by congruence. by rewrite IH.
Qed.

Lemma kv_addr_level s pl : kv_addr <$> level_kvs s pl = (orders pl.2).*1.
Proof. unfold level_kvs. by rewrite <- list_fmap_compose. Qed.

Lemma kv_addr_side s l : kv_addr <$> side_kvs s l = (side_nodes l).*1.
Proof.
  unfold side_kvs, side_nodes. rewrite !fmap_bind_list.
  induction l as [|pl l IH]; csimpl; [done|]. by rewrite IH, kv_addr_level.
Qed.

Lemma all_nodes_NoDup b : wf b → NoDup ((all_nodes b).*1).
Proof.
  intros [_ [_ Ha _ _ _ _] _]. unfold all_nodes, book_kvs in *.
  rewrite fmap_app, !kv_addr_side in Ha. by rewrite fmap_app.
Qed.

Lemma side_nodes_all s b n : n ∈ side_nodes (levels s b) → n ∈ all_nodes b.
Proof. intros. unfold all_nodes. apply elem_of_app. destruct s; auto. Qed.

Lemma sum_units_app ns1 ns2 : sum_units (ns1 ++ ns2) = sum_units ns1 + sum_units ns2.
Proof. induction ns1 as [|n ns1 IH]; simpl; [done|]. rewrite IH. lia. Qed.

Lemma sum_units_pos ns : Forall node_ok ns → ns ≠ [] → 0 < sum_units ns.
Proof.
  intros Hok Hne. assert (0 ≤ sum_units ns ∧ (ns ≠ [] → 0 < sum_units ns)) as [_ H]; [|by apply H].
  clear Hne. induction Hok as [|n ns [Hn _] _ [IH _]]; simpl; [done|].
  unfold Quantity.valid, node_units in *. split; [|intros _]; lia.
Qed.

(** What the index says of an order: it sits in a queue of the book, at the
    recorded side and price, in the node the recorded iterator points at. *)
Lemma wf_locate b id loc :
  wf b → resting_orders_ b !! id = Some loc →
  ∃ l1 lvl l2 ns1 o ns2,
    levels (loc_side loc) b = l1 ++ (loc_price loc, lvl) :: l2 ∧
    orders lvl = ns1 ++ (loc_it loc, o) :: ns2 ∧ ro_order_id o = id ∧
    (loc_it loc ∉ ns1.*1) ∧ deref (loc_it loc) b = Val o.
Proof.
  intros Hwf Hl. pose proof (wf_index b Hwf) as Hix.
  apply (index_ok_lookup _ _ _ _ _ _ _ Hix) in Hl.
  rewrite (book_kvs_side (loc_side loc)) in Hl.
  assert ((id, loc) ∈ side_kvs (loc_side loc) (levels (loc_side loc) b)) as Hin.
  { apply elem_of_app in Hl as [Hl|Hl]; [done|]. unfold side_kvs in Hl.
    apply list_elem_of_bind in Hl as ([p lvl] & Hkv & _).
    apply list_elem_of_fmap in Hkv as (n & Heq & _).
    apply (f_equal (λ kv, loc_side kv.2)) in Heq. simpl in Heq. by destruct (loc_side loc). }
  apply list_elem_of_bind in Hin as ([p lvl] & Hkv & Hlv).
  apply list_elem_of_fmap in Hkv as ([a o] & Heq & Hn). unfold kv_of in Heq.
  destruct loc as [s p' a']. simplify_eq/=. pose proof (all_nodes_NoDup b Hwf) as Hnd.
  assert ((a, o) ∈ side_nodes (levels s b)) as Hsn.
  { unfold side_nodes. apply list_elem_of_bind. by exists (p, lvl). }
  apply list_elem_of_split in Hlv as (l1 & l2 & Hlv).
  apply list_elem_of_split in Hn as (ns1 & ns2 & Hn).
  exists l1, lvl, l2, ns1, o, ns2. split_and!; try done.
  - intros Hin. assert (NoDup ((side_nodes (levels s b)).*1)) as Hnd'.
    { unfold all_nodes in Hnd. rewrite fmap_app in Hnd. apply NoDup_app in Hnd as (?&?&?).
      by destruct s. }
    rewrite Hlv in Hnd'. unfold side_nodes in Hnd'. rewrite bind_app in Hnd'. csimpl in Hnd'.
    rewrite Hn, !fmap_app in Hnd'. apply NoDup_app in Hnd' as (_ & _ & Hnd').
    apply NoDup_app in Hnd' as (Hnd' & _ & _). apply NoDup_app in Hnd' as (_ & Hd & _).
    apply (Hd a); [done|]. csimpl. by left.
  - unfold deref. by rewrite (node_at_elem _ a o Hnd (side_nodes_all _ _ _ Hsn)).
Qed.
