(* ===== verification/BookMatch.v ===== *)
(** * Matching

    Total correctness of [match_against_book]: the inner loop over one price
    level and the outer loop over the opposite side terminate without
    undefined behaviour, keep the representation invariant and execute exactly
    the [sweep] of [BookSpec]. *)

From stdpp Require Import prelude gmap list sorting.
From Stdlib Require Import ZArith Lia.
From S2P Require Import Prelude Types OrdMap OrderBook BookSpec BookInv.

Open Scope Z_scope.

#[local] Opaque level_kvs level_quotes.

(** ** The inner loop: one price level *)

Definition acc (es : list Execution) (r : list Execution * list quote * Z)
  : list Execution * list quote * Z := (es ++ r.1.1, r.1.2, r.2).

Lemma acc_nil r : acc [] r = r.
Proof. by destruct r as [[??] ?]. Qed.

(** Flag of a loop measure: an iteration that leaves [rem] at zero is the last. *)
Definition pending (rem : Z) : nat := if 0 <? rem then 1 else 0.

(** The invariant of the inner loop on the level at price [p] of side [c], with
    the rest [K] of the ledger and the quotes [T] behind the level: what is
    left to sweep, added to the executions so far, is the fixed result [R]. *)
Record level_inv (c : Side) (p : Price.t) (inc : OrderId.t) (ok : Price.t → bool)
    (K : list (OrderId.t * OrderLocation)) (next : N) (seen : gset OrderId.t)
    (T : list quote) (R : list Execution * list quote * Z) (s : MatchState) : Prop := {
  li_index : index_ok (level_kvs c (p, ms_level s) ++ K) (ms_index s) (ms_count s) next seen;
  li_total : total_units (ms_level s) = wrap 64 (sum_units (orders (ms_level s)));
  li_nodes : Forall node_ok (orders (ms_level s));
  li_rem : 0 ≤ ms_remaining s ≤ u64_max;
  li_sweep : acc (ms_executions s)
    (sweep ok inc (ms_remaining s) (level_quotes (p, ms_level s) ++ T)) = R;
}.

Ltac ms_simpl :=
  cbn [ms_level ms_remaining ms_executions ms_index ms_count orders total_units] in *.

(** Levels that differ in the aggregate only have the same quotes. *)
Ltac drop_totals :=
  repeat match goal with
  | |- context [ level_quotes (?p, mkPriceLevel ?t ?ns) ] =>
      lazymatch t with 0 => fail | _ => rewrite (level_quotes_total p t 0 ns) end
  end.

Definition level_measure (s : MatchState) : nat :=
  (length (orders (ms_level s)) + pending (ms_remaining s))%nat.

Section level_loop.
Context (c : Side) (p : Price.t) (inc : OrderId.t) (ok : Price.t → bool).
Context (K : list (OrderId.t * OrderLocation)) (next : N) (seen : gset OrderId.t).
Context (T : list quote) (R : list Execution * list quote * Z).
Hypothesis Hok : ok p = true.

#[local] Abbreviation inv := (level_inv c p inc ok K next seen T R).

(** The front order is filled completely: it leaves the queue and the index. *)
Lemma match_level_body_full s a o rest :
  inv s → orders (ms_level s) = (a, o) :: rest → 0 < ms_remaining s →
  Quantity.units (ro_remaining_quantity o) ≤ ms_remaining s →
  ∃ s', match_level_body inc p s = Val s' ∧ inv s' ∧ (level_measure s' < level_measure s)%nat.
Proof.
  destruct o as [oid sq [u]]. intros [Hix Htot Hns Hrem Hsw] Ho Hpos Hle. destruct s as [[tot os] idx cnt rem es].
  ms_simpl.
  subst os. inversion Hns as [|?? [Hq Hsq] Hns']; subst.
  unfold Quantity.valid, u64_max in *. cbn in Hq, Hsq, Hrem, Hle.
  unfold match_level_body. simpl. rewrite Z.min_r by done.
  rewrite (from_units_nonzero u) by lia. simpl.
  rewrite (u64_sub_small u u), Z.sub_diag by lia. simpl.
  eexists. split; [done|]. split.
  - rewrite level_kvs_cons in Hix. split; ms_simpl.
    + by eapply index_ok_pop.
    + rewrite u64_sub_wrap_l. f_equal. simpl. unfold node_units. simpl. lia.
    + done.
    + rewrite u64_sub_small by lia. unfold u64_max. lia.
    + unfold acc. rewrite level_quotes_cons, u64_sub_small by lia. simpl.
      rewrite (proj2 (Z.ltb_lt _ _) Hpos), Hok. simpl.
      rewrite (proj2 (Z.ltb_ge _ _) Hle). drop_totals.
      destruct (sweep ok inc (rem - u) _) as [[es' l'] r']. simpl. by rewrite <- app_assoc.
  - unfold level_measure, pending. simpl. rewrite u64_sub_small by lia. zcase; lia.
Qed.

(** The front order absorbs the whole remainder and keeps its place. *)
Lemma match_level_body_partial s a o rest :
  inv s → orders (ms_level s) = (a, o) :: rest → 0 < ms_remaining s →
  ms_remaining s < Quantity.units (ro_remaining_quantity o) →
  ∃ s', match_level_body inc p s = Val s' ∧ inv s' ∧ (level_measure s' < level_measure s)%nat.
Proof.
  destruct o as [oid sq [u]]. intros [Hix Htot Hns Hrem Hsw] Ho Hpos Hlt. destruct s as [[tot os] idx cnt rem es].
  ms_simpl.
  subst os. inversion Hns as [|?? [Hq Hsq] Hns']; subst.
  unfold Quantity.valid, u64_max in *. cbn in Hq, Hsq, Hrem, Hlt.
  unfold match_level_body. simpl. rewrite Z.min_l by lia.
  rewrite (from_units_nonzero rem) by lia. simpl.
  rewrite (u64_sub_small u rem) by lia. destruct (Z.eqb_spec (u - rem) 0); [lia|].
  rewrite from_units_nonzero by done. simpl.
  rewrite (u64_sub_small rem rem), Z.sub_diag by lia.
  eexists. split; [done|]. split.
  - split; ms_simpl.
    + done.
    + rewrite u64_sub_wrap_l. f_equal. simpl. unfold node_units. simpl. lia.
    + constructor; [|done]. split; [|done]. unfold Quantity.valid, u64_max. simpl. lia.
    + unfold u64_max. lia.
    + unfold acc. rewrite !level_quotes_cons. simpl.
      rewrite (proj2 (Z.ltb_lt _ _) Hpos), Hok. simpl.
      rewrite (proj2 (Z.ltb_lt _ _) Hlt). simpl. by rewrite app_nil_r.
  - unfold level_measure, pending. simpl. zcase; lia.
Qed.

Lemma match_level_ok s :
  inv s → ∃ s', match_level inc p s = Val s' ∧ inv s' ∧
    (ms_remaining s' ≤ 0 ∨ orders (ms_level s') = []).
Proof.
  intros Hs. unfold match_level.
  destruct (while_total inv level_measure match_level_cond (match_level_body inc p))
    with (fuel := S (length (orders (ms_level s)))) (s := s) as (s' & Hw & Hi & Hc); try done.
  - intros ?. eexists. done.
  - intros t Ht Hc. unfold match_level_cond in Hc.
    destruct (orders (ms_level t)) as [|[a o] rest] eqn:Ho; [by rewrite andb_false_r in Hc|].
    assert (0 < ms_remaining t) by (destruct (Z.ltb_spec 0 (ms_remaining t)); done).
    destruct (Z.le_gt_cases (Quantity.units (ro_remaining_quantity o)) (ms_remaining t)).
    + by eapply match_level_body_full.
    + by eapply match_level_body_partial.
  - unfold level_measure, pending. zcase; lia.
  - exists s'. split_and!; try done. unfold match_level_cond in Hc.
    destruct (Z.ltb_spec 0 (ms_remaining s')); [right|by left].
    destruct (orders (ms_level s')); [done|]. discriminate.
Qed.

End level_loop.

(** ** The outer loop: the opposite side of the book *)

(** [ids] bounds the resting orders: matching adds none. *)
Record book_inv (b0 : OrderBook) (ids : gset OrderId.t) (side : Side) (inc : OrderId.t)
    (ok : Price.t → bool) (R : list Execution * list quote * Z) (st : OrderBook * Z * list Execution) : Prop := {
  bi_same : levels side st.1.1 = levels side b0;
  bi_seen : seen_order_ids_ st.1.1 = seen_order_ids_ b0;
  bi_next : next_addr_ st.1.1 = next_addr_ b0;
  bi_contra : side_ok (opposite side) (levels (opposite side) st.1.1);
  bi_index : index_ok
    (side_kvs (opposite side) (levels (opposite side) st.1.1) ++ side_kvs side (levels side b0))
    (resting_orders_ st.1.1) (resting_order_count_ st.1.1) (next_addr_ b0) ids;
  bi_prices : (levels (opposite side) st.1.1).*1 ⊆ (levels (opposite side) b0).*1;
  bi_rem : 0 ≤ st.1.2 ≤ u64_max;
  bi_sweep : acc st.2 (sweep ok inc st.1.2 (flat (levels (opposite side) st.1.1))) = R;
}.

Definition book_measure (side : Side) (st : OrderBook * Z * list Execution) : nat :=
  (length (levels (opposite side) st.1.1) + pending st.1.2)%nat.

Lemma sweep_done ok inc rem l : rem ≤ 0 → sweep ok inc rem l = ([], l, rem).
Proof. intros. destruct l as [|[p o] l]; simpl; [done|]. by rewrite (proj2 (Z.ltb_ge _ _)). Qed.

Lemma side_ok_cons s pl l : side_ok s (pl :: l) → level_ok pl ∧ side_ok s l.
Proof.
  intros [Hs Hf]. inversion Hf; subst. destruct pl. apply om_sorted_cons in Hs as [??].
  split; [done|]. by split.
Qed.

(** Replacing the value of the first level keeps the side well formed. *)
Lemma side_ok_head s p lvl lvl' l :
  side_ok s ((p, lvl) :: l) → level_ok (p, lvl') → side_ok s ((p, lvl') :: l).
Proof.
  intros [Hs Hf] Hl. inversion Hf; subst. split; [|by constructor].
  apply om_sorted_cons in Hs. by apply om_sorted_cons.
Qed.

Lemma flat_cons pl l : flat (pl :: l) = level_quotes pl ++ flat l.
Proof. done. Qed.

Lemma side_kvs_cons s pl l : side_kvs s (pl :: l) = level_kvs s pl ++ side_kvs s l.
Proof. done. Qed.

Section book_loop.
Context (b0 : OrderBook) (side : Side) (type : OrderType) (limit_price : option Price.t).
Context (ids : gset OrderId.t) (inc : OrderId.t) (R : list Execution * list quote * Z).
Hypothesis Hlim : type = limit → is_Some limit_price.

#[local] Abbreviation ok := (tradable side type limit_price).
#[local] Abbreviation inv := (book_inv b0 ids side inc ok R).
#[local] Abbreviation contra := (opposite side).

Lemma match_book_cond_eq b rem es :
  match_book_cond side type limit_price (b, rem, es) =
  Val ((0 <? rem) && match levels contra b with [] => false | (p, _) :: _ => ok p end).
Proof using Hlim.
  unfold match_book_cond. destruct (0 <? rem); [|done]. simpl.
  destruct (levels contra b) as [|[p lvl] l]; [done|]. unfold tradable.
  destruct type; simpl; [|done]. by destruct Hlim as [lim ->].
Qed.

Lemma match_book_body_ok b rem es p lvl l :
  inv (b, rem, es) → levels contra b = (p, lvl) :: l → 0 < rem → ok p = true →
  ∃ st, match_book_body inc side (b, rem, es) = Val st ∧ inv st ∧
    (book_measure side st < book_measure side (b, rem, es))%nat.
Proof.
  intros [Hsame Hseen Hnext Hcon Hix Hpr Hrem Hsw] Hl Hpos Hokp. simpl in *.
  rewrite Hl in *. destruct (side_ok_cons _ _ _ Hcon) as [[Hpv Hne Htot Hns] Hcl].
  destruct (match_level_ok contra p inc ok (side_kvs contra l ++ side_kvs side (levels side b0))
    (next_addr_ b0) ids (flat l) R Hokp
    (mkMatchState lvl (resting_orders_ b) (resting_order_count_ b) rem es))
    as (ms & -> & [Hix' Htot' Hns' Hrem' Hsw'] & Hexit).
  { split; simpl; try done. by rewrite app_assoc. }
  eexists. split; [done|]. rewrite app_assoc in Hix'.
  destruct (decide (orders (ms_level ms) = [])) as [Hemp|Hnemp].
  - rewrite bool_decide_eq_true_2 by done. split.
    + split; simpl; rewrite ?levels_set_levels; try done; try by destruct side.
      * destruct (ms_level ms) as [t os]. simpl in *. subst os. by destruct side.
      * intros x Hx. apply Hpr. csimpl. by right.
      * rewrite <- Hsw'. unfold acc. destruct (ms_level ms) as [t os]. simpl in *. by subst os.
    + unfold book_measure. simpl. rewrite levels_set_levels, Hl. simpl.
      unfold pending. zcase; lia.
  - rewrite bool_decide_eq_false_2 by done. destruct Hexit as [Hexit|]; [|done].
    assert (level_ok (p, ms_level ms)) by (by split).
    split.
    + split; simpl; rewrite ?levels_set_levels; try done; try by destruct side.
      by eapply side_ok_head.
    + unfold book_measure. simpl. rewrite levels_set_levels, Hl. simpl.
      unfold pending. zcase; lia.
Qed.

Lemma match_book_loop b rem es fuel :
  inv (b, rem, es) → (book_measure side (b, rem, es) ≤ fuel)%nat →
  ∃ b' rem' es',
    while fuel (match_book_cond side type limit_price) (match_book_body inc side) (b, rem, es)
      = Val (b', rem', es') ∧ inv (b', rem', es') ∧
    (0 < rem' → match levels contra b' with [] => True | (p, _) :: _ => ok p = false end).
Proof using Hlim.
  intros Hi Hf.
  destruct (while_total inv (book_measure side) (match_book_cond side type limit_price)
    (match_book_body inc side)) with (fuel := fuel) (s := (b, rem, es))
    as ([[b' rem'] es'] & Hw & Hi' & Hc); try done.
  - intros [[? ?] ?] _. rewrite match_book_cond_eq. eauto.
  - intros [[b1 rem1] es1] Hi1. rewrite match_book_cond_eq. intros [=Hc].
    apply andb_prop in Hc as [Hp%Z.ltb_lt Hc].
    destruct (levels contra b1) as [|[p lvl] l] eqn:Hl; [done|].
    by eapply match_book_body_ok.
  - exists b', rem', es'. split_and!; try done. intros Hp.
    rewrite match_book_cond_eq, (proj2 (Z.ltb_lt _ _) Hp) in Hc. simpl in Hc.
    destruct (levels contra b') as [|[p lvl] l]; [done|]. by injection Hc.
Qed.

End book_loop.

Definition book_ids (b : OrderBook) : gset OrderId.t := list_to_set ((book_kvs b).*1).

Lemma index_ok_ids kvs idx count next seen :
  index_ok kvs idx count next seen → index_ok kvs idx count next (list_to_set (kvs.*1)).
Proof.
  intros [? ? ? Hv ? ?]. split; try done. apply Forall_forall. intros kv Hin.
  rewrite Forall_forall in Hv. split; [by apply Hv|].
  apply elem_of_list_to_set, list_elem_of_fmap. eauto.
Qed.

Lemma book_ids_seen b : wf b → book_ids b ⊆ seen_order_ids_ b.
Proof.
  intros Hwf id Hin. apply elem_of_list_to_set, list_elem_of_fmap in Hin as (kv & -> & Hin).
  destruct (wf_index b Hwf) as [_ _ _ Hv _ _]. rewrite Forall_forall in Hv. by apply Hv.
Qed.

(** On a sorted side every level is at most as good as the first. *)
Lemma head_best s p lvl l (pl : Price.t * PriceLevel) :
  om_sorted (side_ltb s) ((p, lvl) :: l) → pl ∈ (p, lvl) :: l → side_ltb s pl.1 p = false.
Proof.
  intros [_ Hgt]%om_sorted_cons [->|Hin]%elem_of_cons; [apply ltb_irrefl|].
  apply ltb_antisym; [apply _|]. unfold keys_gt in Hgt. rewrite Forall_forall in Hgt.
  by apply Hgt.
Qed.

(** If the best opposite price does not cross, no opposite price does. *)
Lemma uncrossed_levels side lim (l : list (Price.t * PriceLevel)) :
  om_sorted (side_ltb (opposite side)) l →
  match l with [] => True | (p, _) :: _ => crosses side p lim = false end →
  ∀ pl, pl ∈ l → crosses side pl.1 lim = false.
Proof.
  intros Hs Hh pl Hin. destruct l as [|[p lvl] l]; [by apply elem_of_nil in Hin|].
  pose proof (head_best _ _ _ _ _ Hs Hin) as Hb. rewrite crosses_opposite in *.
  apply negb_false_iff. apply negb_false_iff in Hh.
  destruct (side_ltb (opposite side) p pl.1) eqn:E.
  - by eapply ltb_trans.
  - by rewrite <- (ltb_total _ _ E Hb).
Qed.

(** Where the outer loop stops, the specification has nothing left to execute. *)
Lemma sweep_blocked ok inc rem s l :
  side_ok s l → (0 < rem → match l with [] => True | (p, _) :: _ => ok p = false end) →
  sweep ok inc rem (flat l) = ([], flat l, rem).
Proof.
  intros Hok Hex. destruct (Z.le_gt_cases rem 0) as [|Hp]; [by apply sweep_done|].
  apply Hex in Hp. destruct l as [|[p [t os]] l]; [done|].
  apply side_ok_cons in Hok as [[_ Hne _ _] _]. simpl in Hne.
  destruct os as [|n os]; [done|]. rewrite flat_cons, level_quotes_cons. simpl.
  by rewrite Hp, andb_false_r.
Qed.

(** The whole of [match_against_book]: it terminates without undefined
    behaviour, keeps the invariant, only touches the opposite side, and
    executes exactly the specified sweep. *)
Lemma match_against_book_ok b inc side type limit_price units :
  wf b → (type = limit → is_Some limit_price) → 0 ≤ units ≤ u64_max →
  ∃ b' rem es,
    match_against_book inc side type limit_price units [] b = Val (b', rem, es) ∧
    wf b' ∧ levels side b' = levels side b ∧ seen_order_ids_ b' = seen_order_ids_ b ∧
    book_ids b' ⊆ book_ids b ∧
    sweep (tradable side type limit_price) inc units (flat (levels (opposite side) b))
      = (es, flat (levels (opposite side) b'), rem) ∧
    0 ≤ rem ≤ u64_max ∧
    (∀ lim, type = limit → limit_price = Some lim → 0 < rem →
       ∀ pl, pl ∈ levels (opposite side) b' → crosses side pl.1 lim = false).
Proof.
  intros Hwf Hlim Hu. unfold match_against_book.
  pose proof (index_ok_ids _ _ _ _ _ (wf_index b Hwf)) as Hix.
  rewrite (book_kvs_contra side) in Hix at 1.
  destruct (match_book_loop b side type limit_price (book_ids b) inc
    (sweep (tradable side type limit_price) inc units (flat (levels (opposite side) b))) Hlim
    b units [] (S (length (levels (opposite side) b)))) as (b' & rem & es & -> & Hi & Hex).
  { split; simpl; try done.
    - apply (wf_side b Hwf).
    - apply acc_nil. }
  { unfold book_measure, pending. simpl. zcase; lia. }
  destruct Hi as [Hsame Hseen Hnext Hcon Hix' Hpr [Hrem1 Hrem2] Hsw]. simpl in *.
  assert (index_ok (book_kvs b') (resting_orders_ b') (resting_order_count_ b')
    (next_addr_ b') (book_ids b)) as Hix''.
  { by rewrite (book_kvs_contra side), Hsame, Hnext. }
  rewrite (sweep_blocked _ _ _ _ _ Hcon Hex) in Hsw. unfold acc in Hsw. simpl in Hsw.
  rewrite app_nil_r in Hsw. exists b', rem, es. split_and!; try done.
  - split.
    + intros s. destruct (decide (s = side)) as [->|Hs].
      * rewrite Hsame. apply (wf_side b Hwf).
      * assert (s = opposite side) as -> by (by destruct s, side). done.
    + rewrite Hseen. eapply index_ok_seen; [done|]. by apply book_ids_seen.
    + intros pb pa Hb Ha. pose proof (wf_uncrossed b Hwf) as Hun.
      assert (∀ s pl, pl ∈ levels s b' → ∃ pl', pl' ∈ levels s b ∧ pl.1 = pl'.1) as Hsub.
      { intros s pl Hin. destruct (decide (s = side)) as [->|Hs].
        - rewrite Hsame in Hin. eauto.
        - assert (s = opposite side) as -> by (by destruct s, side).
          apply (list_elem_of_fmap_2 fst) in Hin. apply Hpr in Hin.
          apply list_elem_of_fmap in Hin as (pl' & -> & ?). eauto. }
      destruct (Hsub buy pb Hb) as (pb' & ? & ->). destruct (Hsub sell pa Ha) as (pa' & ? & ->).
      by apply Hun.
  - intros id Hin. apply elem_of_list_to_set, list_elem_of_fmap in Hin as (kv & -> & Hin).
    destruct Hix'' as [_ _ _ Hv _ _]. rewrite Forall_forall in Hv. by apply Hv.
  - intros lim -> -> Hp. apply uncrossed_levels; [apply Hcon|]. by apply Hex in Hp.
Qed.
