(* ===== verification/BookEdit.v ===== *)
(** * Insertion and removal of resting orders

    [insert_resting_order] and [remove_resting_order] keep the representation
    invariant and act on the flat priority list as [spec_insert] and
    [spec_remove]. *)

From stdpp Require Import prelude gmap list sorting.
From Stdlib Require Import ZArith Lia.
From S2P Require Import Prelude Types OrdMap OrderBook BookSpec BookInv BookMatch.

Open Scope Z_scope.

#[local] Opaque level_kvs level_quotes.

(** ** Insertion *)

Lemma flat_app l1 l2 : flat (l1 ++ l2) = flat l1 ++ flat l2.
Proof. apply bind_app. Qed.

Lemma side_kvs_app s l1 l2 : side_kvs s (l1 ++ l2) = side_kvs s l1 ++ side_kvs s l2.
Proof. apply bind_app. Qed.

(** A property of the prices of the levels is one of the prices of the quotes. *)
Lemma flat_prices (P : Price.t → Prop) l :
  Forall (λ pl, P pl.1) l → Forall (λ q : quote, P q.1) (flat l).
Proof.
  intros Hl. apply Forall_bind. apply (Forall_impl _ _ _ Hl). intros pl Hp.
  with_strategy transparent [level_quotes] unfold level_quotes. apply Forall_fmap, Forall_forall.
  by intros n _.
Qed.

Lemma spec_insert_skip s q l1 l2 :
  Forall (λ q' : quote, side_ltb s q.1 q'.1 = false) l1 →
  spec_insert s q (l1 ++ l2) = l1 ++ spec_insert s q l2.
Proof. induction 1 as [|q' l1 Hq _ IH]; simpl; [done|]. by rewrite Hq, IH. Qed.

Lemma spec_insert_stop s q l :
  Forall (λ q' : quote, side_ltb s q.1 q'.1 = true) l → spec_insert s q l = q :: l.
Proof. destruct 1 as [|q' l Hq _]; simpl; [done|]. by rewrite Hq. Qed.

(** Insertion into the flat list, at the place the level map has it. *)
Lemma spec_insert_split s p o l1 (t : Z) ns l2 :
  keys_lt (side_ltb s) p l1 → keys_gt (side_ltb s) p l2 →
  spec_insert s (p, o) (flat l1 ++ level_quotes (p, mkPriceLevel t ns) ++ flat l2) =
  flat l1 ++ level_quotes (p, mkPriceLevel t ns) ++ (p, o) :: flat l2.
Proof.
  intros Hlt Hgt. rewrite spec_insert_skip, spec_insert_skip, spec_insert_stop; [done|..].
  - by apply (flat_prices (λ k, side_ltb s p k = true)).
  - with_strategy transparent [level_quotes] unfold level_quotes.
    apply Forall_fmap, Forall_forall. intros n _. apply ltb_irrefl.
  - apply (flat_prices (λ k, side_ltb s p k = false)). apply (Forall_impl _ _ _ Hlt).
    intros pl Hpl. apply ltb_antisym; [apply _|done].
Qed.

Lemma level_quotes_snoc p t t' ns n :
  level_quotes (p, mkPriceLevel t (ns ++ [n])) =
  level_quotes (p, mkPriceLevel t' ns) ++ [(p, n.2)].
Proof.
  with_strategy transparent [level_quotes] unfold level_quotes. simpl. by rewrite fmap_app.
Qed.

Lemma level_kvs_snoc s p t t' ns n :
  level_kvs s (p, mkPriceLevel t (ns ++ [n])) =
  level_kvs s (p, mkPriceLevel t' ns) ++ [(ro_order_id n.2, mkOrderLocation s p n.1)].
Proof.
  with_strategy transparent [level_kvs] unfold level_kvs. simpl. by rewrite fmap_app.
Qed.

(** The level an insertion at [p] finds, and the map around it. *)
Lemma level_at s p l :
  side_ok s l →
  ∃ l1 l2 ns,
    om_index (side_ltb s) empty_level p l = mkPriceLevel (wrap 64 (sum_units ns)) ns ∧
    (∀ lvl, om_put (side_ltb s) p lvl l = l1 ++ (p, lvl) :: l2) ∧
    flat l = flat l1 ++ level_quotes (p, mkPriceLevel 0 ns) ++ flat l2 ∧
    side_kvs s l = side_kvs s l1 ++ level_kvs s (p, mkPriceLevel 0 ns) ++ side_kvs s l2 ∧
    keys_lt (side_ltb s) p l1 ∧ keys_gt (side_ltb s) p l2 ∧
    side_ok s l1 ∧ side_ok s l2 ∧ Forall node_ok ns ∧ l1 ++ l2 ⊆ l.
Proof.
  intros [Hs Hf]. unfold om_index. destruct (om_find (side_ltb s) p l) as [[t ns]|] eqn:E.
  - destruct (om_find_Some (side_ltb s) l p _ Hs E)
      as (l1 & l2 & -> & Hlt & Hgt & Hs1 & Hs2 & Hput & _).
    apply Forall_app in Hf as [Hf1 Hf2]. inversion Hf2 as [|? ? [_ _ Ht Hns] Hf3]; subst.
    exists l1, l2, ns. rewrite flat_app, flat_cons, side_kvs_app, side_kvs_cons.
    rewrite (level_kvs_total s p t 0), (level_quotes_total p t 0). simpl in *. subst t.
    split_and!; try done. intros pl. list_elem.
  - destruct (om_find_None (side_ltb s) l p Hs E)
      as (l1 & l2 & -> & Hlt & Hgt & Hs1 & Hs2 & Hput).
    apply Forall_app in Hf as [Hf1 Hf2]. exists l1, l2, [].
    rewrite flat_app, side_kvs_app. by split_and!.
Qed.

Lemma side_ok_middle s p lvl l1 l2 :
  side_ok s l1 → side_ok s l2 → keys_lt (side_ltb s) p l1 → keys_gt (side_ltb s) p l2 →
  level_ok (p, lvl) → side_ok s (l1 ++ (p, lvl) :: l2).
Proof.
  intros [??] [??] ? ? ?. split; [by apply (om_sorted_middle (side_ltb s))|].
  apply Forall_app. split; [done|]. by constructor.
Qed.

Lemma insert_resting_order_fields id seq side p q b :
  let b' := insert_resting_order id seq side p q b in
  let lvl := om_index (side_ltb side) empty_level p (levels side b) in
  levels side b' = om_put (side_ltb side) p
    (mkPriceLevel (u64_add (total_units lvl) (Quantity.units q))
       (orders lvl ++ [(next_addr_ b, mkRestingOrder id seq q)])) (levels side b) ∧
  levels (opposite side) b' = levels (opposite side) b ∧
  seen_order_ids_ b' = seen_order_ids_ b ∧ next_addr_ b' = (next_addr_ b + 1)%N ∧
  resting_orders_ b' = emplace id (mkOrderLocation side p (next_addr_ b)) (resting_orders_ b) ∧
  resting_order_count_ b' = u64_add (resting_order_count_ b) 1.
Proof. by destruct side. Qed.

(** Uncrossedness after a change of one side only, whose prices are old ones or
    [p], which crosses nothing on the other side. *)
Lemma uncrossed_change side p b b' :
  uncrossed b → levels (opposite side) b' = levels (opposite side) b →
  (∀ pl, pl ∈ levels (opposite side) b → crosses side pl.1 p = false) →
  (∀ pl, pl ∈ levels side b' → pl.1 = p ∨ ∃ pl', pl' ∈ levels side b ∧ pl.1 = pl'.1) →
  uncrossed b'.
Proof.
  intros Hun Hopp Hp Hs pb pa Hb Ha.
  destruct side; simpl in *; rewrite ?Hopp in *.
  - destruct (Hs pb Hb) as [->|(pb' & ? & ->)]; [|by apply Hun].
    specialize (Hp pa Ha). unfold Price.leb in Hp. lia.
  - destruct (Hs pa Ha) as [->|(pa' & ? & ->)]; [|by apply Hun].
    specialize (Hp pb Hb). unfold Price.geb in Hp. lia.
Qed.

(** Removing prices from one side cannot cross the book. *)
Lemma uncrossed_shrink side b b' :
  uncrossed b → levels (opposite side) b' = levels (opposite side) b →
  (∀ pl, pl ∈ levels side b' → ∃ pl', pl' ∈ levels side b ∧ pl.1 = pl'.1) → uncrossed b'.
Proof.
  intros Hun Hopp Hs pb pa Hb Ha. destruct side; simpl in *; rewrite ?Hopp in *.
  - destruct (Hs pb Hb) as (pb' & ? & ->). by apply Hun.
  - destruct (Hs pa Ha) as (pa' & ? & ->). by apply Hun.
Qed.

Lemma insert_resting_order_ok b id seq side p q :
  wf b → id ∉ book_ids b → OrderId.valid id → id ∈ seen_order_ids_ b →
  SequenceNumber.valid seq → Price.valid p → Quantity.valid q →
  (∀ pl, pl ∈ levels (opposite side) b → crosses side pl.1 p = false) →
  let b' := insert_resting_order id seq side p q b in
  wf b' ∧ levels (opposite side) b' = levels (opposite side) b ∧
  seen_order_ids_ b' = seen_order_ids_ b ∧
  flat (levels side b') = spec_insert side (p, mkRestingOrder id seq q) (flat (levels side b)).
Proof.
  intros Hwf Hnin Hid Hseen Hseq Hp Hq Hun b'.
  pose proof (wf_side b Hwf side) as Hside.
  destruct (level_at side p (levels side b) Hside)
    as (l1 & l2 & ns & Hidx & Hput & Hflat & Hkvs & Hlt & Hgt & Hs1 & Hs2 & Hns & Hsub).
  set (n := (next_addr_ b, mkRestingOrder id seq q) : node).
  set (lvl := mkPriceLevel (wrap 64 (sum_units (ns ++ [n]))) (ns ++ [n])).
  destruct (insert_resting_order_fields id seq side p q b)
    as (Hl' & Hopp & Hseen' & Hnext & Hro & Hcnt). fold b' in Hl', Hopp, Hseen', Hnext, Hro, Hcnt.
  rewrite Hidx, Hput in Hl'. simpl in Hl'. rewrite u64_add_wrap_l in Hl'. fold n in Hl'.
  replace (sum_units ns + Quantity.units q) with (sum_units (ns ++ [n])) in Hl'
    by (rewrite sum_units_app; simpl; unfold node_units; simpl; lia).
  fold lvl in Hl'.
  assert (level_ok (p, lvl)) as Hlvl.
  { split; simpl; try done; [by destruct ns|]. apply Forall_app. split; [done|].
    apply Forall_singleton. by split. }
  split_and!; [split|done|done|].
  - intros s. destruct (decide (s = side)) as [->|].
    + rewrite Hl'. by apply side_ok_middle.
    + assert (s = opposite side) as -> by (by destruct s, side). rewrite Hopp.
      apply (wf_side b Hwf).
  - pose proof (wf_index b Hwf) as Hix.
    apply (index_ok_push id side p) in Hix; try done;
      [|intros Hin; apply Hnin; by apply elem_of_list_to_set].
    rewrite (book_kvs_side side) in Hix. rewrite (book_kvs_side side b'), Hl', Hopp.
    rewrite side_kvs_app, side_kvs_cons. unfold lvl. rewrite (level_kvs_snoc _ _ _ 0).
    rewrite Hkvs in Hix. rewrite Hseen', Hnext, Hro, Hcnt.
    revert Hix. apply index_ok_perm_1. simpl. rewrite <- !app_assoc. simpl. solve_Permutation.
  - apply (uncrossed_change side p b); try done; [apply (wf_uncrossed b Hwf)|].
    intros pl Hin. rewrite Hl' in Hin.
    assert (pl = (p, lvl) ∨ pl ∈ l1 ++ l2) as [->|Hin'] by list_elem; [by left|].
    right. exists pl. split; [by apply Hsub|done].
  - rewrite Hl', flat_app, flat_cons. unfold lvl. rewrite (level_quotes_snoc _ _ 0), Hflat.
    rewrite spec_insert_split by done. by rewrite <- !app_assoc.
Qed.

(** ** Removal *)

Lemma quote_ids s l : quote_id <$> flat l = (side_kvs s l).*1.
Proof.
  unfold flat, side_kvs. rewrite !fmap_bind_list.
  with_strategy transparent [level_quotes level_kvs] unfold level_quotes, level_kvs.
  induction l as [|pl l IH]; csimpl; [done|]. rewrite IH. f_equal.
  by rewrite <- !list_fmap_compose.
Qed.

Lemma spec_remove_app id l1 l2 : spec_remove id (l1 ++ l2) = spec_remove id l1 ++ spec_remove id l2.
Proof. apply filter_app. Qed.

Lemma spec_remove_absent id l : id ∉ quote_id <$> l → spec_remove id l = l.
Proof.
  induction l as [|q l IH]; [done|]. csimpl. intros [Hne Hn]%not_elem_of_cons.
  unfold spec_remove. rewrite filter_cons_True by congruence. f_equal. by apply IH.
Qed.

Lemma spec_remove_one l1 q l2 :
  NoDup (quote_id <$> (l1 ++ q :: l2)) → spec_remove (quote_id q) (l1 ++ q :: l2) = l1 ++ l2.
Proof.
  rewrite fmap_app. csimpl. intros (_ & Hd & [Hn _]%NoDup_cons)%NoDup_app.
  rewrite spec_remove_app, spec_remove_absent by (intros Hin; apply (Hd _ Hin); by left).
  unfold spec_remove. rewrite filter_cons_False by (intros Hc; by apply Hc).
  f_equal. by apply spec_remove_absent.
Qed.

(** Order ids are unique on a side, and across the two. *)
Lemma flat_NoDup s b : wf b → NoDup (quote_id <$> flat (levels s b)).
Proof.
  intros Hwf. destruct (wf_index b Hwf) as [Hnd _ _ _ _ _].
  rewrite (book_kvs_side s), fmap_app in Hnd. rewrite (quote_ids s).
  by apply NoDup_app in Hnd as (? & _ & _).
Qed.

(** The levels around [p] after its queue became [ns]: an empty level goes. *)
Definition pruned (p : Price.t) (l1 l2 : list (Price.t * PriceLevel)) (ns : list node)
  : list (Price.t * PriceLevel) :=
  if bool_decide (ns = []) then l1 ++ l2
  else l1 ++ (p, mkPriceLevel (wrap 64 (sum_units ns)) ns) :: l2.

Lemma pruned_ok s p lvl l1 l2 ns :
  side_ok s (l1 ++ (p, lvl) :: l2) → Forall node_ok ns →
  side_ok s (pruned p l1 l2 ns) ∧
  flat (pruned p l1 l2 ns) = flat l1 ++ level_quotes (p, mkPriceLevel 0 ns) ++ flat l2 ∧
  side_kvs s (pruned p l1 l2 ns) =
    side_kvs s l1 ++ level_kvs s (p, mkPriceLevel 0 ns) ++ side_kvs s l2 ∧
  (∀ pl, pl ∈ pruned p l1 l2 ns → ∃ pl', pl' ∈ l1 ++ (p, lvl) :: l2 ∧ pl.1 = pl'.1).
Proof.
  intros [Hs Hf] Hns. apply om_sorted_app_inv in Hs as (Hs1 & Hs2 & Hlt & Hgt).
  apply Forall_app in Hf as [Hf1 Hf2]. inversion Hf2 as [|?? [Hp _ _ _] Hf3]; subst.
  unfold pruned. destruct (decide (ns = [])) as [->|Hne].
  - rewrite bool_decide_eq_true_2 by done. rewrite flat_app, side_kvs_app.
    split_and!; try done.
    + split; [by eapply (om_sorted_app (side_ltb s))|]. by apply Forall_app.
    + intros pl Hin. exists pl. split; [|done]. list_elem.
  - rewrite bool_decide_eq_false_2 by done.
    rewrite flat_app, flat_cons, side_kvs_app, side_kvs_cons.
    rewrite (level_kvs_total s p _ 0), (level_quotes_total p _ 0).
    split_and!; try done.
    + apply side_ok_middle; try done; by split.
    + intros pl Hin. apply elem_of_app in Hin as [Hin|[->|Hin]%elem_of_cons].
      * exists pl. split; [|done]. list_elem.
      * exists (p, lvl). split; [|done]. list_elem.
      * exists pl. split; [|done]. list_elem.
Qed.

Lemma level_kvs_app s p t ns1 ns2 :
  level_kvs s (p, mkPriceLevel t (ns1 ++ ns2)) =
  level_kvs s (p, mkPriceLevel 0 ns1) ++ level_kvs s (p, mkPriceLevel 0 ns2).
Proof.
  with_strategy transparent [level_kvs] unfold level_kvs. simpl. by rewrite fmap_app.
Qed.

Lemma level_quotes_app p t ns1 ns2 :
  level_quotes (p, mkPriceLevel t (ns1 ++ ns2)) =
  level_quotes (p, mkPriceLevel 0 ns1) ++ level_quotes (p, mkPriceLevel 0 ns2).
Proof.
  with_strategy transparent [level_quotes] unfold level_quotes. simpl. by rewrite fmap_app.
Qed.

(** The computation of [remove_resting_order] on a located order. *)
Lemma remove_resting_order_eq b id loc l1 lvl l2 ns1 o ns2 :
  wf b → levels (loc_side loc) b = l1 ++ (loc_price loc, lvl) :: l2 →
  orders lvl = ns1 ++ (loc_it loc, o) :: ns2 → (loc_it loc ∉ ns1.*1) →
  deref (loc_it loc) b = Val o →
  remove_resting_order loc id b = Val (ro_remaining_quantity o,
    set_index (delete id (resting_orders_ b)) (u64_sub (resting_order_count_ b) 1)
      (set_levels (loc_side loc) (pruned (loc_price loc) l1 l2 (ns1 ++ ns2)) b)).
Proof.
  intros Hwf Hl Ho Hnin Hd. destruct (wf_side b Hwf (loc_side loc)) as [Hs Hf].
  rewrite Hl in Hs, Hf. apply Forall_app in Hf as [_ Hf].
  inversion Hf as [|?? [_ _ Ht _] _]; subst. simpl in Ht.
  unfold remove_resting_order. rewrite Hd. simpl. rewrite Hl.
  rewrite (om_find_middle (side_ltb _)) by done. rewrite Ho.
  rewrite erase_node_split by done. simpl.
  rewrite (om_put_middle (side_ltb _)), (om_erase_middle (side_ltb _)) by done.
  rewrite Ht, u64_sub_wrap_l, Ho, sum_units_app. simpl. unfold node_units. simpl.
  replace (sum_units ns1 + (Quantity.units (ro_remaining_quantity o) + sum_units ns2)
           - Quantity.units (ro_remaining_quantity o))
    with (sum_units (ns1 ++ ns2)) by (rewrite sum_units_app; lia).
  by destruct (loc_side loc).
Qed.

Lemma remove_resting_order_ok b id loc :
  wf b → resting_orders_ b !! id = Some loc →
  ∃ o b', remove_resting_order loc id b = Val (ro_remaining_quantity o, b') ∧
    deref (loc_it loc) b = Val o ∧ ro_order_id o = id ∧
    (loc_price loc, o) ∈ flat (levels (loc_side loc) b) ∧
    wf b' ∧ levels (opposite (loc_side loc)) b' = levels (opposite (loc_side loc)) b ∧
    seen_order_ids_ b' = seen_order_ids_ b ∧ (id ∉ book_ids b') ∧
    flat (levels (loc_side loc) b') = spec_remove id (flat (levels (loc_side loc) b)).
Proof.
  intros Hwf Hidx.
  destruct (wf_locate b id loc Hwf Hidx) as (l1 & [t ns] & l2 & ns1 & o & ns2 & Hl & Ho & Hid & Hnin & Hd).
  rewrite (remove_resting_order_eq b id loc l1 _ l2 ns1 o ns2) by done.
  simpl in Ho. subst ns. pose proof (wf_side b Hwf (loc_side loc)) as Hside.
  rewrite Hl in Hside. assert (Forall node_ok (ns1 ++ ns2)) as Hns.
  { destruct Hside as [_ Hf]. apply Forall_app in Hf as [_ Hf].
    inversion Hf as [|?? [_ _ _ Hns] _]; subst. simpl in Hns.
    apply Forall_app in Hns as [? Hns]. inversion Hns; subst. by apply Forall_app. }
  destruct (pruned_ok _ _ _ _ _ _ Hside Hns) as (Hok & Hflat & Hkvs & Hpr).
  set (b' := set_index _ _ _). set (s := loc_side loc) in *. set (p := loc_price loc) in *.
  assert (levels s b' = pruned p l1 l2 (ns1 ++ ns2)) as Hl' by (by destruct s).
  assert (levels (opposite s) b' = levels (opposite s) b) as Hopp by (by destruct s).
  pose proof (wf_index b Hwf) as Hix.
  rewrite (book_kvs_side s), Hl, side_kvs_app, side_kvs_cons, level_kvs_app, level_kvs_cons in Hix.
  simpl in Hix. rewrite Hid in Hix.
  set (A := side_kvs s l1 ++ level_kvs s (p, mkPriceLevel 0 (ns1 ++ ns2)) ++ side_kvs s l2 ++
            side_kvs (opposite s) (levels (opposite s) b)).
  assert (index_ok ((id, mkOrderLocation s p (loc_it loc)) :: A) (resting_orders_ b)
    (resting_order_count_ b) (next_addr_ b) (seen_order_ids_ b)) as Hix'.
  { revert Hix. apply index_ok_perm_1. unfold A. rewrite level_kvs_app. simpl. solve_Permutation. }
  assert (book_kvs b' ≡ₚ A) as HA.
  { rewrite (book_kvs_side s), Hl', Hopp, Hkvs. unfold A. solve_Permutation. }
  assert (id ∉ A.*1) as HnA by (destruct Hix' as [Hnd _ _ _ _ _]; by inversion Hnd).
  exists o, b'. split_and!; try done.
  - rewrite Hl, flat_app, flat_cons, level_quotes_app, level_quotes_cons. list_elem.
  - split.
    + intros s'. destruct (decide (s' = s)) as [->|]; [by rewrite Hl'|].
      assert (s' = opposite s) as -> by (by destruct s', s). rewrite Hopp. apply (wf_side b Hwf).
    + rewrite HA. apply index_ok_pop in Hix'. by destruct s.
    + eapply (uncrossed_shrink s b); [apply (wf_uncrossed b Hwf)|done|].
      intros pl Hin. rewrite Hl' in Hin. rewrite Hl. by apply Hpr.
  - by destruct s.
  - intros Hin. apply elem_of_list_to_set in Hin. by rewrite HA in Hin.
  - pose proof (flat_NoDup s b Hwf) as Hnd. rewrite Hl', Hflat. clear -Hl Hnd Hid.
    rewrite Hl, flat_app, flat_cons, (level_quotes_app p t), level_quotes_cons in Hnd |- *.
    rewrite level_quotes_app. simpl in *. rewrite <- !app_assoc in *. simpl in *.
    rewrite app_assoc in Hnd. rewrite <- Hid, !(app_assoc (flat l1)).
    change (ro_order_id o) with (quote_id (p, o)). by rewrite spec_remove_one.
Qed.
