(* ===== verification/BookRefine.v ===== *)
(** * The order book implements its specification

    Total correctness of the three commands of [OrderBook]: from a well-formed
    book and a well-typed command each returns a value (no undefined behaviour,
    no loop out of fuel), the new book is well formed, and result and book are
    those of [BookSpec]. *)

From stdpp Require Import prelude gmap list sorting.
From Stdlib Require Import ZArith Lia.
From S2P Require Import Prelude Types OrdMap OrderBook BookSpec BookInv BookMatch BookEdit.

Open Scope Z_scope.

#[local] Opaque level_kvs level_quotes.

(** ** Abstraction *)

Lemma abs_side s b : spec_side s (abs b) = flat (levels s b).
Proof. by destruct s. Qed.

Lemma abs_set_seen b seen :
  abs (set_seen seen b) = mkSpecBook (sb_bids (abs b)) (sb_asks (abs b)) seen.
Proof. done. Qed.

(** A book that differs on one side only. *)
Lemma abs_change s b b' :
  levels (opposite s) b' = levels (opposite s) b → seen_order_ids_ b' = seen_order_ids_ b →
  abs b' = set_spec_side s (flat (levels s b')) (abs b).
Proof. unfold abs. destruct s; simpl; by intros -> ->. Qed.

Lemma wf_set_seen b seen : wf b → seen_order_ids_ b ⊆ seen → wf (set_seen seen b).
Proof.
  intros [Hs Hi Hu] Hsub. split; [by intros []; [apply (Hs buy)|apply (Hs sell)]| |done].
  by eapply index_ok_seen.
Qed.

(** ** Locating an order *)

Lemma spec_find_None id l : id ∉ quote_id <$> l → spec_find id l = None.
Proof.
  induction l as [|q l IH]; csimpl; [done|]. intros [??]%not_elem_of_cons.
  rewrite bool_decide_eq_false_2 by congruence. by apply IH.
Qed.

Lemma spec_find_Some q l :
  NoDup (quote_id <$> l) → q ∈ l → spec_find (quote_id q) l = Some q.
Proof.
  induction l as [|q' l IH]; csimpl; [by intros _ ?%elem_of_nil|].
  intros [Hn Hnd]%NoDup_cons [->|Hin]%elem_of_cons; [by rewrite bool_decide_eq_true_2|].
  rewrite bool_decide_eq_false_2; [by apply IH|]. intros Heq. apply Hn. rewrite Heq.
  by apply list_elem_of_fmap_2.
Qed.

Lemma book_ids_sides b id : id ∈ book_ids b ↔ ∃ s, id ∈ quote_id <$> flat (levels s b).
Proof.
  unfold book_ids, book_kvs. rewrite elem_of_list_to_set, fmap_app, elem_of_app.
  rewrite <- !quote_ids. split; [intros [?|?]; [by exists buy|by exists sell]|].
  intros [[] ?]; auto.
Qed.

Lemma locate_None b id : wf b → resting_orders_ b !! id = None → spec_locate id (abs b) = None.
Proof.
  intros Hwf Hn. apply (index_ok_lookup_None _ _ _ _ _ _ (wf_index b Hwf)) in Hn.
  assert (∀ s, spec_find id (flat (levels s b)) = None) as Hs.
  { intros s. apply spec_find_None. intros Hin. apply Hn.
    apply (elem_of_list_to_set (C:=gset OrderId.t)), book_ids_sides. by exists s. }
  unfold spec_locate. rewrite !(abs_side buy b : sb_bids (abs b) = _).
  rewrite (Hs buy), !(abs_side sell b : sb_asks (abs b) = _). by rewrite (Hs sell).
Qed.

(** An id rests on one side only. *)
Lemma flat_sides_disjoint s b id :
  wf b → id ∈ quote_id <$> flat (levels s b) → id ∉ quote_id <$> flat (levels (opposite s) b).
Proof.
  intros Hwf H1 H2. destruct (wf_index b Hwf) as [Hnd _ _ _ _ _].
  rewrite (book_kvs_side s), fmap_app in Hnd. apply NoDup_app in Hnd as (_ & Hd & _).
  rewrite (quote_ids s) in H1. rewrite (quote_ids (opposite s)) in H2. by apply (Hd id).
Qed.

Lemma locate_Some s b q :
  wf b → q ∈ flat (levels s b) → spec_locate (quote_id q) (abs b) = Some (s, q).
Proof.
  intros Hwf Hq. pose proof (spec_find_Some q _ (flat_NoDup s b Hwf) Hq) as Hf.
  pose proof (flat_sides_disjoint s b (quote_id q) Hwf (list_elem_of_fmap_2 _ _ _ Hq)) as Hd.
  unfold spec_locate. rewrite (abs_side buy b : sb_bids (abs b) = _).
  rewrite (abs_side sell b : sb_asks (abs b) = _).
  destruct s; simpl in *.
  - by rewrite Hf.
  - by rewrite (spec_find_None _ _ Hd), Hf.
Qed.

(** ** Placing an order: match, then rest the remainder *)

Lemma place_ok b id seq side type limit_price units :
  wf b → id ∉ book_ids b → id ∈ seen_order_ids_ b → OrderId.valid id → SequenceNumber.valid seq →
  (type = limit → is_Some limit_price) → default True (Price.valid <$> limit_price) →
  0 < units ≤ u64_max →
  ∃ b1 rem es,
    match_against_book id side type limit_price units [] b = Val (b1, rem, es) ∧
    (type = market ∨ rem = 0 →
       wf b1 ∧ spec_place id seq side type limit_price units (abs b) = (es, None, abs b1)) ∧
    (∀ p, type = limit → limit_price = Some p → rem ≠ 0 →
       let b2 := insert_resting_order id seq side p (Quantity.mk rem) b1 in
       0 < rem ∧ wf b2 ∧
       spec_place id seq side type limit_price units (abs b)
         = (es, Some (Quantity.mk rem), abs b2)).
Proof.
  intros Hwf Hnin Hseen Hid Hseq Hlim Hpv Hu.
  destruct (match_against_book_ok b id side type limit_price units Hwf Hlim)
    as (b1 & rem & es & Hm & Hwf1 & Hsame & Hseen1 & Hids & Hsw & Hrem & Hun); [lia|].
  assert (abs b1 = set_spec_side (opposite side) (flat (levels (opposite side) b1)) (abs b)) as Habs.
  { apply abs_change; [|done]. by rewrite opposite_opposite. }
  exists b1, rem, es. split; [done|].
  unfold spec_place. rewrite abs_side, Hsw, <- Habs. split.
  - intros Hc. split; [done|]. destruct type; [|done]. destruct limit_price; [|done].
    destruct Hc as [| ->]; done.
  - intros p -> -> Hr. assert (0 < rem) by lia.
    destruct (insert_resting_order_ok b1 id seq side p (Quantity.mk rem)) as (Hwf2 & Hopp & Hs2 & Hfl);
      try done.
    + intros Hin. by apply Hnin, Hids.
    + by rewrite Hseen1.
    + unfold Quantity.valid. simpl. lia.
    + by apply Hun.
    + split_and!; try done. rewrite (proj2 (Z.ltb_lt 0 rem)) by done.
      rewrite abs_side, <- Hfl. f_equal. symmetry. by apply abs_change.
Qed.

(** ** [submit] *)

Lemma submit_refines_aux o b :
  wf b → NewOrder_wf o →
  ∃ r b', submit o b = Val (r, b') ∧ wf b' ∧ spec_submit o (abs b) = (r, abs b').
Proof.
  intros Hwf (Hseq & Hid & Hq & Hp). unfold submit, spec_submit.
  destruct (validate o) as [e|] eqn:Hval; simpl; [by eauto|].
  destruct (decide (no_order_id o ∈ seen_order_ids_ b)) as [Hs|Hs].
  { rewrite bool_decide_eq_true_2 by done. eauto. }
  rewrite bool_decide_eq_false_2 by done.
  set (b0 := set_seen _ b).
  assert (wf b0) as Hwf0 by (apply wf_set_seen; [done|set_solver]).
  destruct (place_ok b0 (no_order_id o) (no_sequence o) (no_side o) (no_type o)
    (no_limit_price o) (Quantity.units (no_quantity o))) as (b1 & rem & es & Hm & Hmk & Hlm);
    try done.
  - intros Hin. apply Hs. apply (book_ids_seen b); done.
  - unfold b0. simpl. set_solver.
  - intros Hl. apply validate_None in Hval as [[_ ?]|[Hc _]]; [done|]. by rewrite Hc in Hl.
  - rewrite Hm. simpl. change (mkSpecBook _ _ _) with (abs b0).
    apply validate_None in Hval as [[Hty [p Hlp]]|[Hty Hlp]].
    + destruct (decide (rem = 0)) as [->|Hr].
      * destruct Hmk as [? ->]; [by right|]. rewrite andb_false_r. eauto.
      * destruct (Hlm p Hty Hlp Hr) as (Hpos & ? & ->).
        rewrite bool_decide_eq_true_2, (proj2 (Z.ltb_lt 0 rem)) by done. simpl.
        rewrite from_units_nonzero, Hlp by done. simpl. eauto.
    + destruct Hmk as [? ->]; [by left|]. rewrite Hty. simpl. eauto.
Qed.

(** ** [cancel] *)

Lemma cancel_refines_aux c b :
  wf b → ∃ r b', cancel c b = Val (r, b') ∧ wf b' ∧ spec_cancel c (abs b) = (r, abs b').
Proof.
  intros Hwf. unfold cancel, spec_cancel.
  destruct (resting_orders_ b !! co_order_id c) as [loc|] eqn:Hl.
  - destruct (remove_resting_order_ok b _ loc Hwf Hl)
      as (o & b' & -> & _ & Hid & Hin & Hwf' & Hopp & Hseen & _ & Hfl). simpl.
    pose proof (locate_Some _ _ _ Hwf Hin) as Hloc. unfold quote_id in Hloc. simpl in Hloc.
    rewrite Hid in Hloc. rewrite Hloc. simpl.
    eexists _, b'. split_and!; try done. rewrite abs_side, <- Hfl. f_equal.
    symmetry. by apply abs_change.
  - rewrite (locate_None b _ Hwf Hl). eauto.
Qed.

(** ** In-place reduction *)

Lemma assign_nodes_absent it q (ns : list node) : it ∉ ns.*1 → assign_node it q <$> ns = ns.
Proof.
  induction ns as [|n ns IH]; csimpl; [done|]. intros [Hne Hn]%not_elem_of_cons.
  rewrite IH by done. f_equal. unfold assign_node. by rewrite bool_decide_eq_false_2 by congruence.
Qed.

Lemma assign_levels_absent it q l : it ∉ (side_nodes l).*1 → assign_levels it q l = l.
Proof.
  induction l as [|[p [t ns]] l IH]; [done|]. unfold side_nodes. csimpl.
  rewrite fmap_app. intros [Hn Hl]%not_elem_of_app.
  rewrite assign_nodes_absent by done. f_equal. by apply IH.
Qed.

Lemma spec_set_units_absent id q l : id ∉ quote_id <$> l → spec_set_units id q l = l.
Proof.
  induction l as [|x l IH]; csimpl; [done|]. intros [Hne Hn]%not_elem_of_cons.
  unfold spec_set_units. csimpl. rewrite bool_decide_eq_false_2 by congruence. f_equal. by apply IH.
Qed.

Lemma spec_set_units_one q l1 x l2 :
  NoDup (quote_id <$> (l1 ++ x :: l2)) →
  spec_set_units (quote_id x) q (l1 ++ x :: l2) = l1 ++ (x.1, set_remaining q x.2) :: l2.
Proof.
  rewrite fmap_app. csimpl. intros (_ & Hd & [Hn _]%NoDup_cons)%NoDup_app.
  unfold spec_set_units. rewrite fmap_app. csimpl. rewrite bool_decide_eq_true_2 by done.
  f_equal; [|f_equal]; apply spec_set_units_absent; [|done].
  intros Hin. apply (Hd _ Hin). by left.
Qed.

(** Which nodes carry the address of a located order: the located node only. *)
Lemma located_addr s b l1 p t ns1 a o ns2 l2 :
  wf b → levels s b = l1 ++ (p, mkPriceLevel t (ns1 ++ (a, o) :: ns2)) :: l2 →
  (a ∉ (side_nodes l1).*1) ∧ (a ∉ ns1.*1) ∧ (a ∉ ns2.*1) ∧ (a ∉ (side_nodes l2).*1) ∧
  (a ∉ (side_nodes (levels (opposite s) b)).*1).
Proof.
  intros Hwf Hl. pose proof (all_nodes_NoDup b Hwf) as Hnd.
  assert (NoDup ((side_nodes (levels s b) ++ side_nodes (levels (opposite s) b)).*1)) as Hnd'.
  { revert Hnd. unfold all_nodes. destruct s; simpl; [done|].
    by rewrite (Permutation_app_comm (side_nodes (asks_ b))). }
  rewrite Hl in Hnd'. unfold side_nodes in *. rewrite bind_app in Hnd'. csimpl in Hnd'.
  assert (NoDup (a :: ((l1 ≫= (λ pl, orders pl.2)).*1 ++ ns1.*1 ++ ns2.*1 ++
    (l2 ≫= (λ pl, orders pl.2)).*1 ++
    (levels (opposite s) b ≫= (λ pl, orders pl.2)).*1))) as Hn.
  { revert Hnd'. rewrite !fmap_app. csimpl. apply NoDup_Permutation_proper. solve_Permutation. }
  apply NoDup_cons in Hn as [Hn _]. rewrite !not_elem_of_app in Hn. tauto.
Qed.

(** The new book of an in-place reduction. *)
Lemma reduce_eq b loc l1 t ns1 o ns2 l2 q diff :
  wf b →
  levels (loc_side loc) b =
    l1 ++ (loc_price loc, mkPriceLevel t (ns1 ++ (loc_it loc, o) :: ns2)) :: l2 →
  let s := loc_side loc in
  let p := loc_price loc in
  let lvl := om_index (side_ltb s) empty_level p (levels s b) in
  let b0 := set_levels s (om_put (side_ltb s) p
              (mkPriceLevel (u64_sub (total_units lvl) diff) (orders lvl)) (levels s b)) b in
  assign_remaining (loc_it loc) q b0 =
    Val (set_levels s (l1 ++ (p, mkPriceLevel (u64_sub t diff)
           (ns1 ++ (loc_it loc, set_remaining q o) :: ns2)) :: l2) b).
Proof.
  intros Hwf Hl s p lvl b0. destruct (wf_side b Hwf s) as [Hs _].
  destruct (located_addr s b _ _ _ _ _ _ _ _ Hwf Hl) as (Hn1 & Hn2 & Hn3 & Hn4 & Hn5).
  fold s p in Hl. unfold b0, lvl, om_index. rewrite Hl in *.
  rewrite (om_find_middle (side_ltb s)), (om_put_middle (side_ltb s)) by done. simpl.
  clear b0 lvl. set (b0 := set_levels s _ b).
  set (ns := ns1 ++ (loc_it loc, o) :: ns2) in *.
  assert (all_nodes b0 = all_nodes b) as Hall.
  { unfold all_nodes, b0. destruct s; simpl in *; rewrite Hl; unfold side_nodes;
      rewrite !bind_app; done. }
  assert (deref (loc_it loc) b0 = Val o) as Hd.
  { unfold deref. rewrite Hall, (node_at_elem _ (loc_it loc) o (all_nodes_NoDup b Hwf)); [done|].
    apply (side_nodes_all s). rewrite Hl. unfold side_nodes. rewrite bind_app. csimpl.
    unfold ns. list_elem. }
  unfold assign_remaining. rewrite Hd. simpl. f_equal.
  assert (assign_levels (loc_it loc) q (levels s b0) =
    l1 ++ (p, mkPriceLevel (u64_sub t diff) (ns1 ++ (loc_it loc, set_remaining q o) :: ns2)) :: l2)
    as Ha.
  { unfold b0. rewrite levels_set_levels. unfold assign_levels. rewrite fmap_app. csimpl.
    fold (assign_levels (loc_it loc) q l1) (assign_levels (loc_it loc) q l2).
    rewrite !assign_levels_absent by done. f_equal. f_equal. unfold ns. rewrite fmap_app. csimpl.
    rewrite !assign_nodes_absent by done. unfold assign_node.
    by rewrite bool_decide_eq_true_2. }
  assert (assign_levels (loc_it loc) q (levels (opposite s) b0) = levels (opposite s) b) as Hb.
  { unfold b0. rewrite levels_set_levels_opp. by apply assign_levels_absent. }
  destruct s; simpl in *; by rewrite Ha, Hb.
Qed.

(** An in-place reduction keeps the invariant and changes one quantity of the
    priority list. *)
Lemma reduce_ok b loc l1 t ns1 o ns2 l2 q :
  wf b → Quantity.valid q →
  Quantity.units q ≤ Quantity.units (ro_remaining_quantity o) →
  levels (loc_side loc) b =
    l1 ++ (loc_price loc, mkPriceLevel t (ns1 ++ (loc_it loc, o) :: ns2)) :: l2 →
  let s := loc_side loc in
  let diff := u64_sub (Quantity.units (ro_remaining_quantity o)) (Quantity.units q) in
  let b' := set_levels s (l1 ++ (loc_price loc, mkPriceLevel (u64_sub t diff)
              (ns1 ++ (loc_it loc, set_remaining q o) :: ns2)) :: l2) b in
  wf b' ∧ abs b' = set_spec_side s
    (spec_set_units (ro_order_id o) q (flat (levels s b))) (abs b).
Proof.
  intros Hwf Hq Hle Hl s diff b'. set (p := loc_price loc) in *.
  pose proof (wf_side b Hwf s) as Hside. pose proof (flat_NoDup s b Hwf) as Hnd. fold s in Hl.
  rewrite Hl in Hside, Hnd |- *. destruct Hside as [Hsort Hf].
  destruct (om_sorted_app_inv _ _ _ _ _ Hsort) as (Hs1 & Hs2 & Hlt & Hgt).
  apply Forall_app in Hf as [Hf1 Hf2]. inversion Hf2 as [|?? [Hp _ Ht Hns] Hf3]; subst.
  simpl in Ht, Hns. apply Forall_app in Hns as [Hns1 Hns2].
  inversion Hns2 as [|?? [Hoq Hoseq] Hns3]; subst. simpl in *.
  set (lvl' := mkPriceLevel (u64_sub (wrap 64 (sum_units (ns1 ++ (loc_it loc, o) :: ns2))) diff)
                 (ns1 ++ (loc_it loc, set_remaining q o) :: ns2)) in *.
  assert (levels s b' = l1 ++ (p, lvl') :: l2) as Hl' by (unfold b'; apply levels_set_levels).
  assert (levels (opposite s) b' = levels (opposite s) b) as Hopp
    by (unfold b'; apply levels_set_levels_opp).
  assert (level_ok (p, lvl')) as Hlvl.
  { split; simpl; [done|by destruct ns1| |].
    - rewrite u64_sub_wrap_l. f_equal. rewrite !sum_units_app. simpl. unfold node_units, diff. simpl.
      rewrite u64_sub_small by (unfold Quantity.valid, u64_max in *; lia). lia.
    - apply Forall_app. split; [done|]. by constructor. }
  assert (side_kvs s (l1 ++ (p, lvl') :: l2) = side_kvs s (levels s b)) as Hkvs.
  { rewrite Hl, !side_kvs_app, !side_kvs_cons. unfold lvl'.
    by rewrite !level_kvs_app, !level_kvs_cons. }
  split.
  - split.
    + intros s'. destruct (decide (s' = s)) as [->|].
      * rewrite Hl'. by apply side_ok_middle.
      * assert (s' = opposite s) as -> by (by destruct s', s). rewrite Hopp. apply (wf_side b Hwf).
    + pose proof (wf_index b Hwf) as Hix.
      rewrite (book_kvs_side s), Hl', Hopp, Hkvs, <- (book_kvs_side s b). by destruct s.
    + eapply (uncrossed_shrink s b); [apply (wf_uncrossed b Hwf)|done|].
      intros pl Hin. rewrite Hl' in Hin. rewrite Hl.
      apply elem_of_app in Hin as [Hin|[->|Hin]%elem_of_cons].
      * exists pl. split; [|done]. list_elem.
      * eexists. split; [apply elem_of_app; right; by left|done].
      * exists pl. split; [|done]. list_elem.
  - rewrite (abs_change s b b' Hopp) by (by destruct s). f_equal. rewrite Hl'.
    rewrite flat_app, flat_cons, level_quotes_app, level_quotes_cons in Hnd.
    rewrite !flat_app, !flat_cons. unfold lvl'. rewrite !level_quotes_app, !level_quotes_cons.
    simpl in *. rewrite <- !app_assoc in *. simpl in *. rewrite !(app_assoc (flat l1)) in *.
    change (ro_order_id o) with (quote_id (p, o)). by rewrite spec_set_units_one.
Qed.

(** ** [replace] *)

Lemma replace_refines_aux r b :
  wf b → ReplaceOrder_wf r →
  ∃ res b', replace r b = Val (res, b') ∧ wf b' ∧ spec_replace r (abs b) = (res, abs b').
Proof.
  intros Hwf (Hseq & Hid & Hq & Hp). unfold replace, spec_replace.
  destruct (resting_orders_ b !! rp_order_id r) as [loc|] eqn:Hl;
    [|rewrite (locate_None b _ Hwf Hl); by eauto].
  destruct (wf_locate b _ loc Hwf Hl)
    as (l1 & [t ns] & l2 & ns1 & o & ns2 & Hlv & Ho & Hoid & _ & Hd).
  destruct (remove_resting_order_ok b _ loc Hwf Hl)
    as (o' & b1 & Hrm & Hd' & _ & Hin & Hwf1 & Hopp & Hseen & Hnin & Hfl).
  rewrite Hd in Hd'. injection Hd' as <-. simpl in Ho. subst ns. rewrite Hd. simpl.
  pose proof (locate_Some _ _ _ Hwf Hin) as Hloc. unfold quote_id in Hloc. simpl in Hloc.
  rewrite Hoid in Hloc. rewrite Hloc. unfold quote_units. simpl.
  destruct (Price.eqb _ _ && _) eqn:Hc.
  - apply andb_prop in Hc as [_ Hc%Z.leb_le].
    rewrite (reduce_eq b loc l1 t ns1 o ns2 l2) by done. simpl.
    destruct (reduce_ok b loc l1 t ns1 o ns2 l2 (rp_new_quantity r)) as [Hwf' Habs]; try done.
    eexists _, _. split_and!; try done. rewrite Habs, abs_side, Hoid. done.
  - rewrite Hrm. simpl.
    assert (abs b1 = set_spec_side (loc_side loc)
      (spec_remove (rp_order_id r) (spec_side (loc_side loc) (abs b))) (abs b)) as Habs.
    { rewrite abs_side, <- Hfl. by apply abs_change. }
    rewrite <- Habs.
    destruct (place_ok b1 (rp_order_id r) (rp_sequence r) (loc_side loc) limit
      (Some (rp_new_price r)) (Quantity.units (rp_new_quantity r)))
      as (b2 & rem & es & -> & Hmk & Hlm); try done.
    { rewrite Hseen. apply book_ids_seen; [done|]. apply book_ids_sides.
      exists (loc_side loc). apply list_elem_of_fmap. by exists (loc_price loc, o). }
    simpl. destruct (decide (rem = 0)) as [->|Hr].
    + destruct Hmk as [? ->]; [by right|]. simpl. eauto.
    + destruct (Hlm _ eq_refl eq_refl Hr) as (Hpos & ? & ->).
      rewrite (proj2 (Z.ltb_lt 0 rem)) by done. rewrite from_units_nonzero by done. simpl. eauto.
Qed.
