(* ===== verification/BookProps.v ===== *)
(** * Properties of the order book

    The theorems a user of [OrderBook] relies on, for every book reachable
    from the empty one: the commands never run into undefined behaviour and
    implement the priority-list specification, the invariant (and the code's
    own [validate_invariants]) holds, the spread is never crossed, executions
    follow price-time priority at prices within the limit, and no unit is
    created or lost. *)

From stdpp Require Import prelude gmap list sorting relations.
From Stdlib Require Import ZArith Lia.
From S2P Require Import Prelude Types OrdMap OrderBook BookSpec BookInv BookMatch BookEdit BookRefine.

Open Scope Z_scope.

(** ** Reachable books *)

Inductive book_step : OrderBook → OrderBook → Prop :=
| step_submit o r b b' : NewOrder_wf o → submit o b = Val (r, b') → book_step b b'
| step_cancel c r b b' : CancelOrder_wf c → cancel c b = Val (r, b') → book_step b b'
| step_replace c r b b' : ReplaceOrder_wf c → replace c b = Val (r, b') → book_step b b'.

Definition reachable (b : OrderBook) : Prop := rtc book_step empty_book b.

Lemma wf_empty : wf empty_book.
Proof.
  split.
  - intros []; split; constructor.
  - by split; try constructor.
  - intros pb pa Hb. by apply elem_of_nil in Hb.
Qed.

Lemma book_step_wf b b' : wf b → book_step b b' → wf b'.
Proof.
  intros Hwf Hstep. destruct Hstep as [o r b b' Ho Hs|c r b b' Hc Hs|c r b b' Hc Hs].
  - destruct (submit_refines_aux o b Hwf Ho) as (? & ? & Hs' & ? & _). congruence.
  - destruct (cancel_refines_aux c b Hwf) as (? & ? & Hs' & ? & _). congruence.
  - destruct (replace_refines_aux c b Hwf Hc) as (? & ? & Hs' & ? & _). congruence.
Qed.

Lemma reachable_wf b : reachable b → wf b.
Proof.
  intros Hr. assert (∀ b0, wf b0 → rtc book_step b0 b → wf b) as H.
  { induction 2; [done|]. eauto using book_step_wf. }
  eapply H; [apply wf_empty|done].
Qed.

(** ** Sweeping *)

Definition exec_units (es : list Execution) : Z :=
  foldr (λ e acc, Quantity.units (ex_quantity e) + acc) 0 es.
Definition quotes_units (l : list quote) : Z := foldr (λ q acc, quote_units q + acc) 0 l.

(** [fills inc es l l']: the executions [es] of incoming order [inc] consume
    the priority list [l] from its head, each order completely before the next
    one is touched, and leave [l']. *)
Inductive fills (inc : OrderId.t) : list Execution → list quote → list quote → Prop :=
| fills_done l : fills inc [] l l
| fills_full es p o l l' :
    fills inc es l l' →
    fills inc (mkExecution (ro_order_id o) inc p (ro_remaining_quantity o) :: es) ((p, o) :: l) l'
| fills_partial n p o l :
    0 < n < Quantity.units (ro_remaining_quantity o) →
    fills inc [mkExecution (ro_order_id o) inc p (Quantity.mk n)] ((p, o) :: l)
      ((p, set_remaining (Quantity.mk (Quantity.units (ro_remaining_quantity o) - n)) o) :: l).

Definition quote_ok (q : quote) : Prop := Quantity.valid (ro_remaining_quantity q.2).

Lemma sweep_spec ok inc l rem es l' rem' :
  Forall quote_ok l → 0 ≤ rem → sweep ok inc rem l = (es, l', rem') →
  fills inc es l l' ∧ rem = exec_units es + rem' ∧ 0 ≤ rem' ∧
  Forall (λ e, ok (ex_price e) = true) es ∧
  (0 < rem' → match l' with [] => True | q :: _ => ok q.1 = false end).
Proof.
  intros Hl. revert rem es l' rem'. induction Hl as [|[p o] l Hq _ IH]; intros rem es l' rem' Hr.
  - simpl. intros [= <- <- <-]. simpl. by split_and!; try constructor.
  - simpl. destruct (Z.ltb_spec 0 rem); simpl;
      [|intros [= <- <- <-]; simpl; split_and!; try done; try constructor; lia].
    destruct (ok p) eqn:Hok; [|intros [= <- <- <-]; simpl; by split_and!; try constructor].
    destruct o as [oid seq [u]]. unfold quote_ok, Quantity.valid in Hq. simpl in *.
    destruct (Z.ltb_spec rem u).
    + intros [= <- <- <-]. simpl. split_and!; try lia.
      * apply (fills_partial inc rem p (mkRestingOrder oid seq (Quantity.mk u)) l). simpl. lia.
      * by apply Forall_singleton.
    + destruct (sweep ok inc (rem - u) l) as [[es1 l1] r1] eqn:E. intros [= <- <- <-].
      apply IH in E as (? & ? & ? & ? & ?); [|lia]. simpl. split_and!; try done; try lia.
      * by apply (fills_full inc es1 p (mkRestingOrder oid seq (Quantity.mk u))).
      * by constructor.
Qed.

Lemma fills_units inc es l l' : fills inc es l l' → quotes_units l = quotes_units l' + exec_units es.
Proof. induction 1; unfold quotes_units, quote_units in *; simpl in *; lia. Qed.

Lemma flat_quote_ok s b : wf b → Forall quote_ok (flat (levels s b)).
Proof.
  intros Hwf. destruct (wf_side b Hwf s) as [_ Hf]. apply Forall_bind.
  apply (Forall_impl _ _ _ Hf). intros pl [_ _ _ Hns]. unfold level_quotes.
  apply Forall_fmap. apply (Forall_impl _ _ _ Hns). by intros n [? _].
Qed.

(** ** Priority order *)

(** The priority list of a side is sorted: no order is at a strictly better
    price than one before it. *)
Definition in_priority (s : Side) (l : list quote) : Prop :=
  StronglySorted (λ q1 q2, side_ltb s q2.1 q1.1 = false) l.

Lemma StronglySorted_app_intro {A} (R : A → A → Prop) l1 l2 :
  StronglySorted R l1 → StronglySorted R l2 → (∀ x y, x ∈ l1 → y ∈ l2 → R x y) →
  StronglySorted R (l1 ++ l2).
Proof.
  intros H1 H2 HR. induction H1 as [|x l1 H1 IH Hx]; simpl; [done|]. constructor.
  - apply IH. intros. apply HR; [by right|done].
  - apply Forall_app. split; [done|]. apply Forall_forall. intros y Hy. apply HR; [by left|done].
Qed.

Lemma flat_in_priority s l : side_ok s l → in_priority s (flat l).
Proof.
  intros [Hs _]. induction l as [|[p lvl] l IH]; [constructor|].
  apply om_sorted_cons in Hs as [Hs Hgt]. change (in_priority s (level_quotes (p, lvl) ++ flat l)).
  apply StronglySorted_app_intro; [|by apply IH|].
  - unfold level_quotes. simpl. induction (orders lvl); csimpl; constructor; [done|].
    apply Forall_fmap, Forall_forall. intros n' _. apply ltb_irrefl.
  - intros q1 q2 [n [-> _]]%list_elem_of_fmap H2. simpl.
    assert (Forall (λ q : quote, side_ltb s p q.1 = true) (flat l)) as Hf
      by (by apply (flat_prices (λ k, side_ltb s p k = true))).
    rewrite Forall_forall in Hf. apply ltb_antisym; [apply _|]. by apply Hf.
Qed.

(** ** The theorems *)

(** C1. [submit] implements its specification: on a well-formed book and a
    well-typed order it terminates without undefined behaviour, the new book
    is well formed, and the result and the new priority lists are those of
    [spec_submit] on the old priority lists, rejections included. *)
Theorem submit_refines o b :
  wf b → NewOrder_wf o →
  ∃ r b', submit o b = Val (r, b') ∧ wf b' ∧ spec_submit o (abs b) = (r, abs b').
Proof. apply submit_refines_aux. Qed.

(** C5. [cancel] implements its specification on every well-formed book, for a
    resting, a filled and an unknown id. *)
Theorem cancel_refines c b :
  wf b → ∃ r b', cancel c b = Val (r, b') ∧ wf b' ∧ spec_cancel c (abs b) = (r, abs b').
Proof. apply cancel_refines_aux. Qed.

(** C2. [replace] implements its specification: the in-place branch and the
    remove-match-rest branch both terminate without undefined behaviour (every
    iterator dereferenced is live) and agree with [spec_replace]. *)
Theorem replace_refines r b :
  wf b → ReplaceOrder_wf r →
  ∃ res b', replace r b = Val (res, b') ∧ wf b' ∧ spec_replace r (abs b) = (res, abs b').
Proof. apply replace_refines_aux. Qed.

(** C6. Every book reachable from the empty one by well-typed commands
    satisfies the representation invariant. *)
Theorem reachable_invariant b : reachable b → wf b.
Proof. apply reachable_wf. Qed.

(** No reachable book is crossed: the best bid is strictly below the best
    ask whenever both exist. *)
Lemma spread_uncrossed b bid ask :
  reachable b → best_bid b = Some bid → best_ask b = Some ask → Price.ticks bid < Price.ticks ask.
Proof.
  intros Hr. apply reachable_wf in Hr as [_ _ Hu]. unfold best_bid, best_ask, best. simpl.
  intros Hb Ha. destruct (bids_ b) as [|pb bs] eqn:Eb; [done|].
  destruct (asks_ b) as [|pa asks] eqn:Ea; [done|]. simplify_eq/=.
  apply Hu; rewrite ?Eb, ?Ea; by left.
Qed.

(** What an accepted submission did, in terms of the priority lists. *)
Lemma submit_accepted_place o b r b' :
  wf b → NewOrder_wf o → submit o b = Val (r, b') → submit_accepted r = true →
  ∃ contra rem,
    sweep (tradable (no_side o) (no_type o) (no_limit_price o)) (no_order_id o)
      (Quantity.units (no_quantity o)) (flat (levels (opposite (no_side o)) b))
      = (sr_executions r, contra, rem) ∧
    flat (levels (opposite (no_side o)) b') = contra ∧
    match sr_remaining_quantity r with
    | Some q => no_type o = limit ∧ Quantity.units q = rem ∧ 0 < rem ∧
        ∃ p, no_limit_price o = Some p ∧ flat (levels (no_side o) b') =
          spec_insert (no_side o) (p, mkRestingOrder (no_order_id o) (no_sequence o) q)
            (flat (levels (no_side o) b))
    | None => (no_type o = market ∨ rem ≤ 0) ∧
        flat (levels (no_side o) b') = flat (levels (no_side o) b)
    end.
Proof.
  intros Hwf Ho Hs Hacc. destruct (submit_refines_aux o b Hwf Ho) as (r1 & b1 & Hs1 & _ & Hsp).
  rewrite Hs in Hs1. injection Hs1 as <- <-.
  rewrite <- !abs_side. destruct (abs b') as [bb aa ss] eqn:Eabs. clear Eabs Hs.
  unfold spec_submit in Hsp. destruct (validate o) eqn:Hval; simpl in Hsp.
  { by injection Hsp as <- _. }
  destruct (bool_decide _); [by injection Hsp as <- _|].
  unfold spec_place in Hsp. change (spec_side ?s (mkSpecBook ?x ?y _)) with
    (spec_side s (mkSpecBook x y (sb_seen (abs b)))) in Hsp.
  apply validate_None in Hval.
  destruct (sweep _ _ _ _) as [[es contra] rem] eqn:E. exists contra, rem.
  destruct (no_type o) eqn:Ety.
  - destruct Hval as [[_ [p Hp]]|[Hc _]]; [|done]. rewrite Hp in *.
    destruct (Z.ltb_spec 0 rem); injection Hsp as <- Hb; simpl in *.
    + destruct (no_side o); simplify_eq/=; split_and!; try done; eauto.
    + destruct (no_side o); simplify_eq/=; split_and!; try done; eauto.
  - destruct Hval as [[? _]|[_ Hp]]; [done|]. rewrite Hp in *. injection Hsp as <- Hb.
    destruct (no_side o); simplify_eq/=; split_and!; try done; eauto.
Qed.

(** C8. Price-time priority: the opposite side is in priority order and the
    executions of an accepted order consume it from its head, each resting
    order completely before the next one is touched, at the resting price. *)
Theorem submit_price_time_priority o b r b' :
  wf b → NewOrder_wf o → submit o b = Val (r, b') → submit_accepted r = true →
  in_priority (opposite (no_side o)) (flat (levels (opposite (no_side o)) b)) ∧
  fills (no_order_id o) (sr_executions r)
    (flat (levels (opposite (no_side o)) b)) (flat (levels (opposite (no_side o)) b')).
Proof.
  intros Hwf Ho Hs Ha. split; [apply flat_in_priority, wf_side, Hwf|].
  destruct (submit_accepted_place o b r b' Hwf Ho Hs Ha) as (contra & rem & Hsw & -> & _).
  destruct Ho as (_ & _ & [? ?] & _).
  apply sweep_spec in Hsw as [? _]; [done|by apply flat_quote_ok|lia].
Qed.

(** C19. Limit protection: every execution of an accepted limit order is at the
    limit or better, a buy never above it and a sell never below it. *)
Theorem submit_respects_limit o b r b' lim :
  wf b → NewOrder_wf o → submit o b = Val (r, b') → submit_accepted r = true →
  no_type o = limit → no_limit_price o = Some lim →
  Forall (λ e, match no_side o with
               | buy => Price.ticks (ex_price e) ≤ Price.ticks lim
               | sell => Price.ticks lim ≤ Price.ticks (ex_price e)
               end) (sr_executions r).
Proof.
  intros Hwf Ho Hs Ha Hty Hlp.
  destruct (submit_accepted_place o b r b' Hwf Ho Hs Ha) as (contra & rem & Hsw & _ & _).
  destruct Ho as (_ & _ & [? ?] & _).
  apply sweep_spec in Hsw as (_ & _ & _ & Hf & _); [|by apply flat_quote_ok|lia].
  apply (Forall_impl _ _ _ Hf). intros e. rewrite Hty, Hlp. unfold tradable, crosses.
  destruct (no_side o); apply Z.leb_le.
Qed.

(** C18. Conservation: the executed units of an accepted limit order plus its
    resting remainder are the submitted units; an accepted market order executes
    at most its units and rests nothing (its remainder is cancelled).  In both
    cases the opposite side loses exactly the executed units and the order's own
    side gains exactly the resting units. *)
Theorem submit_conserves_units o b r b' :
  wf b → NewOrder_wf o → submit o b = Val (r, b') → submit_accepted r = true →
  let rest := default 0 (Quantity.units <$> sr_remaining_quantity r) in
  (match no_type o with
   | limit => Quantity.units (no_quantity o) = exec_units (sr_executions r) + rest
   | market => exec_units (sr_executions r) ≤ Quantity.units (no_quantity o) ∧ rest = 0
   end) ∧
  quotes_units (flat (levels (opposite (no_side o)) b)) =
    quotes_units (flat (levels (opposite (no_side o)) b')) + exec_units (sr_executions r) ∧
  quotes_units (flat (levels (no_side o) b')) = quotes_units (flat (levels (no_side o) b)) + rest.
Proof.
  intros Hwf Ho Hs Ha rest.
  destruct (submit_accepted_place o b r b' Hwf Ho Hs Ha) as (contra & rem & Hsw & Hc & Hm).
  destruct Ho as (_ & _ & [? ?] & _). subst contra.
  apply sweep_spec in Hsw as (Hf & Hsum & Hr & _ & _); [|by apply flat_quote_ok|lia].
  apply fills_units in Hf. unfold rest. split; [|split; [done|]].
  - destruct (sr_remaining_quantity r) as [q|]; simpl.
    + destruct Hm as (-> & ? & ? & _). lia.
    + destruct Hm as [Hm _]. destruct (no_type o); [|lia]. destruct Hm; [done|lia].
  - destruct (sr_remaining_quantity r) as [q|]; simpl.
    + destruct Hm as (_ & _ & _ & p & _ & ->). clear.
      induction (flat _) as [|x l IH]; simpl; [unfold quote_units; simpl; lia|].
      destruct (side_ltb _ _ _); simpl; [unfold quote_units; simpl; lia|].
      unfold quotes_units in *. simpl in *. lia.
    + destruct Hm as [_ ->]. lia.
Qed.

(** Where an inserted order stands. *)
Lemma spec_insert_position s q l :
  in_priority s l →
  ∃ l1 l2, l = l1 ++ l2 ∧ spec_insert s q l = l1 ++ q :: l2 ∧
    Forall (λ x, side_ltb s q.1 x.1 = false) l1 ∧ Forall (λ x, side_ltb s q.1 x.1 = true) l2.
Proof.
  induction 1 as [|x l Hs IH Hx]; simpl; [by exists [], []|].
  destruct (side_ltb s q.1 x.1) eqn:E.
  - exists [], (x :: l). split_and!; try done. constructor; [done|].
    apply (Forall_impl _ _ _ Hx). intros y Hy. destruct (side_ltb s x.1 y.1) eqn:E'.
    + by eapply ltb_trans.
    + by rewrite <- (ltb_total _ _ E' Hy).
  - destruct IH as (l1 & l2 & -> & -> & ? & ?). exists (x :: l1), l2.
    split_and!; try done. by constructor.
Qed.

(** A remainder rests last among the orders at its price: on the order's
    side it stands behind every order at least as good and before every order
    strictly worse, and no other order moves. *)
Lemma submit_rests_last o b r b' q :
  wf b → NewOrder_wf o → submit o b = Val (r, b') → submit_accepted r = true →
  sr_remaining_quantity r = Some q →
  ∃ p l1 l2, no_limit_price o = Some p ∧
    flat (levels (no_side o) b) = l1 ++ l2 ∧
    flat (levels (no_side o) b') =
      l1 ++ (p, mkRestingOrder (no_order_id o) (no_sequence o) q) :: l2 ∧
    Forall (λ x, side_ltb (no_side o) p x.1 = false) l1 ∧
    Forall (λ x, side_ltb (no_side o) p x.1 = true) l2.
Proof.
  intros Hwf Ho Hs Ha Hq.
  destruct (submit_accepted_place o b r b' Hwf Ho Hs Ha) as (contra & rem & _ & _ & Hm).
  rewrite Hq in Hm. destruct Hm as (_ & _ & _ & p & Hp & Hfl).
  destruct (spec_insert_position (no_side o)
    (p, mkRestingOrder (no_order_id o) (no_sequence o) q) (flat (levels (no_side o) b)))
    as (l1 & l2 & ? & Hins & ? & ?); [apply flat_in_priority, wf_side, Hwf|].
  exists p, l1, l2. rewrite Hfl, Hins. by split_and!.
Qed.

(** ** Order ids *)

Lemma set_spec_side_seen s l sb : sb_seen (set_spec_side s l sb) = sb_seen sb.
Proof. by destruct s. Qed.

Lemma spec_place_seen id seq side type lp units sb es q sb' :
  spec_place id seq side type lp units sb = (es, q, sb') → sb_seen sb' = sb_seen sb.
Proof.
  unfold spec_place. destruct (sweep _ _ _ _) as [[? ?] ?].
  destruct type; [destruct lp; [destruct (0 <? _)|]|]; intros [= _ _ <-];
    by rewrite ?set_spec_side_seen.
Qed.

Lemma book_step_seen b b' : wf b → book_step b b' → seen_order_ids_ b ⊆ seen_order_ids_ b'.
Proof.
  intros Hwf Hstep. change (sb_seen (abs b) ⊆ sb_seen (abs b')).
  destruct Hstep as [o r b b' Ho Hs|c r b b' Hc Hs|c r b b' Hc Hs].
  - destruct (submit_refines_aux o b Hwf Ho) as (? & ? & Hs' & _ & Hsp).
    rewrite Hs in Hs'. injection Hs' as <- <-. apply (f_equal snd) in Hsp. simpl in Hsp.
    rewrite <- Hsp. unfold spec_submit. destruct (negb _); [done|]. destruct (bool_decide _); [done|].
    destruct (spec_place _ _ _ _ _ _ _) as [[? ?] sb] eqn:E.
    apply spec_place_seen in E. simpl in *. rewrite E. apply union_subseteq_r.
  - destruct (cancel_refines_aux c b Hwf) as (? & ? & Hs' & _ & Hsp).
    rewrite Hs in Hs'. injection Hs' as <- <-. apply (f_equal snd) in Hsp. simpl in Hsp.
    rewrite <- Hsp. unfold spec_cancel.
    destruct (spec_locate _ _) as [[? ?]|]; [|done]. simpl. by rewrite set_spec_side_seen.
  - destruct (replace_refines_aux c b Hwf Hc) as (? & ? & Hs' & _ & Hsp).
    rewrite Hs in Hs'. injection Hs' as <- <-. apply (f_equal snd) in Hsp. simpl in Hsp.
    rewrite <- Hsp. unfold spec_replace.
    destruct (spec_locate _ _) as [[? ?]|]; [|done].
    destruct (_ && _); [simpl; by rewrite set_spec_side_seen|].
    destruct (spec_place _ _ _ _ _ _ _) as [[? ?] sb] eqn:E.
    apply spec_place_seen in E. rewrite set_spec_side_seen in E. simpl. by rewrite E.
Qed.

(** C20. An id is used once: after a submission of [o] was accepted, every later
    submission with the same id, in every book that later commands can reach,
    is rejected (as a duplicate if it is otherwise valid) and leaves the book
    unchanged. *)
Theorem order_id_never_reused o r b b1 b2 o2 :
  wf b → NewOrder_wf o → submit o b = Val (r, b1) → submit_accepted r = true →
  rtc book_step b1 b2 → no_order_id o2 = no_order_id o →
  submit o2 b2 = Val (mkSubmitResult []
    (Some (if is_none (validate o2) then OrderRejectReason.duplicate_order_id
           else OrderRejectReason.invalid_order)) None, b2).
Proof.
  intros Hwf Ho Hs Ha Hrtc Hid.
  assert (wf b1 ∧ no_order_id o ∈ seen_order_ids_ b1) as [Hwf1 Hin].
  { destruct (submit_refines_aux o b Hwf Ho) as (? & ? & Hs' & Hwf1 & Hsp).
    rewrite Hs in Hs'. injection Hs' as <- <-. split; [done|].
    change (no_order_id o ∈ sb_seen (abs b1)). destruct (abs b1) as [bb aa ss].
    unfold spec_submit in Hsp.
    destruct (negb _); [by injection Hsp as <- _|]. destruct (bool_decide _); [by injection Hsp as <- _|].
    destruct (spec_place _ _ _ _ _ _ _) as [[? ?] sb] eqn:E. apply spec_place_seen in E.
    injection Hsp as _ ->. simpl in *. rewrite E. set_solver. }
  assert (no_order_id o ∈ seen_order_ids_ b2) as Hin2.
  { clear Hs Ha. induction Hrtc as [|x y z Hxy _ IH]; [done|].
    apply IH; [by eapply book_step_wf|]. by eapply book_step_seen. }
  unfold submit. destruct (validate o2); simpl; [done|].
  by rewrite Hid, bool_decide_eq_true_2.
Qed.

(** ** Cancel and replace *)

Lemma contains_spec b id : wf b → contains id b = false ↔ id ∉ book_ids b.
Proof.
  intros Hwf. unfold contains, book_ids. rewrite bool_decide_eq_false, elem_of_list_to_set.
  rewrite <- (index_ok_lookup_None _ _ _ _ _ _ (wf_index b Hwf)), eq_None_not_Some. done.
Qed.

(** After a cancel the id no longer rests, whatever the result of the
    cancel was, and cancelling it again is rejected and changes nothing. *)
Lemma cancel_then_gone c b r b' :
  wf b → cancel c b = Val (r, b') →
  contains (co_order_id c) b' = false ∧
  cancel c b' = Val (mkCancelResult (co_order_id c) None
                       (Some CancelRejectReason.order_not_found), b').
Proof.
  intros Hwf Hc. assert (contains (co_order_id c) b' = false) as Hg.
  { unfold cancel in Hc. destruct (resting_orders_ b !! co_order_id c) as [loc|] eqn:Hl.
    - destruct (remove_resting_order_ok b _ loc Hwf Hl)
        as (o & b1 & Hrm & _ & _ & _ & Hwf' & _ & _ & Hn & _).
      rewrite Hrm in Hc. simpl in Hc. injection Hc as _ <-. by apply contains_spec.
    - injection Hc as _ <-. unfold contains. by rewrite Hl. }
  split; [done|]. unfold cancel, contains in *. apply bool_decide_eq_false in Hg.
  apply eq_None_not_Some in Hg. by rewrite Hg.
Qed.

(** C21. A reduction at an unchanged price keeps time priority: no trade
    happens and the sequence of order ids on both sides is unchanged. *)
Theorem replace_keeps_priority r b res b' s q :
  wf b → ReplaceOrder_wf r → replace r b = Val (res, b') →
  q ∈ flat (levels s b) → quote_id q = rp_order_id r →
  rp_new_price r = q.1 → Quantity.units (rp_new_quantity r) ≤ quote_units q →
  rr_executions res = [] ∧ rr_remaining_quantity res = Some (rp_new_quantity r) ∧
  ∀ s', quote_id <$> flat (levels s' b') = quote_id <$> flat (levels s' b).
Proof.
  intros Hwf Hr Hrep Hq Hid Hp Hu.
  destruct (replace_refines_aux r b Hwf Hr) as (? & ? & Hs' & _ & Hsp).
  rewrite Hrep in Hs'. injection Hs' as <- <-. unfold spec_replace in Hsp.
  pose proof (locate_Some s b q Hwf Hq) as Hl. rewrite Hid in Hl. rewrite Hl in Hsp.
  rewrite Hp in Hsp. unfold Price.eqb in Hsp. rewrite Z.eqb_refl in Hsp.
  rewrite (proj2 (Z.leb_le _ _) Hu) in Hsp. simpl in Hsp.
  apply pair_equal_spec in Hsp as [<- Hb]. split_and!; try done. intros s'.
  rewrite <- !abs_side, <- Hb.
  assert (∀ id v l, quote_id <$> spec_set_units id v l = quote_id <$> l) as Hids.
  { intros id v l. unfold spec_set_units. induction l as [|x l IH]; csimpl; [done|].
    rewrite IH. f_equal. by case_bool_decide. }
  destruct s, s'; simpl; by rewrite ?Hids.
Qed.

Lemma count_flat b :
  wf b →
  resting_order_count_ b = Z.of_nat (length (flat (levels buy b)) + length (flat (levels sell b))).
Proof.
  intros Hwf. destruct (wf_index b Hwf) as [_ _ _ _ _ Hc]. rewrite Hc. f_equal.
  unfold book_kvs. rewrite length_app.
  rewrite <- (length_fmap fst (side_kvs buy _)), <- (length_fmap fst (side_kvs sell _)).
  by rewrite <- !quote_ids, !length_fmap.
Qed.

Lemma count_index b : wf b → resting_order_count_ b = Z.of_nat (size (resting_orders_ b)).
Proof.
  intros Hwf. destruct (wf_index b Hwf) as [Hnd _ _ _ -> Hc]. rewrite Hc. f_equal.
  symmetry. by apply map_size_list_to_map.
Qed.

(** The resting-order counter is exact and never wraps: it is the number
    of resting orders, the size of the index, and at most 2^64 - 1, because
    the ids of resting orders are distinct non-zero 64-bit values. *)
Lemma resting_count_exact b :
  wf b →
  resting_order_count b =
    Z.of_nat (length (flat (levels buy b)) + length (flat (levels sell b))) ∧
  resting_order_count b = Z.of_nat (size (resting_orders_ b)) ∧
  0 ≤ resting_order_count b ≤ u64_max.
Proof.
  intros Hwf. split_and!; [by apply count_flat|by apply count_index|..];
    eapply index_ok_bound, (wf_index b Hwf).
Qed.

(** ** Witnesses

    A book with two resting sells and the commands applied to it. *)

Definition demo_order (seq id : Z) (s : Side) (units : Z) (price : Z) : NewOrder :=
  {| no_sequence := SequenceNumber.mk seq; no_order_id := OrderId.mk id; no_side := s;
     no_type := limit; no_quantity := Quantity.mk units; no_limit_price := Some (Price.mk price) |}.

Definition value_of {A} (o : outcome A) (d : A) : A :=
  match o with
  | Val a => a
  | _ => d
  end.

Definition rejected_submit : SubmitResult := mkSubmitResult [] None None.

Definition demo_book1 : OrderBook :=
  (value_of (submit (demo_order 1 1 sell 10 100) empty_book) (rejected_submit, empty_book)).2.
Definition demo_book : OrderBook :=
  (value_of (submit (demo_order 2 2 sell 5 99) demo_book1) (rejected_submit, empty_book)).2.

Definition demo_buy : NewOrder := demo_order 3 3 buy 20 100.
Definition demo_submit : SubmitResult * OrderBook :=
  value_of (submit demo_buy demo_book) (rejected_submit, empty_book).

Definition demo_cancel : CancelOrder :=
  {| co_sequence := SequenceNumber.mk 4; co_order_id := OrderId.mk 1 |}.
Definition demo_cancelled : CancelResult * OrderBook :=
  value_of (cancel demo_cancel demo_book) (mkCancelResult (OrderId.mk 1) None None, empty_book).

Definition demo_replace : ReplaceOrder :=
  {| rp_sequence := SequenceNumber.mk 4; rp_order_id := OrderId.mk 1;
     rp_new_quantity := Quantity.mk 4; rp_new_price := Price.mk 100 |}.
Definition demo_replaced : ReplaceResult * OrderBook :=
  value_of (replace demo_replace demo_book)
    (mkReplaceResult (OrderId.mk 1) [] None None, empty_book).
Definition demo_quote : quote :=
  (Price.mk 100, mkRestingOrder (OrderId.mk 1) (SequenceNumber.mk 1) (Quantity.mk 10)).

Ltac cmd_wf :=
  unfold NewOrder_wf, CancelOrder_wf, ReplaceOrder_wf, SequenceNumber.valid, OrderId.valid,
    Quantity.valid, Price.valid, u64_max, i64_max; simpl; lia.

Lemma demo_reachable : reachable demo_book.
Proof.
  apply rtc_l with demo_book1; [|apply rtc_once].
  - eapply (step_submit (demo_order 1 1 sell 10 100)); [cmd_wf|by vm_compute].
  - eapply (step_submit (demo_order 2 2 sell 5 99)); [cmd_wf|by vm_compute].
Qed.

Lemma demo_submit_reachable : reachable demo_submit.2.
Proof.
  eapply rtc_r; [apply demo_reachable|].
  eapply (step_submit demo_buy); [cmd_wf|by vm_compute].
Qed.

Lemma demo_wf : wf demo_book.
Proof. apply reachable_wf, demo_reachable. Qed.

Lemma submit_refines_witness :
  ∃ r b', submit demo_buy demo_book = Val (r, b') ∧ wf b' ∧
    spec_submit demo_buy (abs demo_book) = (r, abs b').
Proof. apply submit_refines; [apply demo_wf|cmd_wf]. Defined.

Lemma cancel_refines_witness :
  ∃ r b', cancel demo_cancel demo_book = Val (r, b') ∧ wf b' ∧
    spec_cancel demo_cancel (abs demo_book) = (r, abs b').
Proof. apply cancel_refines, demo_wf. Defined.

Lemma replace_refines_witness :
  ∃ r b', replace demo_replace demo_book = Val (r, b') ∧ wf b' ∧
    spec_replace demo_replace (abs demo_book) = (r, abs b').
Proof. apply replace_refines; [apply demo_wf|cmd_wf]. Defined.

Lemma reachable_invariant_witness : wf demo_submit.2.
Proof. apply reachable_invariant, demo_submit_reachable. Defined.

Definition demo_book2 : OrderBook :=
  (value_of (submit (demo_order 5 5 sell 3 101) demo_submit.2) (rejected_submit, empty_book)).2.

Lemma spread_uncrossed_witness :
  best_bid demo_book2 = Some (Price.mk 100) ∧ best_ask demo_book2 = Some (Price.mk 101) ∧
  Price.ticks (Price.mk 100) < Price.ticks (Price.mk 101).
Proof.
  split; [by vm_compute|]. split; [by vm_compute|].
  apply (spread_uncrossed demo_book2); [|by vm_compute..].
  eapply rtc_r; [apply demo_submit_reachable|].
  eapply (step_submit (demo_order 5 5 sell 3 101)); [cmd_wf|by vm_compute].
Defined.

Lemma submit_price_time_priority_witness :
  length (sr_executions demo_submit.1) = 2%nat ∧
  in_priority sell (flat (asks_ demo_book)) ∧
  fills (OrderId.mk 3) (sr_executions demo_submit.1) (flat (asks_ demo_book))
    (flat (asks_ demo_submit.2)).
Proof.
  split; [by vm_compute|].
  apply (submit_price_time_priority demo_buy demo_book demo_submit.1 demo_submit.2);
    [apply demo_wf|cmd_wf|by vm_compute..].
Defined.

Lemma submit_respects_limit_witness :
  Forall (λ e, Price.ticks (ex_price e) ≤ 100) (sr_executions demo_submit.1).
Proof.
  apply (submit_respects_limit demo_buy demo_book demo_submit.1 demo_submit.2 (Price.mk 100));
    [apply demo_wf|cmd_wf|by vm_compute..].
Defined.

Lemma submit_conserves_units_witness :
  20 = exec_units (sr_executions demo_submit.1) + 5 ∧
  quotes_units (flat (asks_ demo_book)) =
    quotes_units (flat (asks_ demo_submit.2)) + exec_units (sr_executions demo_submit.1) ∧
  quotes_units (flat (bids_ demo_submit.2)) = quotes_units (flat (bids_ demo_book)) + 5.
Proof.
  apply (submit_conserves_units demo_buy demo_book demo_submit.1 demo_submit.2);
    [apply demo_wf|cmd_wf|by vm_compute..].
Defined.

Lemma submit_rests_last_witness :
  ∃ p l1 l2, no_limit_price demo_buy = Some p ∧
    flat (bids_ demo_book) = l1 ++ l2 ∧
    flat (bids_ demo_submit.2) =
      l1 ++ (p, mkRestingOrder (OrderId.mk 3) (SequenceNumber.mk 3) (Quantity.mk 5)) :: l2 ∧
    Forall (λ x, side_ltb buy p x.1 = false) l1 ∧ Forall (λ x, side_ltb buy p x.1 = true) l2.
Proof.
  apply (submit_rests_last demo_buy demo_book demo_submit.1 demo_submit.2 (Quantity.mk 5));
    [apply demo_wf|cmd_wf|by vm_compute..].
Defined.

Lemma order_id_never_reused_witness :
  submit (demo_order 9 3 sell 1 1) demo_book2 = Val (mkSubmitResult []
    (Some OrderRejectReason.duplicate_order_id) None, demo_book2).
Proof.
  apply (order_id_never_reused demo_buy demo_submit.1 demo_book demo_submit.2 demo_book2
    (demo_order 9 3 sell 1 1)); [apply demo_wf|cmd_wf|by vm_compute|by vm_compute| |done].
  apply rtc_once. eapply (step_submit (demo_order 5 5 sell 3 101)); [cmd_wf|by vm_compute].
Defined.

Lemma cancel_then_gone_witness :
  contains (OrderId.mk 1) demo_book = true ∧ contains (OrderId.mk 1) demo_cancelled.2 = false ∧
  cancel demo_cancel demo_cancelled.2 = Val (mkCancelResult (OrderId.mk 1) None
    (Some CancelRejectReason.order_not_found), demo_cancelled.2).
Proof.
  split; [by vm_compute|].
  apply (cancel_then_gone demo_cancel demo_book demo_cancelled.1 demo_cancelled.2);
    [apply demo_wf|by vm_compute].
Defined.

Lemma replace_keeps_priority_witness :
  rr_executions demo_replaced.1 = [] ∧
  rr_remaining_quantity demo_replaced.1 = Some (Quantity.mk 4) ∧
  ∀ s', quote_id <$> flat (levels s' demo_replaced.2) = quote_id <$> flat (levels s' demo_book).
Proof.
  apply (replace_keeps_priority demo_replace demo_book demo_replaced.1 demo_replaced.2 sell
    demo_quote); [apply demo_wf|cmd_wf|by vm_compute| |by vm_compute|done|].
  - apply list_elem_of_lookup. exists 1%nat. by vm_compute.
  - vm_compute. discriminate.
Defined.

Lemma resting_count_exact_witness :
  resting_order_count demo_book = 2 ∧
  resting_order_count demo_book =
    Z.of_nat (length (flat (levels buy demo_book)) + length (flat (levels sell demo_book))) ∧
  resting_order_count demo_book = Z.of_nat (size (resting_orders_ demo_book)) ∧
  0 ≤ resting_order_count demo_book ≤ u64_max.
Proof. split; [by vm_compute|]. apply resting_count_exact, demo_wf. Defined.
