(* ===== verification/BookQueries.v ===== *)
(** * Queries, self-check and digest of the order book

    What the read-only members of [OrderBook] return, stated on the priority
    lists of the abstraction [abs]: [groups] cuts a priority list into its
    price levels.  The depth queries return the levels with their exact totals
    and [validate_invariants] accepts the book, both under the condition that
    no level's total reaches 2^64; the last theorem shows what happens beyond
    it.  The digest is a function of the priority lists alone, so it does not
    depend on the node addresses or on the history that led to a book. *)

From stdpp Require Import prelude gmap list sorting relations.
From Stdlib Require Import ZArith Lia.
From S2P Require Import Prelude Types OrdMap OrderBook BookSpec BookInv BookMatch BookEdit.
From S2P Require Import BookRefine BookProps.

Open Scope Z_scope.

(** ** Price levels of a priority list *)

Fixpoint groups (l : list quote) : list (Price.t * list RestingOrder) :=
  match l with
  | [] => []
  | (p, o) :: l' =>
      match groups l' with
      | (p', os) :: gs => if decide (p' = p) then (p, o :: os) :: gs else (p, [o]) :: (p', os) :: gs
      | [] => [(p, [o])]
      end
  end.

Definition group_units (os : list RestingOrder) : Z :=
  foldr (λ o acc, Quantity.units (ro_remaining_quantity o) + acc) 0 os.

Definition group_quote (g : Price.t * list RestingOrder) : LevelQuote :=
  mkLevelQuote g.1 (Quantity.mk (group_units g.2)) (Z.of_nat (length g.2)).

(** The levels a depth query should show, best first. *)
Definition spec_depth (l : list quote) : list LevelQuote := group_quote <$> groups l.

Definition level_group (pl : Price.t * PriceLevel) : Price.t * list RestingOrder :=
  (pl.1, (orders pl.2).*2).

Lemma groups_level p os rest :
  os ≠ [] → (∀ p' os' gs, groups rest = (p', os') :: gs → p' ≠ p) →
  groups (((λ o, (p, o)) <$> os) ++ rest) = (p, os) :: groups rest.
Proof.
  intros Hne Hrest. induction os as [|o os IH]; [done|]. csimpl.
  destruct os as [|o' os].
  - simpl. destruct (groups rest) as [|[p' os'] gs] eqn:Hg; [done|].
    rewrite decide_False; [done|]. by eapply Hrest.
  - rewrite IH by done. by rewrite decide_True.
Qed.

Lemma groups_flat s l : side_ok s l → groups (flat l) = level_group <$> l.
Proof.
  intros [Hs Hok]. induction l as [|[p lvl] l IH]; [done|].
  apply om_sorted_cons in Hs as [Hs Hgt]. apply Forall_cons in Hok as [Hl Hok].
  unfold flat in *. csimpl. unfold level_quotes at 1. simpl.
  replace ((λ n : node, (p, n.2)) <$> orders lvl)
    with ((λ o, (p, o)) <$> (orders lvl).*2) by (by rewrite <- list_fmap_compose).
  rewrite groups_level; [by rewrite IH| |].
  - destruct Hl as [_ Hne _ _]. simpl in Hne. by destruct (orders lvl).
  - rewrite IH by done. intros p' os' gs Heq ->. destruct l as [|[p'' lvl'] l]; [done|].
    csimpl in Heq. unfold level_group in Heq. simplify_eq. apply Forall_cons in Hgt as [Hlt _]. cbn [fst] in Hlt.
    by rewrite ltb_irrefl in Hlt.
Qed.

Lemma group_units_nodes ns : group_units (ns.*2) = sum_units ns.
Proof. induction ns as [|n ns IH]; csimpl; [done|]. by rewrite IH. Qed.

(** ** Depth queries *)

Section depth.
Context (b : OrderBook) (Hwf : wf b) (Hno : no_overflow b).

Definition level_exact (pl : Price.t * PriceLevel) : Prop :=
  level_quote pl = Val (group_quote (level_group pl)) ∧ total_units pl.2 = sum_units (orders pl.2) ∧
  0 < total_units pl.2.

Lemma levels_exact s : Forall level_exact (levels s b).
Proof.
  destruct (wf_side b Hwf s) as [_ Hok]. apply Forall_forall. intros pl Hpl.
  rewrite Forall_forall in Hok. destruct (Hok pl Hpl) as [_ Hne Ht Hns].
  pose proof (Hno s) as Hsum. rewrite Forall_forall in Hsum. specialize (Hsum pl Hpl).
  pose proof (sum_units_pos _ Hns Hne). unfold u64_max in Hsum. simpl in Hsum.
  assert (total_units pl.2 = sum_units (orders pl.2)) as Heq.
  { rewrite Ht. apply wrap_small. lia. }
  unfold level_exact, level_quote, group_quote, level_group. simpl.
  rewrite group_units_nodes, length_fmap, Heq.
  rewrite from_units_nonzero by lia. done.
Qed.

Lemma spec_depth_flat s : spec_depth (flat (levels s b)) = group_quote ∘ level_group <$> levels s b.
Proof.
  unfold spec_depth. rewrite (groups_flat s) by apply (wf_side b Hwf).
  by rewrite <- list_fmap_compose.
Qed.

Lemma depth_loop_exact n l out :
  Forall level_exact l → (length out ≤ n)%nat →
  depth_loop n l out = Val (out ++ take (n - length out) (group_quote ∘ level_group <$> l)).
Proof.
  intros Hl. revert out. induction Hl as [|pl l [Hq _] _ IH]; intros out Hn; simpl.
  - by rewrite take_nil, app_nil_r.
  - case_bool_decide as Heq.
    + rewrite Heq, Nat.sub_diag, take_0. by rewrite app_nil_r.
    + rewrite Hq, bind_Val, IH by (rewrite length_app; simpl; lia).
      rewrite length_app. simpl. replace (n - length out)%nat with (S (n - (length out + 1))) by lia.
      csimpl. by rewrite <- app_assoc.
Qed.

Lemma copy_loop_exact l done out :
  Forall level_exact l →
  copy_loop l (length done) (done ++ out) =
  Val (done ++ take (length out) (Some ∘ group_quote ∘ level_group <$> l) ++ drop (length l) out).
Proof.
  intros Hl. revert done out. induction Hl as [|pl l [Hq _] _ IH]; intros dn out; csimpl.
  - by rewrite take_nil.
  - case_bool_decide as Heq.
    + rewrite length_app in Heq. destruct out; [by rewrite drop_nil|simpl in Heq; lia].
    + rewrite length_app in Heq. destruct out as [|x out]; [simpl in Heq; lia|].
      rewrite Hq, bind_Val, insert_app_r_alt, Nat.sub_diag by lia. csimpl.
      specialize (IH (dn ++ [Some (group_quote (level_group pl))]) out).
      rewrite length_app, Nat.add_1_r, <- !app_assoc in IH. exact IH.
Qed.

Lemma copy_loop_resize {A} l (out : list A) :
  Forall level_exact l →
  copy_loop l 0 ((λ _, None) <$> out) =
  Val (resize (length out) None (Some <$> (group_quote ∘ level_group <$> l))).
Proof.
  intros Hl. etrans; [exact (copy_loop_exact l [] ((λ _, None) <$> out) Hl)|]. f_equal.
  rewrite app_nil_l.
  rewrite length_fmap, resize_spec, !length_fmap, <- list_fmap_compose. f_equal.
  rewrite (const_fmap _ _ None) by done. by rewrite drop_replicate.
Qed.

(** ** The self-check *)

Definition indexed (side : Side) (price : Price.t) (n : node) : Prop :=
  resting_orders_ b !! ro_order_id n.2 = Some (mkOrderLocation side price n.1) ∧
  deref n.1 b = Val n.2.

Lemma level_indexed side price lvl :
  (price, lvl) ∈ levels side b → Forall (indexed side price) (orders lvl).
Proof.
  intros Hlvl. apply Forall_forall. intros [a o] Hn. split.
  - apply (index_ok_lookup _ _ _ _ _ _ _ (wf_index b Hwf)). rewrite (book_kvs_side side).
    apply elem_of_app. left. unfold side_kvs. apply list_elem_of_bind. exists (price, lvl).
    split; [|done]. by apply (list_elem_of_fmap_2 (kv_of side price) (orders lvl) (a, o)).
  - unfold deref. rewrite (node_at_elem _ a o); [done|by apply all_nodes_NoDup|].
    apply (side_nodes_all side). unfold side_nodes. apply list_elem_of_bind. by exists (price, lvl).
Qed.

Lemma check_orders_exact side price os c :
  Forall (indexed side price) os →
  check_orders b side price os (wrap 64 c) = Val (Some (wrap 64 (c + sum_units os))).
Proof.
  intros Hos. revert c. induction Hos as [|[a o] os [Hix Hd] _ IH]; intros c; simpl.
  - by rewrite Z.add_0_r.
  - simpl in Hix, Hd. rewrite Hix. cbn [loc_side loc_price loc_it]. rewrite Hd, bind_Val.
    rewrite !bool_decide_eq_true_2 by done. simpl.
    destruct (Price_eqb_spec price price); [|done]. simpl.
    rewrite u64_add_wrap_l, IH, Z.add_assoc. done.
Qed.

Lemma check_levels_exact side l n :
  (∀ pl, pl ∈ l → pl ∈ levels side b) → Forall level_exact l → Forall level_ok l →
  check_levels b side l (wrap 64 n) = Val (Some (wrap 64 (n + Z.of_nat (length (flat l))))).
Proof.
  intros Hin Hex Hok. revert n. induction l as [|[p lvl] l IH]; intros n; simpl.
  - by rewrite Z.add_0_r.
  - apply Forall_cons in Hex as [(_ & Ht & Hpos) Hex]. apply Forall_cons in Hok as [[_ Hne _ Hns] Hok].
    simpl in *. rewrite bool_decide_eq_false_2 by done. destruct (Z.eqb_spec (total_units lvl) 0); [lia|].
    simpl. change 0 with (wrap 64 0). rewrite check_orders_exact, bind_Val.
    2:{ apply level_indexed, Hin. by left. }
    destruct (wf_side b Hwf side) as [_ Hall]. rewrite Forall_forall in Hall.
    destruct (Hall (p, lvl)) as [_ _ Htw _]; [apply Hin; by left|]. simpl in Htw.
    rewrite Z.add_0_l, <- Htw, Z.eqb_refl. simpl. rewrite u64_add_wrap_l, IH; try done.
    2:{ intros pl Hpl. apply Hin. by right. }
    unfold flat. csimpl. rewrite length_app. unfold level_quotes at 2. rewrite length_fmap. simpl.
    rewrite Nat2Z.inj_add, Z.add_assoc. done.
Qed.

Lemma not_crossed :
  match bids_ b, asks_ b with
  | (bid, _) :: _, (ask, _) :: _ => Price.geb bid ask
  | _, _ => false
  end = false.
Proof.
  pose proof (wf_uncrossed b Hwf) as Hu. unfold uncrossed in Hu.
  destruct (bids_ b) as [|[bid lb] ?], (asks_ b) as [|[ask la] ?]; try done.
  unfold Price.geb. apply Z.leb_gt. apply (Hu (bid, lb) (ask, la)); by left.
Qed.

End depth.

(** ** The digest *)

Lemma foldl_hash_order h ns1 ns2 :
  ns1.*2 = ns2.*2 → foldl hash_order h ns1 = foldl hash_order h ns2.
Proof.
  revert h ns2. induction ns1 as [|[a1 o1] ns1 IH]; intros h [|[a2 o2] ns2] Heq; try done.
  rewrite !fmap_cons in Heq. injection Heq as Ho Heq. cbn [snd] in Ho. subst o2. cbn [foldl].
  assert (hash_order h (a1, o1) = hash_order h (a2, o1)) as -> by (unfold hash_order; by cbn [snd]).
  by apply IH.
Qed.

Lemma foldl_hash_level h l1 l2 :
  Forall level_ok l1 → Forall level_ok l2 → level_group <$> l1 = level_group <$> l2 →
  foldl hash_level h l1 = foldl hash_level h l2.
Proof.
  intros H1. revert h l2. induction H1 as [|[p1 lv1] l1 Hl1 _ IH]; intros h l2 H2 Heq.
  - by destruct l2.
  - destruct H2 as [|[p2 lv2] l2 Hl2 H2]; [done|]. rewrite !fmap_cons in Heq.
    injection Heq as Hp Ho Heq. cbn [fst snd] in Hp, Ho. subst p2. cbn [foldl].
    assert (hash_level h (p1, lv1) = hash_level h (p1, lv2)) as ->; [|by apply IH].
    unfold hash_level. cbn [fst snd].
    destruct Hl1 as [_ _ Ht1 _], Hl2 as [_ _ Ht2 _]. cbn [snd] in Ht1, Ht2.
    rewrite Ht1, Ht2, <- !group_units_nodes, Ho.
    assert (length (orders lv1) = length (orders lv2)) as ->.
    { apply (f_equal length) in Ho. by rewrite !length_fmap in Ho. }
    by apply foldl_hash_order.
Qed.

Lemma hash_side_flat s l1 l2 h :
  side_ok s l1 → side_ok s l2 → flat l1 = flat l2 → hash_side l1 s h = hash_side l2 s h.
Proof.
  intros H1 H2 Heq. unfold hash_side.
  assert (level_group <$> l1 = level_group <$> l2) as Hg.
  { by rewrite <- (groups_flat s l1 H1), <- (groups_flat s l2 H2), Heq. }
  assert (length l1 = length l2) as ->.
  { rewrite <- (length_fmap level_group l1), Hg. apply length_fmap. }
  by apply foldl_hash_level; [apply H1|apply H2|].
Qed.

Lemma copy_depth_exact b (bid_out ask_out : list (option LevelQuote)) :
  wf b → no_overflow b →
  copy_depth bid_out ask_out b =
    Val (resize (length bid_out) None (Some <$> spec_depth (sb_bids (abs b))),
         resize (length ask_out) None (Some <$> spec_depth (sb_asks (abs b)))).
Proof.
  intros Hwf Hno.
  pose proof (levels_exact b Hwf Hno buy) as Hb. pose proof (levels_exact b Hwf Hno sell) as Ha.
  pose proof (spec_depth_flat b Hwf buy) as Hbf. pose proof (spec_depth_flat b Hwf sell) as Haf.
  simpl in *. rewrite Hbf, Haf. unfold copy_depth. by rewrite !copy_loop_resize.
Qed.

(** ** Claims *)

(** C25. While no level's total reaches 2^64 the depth queries are exact: they
    return, best price first, at most the requested number of levels, each with
    the sum of its resting quantities and its number of orders, and
    [copy_depth] fills the caller's arrays with them and clears the rest. *)
Theorem depth_exact b n (bid_out ask_out : list (option LevelQuote)) :
  wf b → no_overflow b →
  let bids := spec_depth (sb_bids (abs b)) in
  let asks := spec_depth (sb_asks (abs b)) in
  depth n b = Val (mkBookDepth (take n bids) (take n asks)) ∧
  top_bid b = Val (head bids) ∧ top_ask b = Val (head asks) ∧
  copy_depth bid_out ask_out b =
    Val (resize (length bid_out) None (Some <$> bids), resize (length ask_out) None (Some <$> asks)).
Proof.
  intros Hwf Hno bids asks.
  pose proof (copy_depth_exact b bid_out ask_out Hwf Hno) as Hcopy.
  pose proof (levels_exact b Hwf Hno buy) as Hb. pose proof (levels_exact b Hwf Hno sell) as Ha.
  pose proof (spec_depth_flat b Hwf buy) as Hbf. pose proof (spec_depth_flat b Hwf sell) as Haf.
  unfold bids, asks. simpl in *. rewrite Hbf, Haf in *. clear bids asks Hbf Haf.
  split_and!; [..|done].
  - unfold depth, bid_depth, ask_depth. rewrite !depth_loop_exact by (done || simpl; lia).
    simpl. by rewrite Nat.sub_0_r.
  - unfold top_bid, top. simpl. destruct (bids_ b); [done|].
    apply Forall_cons in Hb as [[-> _] _]. done.
  - unfold top_ask, top. simpl. destruct (asks_ b); [done|].
    apply Forall_cons in Ha as [[-> _] _]. done.
Qed.

(** C26. The code's own self-check accepts every well-formed book whose level
    totals do not overflow: spread, levels, totals, index, iterators and the
    counter. *)
Theorem validate_invariants_accepts b :
  wf b → no_overflow b → validate_invariants b = Val true.
Proof.
  intros Hwf Hno. unfold validate_invariants. rewrite not_crossed by done.
  pose proof (check_levels_exact b Hwf buy (bids_ b) 0) as Hb.
  pose proof (check_levels_exact b Hwf sell (asks_ b) (Z.of_nat (length (flat (bids_ b))))) as Ha.
  rewrite wrap_small in Hb by lia.
  rewrite Hb, bind_Val, Z.add_0_l, Ha, bind_Val; try done;
    try apply (levels_exact b Hwf Hno buy); try apply (levels_exact b Hwf Hno sell);
    try apply (wf_side b Hwf buy); try apply (wf_side b Hwf sell).
  pose proof (count_flat b Hwf) as Hc. pose proof (count_index b Hwf) as Hi. simpl in Hc.
  pose proof (index_ok_bound _ _ _ _ _ (wf_index b Hwf)) as Hbound. unfold u64_max in Hbound.
  rewrite wrap_small by lia. rewrite <- Hi, Hc, Nat2Z.inj_add, Z.eqb_refl. done.
Qed.

(** The digest is a function of the resting orders in priority order: two
    well-formed books with the same priority lists have the same digest,
    whatever their node addresses, level objects and histories. *)
Lemma digest_of_priority_lists b1 b2 :
  wf b1 → wf b2 →
  sb_bids (abs b1) = sb_bids (abs b2) → sb_asks (abs b1) = sb_asks (abs b2) →
  state_digest b1 = state_digest b2.
Proof.
  intros H1 H2 Hb Ha. unfold state_digest.
  rewrite (count_flat b1 H1), (count_flat b2 H2). cbn [levels sb_bids sb_asks abs] in *.
  rewrite Hb, Ha.
  rewrite (hash_side_flat buy (bids_ b1) (bids_ b2)) by (apply (wf_side _) || done; done).
  by rewrite (hash_side_flat sell (asks_ b1) (asks_ b2)) by (apply (wf_side _) || done; done).
Qed.

(** Two sells of 2^63 units at one price: their total wraps to zero. *)
Definition heavy_sell (n : Z) : NewOrder := demo_order n n sell (2 ^ 63) 100.
Definition heavy_book1 : OrderBook :=
  (value_of (submit (heavy_sell 1) empty_book) (rejected_submit, empty_book)).2.
Definition heavy_book : OrderBook :=
  (value_of (submit (heavy_sell 2) heavy_book1) (rejected_submit, heavy_book1)).2.

(** C27. A level's aggregate wraps at 2^64: a book reachable by two valid
    orders keeps its representation invariant, but its self-check fails and
    reading the top of the book or copying its depth dereferences an empty
    optional. *)
Theorem level_total_wraps :
  reachable heavy_book ∧ wf heavy_book ∧ ¬ no_overflow heavy_book ∧
  validate_invariants heavy_book = Val false ∧
  top_ask heavy_book = Undef ∧ copy_depth [None] [None] heavy_book = Undef.
Proof.
  assert (reachable heavy_book) as Hr.
  { eapply rtc_l; [eapply (step_submit (heavy_sell 1) _ _ heavy_book1)|
                   eapply rtc_once, (step_submit (heavy_sell 2))];
      try (vm_compute; reflexivity); vm_compute; intuition discriminate. }
  split_and!; [done|by apply reachable_wf| |vm_compute; reflexivity..].
  intros Hno. specialize (Hno sell). rewrite Forall_forall in Hno.
  destruct (levels sell heavy_book) as [|pl l] eqn:Hl; [by vm_compute in Hl|].
  specialize (Hno pl ltac:(by left)). vm_compute in Hl. injection Hl as <- <-.
  vm_compute in Hno. by apply Hno.
Qed.

(** ** Witnesses *)

Lemma demo_no_overflow : no_overflow demo_book.
Proof. intros s. apply (bool_decide_unpack _). destruct s; vm_compute; exact I. Qed.

Lemma depth_exact_witness :
  depth 5 demo_book = Val (mkBookDepth [] (take 5 (spec_depth (sb_asks (abs demo_book))))).
Proof. apply (depth_exact demo_book 5 [] []); [exact demo_wf|exact demo_no_overflow]. Defined.

Lemma validate_invariants_accepts_witness : validate_invariants demo_book = Val true.
Proof. apply (validate_invariants_accepts demo_book); [exact demo_wf|exact demo_no_overflow]. Defined.

(** The two orders of [demo_book] with an order submitted and cancelled before
    them: other node addresses, the same priority lists. *)
Definition demo_extra : OrderBook :=
  (value_of (submit (demo_order 9 9 sell 1 101) empty_book) (rejected_submit, empty_book)).2.
Definition demo_extra_cancel : CancelOrder :=
  {| co_sequence := SequenceNumber.mk 10; co_order_id := OrderId.mk 9 |}.
Definition demo_detour0 : OrderBook :=
  (value_of (cancel demo_extra_cancel demo_extra) (mkCancelResult (OrderId.mk 9) None None,
     demo_extra)).2.
Definition demo_detour1 : OrderBook :=
  (value_of (submit (demo_order 1 1 sell 10 100) demo_detour0) (rejected_submit, empty_book)).2.
Definition demo_detour : OrderBook :=
  (value_of (submit (demo_order 2 2 sell 5 99) demo_detour1) (rejected_submit, empty_book)).2.

Lemma demo_detour_reachable : reachable demo_detour.
Proof.
  apply rtc_l with demo_extra; [|apply rtc_l with demo_detour0; [|apply rtc_l with demo_detour1;
    [|apply rtc_once]]].
  - eapply (step_submit (demo_order 9 9 sell 1 101)); [cmd_wf|by vm_compute].
  - eapply (step_cancel demo_extra_cancel); [cmd_wf|by vm_compute].
  - eapply (step_submit (demo_order 1 1 sell 10 100)); [cmd_wf|by vm_compute].
  - eapply (step_submit (demo_order 2 2 sell 5 99)); [cmd_wf|by vm_compute].
Qed.

Lemma digest_of_priority_lists_witness : state_digest demo_detour = state_digest demo_book.
Proof.
  apply (digest_of_priority_lists demo_detour demo_book); [|exact demo_wf|by vm_compute..].
  apply reachable_wf, demo_detour_reachable.
Defined.
