(* ===== verification/Bytes.v ===== *)
(** * Byte spans and little-endian fields

    A [std::span<std::byte>] is the list of the bytes it views, each a [Z] in
    [0, 256).  Reading or writing [span[i]] outside the span is undefined.
    [src/protocol.cpp] reads and writes 16- and 64-bit little-endian fields
    through such spans; the loops are kept as the code has them and related to
    the closed forms [le_bytes] and [le_value].  A write through a span changes
    the viewed memory, so a writer takes the contents and returns the new ones;
    [splice] is the closed form of a run of writes. *)

From stdpp Require Import prelude list.
From Stdlib Require Import ZArith Lia.
From S2P Require Import Prelude.

Open Scope Z_scope.

Notation span := (list Z).

Definition byte_ok (b : Z) : Prop := 0 ≤ b < 256.
Definition bytes_ok (l : span) : Prop := Forall byte_ok l.

(** [in[i]] *)
Definition byte_at (s : span) (i : nat) : outcome Z := deref_opt (s !! i).

(** [out[i] = static_cast<std::byte>(b)] *)
Definition set_byte (s : span) (i : nat) (b : Z) : outcome span :=
  if decide (i < length s)%nat then Val (<[i:=b]> s) else Undef.

(** [v << k] on a 64-bit unsigned value. *)
Definition u64_shl (v k : Z) : Z := wrap 64 (Z.shiftl v k).

Definition read_u16_le (s : span) (offset : nat) : outcome Z :=
  low ← byte_at s offset;
  high ← byte_at s (offset + 1);
  Val (wrap 16 (Z.lor low (wrap 16 (Z.shiftl high 8)))).

Definition write_u16_le (out : span) (offset : nat) (value : Z) : outcome span :=
  out ← set_byte out offset (Z.land value 0xFF);
  set_byte out (offset + 1) (Z.land (Z.shiftr value 8) 0xFF).

Definition read_u64_le (s : span) (offset : nat) : outcome Z :=
  for_range 8 (λ i val,
    b ← byte_at s (offset + i);
    Val (Z.lor val (u64_shl b (Z.of_nat i * 8)))) 0.

Definition read_i64_le (s : span) (offset : nat) : outcome Z :=
  v ← read_u64_le s offset; Val (to_i64 v).

Definition write_u64_le (out : span) (offset : nat) (value : Z) : outcome span :=
  for_range 8 (λ i out,
    set_byte out (offset + i) (Z.land (Z.shiftr value (Z.of_nat i * 8)) 0xFF)) out.

Definition write_i64_le (out : span) (offset : nat) (value : Z) : outcome span :=
  write_u64_le out offset (of_i64 value).

(** The loop over reserved bytes: is some byte of the [n] from [offset] not zero? *)
Fixpoint reserved_nonzero (s : span) (offset n : nat) : outcome bool :=
  match n with
  | O => Val false
  | S n' =>
      b ← byte_at s offset;
      if b =? 0 then reserved_nonzero s (S offset) n' else Val true
  end.

Definition write_zeros (out : span) (offset n : nat) : outcome span :=
  for_range n (λ i out, set_byte out (offset + i) 0) out.

(** ** Closed forms *)

Fixpoint le_bytes (n : nat) (v : Z) : list Z :=
  match n with
  | O => []
  | S n' => v `mod` 256 :: le_bytes n' (v / 256)
  end.

Fixpoint le_value (bs : list Z) : Z :=
  match bs with
  | [] => 0
  | b :: bs => b + 256 * le_value bs
  end.

Definition splice (off : nat) (bs out : list Z) : list Z :=
  take off out ++ bs ++ drop (off + length bs) out.

Lemma length_le_bytes n v : length (le_bytes n v) = n.
Proof. revert v. induction n; intros; simpl; auto. Qed.

Lemma le_bytes_ok n v : bytes_ok (le_bytes n v).
Proof.
  revert v. induction n; intros v; simpl; constructor; [|apply IHn].
  apply Z.mod_pos_bound. lia.
Qed.

Lemma le_value_le_bytes n v : le_value (le_bytes n v) = v `mod` 256 ^ Z.of_nat n.
Proof.
  revert v. induction n as [|n IH]; intros v; cbn [le_bytes le_value].
  - by rewrite Z.pow_0_r, Z.mod_1_r.
  - rewrite IH, Nat2Z.inj_succ, Z.pow_succ_r by lia.
    rewrite Z.rem_mul_r by (try apply Z.pow_pos_nonneg; lia). lia.
Qed.

Lemma le_value_bound bs : bytes_ok bs → 0 ≤ le_value bs < 256 ^ Z.of_nat (length bs).
Proof.
  induction 1 as [|b bs Hb _ IH]; cbn [le_value length]; [lia|].
  unfold byte_ok in Hb. rewrite Nat2Z.inj_succ, Z.pow_succ_r by lia. lia.
Qed.

Lemma le_bytes_le_value bs : bytes_ok bs → le_bytes (length bs) (le_value bs) = bs.
Proof.
  induction 1 as [|b bs Hb _ IH]; [done|]. unfold byte_ok in Hb. cbn [length le_bytes le_value].
  rewrite Z.add_comm, Z.mul_comm. f_equal.
  - rewrite Z.add_comm, Z_mod_plus_full. by apply Z.mod_small.
  - rewrite Z.div_add_l, Z.div_small, Z.add_0_r by lia. done.
Qed.

(** A value below [2^k] and a multiple of [2^k] have disjoint bits. *)
Lemma lor_shiftl b v k : 0 ≤ k → 0 ≤ b < 2 ^ k → Z.lor b (Z.shiftl v k) = b + v * 2 ^ k.
Proof.
  intros Hk Hb. rewrite <- Z.shiftl_mul_pow2 by done.
  assert (Z.land b (Z.shiftl v k) = 0) as Hl.
  { apply Z.bits_inj'. intros i Hi. rewrite Z.land_spec, Z.bits_0.
    destruct (Z.ltb_spec i k).
    - rewrite Z.shiftl_spec_low by done. apply andb_false_r.
    - destruct (Z.eq_dec b 0) as [->|]; [by rewrite Z.bits_0|].
      rewrite Z.bits_above_log2; [done|lia|].
      apply Z.lt_le_trans with k; [|done]. apply Z.log2_lt_pow2; lia. }
  by rewrite Z.add_nocarry_lxor, Z.lxor_lor.
Qed.

(** ** Spans *)

Lemma byte_at_app_r s1 s2 i : byte_at (s1 ++ s2) (length s1 + i) = byte_at s2 i.
Proof.
  unfold byte_at. rewrite lookup_app_r by lia. do 2 f_equal. lia.
Qed.

Lemma set_byte_splice out i b :
  (i < length out)%nat → set_byte out i b = Val (splice i [b] out).
Proof.
  intros Hi. unfold set_byte, splice. rewrite decide_True by done. f_equal.
  simpl. rewrite Nat.add_1_r. by apply insert_take_drop.
Qed.

Lemma length_splice off bs out :
  (off + length bs ≤ length out)%nat → length (splice off bs out) = length out.
Proof. intros. unfold splice. rewrite !length_app, length_take, length_drop. lia. Qed.

Lemma splice_nil off out : splice off [] out = out.
Proof. unfold splice. simpl. rewrite Nat.add_0_r. apply take_drop. Qed.

Lemma splice_splice off off' bs1 bs2 out :
  off' = (off + length bs1)%nat → (off' + length bs2 ≤ length out)%nat →
  splice off' bs2 (splice off bs1 out) = splice off (bs1 ++ bs2) out.
Proof.
  intros -> Hl. unfold splice.
  assert (length (take off out) = off) as Ht by (rewrite length_take; lia).
  rewrite (app_assoc _ bs1), take_app_length' by (rewrite length_app; lia).
  rewrite drop_app_ge by (rewrite length_app; lia).
  rewrite drop_drop, !length_app, Ht, <- !app_assoc. do 4 f_equal. lia.
Qed.

Lemma splice_all bs out : length bs = length out → splice 0 bs out = bs.
Proof. intros Hl. unfold splice. simpl. rewrite drop_ge by lia. apply app_nil_r. Qed.

Lemma take_splice_0 bs out : take (length bs) (splice 0 bs out) = bs.
Proof. unfold splice. simpl. by rewrite take_app_length. Qed.

Lemma drop_splice_0 bs out : drop (length bs) (splice 0 bs out) = drop (length bs) out.
Proof. unfold splice. simpl. by rewrite drop_app_length. Qed.

(** ** The field accessors *)

Lemma land_255 v : Z.land v 255 = v `mod` 256.
Proof. change 255 with (Z.ones 8). by rewrite Z.land_ones by lia. Qed.

Lemma write_u16_le_ok out off v :
  (off + 2 ≤ length out)%nat → write_u16_le out off v = Val (splice off (le_bytes 2 v) out).
Proof.
  intros Hl. unfold write_u16_le. rewrite set_byte_splice, bind_Val by lia.
  rewrite set_byte_splice by (rewrite length_splice; simpl; lia).
  rewrite splice_splice by (simpl; lia).
  by rewrite !land_255, Z.shiftr_div_pow2 by lia.
Qed.

Lemma write_loop_ok out off v n i :
  (off + i + n ≤ length out)%nat →
  for_from i n (λ i out,
    set_byte out (off + i) (Z.land (Z.shiftr v (Z.of_nat i * 8)) 0xFF)) out
  = Val (splice (off + i) (le_bytes n (Z.shiftr v (Z.of_nat i * 8))) out).
Proof.
  revert i out. induction n as [|n IH]; intros i out Hl; cbn [for_from le_bytes].
  - by rewrite splice_nil.
  - rewrite set_byte_splice, bind_Val by lia.
    rewrite IH by (rewrite length_splice; simpl; lia). f_equal.
    rewrite splice_splice by (rewrite ?length_le_bytes; simpl; lia).
    rewrite land_255. simpl. do 2 f_equal.
    rewrite Nat2Z.inj_succ. change 256 with (2 ^ 8).
    rewrite <- Z.shiftr_div_pow2, Z.shiftr_shiftr by lia. do 2 f_equal. lia.
Qed.

Lemma write_u64_le_ok out off v :
  (off + 8 ≤ length out)%nat → write_u64_le out off v = Val (splice off (le_bytes 8 v) out).
Proof.
  intros Hl. unfold write_u64_le. rewrite write_loop_ok by lia.
  by rewrite Nat.add_0_r, Z.shiftr_0_r.
Qed.

Lemma write_i64_le_ok out off v :
  (off + 8 ≤ length out)%nat →
  write_i64_le out off v = Val (splice off (le_bytes 8 (of_i64 v)) out).
Proof. apply write_u64_le_ok. Qed.

Lemma write_zeros_ok out off n :
  (off + n ≤ length out)%nat → write_zeros out off n = Val (splice off (replicate n 0) out).
Proof.
  unfold write_zeros. intros Hl.
  assert (∀ i out, (off + i + n ≤ length out)%nat →
    for_from i n (λ i out, set_byte out (off + i) 0) out
    = Val (splice (off + i) (replicate n 0) out)) as IH.
  { clear. induction n as [|n IH]; intros i out Hl; cbn [for_from replicate].
    - by rewrite splice_nil.
    - rewrite set_byte_splice, bind_Val by lia.
      rewrite IH by (rewrite length_splice; simpl; lia). f_equal.
      by rewrite splice_splice by (rewrite ?length_replicate; simpl; lia). }
  rewrite IH by lia. by rewrite Nat.add_0_r.
Qed.

Lemma read_loop_ok (w : Z) (s : span) off bs rest i val :
  drop (off + i) s = bs ++ rest → Z.of_nat (i + length bs) * 8 ≤ w → bytes_ok bs →
  for_from i (length bs) (λ i val,
    b ← byte_at s (off + i); Val (Z.lor val (wrap w (Z.shiftl b (Z.of_nat i * 8))))) val
  = Val (Z.lor val (Z.shiftl (le_value bs) (Z.of_nat i * 8))).
Proof.
  revert i val. induction bs as [|b bs IH]; intros i val Hd Hl Hok;
    cbn [for_from length le_value].
  - by rewrite Z.shiftl_0_l, Z.lor_0_r.
  - inversion Hok as [|?? Hb Hbs]; subst. cbn [length] in Hl.
    assert (byte_at s (off + i) = Val b) as ->.
    { unfold byte_at. rewrite <- (Nat.add_0_r (off + i)), <- lookup_drop, Hd. done. }
    rewrite bind_Val, bind_Val, IH; [|..|done].
    + f_equal. rewrite <- Z.lor_assoc. f_equal.
      replace (b + 256 * le_value bs) with (b + le_value bs * 2 ^ 8) by lia.
      unfold byte_ok in Hb. rewrite <- (lor_shiftl b (le_value bs) 8), Z.shiftl_lor by lia.
      rewrite Z.shiftl_shiftl by lia. f_equal; [|f_equal; lia].
      apply wrap_small. rewrite Z.shiftl_mul_pow2 by lia. split; [lia|].
      apply Z.lt_le_trans with (2 ^ 8 * 2 ^ (Z.of_nat i * 8)).
      { apply Z.mul_lt_mono_pos_r; [apply Z.pow_pos_nonneg|]; lia. }
      rewrite <- Z.pow_add_r by lia. apply Z.pow_le_mono_r; lia.
    + rewrite Nat.add_succ_r, <- Nat.add_1_r, <- drop_drop, Hd. done.
    + lia.
Qed.

Lemma read_u64_le_ok s1 bs s2 :
  length bs = 8%nat → bytes_ok bs → read_u64_le (s1 ++ bs ++ s2) (length s1) = Val (le_value bs).
Proof.
  intros Hl Hok. unfold read_u64_le, u64_shl. rewrite <- Hl.
  rewrite (read_loop_ok 64 _ _ bs s2); [|by rewrite Nat.add_0_r, drop_app_length|lia|done].
  by rewrite Z.shiftl_0_r.
Qed.

Lemma read_i64_le_ok s1 bs s2 :
  length bs = 8%nat → bytes_ok bs →
  read_i64_le (s1 ++ bs ++ s2) (length s1) = Val (to_i64 (le_value bs)).
Proof. intros. unfold read_i64_le. by rewrite read_u64_le_ok. Qed.

Lemma read_u16_le_ok s1 bs s2 :
  length bs = 2%nat → bytes_ok bs → read_u16_le (s1 ++ bs ++ s2) (length s1) = Val (le_value bs).
Proof.
  intros Hl Hok. destruct bs as [|b0 [|b1 []]]; try discriminate.
  apply Forall_cons in Hok as [Hb0 [Hb1 _]%Forall_cons]. unfold byte_ok in *.
  unfold read_u16_le. rewrite <- (Nat.add_0_r (length s1)), byte_at_app_r.
  rewrite Nat.add_0_r, byte_at_app_r. cbn [app byte_at lookup list_lookup deref_opt le_value].
  rewrite !bind_Val. f_equal.
  rewrite (wrap_small 16 (Z.shiftl b1 8)) by (rewrite Z.shiftl_mul_pow2 by lia; lia).
  rewrite lor_shiftl by lia. rewrite wrap_small by lia. lia.
Qed.

Lemma reserved_nonzero_ok s1 bs s2 :
  reserved_nonzero (s1 ++ bs ++ s2) (length s1) (length bs)
  = Val (negb (bool_decide (bs = replicate (length bs) 0))).
Proof.
  revert s1. induction bs as [|b bs IH]; intros s1; cbn [reserved_nonzero length replicate]; [done|].
  rewrite <- (Nat.add_0_r (length s1)) at 1. rewrite byte_at_app_r.
  cbn [app byte_at lookup list_lookup deref_opt]. rewrite bind_Val.
  destruct (Z.eqb_spec b 0) as [->|].
  - specialize (IH (s1 ++ [0])). rewrite <- app_assoc, length_app, Nat.add_1_r in IH.
    cbn [app] in IH. rewrite IH. do 2 f_equal. apply bool_decide_ext. split; congruence.
  - by rewrite bool_decide_eq_false_2 by congruence.
Qed.
