(* ===== verification/Protocol.v ===== *)
(** * The wire protocol

    Models [include/low_latency_exchange/protocol.hpp] and [src/protocol.cpp]:
    the 8-byte header, the fixed-size payloads of commands and events, and the
    framing helper.  The enumerations have a fixed underlying type and the
    decoders [static_cast] arbitrary integers into them, so a [MessageType.t]
    or [ErrorCode.t] is the underlying integer and the enumerators are named
    constants.  An encoder takes the contents of the output span and returns
    the boolean of the code with the new contents; a decoder takes the previous
    value of its [out] argument and returns the optional error with the value
    [out] has afterwards. *)

From stdpp Require Import prelude list.
From Stdlib Require Import ZArith Lia.
From S2P Require Import Prelude Types OrderBook Bytes.

Open Scope Z_scope.

Definition kMagic : Z := 0x584C.
Definition kVersion : Z := 1.
Definition kHeaderSize : nat := 8.
Definition kMaxPayloadLength : Z := 1024.
Definition kFlagMore : Z := 0x0001.
Definition kFlagReservedMask : Z := 0xFFFE.

Module MessageType.
Definition t : Type := Z.
Definition new_order : t := 1.
Definition cancel_order : t := 2.
Definition replace_order : t := 3.
Definition order_accepted : t := 16.
Definition order_rejected : t := 17.
Definition execution : t := 18.
Definition cancel_accepted : t := 19.
Definition cancel_rejected : t := 20.
Definition replace_accepted : t := 21.
Definition replace_rejected : t := 22.
Definition protocol_error : t := 23.
End MessageType.

Module ErrorCode.
Definition t : Type := Z.
Definition malformed_frame : t := 1.
Definition unsupported_version : t := 2.
Definition unknown_message_type : t := 3.
Definition payload_length_invalid : t := 4.
Definition payload_too_large : t := 5.
Definition invalid_field : t := 6.
Definition limit_order_missing_price : t := 7.
Definition market_order_has_price : t := 8.
Definition invalid_order : t := 100.
Definition duplicate_order_id : t := 101.
Definition order_not_found : t := 102.
Definition session_overloaded : t := 200.
Definition sequence_out_of_order : t := 201.
End ErrorCode.

Record WireHeader : Type := {
  magic : Z;
  version : Z;
  wh_type : MessageType.t;
  flags : Z;
  payload_length : Z;
}.

Module layout.
Definition kNewOrderSize : nat := 40.
Definition kCancelOrderSize : nat := 16.
Definition kReplaceOrderSize : nat := 32.
Definition kOrderAcceptedSize : nat := 24.
Definition kOrderRejectedSize : nat := 24.
Definition kExecutionSize : nat := 40.
Definition kCancelAcceptedSize : nat := 24.
Definition kCancelRejectedSize : nat := 24.
Definition kReplaceAcceptedSize : nat := 24.
Definition kReplaceRejectedSize : nat := 24.
Definition kProtocolErrorSize : nat := 8.

Definition kSequenceOffset : nat := 0.
Definition kOrderIdOffset : nat := 8.
Definition kNewOrderQuantityOffset : nat := 16.
Definition kNewOrderPriceOffset : nat := 24.
Definition kNewOrderSideOffset : nat := 32.
Definition kNewOrderTypeOffset : nat := 33.
Definition kNewOrderReservedOffset : nat := 34.
Definition kNewOrderReservedSize : nat := 6.

Definition kReplaceQuantityOffset : nat := 16.
Definition kReplacePriceOffset : nat := 24.

Definition kRemainingQuantityOffset : nat := 16.
Definition kRejectErrorCodeOffset : nat := 16.
Definition kRejectReservedOffset : nat := 18.
Definition kRejectReservedSize : nat := 6.

Definition kExecutionRestingIdOffset : nat := 8.
Definition kExecutionIncomingIdOffset : nat := 16.
Definition kExecutionPriceOffset : nat := 24.
Definition kExecutionQuantityOffset : nat := 32.

Definition kCancelledQuantityOffset : nat := 16.

Definition kProtocolErrorCodeOffset : nat := 0.
Definition kProtocolErrorTypeOffset : nat := 2.
Definition kProtocolErrorReservedOffset : nat := 3.
Definition kProtocolErrorReservedSize : nat := 5.
End layout.
Import layout.

Definition is_inbound (type : MessageType.t) : bool := (1 <=? type) && (type <=? 15).
Definition is_outbound (type : MessageType.t) : bool := (16 <=? type) && (type <=? 31).

Definition flags_reserved_bits_clear (flags : Z) : bool :=
  Z.land flags kFlagReservedMask =? 0.

Definition expected_payload_length (type : MessageType.t) : option Z :=
  if type =? MessageType.new_order then Some (Z.of_nat kNewOrderSize)
  else if type =? MessageType.cancel_order then Some (Z.of_nat kCancelOrderSize)
  else if type =? MessageType.replace_order then Some (Z.of_nat kReplaceOrderSize)
  else if type =? MessageType.order_accepted then Some (Z.of_nat kOrderAcceptedSize)
  else if type =? MessageType.order_rejected then Some (Z.of_nat kOrderRejectedSize)
  else if type =? MessageType.execution then Some (Z.of_nat kExecutionSize)
  else if type =? MessageType.cancel_accepted then Some (Z.of_nat kCancelAcceptedSize)
  else if type =? MessageType.cancel_rejected then Some (Z.of_nat kCancelRejectedSize)
  else if type =? MessageType.replace_accepted then Some (Z.of_nat kReplaceAcceptedSize)
  else if type =? MessageType.replace_rejected then Some (Z.of_nat kReplaceRejectedSize)
  else if type =? MessageType.protocol_error then Some (Z.of_nat kProtocolErrorSize)
  else None.

Definition is_known_message_type (type : MessageType.t) : bool :=
  bool_decide (is_Some (expected_payload_length type)).

Definition validate_header (header : WireHeader) : option ErrorCode.t :=
  if negb (magic header =? kMagic) then Some ErrorCode.malformed_frame
  else if negb (version header =? kVersion) then Some ErrorCode.unsupported_version
  else if kMaxPayloadLength <? payload_length header then Some ErrorCode.payload_too_large
  else if negb (flags_reserved_bits_clear (flags header)) then Some ErrorCode.invalid_field
  else match expected_payload_length (wh_type header) with
  | None => Some ErrorCode.unknown_message_type
  | Some expected =>
      if negb (payload_length header =? expected) then Some ErrorCode.payload_length_invalid
      else None
  end.

Definition encode_header (header : WireHeader) (out : span) : outcome (bool * span) :=
  if decide (length out < kHeaderSize)%nat then Val (false, out) else
  out ← write_u16_le out 0 (magic header);
  out ← set_byte out 2 (version header);
  out ← set_byte out 3 (wh_type header);
  out ← write_u16_le out 4 (flags header);
  out ← write_u16_le out 6 (payload_length header);
  Val (true, out).

Definition decode_header (s : span) : outcome (option WireHeader) :=
  if decide (length s < kHeaderSize)%nat then Val None else
  magic ← read_u16_le s 0;
  version ← byte_at s 2;
  type ← byte_at s 3;
  flags ← read_u16_le s 4;
  payload_length ← read_u16_le s 6;
  Val (Some {| magic := magic; version := version; wh_type := type;
               flags := flags; payload_length := payload_length |}).

(** ** Event payloads *)

Record OrderAcceptedEvent : Type := {
  oa_sequence : SequenceNumber.t;
  oa_order_id : OrderId.t;
  oa_remaining_quantity : Z;
}.

Record OrderRejectedEvent : Type := {
  or_sequence : SequenceNumber.t;
  or_order_id : OrderId.t;
  or_error_code : ErrorCode.t;
}.

Record ExecutionEvent : Type := {
  ee_sequence : SequenceNumber.t;
  ee_resting_order_id : OrderId.t;
  ee_incoming_order_id : OrderId.t;
  ee_price : Price.t;
  ee_quantity : Quantity.t;
}.

Record CancelAcceptedEvent : Type := {
  ca_sequence : SequenceNumber.t;
  ca_order_id : OrderId.t;
  ca_cancelled_quantity : Quantity.t;
}.

Record ProtocolErrorEvent : Type := {
  pe_error_code : ErrorCode.t;
  pe_offending_type : Z;
}.

(** The three overloads of [to_error_code]. *)
Definition to_error_code_order (reason : OrderRejectReason.t) : ErrorCode.t :=
  match reason with
  | OrderRejectReason.invalid_order => ErrorCode.invalid_order
  | OrderRejectReason.market_orders_not_supported => ErrorCode.invalid_order
  | OrderRejectReason.duplicate_order_id => ErrorCode.duplicate_order_id
  end.
Definition to_error_code_cancel (reason : CancelRejectReason.t) : ErrorCode.t :=
  ErrorCode.order_not_found.
Definition to_error_code_replace (reason : ReplaceRejectReason.t) : ErrorCode.t :=
  ErrorCode.order_not_found.

(** ** Inbound command codecs *)

Definition decode_new_order (s : span) (out : NewOrder)
  : outcome (option ErrorCode.t * NewOrder) :=
  if negb (bool_decide (length s = kNewOrderSize))
  then Val (Some ErrorCode.payload_length_invalid, out) else
  seq_val ← read_u64_le s kSequenceOffset;
  oid_val ← read_u64_le s kOrderIdOffset;
  qty_val ← read_u64_le s kNewOrderQuantityOffset;
  price_val ← read_i64_le s kNewOrderPriceOffset;
  side_byte ← byte_at s kNewOrderSideOffset;
  type_byte ← byte_at s kNewOrderTypeOffset;
  reserved ← reserved_nonzero s kNewOrderReservedOffset kNewOrderReservedSize;
  if reserved : bool then Val (Some ErrorCode.invalid_field, out) else
  if (seq_val =? 0) || (oid_val =? 0) || (qty_val =? 0) || (1 <? side_byte) || (1 <? type_byte)
     || (price_val <? 0)
  then Val (Some ErrorCode.invalid_field, out) else
  match SequenceNumber.from_value seq_val, OrderId.from_value oid_val,
        Quantity.from_units qty_val with
  | Some seq, Some oid, Some qty =>
      let side := if side_byte =? 0 then buy else sell in
      let type := if type_byte =? 0 then limit else market in
      let done limit_price :=
        Val (None, {| no_sequence := seq; no_order_id := oid; no_side := side; no_type := type;
                      no_quantity := qty; no_limit_price := limit_price |}) in
      match type with
      | limit =>
          if price_val =? 0 then Val (Some ErrorCode.limit_order_missing_price, out) else
          match Price.from_ticks price_val with
          | None => Val (Some ErrorCode.invalid_field, out)
          | limit_price => done limit_price
          end
      | market =>
          if negb (price_val =? 0) then Val (Some ErrorCode.market_order_has_price, out)
          else done None
      end
  | _, _, _ => Val (Some ErrorCode.invalid_field, out)
  end.

Definition decode_cancel_order (s : span) (out : CancelOrder)
  : outcome (option ErrorCode.t * CancelOrder) :=
  if negb (bool_decide (length s = kCancelOrderSize))
  then Val (Some ErrorCode.payload_length_invalid, out) else
  seq_val ← read_u64_le s kSequenceOffset;
  oid_val ← read_u64_le s kOrderIdOffset;
  if (seq_val =? 0) || (oid_val =? 0) then Val (Some ErrorCode.invalid_field, out) else
  match SequenceNumber.from_value seq_val, OrderId.from_value oid_val with
  | Some seq, Some oid => Val (None, {| co_sequence := seq; co_order_id := oid |})
  | _, _ => Val (Some ErrorCode.invalid_field, out)
  end.

Definition decode_replace_order (s : span) (out : ReplaceOrder)
  : outcome (option ErrorCode.t * ReplaceOrder) :=
  if negb (bool_decide (length s = kReplaceOrderSize))
  then Val (Some ErrorCode.payload_length_invalid, out) else
  seq_val ← read_u64_le s kSequenceOffset;
  oid_val ← read_u64_le s kOrderIdOffset;
  qty_val ← read_u64_le s kReplaceQuantityOffset;
  price_val ← read_i64_le s kReplacePriceOffset;
  if (seq_val =? 0) || (oid_val =? 0) || (qty_val =? 0) || (price_val <=? 0)
  then Val (Some ErrorCode.invalid_field, out) else
  match SequenceNumber.from_value seq_val, OrderId.from_value oid_val,
        Quantity.from_units qty_val, Price.from_ticks price_val with
  | Some seq, Some oid, Some qty, Some price =>
      Val (None, {| rp_sequence := seq; rp_order_id := oid;
                    rp_new_quantity := qty; rp_new_price := price |})
  | _, _, _, _ => Val (Some ErrorCode.invalid_field, out)
  end.

Definition encode_new_order (order : NewOrder) (out : span) : outcome (bool * span) :=
  if decide (length out < kNewOrderSize)%nat then Val (false, out) else
  out ← write_u64_le out kSequenceOffset (SequenceNumber.value (no_sequence order));
  out ← write_u64_le out kOrderIdOffset (OrderId.value (no_order_id order));
  out ← write_u64_le out kNewOrderQuantityOffset (Quantity.units (no_quantity order));
  out ← write_i64_le out kNewOrderPriceOffset
          (match no_limit_price order with Some p => Price.ticks p | None => 0 end);
  out ← set_byte out kNewOrderSideOffset (if decide (no_side order = buy) then 0 else 1);
  out ← set_byte out kNewOrderTypeOffset (if decide (no_type order = limit) then 0 else 1);
  out ← write_zeros out kNewOrderReservedOffset kNewOrderReservedSize;
  Val (true, out).

Definition encode_cancel_order (order : CancelOrder) (out : span) : outcome (bool * span) :=
  if decide (length out < kCancelOrderSize)%nat then Val (false, out) else
  out ← write_u64_le out kSequenceOffset (SequenceNumber.value (co_sequence order));
  out ← write_u64_le out kOrderIdOffset (OrderId.value (co_order_id order));
  Val (true, out).

Definition encode_replace_order (order : ReplaceOrder) (out : span) : outcome (bool * span) :=
  if decide (length out < kReplaceOrderSize)%nat then Val (false, out) else
  out ← write_u64_le out kSequenceOffset (SequenceNumber.value (rp_sequence order));
  out ← write_u64_le out kOrderIdOffset (OrderId.value (rp_order_id order));
  out ← write_u64_le out kReplaceQuantityOffset (Quantity.units (rp_new_quantity order));
  out ← write_i64_le out kReplacePriceOffset (Price.ticks (rp_new_price order));
  Val (true, out).

(** ** Outbound event codecs *)

Definition encode_order_accepted (event : OrderAcceptedEvent) (out : span)
  : outcome (bool * span) :=
  if decide (length out < kOrderAcceptedSize)%nat then Val (false, out) else
  out ← write_u64_le out kSequenceOffset (SequenceNumber.value (oa_sequence event));
  out ← write_u64_le out kOrderIdOffset (OrderId.value (oa_order_id event));
  out ← write_u64_le out kRemainingQuantityOffset (oa_remaining_quantity event);
  Val (true, out).

Definition decode_order_accepted (s : span) (out : OrderAcceptedEvent)
  : outcome (option ErrorCode.t * OrderAcceptedEvent) :=
  if negb (bool_decide (length s = kOrderAcceptedSize))
  then Val (Some ErrorCode.payload_length_invalid, out) else
  seq ← SequenceNumber.from_value <$> read_u64_le s kSequenceOffset;
  oid ← OrderId.from_value <$> read_u64_le s kOrderIdOffset;
  match seq, oid with
  | Some seq, Some oid =>
      remaining ← read_u64_le s kRemainingQuantityOffset;
      Val (None, {| oa_sequence := seq; oa_order_id := oid;
                    oa_remaining_quantity := remaining |})
  | _, _ => Val (Some ErrorCode.invalid_field, out)
  end.

Definition encode_order_rejected (event : OrderRejectedEvent) (out : span)
  : outcome (bool * span) :=
  if decide (length out < kOrderRejectedSize)%nat then Val (false, out) else
  out ← write_u64_le out kSequenceOffset (SequenceNumber.value (or_sequence event));
  out ← write_u64_le out kOrderIdOffset (OrderId.value (or_order_id event));
  out ← write_u16_le out kRejectErrorCodeOffset (or_error_code event);
  out ← write_zeros out kRejectReservedOffset kRejectReservedSize;
  Val (true, out).

Definition decode_order_rejected (s : span) (out : OrderRejectedEvent)
  : outcome (option ErrorCode.t * OrderRejectedEvent) :=
  if negb (bool_decide (length s = kOrderRejectedSize))
  then Val (Some ErrorCode.payload_length_invalid, out) else
  reserved ← reserved_nonzero s kRejectReservedOffset kRejectReservedSize;
  if reserved : bool then Val (Some ErrorCode.invalid_field, out) else
  seq ← SequenceNumber.from_value <$> read_u64_le s kSequenceOffset;
  oid_val ← read_u64_le s kOrderIdOffset;
  match seq with
  | None => Val (Some ErrorCode.invalid_field, out)
  | Some seq =>
      order_id ← deref_opt (if oid_val =? 0 then OrderId.from_value 1
                            else OrderId.from_value oid_val);
      error_code ← read_u16_le s kRejectErrorCodeOffset;
      Val (None, {| or_sequence := seq; or_order_id := order_id; or_error_code := error_code |})
  end.

Definition encode_execution (event : ExecutionEvent) (out : span) : outcome (bool * span) :=
  if decide (length out < kExecutionSize)%nat then Val (false, out) else
  out ← write_u64_le out kSequenceOffset (SequenceNumber.value (ee_sequence event));
  out ← write_u64_le out kExecutionRestingIdOffset (OrderId.value (ee_resting_order_id event));
  out ← write_u64_le out kExecutionIncomingIdOffset (OrderId.value (ee_incoming_order_id event));
  out ← write_i64_le out kExecutionPriceOffset (Price.ticks (ee_price event));
  out ← write_u64_le out kExecutionQuantityOffset (Quantity.units (ee_quantity event));
  Val (true, out).

Definition decode_execution (s : span) (out : ExecutionEvent)
  : outcome (option ErrorCode.t * ExecutionEvent) :=
  if negb (bool_decide (length s = kExecutionSize))
  then Val (Some ErrorCode.payload_length_invalid, out) else
  seq ← SequenceNumber.from_value <$> read_u64_le s kSequenceOffset;
  resting_oid ← OrderId.from_value <$> read_u64_le s kExecutionRestingIdOffset;
  incoming_oid ← OrderId.from_value <$> read_u64_le s kExecutionIncomingIdOffset;
  price ← Price.from_ticks <$> read_i64_le s kExecutionPriceOffset;
  qty ← Quantity.from_units <$> read_u64_le s kExecutionQuantityOffset;
  match seq, resting_oid, incoming_oid, price, qty with
  | Some seq, Some resting_oid, Some incoming_oid, Some price, Some qty =>
      Val (None, {| ee_sequence := seq; ee_resting_order_id := resting_oid;
                    ee_incoming_order_id := incoming_oid; ee_price := price;
                    ee_quantity := qty |})
  | _, _, _, _, _ => Val (Some ErrorCode.invalid_field, out)
  end.

Definition encode_cancel_accepted (event : CancelAcceptedEvent) (out : span)
  : outcome (bool * span) :=
  if decide (length out < kCancelAcceptedSize)%nat then Val (false, out) else
  out ← write_u64_le out kSequenceOffset (SequenceNumber.value (ca_sequence event));
  out ← write_u64_le out kOrderIdOffset (OrderId.value (ca_order_id event));
  out ← write_u64_le out kCancelledQuantityOffset (Quantity.units (ca_cancelled_quantity event));
  Val (true, out).

Definition decode_cancel_accepted (s : span) (out : CancelAcceptedEvent)
  : outcome (option ErrorCode.t * CancelAcceptedEvent) :=
  if negb (bool_decide (length s = kCancelAcceptedSize))
  then Val (Some ErrorCode.payload_length_invalid, out) else
  seq ← SequenceNumber.from_value <$> read_u64_le s kSequenceOffset;
  oid ← OrderId.from_value <$> read_u64_le s kOrderIdOffset;
  qty ← Quantity.from_units <$> read_u64_le s kCancelledQuantityOffset;
  match seq, oid, qty with
  | Some seq, Some oid, Some qty =>
      Val (None, {| ca_sequence := seq; ca_order_id := oid; ca_cancelled_quantity := qty |})
  | _, _, _ => Val (Some ErrorCode.invalid_field, out)
  end.

Definition encode_protocol_error (event : ProtocolErrorEvent) (out : span)
  : outcome (bool * span) :=
  if decide (length out < kProtocolErrorSize)%nat then Val (false, out) else
  out ← write_u16_le out kProtocolErrorCodeOffset (pe_error_code event);
  out ← set_byte out kProtocolErrorTypeOffset (pe_offending_type event);
  out ← write_zeros out kProtocolErrorReservedOffset kProtocolErrorReservedSize;
  Val (true, out).

Definition decode_protocol_error (s : span) (out : ProtocolErrorEvent)
  : outcome (option ErrorCode.t * ProtocolErrorEvent) :=
  if negb (bool_decide (length s = kProtocolErrorSize))
  then Val (Some ErrorCode.payload_length_invalid, out) else
  reserved ← reserved_nonzero s kProtocolErrorReservedOffset kProtocolErrorReservedSize;
  if reserved : bool then Val (Some ErrorCode.invalid_field, out) else
  error_code ← read_u16_le s kProtocolErrorCodeOffset;
  offending_type ← byte_at s kProtocolErrorTypeOffset;
  Val (None, {| pe_error_code := error_code; pe_offending_type := offending_type |}).

(** ** Framing *)

Definition encode_frame (type : MessageType.t) (payload out : span) (flags : Z)
  : outcome (bool * span) :=
  if decide (length out < kHeaderSize + length payload)%nat then Val (false, out) else
  let header := {| magic := kMagic; version := kVersion; wh_type := type; flags := flags;
                   payload_length := wrap 16 (Z.of_nat (length payload)) |} in
  '(ok, head) ← encode_header header (take kHeaderSize out);
  let out := head ++ drop kHeaderSize out in
  if negb ok then Val (false, out) else
  out ← for_range (length payload) (λ i out,
    b ← byte_at payload i; set_byte out (kHeaderSize + i) b) out;
  Val (true, out).
