(* ===== verification/ProtocolInv.v ===== *)
(** * Wire images and the codec interface

    Every payload of [Protocol] has a wire image, the list of its fields'
    bytes.  The class [Codec] states what an encoder and a decoder promise to
    the framing layer, the gateway and the log: exact sizes, the image written
    and nothing beyond it, totality of the decoder on every byte string, no
    partial update of the out-parameter on an error, and the round trip;
    [CanonicalCodec] adds that an accepted payload is the image of the value it
    decodes to.  The instances at the end discharge the class for the eight
    payloads; the frame theorems are proved against the class. *)

From stdpp Require Import prelude list.
From Stdlib Require Import ZArith Lia.
From S2P Require Import Prelude Types OrderBook Bytes Protocol.

Open Scope Z_scope.
Import layout.

(** ** Reading fields of a concatenation *)

Create Rewrite HintDb wire.
#[local] Arguments le_bytes : simpl never.

Lemma read_u64_head v s : 0 ≤ v < 2 ^ 64 → read_u64_le (le_bytes 8 v ++ s) 0 = Val v.
Proof.
  intros Hv. rewrite <- (app_nil_l (le_bytes 8 v ++ s)). change 0%nat with (@length Z []).
  rewrite read_u64_le_ok by (apply length_le_bytes || apply le_bytes_ok).
  by rewrite le_value_le_bytes, Z.mod_small.
Qed.

Lemma read_u64_skip bs s off : read_u64_le (bs ++ s) (length bs + off) = read_u64_le s off.
Proof.
  unfold read_u64_le. assert (∀ n i v,
    for_from i n (λ i val, b ← byte_at (bs ++ s) (length bs + off + i);
      Val (Z.lor val (u64_shl b (Z.of_nat i * 8)))) v
    = for_from i n (λ i val, b ← byte_at s (off + i);
      Val (Z.lor val (u64_shl b (Z.of_nat i * 8)))) v) as H; [|apply H].
  induction n as [|n IH]; intros i v; cbn [for_from]; [done|].
  rewrite <- Nat.add_assoc, byte_at_app_r. by destruct (byte_at s (off + i)); simpl.
Qed.

Lemma read_u64_skip8 v s off : read_u64_le (le_bytes 8 v ++ s) (S (S (S (S (S (S (S (S off)))))))) = read_u64_le s off.
Proof. apply (read_u64_skip (le_bytes 8 v)). Qed.

Lemma read_u64_head' v : 0 ≤ v < 2 ^ 64 → read_u64_le (le_bytes 8 v) 0 = Val v.
Proof. intros. rewrite <- (app_nil_r (le_bytes 8 v)). by apply read_u64_head. Qed.

Lemma read_u16_head v s : 0 ≤ v < 2 ^ 16 → read_u16_le (le_bytes 2 v ++ s) 0 = Val v.
Proof.
  intros Hv. rewrite <- (app_nil_l (le_bytes 2 v ++ s)). change 0%nat with (@length Z []).
  rewrite read_u16_le_ok by (apply length_le_bytes || apply le_bytes_ok).
  by rewrite le_value_le_bytes, Z.mod_small.
Qed.

Lemma read_u16_head' v : 0 ≤ v < 2 ^ 16 → read_u16_le (le_bytes 2 v) 0 = Val v.
Proof. intros. rewrite <- (app_nil_r (le_bytes 2 v)). by apply read_u16_head. Qed.

Lemma read_u16_skip bs s off : read_u16_le (bs ++ s) (length bs + off) = read_u16_le s off.
Proof. unfold read_u16_le. by rewrite <- Nat.add_assoc, !byte_at_app_r. Qed.

Lemma read_u16_skip8 v s off : read_u16_le (le_bytes 8 v ++ s) (S (S (S (S (S (S (S (S off)))))))) = read_u16_le s off.
Proof. apply (read_u16_skip (le_bytes 8 v)). Qed.

Lemma read_u16_skip2 v s off : read_u16_le (le_bytes 2 v ++ s) (S (S off)) = read_u16_le s off.
Proof. apply (read_u16_skip (le_bytes 2 v)). Qed.

Lemma read_u16_skip1 b s off : read_u16_le (b :: s) (S off) = read_u16_le s off.
Proof. apply (read_u16_skip [b]). Qed.

Lemma byte_at_skip8 v s off : byte_at (le_bytes 8 v ++ s) (S (S (S (S (S (S (S (S off)))))))) = byte_at s off.
Proof. apply (byte_at_app_r (le_bytes 8 v)). Qed.

Lemma byte_at_skip2 v s off : byte_at (le_bytes 2 v ++ s) (S (S off)) = byte_at s off.
Proof. apply (byte_at_app_r (le_bytes 2 v)). Qed.

Lemma byte_at_skip1 b s off : byte_at (b :: s) (S off) = byte_at s off.
Proof. done. Qed.

Lemma byte_at_head b s : byte_at (b :: s) 0 = Val b.
Proof. done. Qed.

Lemma reserved_skip bs s off n :
  reserved_nonzero (bs ++ s) (length bs + off) n = reserved_nonzero s off n.
Proof.
  revert off. induction n as [|n IH]; intros off; cbn [reserved_nonzero]; [done|].
  rewrite byte_at_app_r, <- Nat.add_succ_r, IH. done.
Qed.

Lemma reserved_skip8 v s off n :
  reserved_nonzero (le_bytes 8 v ++ s) (S (S (S (S (S (S (S (S off)))))))) n = reserved_nonzero s off n.
Proof. apply (reserved_skip (le_bytes 8 v)). Qed.

Lemma reserved_skip2 v s off n :
  reserved_nonzero (le_bytes 2 v ++ s) (S (S off)) n = reserved_nonzero s off n.
Proof. apply (reserved_skip (le_bytes 2 v)). Qed.

Lemma reserved_skip1 b s off n :
  reserved_nonzero (b :: s) (S off) n = reserved_nonzero s off n.
Proof. apply (reserved_skip [b]). Qed.

Lemma reserved_all bs n :
  n = length bs → reserved_nonzero bs 0 n = Val (negb (bool_decide (bs = replicate n 0))).
Proof. intros ->. rewrite <- (reserved_nonzero_ok [] bs []). simpl. by rewrite app_nil_r. Qed.

Lemma read_i64_le_eq s off : read_i64_le s off = (v ← read_u64_le s off; Val (to_i64 v)).
Proof. done. Qed.

#[export] Hint Rewrite read_i64_le_eq read_u64_skip8 read_u16_skip8 read_u16_skip2 read_u16_skip1
  byte_at_skip8 byte_at_skip2 byte_at_skip1 byte_at_head reserved_skip8 reserved_skip2
  reserved_skip1 @bind_Val @fmap_Val : wire.
#[export] Hint Rewrite read_u64_head read_u64_head' read_u16_head read_u16_head'
  using (assumption || lia) : wire.
#[export] Hint Rewrite reserved_all using (by simpl; auto) : wire.

(** ** Taking a byte string apart into fields *)

Lemma split_le k s n :
  bytes_ok s → length s = (k + n)%nat →
  ∃ v s', s = le_bytes k v ++ s' ∧ 0 ≤ v < 256 ^ Z.of_nat k ∧ bytes_ok s' ∧ length s' = n.
Proof.
  intros Hok Hl. exists (le_value (take k s)), (drop k s).
  assert (length (take k s) = k) as Ht by (rewrite length_take; lia).
  rewrite <- Ht at 1. rewrite le_bytes_le_value by by apply Forall_take.
  split; [by rewrite take_drop|]. split; [|split; [by apply Forall_drop|rewrite length_drop; lia]].
  pose proof (le_value_bound (take k s) (Forall_take _ _ _ Hok)) as Hb. by rewrite Ht in Hb.
Qed.

Definition split_u64 := split_le 8.
Definition split_u16 := split_le 2.

Lemma split_u8 s n :
  bytes_ok s → length s = S n →
  ∃ b s', s = b :: s' ∧ 0 ≤ b < 256 ∧ bytes_ok s' ∧ length s' = n.
Proof.
  intros Hok Hl. destruct s as [|b s]; [done|]. apply Forall_cons in Hok as [Hb Hok].
  exists b, s. simpl in Hl. eauto with lia.
Qed.

(** ** Writing fields one after the other *)

Lemma set_byte_next bs out off b :
  off = length bs → (off < length out)%nat →
  set_byte (splice 0 bs out) off b = Val (splice 0 (bs ++ [b]) out).
Proof.
  intros -> Hl. rewrite set_byte_splice by (rewrite length_splice; lia).
  rewrite splice_splice by (simpl; lia). done.
Qed.

Lemma write_u64_next bs out off v :
  off = length bs → (off + 8 ≤ length out)%nat →
  write_u64_le (splice 0 bs out) off v = Val (splice 0 (bs ++ le_bytes 8 v) out).
Proof.
  intros -> Hl. rewrite write_u64_le_ok by (rewrite length_splice; lia).
  rewrite splice_splice by (rewrite ?length_le_bytes; lia). done.
Qed.

Lemma write_i64_next bs out off v :
  off = length bs → (off + 8 ≤ length out)%nat →
  write_i64_le (splice 0 bs out) off v = Val (splice 0 (bs ++ le_bytes 8 (of_i64 v)) out).
Proof. apply write_u64_next. Qed.

Lemma write_u16_next bs out off v :
  off = length bs → (off + 2 ≤ length out)%nat →
  write_u16_le (splice 0 bs out) off v = Val (splice 0 (bs ++ le_bytes 2 v) out).
Proof.
  intros -> Hl. rewrite write_u16_le_ok by (rewrite length_splice; lia).
  rewrite splice_splice by (rewrite ?length_le_bytes; lia). done.
Qed.

Lemma write_zeros_next bs out off n :
  off = length bs → (off + n ≤ length out)%nat →
  write_zeros (splice 0 bs out) off n = Val (splice 0 (bs ++ replicate n 0) out).
Proof.
  intros -> Hl. rewrite write_zeros_ok by (rewrite length_splice; lia).
  rewrite splice_splice by (rewrite ?length_replicate; lia). done.
Qed.

(** Bounds of a constant offset against the length of a span. *)
Ltac offset_bound :=
  match goal with
  | |- (?a < ?b)%nat => let a' := eval cbv in a in change (a' < b)%nat; lia
  | |- (?a ≤ ?b)%nat => let a' := eval cbv in a in change (a' ≤ b)%nat; lia
  | |- _ = _ => reflexivity
  end.
#[export] Hint Rewrite set_byte_next write_u64_next write_i64_next write_u16_next
  write_zeros_next using offset_bound : wire.

(** Runs an encoder: a span that is too short is left alone, otherwise the
    fields land one behind the other. *)
Ltac run_encoder out :=
  intros; rewrite decide_False by lia;
  rewrite <- (splice_nil 0 out) at 1; autorewrite with wire;
  rewrite ?app_nil_l, <- ?app_assoc; reflexivity.

(** Runs a decoder on a concatenation of fields of the right total length. *)
Ltac run_decoder :=
  match goal with
  | |- context [ bool_decide (length ?s = ?n) ] =>
      rewrite (bool_decide_eq_true_2 (length s = n)) by
        (unfold n; rewrite ?length_app, ?length_le_bytes; simpl; lia)
  end;
  cbv [negb kSequenceOffset kOrderIdOffset kNewOrderQuantityOffset kNewOrderPriceOffset
    kNewOrderSideOffset kNewOrderTypeOffset kNewOrderReservedOffset kNewOrderReservedSize
    kReplaceQuantityOffset kReplacePriceOffset kRemainingQuantityOffset kRejectErrorCodeOffset
    kRejectReservedOffset kRejectReservedSize kExecutionRestingIdOffset kExecutionIncomingIdOffset
    kExecutionPriceOffset kExecutionQuantityOffset kCancelledQuantityOffset
    kProtocolErrorCodeOffset kProtocolErrorTypeOffset kProtocolErrorReservedOffset
    kProtocolErrorReservedSize];
  autorewrite with wire.

(** ** The codec interface *)

Class Codec (A : Type) : Type := {
  codec_size : nat;
  codec_encode : A → span → outcome (bool * span);
  codec_decode : span → A → outcome (option ErrorCode.t * A);
  codec_ok : A → Prop;
  codec_image : A → list Z;
  codec_image_length a : length (codec_image a) = codec_size;
  codec_encode_short a out :
    (length out < codec_size)%nat → codec_encode a out = Val (false, out);
  codec_encode_image a out :
    (codec_size ≤ length out)%nat → codec_encode a out = Val (true, splice 0 (codec_image a) out);
  codec_decode_image a old : codec_ok a → codec_decode (codec_image a) old = Val (None, a);
  codec_decode_length s old :
    length s ≠ codec_size → codec_decode s old = Val (Some ErrorCode.payload_length_invalid, old);
  codec_decode_total s old :
    bytes_ok s → length s = codec_size →
    (∃ e, codec_decode s old = Val (Some e, old)) ∨
    (∃ a, codec_decode s old = Val (None, a) ∧ codec_ok a);
}.

Class CanonicalCodec (A : Type) `{Codec A} : Prop :=
  codec_canonical s old a :
    bytes_ok s → codec_decode s old = Val (None, a) → s = codec_image a.

Lemma codec_canonical_intro {A} `{Codec A} :
  (∀ s old, bytes_ok s → length s = codec_size →
    (∃ e, codec_decode s old = Val (Some e, old)) ∨
    (∃ a, codec_decode s old = Val (None, a) ∧ s = codec_image a)) →
  CanonicalCodec A.
Proof.
  intros Hc s old a Hok Hd. destruct (decide (length s = codec_size)) as [Hl|Hl].
  - destruct (Hc s old Hok Hl) as [[e He]|(a' & Ha' & ->)]; congruence.
  - rewrite codec_decode_length in Hd by done. discriminate.
Qed.

(** Unfolds what the validating constructors guarantee. *)
Ltac unfold_valid :=
  unfold SequenceNumber.valid, OrderId.valid, Quantity.valid, Price.valid, u64_max, i64_max in *.

(** Reduces projections of explicit records. *)
Ltac proj :=
  cbn [no_sequence no_order_id no_side no_type no_quantity no_limit_price co_sequence co_order_id
    rp_sequence rp_order_id rp_new_quantity rp_new_price oa_sequence oa_order_id
    oa_remaining_quantity or_sequence or_order_id or_error_code ee_sequence ee_resting_order_id
    ee_incoming_order_id ee_price ee_quantity ca_sequence ca_order_id ca_cancelled_quantity
    pe_error_code pe_offending_type SequenceNumber.value OrderId.value Quantity.units Price.ticks]
    in *.

Lemma to_i64_nonneg v : 0 ≤ v < 2 ^ 64 → 0 ≤ to_i64 v → to_i64 v = v ∧ v < 2 ^ 63.
Proof. unfold to_i64. zcase; lia. Qed.

Lemma of_i64_small v : 0 ≤ v < 2 ^ 63 → of_i64 v = v.
Proof. intros. apply wrap_small. lia. Qed.

Lemma to_i64_small v : 0 ≤ v < 2 ^ 63 → to_i64 v = v.
Proof. intros. unfold to_i64. zcase; lia. Qed.

(** ** New orders *)

Definition price_or_zero (p : option Price.t) : Z :=
  match p with Some p => Price.ticks p | None => 0 end.

Definition new_order_image (o : NewOrder) : list Z :=
  le_bytes 8 (SequenceNumber.value (no_sequence o)) ++ le_bytes 8 (OrderId.value (no_order_id o)) ++
  le_bytes 8 (Quantity.units (no_quantity o)) ++
  le_bytes 8 (of_i64 (price_or_zero (no_limit_price o))) ++
  (if decide (no_side o = buy) then 0 else 1) :: (if decide (no_type o = limit) then 0 else 1) ::
  replicate 6 0.

Definition new_order_ok (o : NewOrder) : Prop := NewOrder_wf o ∧ validate o = None.

Lemma encode_new_order_image o out :
  (kNewOrderSize ≤ length out)%nat →
  encode_new_order o out = Val (true, splice 0 (new_order_image o) out).
Proof. unfold encode_new_order, kNewOrderSize. run_encoder out. Qed.

Lemma decode_new_order_image o old :
  new_order_ok o → decode_new_order (new_order_image o) old = Val (None, o).
Proof.
  intros [(Hs & Hi & Hq & Hp) Hv]. destruct o as [[s] [i] side type [q] p].
  unfold new_order_image, decode_new_order. unfold_valid. proj.
  assert (0 ≤ price_or_zero p < 2 ^ 63) as Hp' by (destruct p as [[]|]; simpl in *; lia).
  rewrite of_i64_small by done. run_decoder. rewrite to_i64_small by done.
  rewrite SequenceNumber_from_nonzero, OrderId_from_nonzero, from_units_nonzero by lia.
  apply validate_None in Hv. simpl in Hv. rewrite bool_decide_true by done. simpl.
  destruct Hv as [[-> [[t] ->]]|[-> ->]], side; simpl in *;
    zcase; try lia; rewrite ?from_ticks_pos by lia; done.
Qed.

Lemma decode_new_order_total s old :
  bytes_ok s → length s = kNewOrderSize →
  (∃ e, decode_new_order s old = Val (Some e, old)) ∨
  (∃ o, decode_new_order s old = Val (None, o) ∧ new_order_ok o ∧ s = new_order_image o).
Proof.
  intros Hok Hl.
  destruct (split_u64 s 32 Hok Hl) as (seq & s1 & -> & Hseq & Hok1 & Hl1).
  destruct (split_u64 s1 24 Hok1 Hl1) as (oid & s2 & -> & Hoid & Hok2 & Hl2).
  destruct (split_u64 s2 16 Hok2 Hl2) as (qty & s3 & -> & Hqty & Hok3 & Hl3).
  destruct (split_u64 s3 8 Hok3 Hl3) as (price & s4 & -> & Hprice & Hok4 & Hl4).
  destruct (split_u8 s4 7 Hok4 Hl4) as (sb & s5 & -> & Hsb & Hok5 & Hl5).
  destruct (split_u8 s5 6 Hok5 Hl5) as (tb & res & -> & Htb & Hok6 & Hl6).
  clear Hok Hl Hok1 Hl1 Hok2 Hl2 Hok3 Hl3 Hok4 Hl4 Hok5 Hl5.
  unfold decode_new_order. run_decoder.
  case_bool_decide as Hres; simpl; [|by eauto].
  destruct (_ || _) eqn:Hbad; [by eauto|].
  rewrite !orb_false_iff, !Z.eqb_neq, !Z.ltb_ge in Hbad.
  destruct Hbad as (((((Hs0 & Hi0) & Hq0) & Hsb1) & Htb1) & Hp0).
  rewrite SequenceNumber_from_nonzero, OrderId_from_nonzero, from_units_nonzero by done.
  destruct (to_i64_nonneg price) as [Hpeq Hplt]; [done..|]. rewrite Hpeq.
  destruct (Z.eqb_spec tb 0), (Z.eqb_spec price 0); eauto.
  all: rewrite ?from_ticks_pos by lia; right; eexists; split; [done|].
  all: unfold new_order_ok, NewOrder_wf, new_order_image; unfold_valid; proj.
  all: unfold price_or_zero; rewrite ?of_i64_small by (cbn; lia).
  all: split; [split; [simpl in *; lia|by destruct (sb =? 0)]|].
  all: try (assert (tb = 1) as -> by lia); subst.
  all: destruct (Z.eqb_spec sb 0); [subst|assert (sb = 1) as -> by lia]; reflexivity.
Qed.

#[export] Program Instance new_order_codec : Codec NewOrder := {|
  codec_size := kNewOrderSize;
  codec_encode := encode_new_order;
  codec_decode := decode_new_order;
  codec_ok := new_order_ok;
  codec_image := new_order_image;
|}.
Next Obligation. done. Qed.
Next Obligation. intros. unfold encode_new_order. by rewrite decide_True. Qed.
Next Obligation. apply encode_new_order_image. Qed.
Next Obligation. intros. by apply decode_new_order_image. Qed.
Next Obligation. intros. unfold decode_new_order. by rewrite bool_decide_eq_false_2. Qed.
Next Obligation. intros. destruct (decode_new_order_total s old) as [|(?&?&?&?)]; eauto. Qed.

#[export] Instance new_order_canonical : CanonicalCodec NewOrder.
Proof.
  apply codec_canonical_intro. intros.
  destruct (decode_new_order_total s old) as [|(?&?&?&?)]; eauto.
Qed.

(** ** Cancels *)

Definition cancel_order_image (c : CancelOrder) : list Z :=
  le_bytes 8 (SequenceNumber.value (co_sequence c)) ++ le_bytes 8 (OrderId.value (co_order_id c)).

Lemma encode_cancel_order_image c out :
  (kCancelOrderSize ≤ length out)%nat →
  encode_cancel_order c out = Val (true, splice 0 (cancel_order_image c) out).
Proof. unfold encode_cancel_order, kCancelOrderSize. run_encoder out. Qed.

Lemma decode_cancel_order_image c old :
  CancelOrder_wf c → decode_cancel_order (cancel_order_image c) old = Val (None, c).
Proof.
  intros [Hs Hi]. destruct c as [[s] [i]].
  unfold cancel_order_image, decode_cancel_order. unfold_valid. proj. run_decoder.
  rewrite SequenceNumber_from_nonzero, OrderId_from_nonzero by lia.
  zcase; by try lia.
Qed.

Lemma decode_cancel_order_total s old :
  bytes_ok s → length s = kCancelOrderSize →
  (∃ e, decode_cancel_order s old = Val (Some e, old)) ∨
  (∃ c, decode_cancel_order s old = Val (None, c) ∧ CancelOrder_wf c ∧ s = cancel_order_image c).
Proof.
  intros Hok Hl.
  destruct (split_u64 s 8 Hok Hl) as (seq & s1 & -> & Hseq & Hok1 & Hl1).
  destruct (split_u64 s1 0 Hok1 Hl1) as (oid & s2 & -> & Hoid & Hok2 & Hl2).
  apply nil_length_inv in Hl2 as ->. rewrite app_nil_r in *. clear Hok Hl Hok1 Hl1 Hok2.
  unfold decode_cancel_order. run_decoder.
  destruct (Z.eqb_spec seq 0), (Z.eqb_spec oid 0); eauto.
  rewrite SequenceNumber_from_nonzero, OrderId_from_nonzero by done. right.
  eexists; split_and!; [done| |done]. unfold CancelOrder_wf. unfold_valid. simpl in *. lia.
Qed.

#[export] Program Instance cancel_order_codec : Codec CancelOrder := {|
  codec_size := kCancelOrderSize;
  codec_encode := encode_cancel_order;
  codec_decode := decode_cancel_order;
  codec_ok := CancelOrder_wf;
  codec_image := cancel_order_image;
|}.
Next Obligation. done. Qed.
Next Obligation. intros. unfold encode_cancel_order. by rewrite decide_True. Qed.
Next Obligation. apply encode_cancel_order_image. Qed.
Next Obligation. intros. by apply decode_cancel_order_image. Qed.
Next Obligation. intros. unfold decode_cancel_order. by rewrite bool_decide_eq_false_2. Qed.
Next Obligation. intros. destruct (decode_cancel_order_total s old) as [|(?&?&?&?)]; eauto. Qed.

#[export] Instance cancel_order_canonical : CanonicalCodec CancelOrder.
Proof.
  apply codec_canonical_intro. intros.
  destruct (decode_cancel_order_total s old) as [|(?&?&?&?)]; eauto.
Qed.

(** ** Replaces *)

Definition replace_order_image (r : ReplaceOrder) : list Z :=
  le_bytes 8 (SequenceNumber.value (rp_sequence r)) ++ le_bytes 8 (OrderId.value (rp_order_id r)) ++
  le_bytes 8 (Quantity.units (rp_new_quantity r)) ++
  le_bytes 8 (of_i64 (Price.ticks (rp_new_price r))).

Lemma encode_replace_order_image r out :
  (kReplaceOrderSize ≤ length out)%nat →
  encode_replace_order r out = Val (true, splice 0 (replace_order_image r) out).
Proof. unfold encode_replace_order, kReplaceOrderSize. run_encoder out. Qed.

Lemma decode_replace_order_image r old :
  ReplaceOrder_wf r → decode_replace_order (replace_order_image r) old = Val (None, r).
Proof.
  intros (Hs & Hi & Hq & Hp). destruct r as [[s] [i] [q] [p]].
  unfold replace_order_image, decode_replace_order. unfold_valid. proj.
  rewrite of_i64_small by lia. run_decoder. rewrite to_i64_small by lia.
  rewrite SequenceNumber_from_nonzero, OrderId_from_nonzero, from_units_nonzero,
    from_ticks_pos by lia.
  zcase; by try lia.
Qed.

Lemma decode_replace_order_total s old :
  bytes_ok s → length s = kReplaceOrderSize →
  (∃ e, decode_replace_order s old = Val (Some e, old)) ∨
  (∃ r, decode_replace_order s old = Val (None, r) ∧ ReplaceOrder_wf r ∧ s = replace_order_image r).
Proof.
  intros Hok Hl.
  destruct (split_u64 s 24 Hok Hl) as (seq & s1 & -> & Hseq & Hok1 & Hl1).
  destruct (split_u64 s1 16 Hok1 Hl1) as (oid & s2 & -> & Hoid & Hok2 & Hl2).
  destruct (split_u64 s2 8 Hok2 Hl2) as (qty & s3 & -> & Hqty & Hok3 & Hl3).
  destruct (split_u64 s3 0 Hok3 Hl3) as (price & s4 & -> & Hprice & Hok4 & Hl4).
  apply nil_length_inv in Hl4 as ->. rewrite app_nil_r in *.
  clear Hok Hl Hok1 Hl1 Hok2 Hl2 Hok3 Hl3 Hok4.
  unfold decode_replace_order. run_decoder.
  destruct (_ || _) eqn:Hbad; [by eauto|].
  rewrite !orb_false_iff, !Z.eqb_neq, !Z.leb_gt in Hbad. destruct Hbad as (((Hs0 & Hi0) & Hq0) & Hp0).
  destruct (to_i64_nonneg price) as [Hpeq Hplt]; [done|lia|]. rewrite Hpeq in *.
  rewrite SequenceNumber_from_nonzero, OrderId_from_nonzero, from_units_nonzero,
    from_ticks_pos by done. right.
  eexists; split_and!; [done| |].
  - unfold ReplaceOrder_wf. unfold_valid. simpl in *. lia.
  - unfold replace_order_image. proj. by rewrite of_i64_small by lia.
Qed.

#[export] Program Instance replace_order_codec : Codec ReplaceOrder := {|
  codec_size := kReplaceOrderSize;
  codec_encode := encode_replace_order;
  codec_decode := decode_replace_order;
  codec_ok := ReplaceOrder_wf;
  codec_image := replace_order_image;
|}.
Next Obligation. done. Qed.
Next Obligation. intros. unfold encode_replace_order. by rewrite decide_True. Qed.
Next Obligation. apply encode_replace_order_image. Qed.
Next Obligation. intros. by apply decode_replace_order_image. Qed.
Next Obligation. intros. unfold decode_replace_order. by rewrite bool_decide_eq_false_2. Qed.
Next Obligation. intros. destruct (decode_replace_order_total s old) as [|(?&?&?&?)]; eauto. Qed.

#[export] Instance replace_order_canonical : CanonicalCodec ReplaceOrder.
Proof.
  apply codec_canonical_intro. intros.
  destruct (decode_replace_order_total s old) as [|(?&?&?&?)]; eauto.
Qed.

(** ** Order accepted *)

Definition order_accepted_ok (e : OrderAcceptedEvent) : Prop :=
  SequenceNumber.valid (oa_sequence e) ∧ OrderId.valid (oa_order_id e) ∧
  0 ≤ oa_remaining_quantity e ≤ u64_max.

Definition order_accepted_image (e : OrderAcceptedEvent) : list Z :=
  le_bytes 8 (SequenceNumber.value (oa_sequence e)) ++ le_bytes 8 (OrderId.value (oa_order_id e)) ++
  le_bytes 8 (oa_remaining_quantity e).

Lemma encode_order_accepted_image e out :
  (kOrderAcceptedSize ≤ length out)%nat →
  encode_order_accepted e out = Val (true, splice 0 (order_accepted_image e) out).
Proof. unfold encode_order_accepted, kOrderAcceptedSize. run_encoder out. Qed.

Lemma decode_order_accepted_image e old :
  order_accepted_ok e → decode_order_accepted (order_accepted_image e) old = Val (None, e).
Proof.
  intros (Hs & Hi & Hq). destruct e as [[s] [i] q].
  unfold order_accepted_image, decode_order_accepted. unfold_valid. proj. run_decoder.
  by rewrite SequenceNumber_from_nonzero, OrderId_from_nonzero by lia.
Qed.

Lemma decode_order_accepted_total s old :
  bytes_ok s → length s = kOrderAcceptedSize →
  (∃ e, decode_order_accepted s old = Val (Some e, old)) ∨
  (∃ a, decode_order_accepted s old = Val (None, a) ∧ order_accepted_ok a ∧
        s = order_accepted_image a).
Proof.
  intros Hok Hl.
  destruct (split_u64 s 16 Hok Hl) as (seq & s1 & -> & Hseq & Hok1 & Hl1).
  destruct (split_u64 s1 8 Hok1 Hl1) as (oid & s2 & -> & Hoid & Hok2 & Hl2).
  destruct (split_u64 s2 0 Hok2 Hl2) as (qty & s3 & -> & Hqty & Hok3 & Hl3).
  apply nil_length_inv in Hl3 as ->. rewrite app_nil_r in *. clear Hok Hl Hok1 Hl1 Hok2 Hl2 Hok3.
  unfold decode_order_accepted, SequenceNumber.from_value, OrderId.from_value. run_decoder.
  destruct (Z.eqb_spec seq 0), (Z.eqb_spec oid 0); eauto.
  autorewrite with wire. right. eexists; split_and!; [done| |done].
  unfold order_accepted_ok. unfold_valid. simpl in *. lia.
Qed.

#[export] Program Instance order_accepted_codec : Codec OrderAcceptedEvent := {|
  codec_size := kOrderAcceptedSize;
  codec_encode := encode_order_accepted;
  codec_decode := decode_order_accepted;
  codec_ok := order_accepted_ok;
  codec_image := order_accepted_image;
|}.
Next Obligation. done. Qed.
Next Obligation. intros. unfold encode_order_accepted. by rewrite decide_True. Qed.
Next Obligation. apply encode_order_accepted_image. Qed.
Next Obligation. intros. by apply decode_order_accepted_image. Qed.
Next Obligation. intros. unfold decode_order_accepted. by rewrite bool_decide_eq_false_2. Qed.
Next Obligation. intros. destruct (decode_order_accepted_total s old) as [|(?&?&?&?)]; eauto. Qed.

#[export] Instance order_accepted_canonical : CanonicalCodec OrderAcceptedEvent.
Proof.
  apply codec_canonical_intro. intros.
  destruct (decode_order_accepted_total s old) as [|(?&?&?&?)]; eauto.
Qed.

(** ** Order rejected

    The decoder accepts a zero order id and reports it as id 1, so this payload
    is not canonical. *)

Definition order_rejected_ok (e : OrderRejectedEvent) : Prop :=
  SequenceNumber.valid (or_sequence e) ∧ OrderId.valid (or_order_id e) ∧
  0 ≤ or_error_code e < 2 ^ 16.

Definition order_rejected_image (e : OrderRejectedEvent) : list Z :=
  le_bytes 8 (SequenceNumber.value (or_sequence e)) ++ le_bytes 8 (OrderId.value (or_order_id e)) ++
  le_bytes 2 (or_error_code e) ++ replicate 6 0.

Lemma encode_order_rejected_image e out :
  (kOrderRejectedSize ≤ length out)%nat →
  encode_order_rejected e out = Val (true, splice 0 (order_rejected_image e) out).
Proof. unfold encode_order_rejected, kOrderRejectedSize. run_encoder out. Qed.

Lemma decode_order_rejected_image e old :
  order_rejected_ok e → decode_order_rejected (order_rejected_image e) old = Val (None, e).
Proof.
  intros (Hs & Hi & Hq). destruct e as [[s] [i] c].
  unfold order_rejected_image, decode_order_rejected. unfold_valid. proj. run_decoder.
  rewrite bool_decide_true by done.
  rewrite SequenceNumber_from_nonzero by lia.
  destruct (Z.eqb_spec i 0); [lia|]. by rewrite OrderId_from_nonzero.
Qed.

Lemma decode_order_rejected_total s old :
  bytes_ok s → length s = kOrderRejectedSize →
  (∃ e, decode_order_rejected s old = Val (Some e, old)) ∨
  (∃ a, decode_order_rejected s old = Val (None, a) ∧ order_rejected_ok a).
Proof.
  intros Hok Hl.
  destruct (split_u64 s 16 Hok Hl) as (seq & s1 & -> & Hseq & Hok1 & Hl1).
  destruct (split_u64 s1 8 Hok1 Hl1) as (oid & s2 & -> & Hoid & Hok2 & Hl2).
  destruct (split_u16 s2 6 Hok2 Hl2) as (code & res & -> & Hcode & Hok3 & Hl3).
  clear Hok Hl Hok1 Hl1 Hok2 Hl2.
  unfold decode_order_rejected, SequenceNumber.from_value, OrderId.from_value. run_decoder.
  case_bool_decide; [|by eauto]. autorewrite with wire.
  destruct (Z.eqb_spec seq 0); [by eauto|]. right.
  destruct (Z.eqb_spec oid 0); cbn [deref_opt Z.eqb]; autorewrite with wire;
    (eexists; split; [done|]); unfold order_rejected_ok; unfold_valid; simpl in *; lia.
Qed.

#[export] Program Instance order_rejected_codec : Codec OrderRejectedEvent := {|
  codec_size := kOrderRejectedSize;
  codec_encode := encode_order_rejected;
  codec_decode := decode_order_rejected;
  codec_ok := order_rejected_ok;
  codec_image := order_rejected_image;
|}.
Next Obligation. done. Qed.
Next Obligation. intros. unfold encode_order_rejected. by rewrite decide_True. Qed.
Next Obligation. apply encode_order_rejected_image. Qed.
Next Obligation. intros. by apply decode_order_rejected_image. Qed.
Next Obligation. intros. unfold decode_order_rejected. by rewrite bool_decide_eq_false_2. Qed.
Next Obligation. intros. destruct (decode_order_rejected_total s old) as [|(?&?&?)]; eauto. Qed.

(** ** Executions *)

Definition execution_ok (e : ExecutionEvent) : Prop :=
  SequenceNumber.valid (ee_sequence e) ∧ OrderId.valid (ee_resting_order_id e) ∧
  OrderId.valid (ee_incoming_order_id e) ∧ Price.valid (ee_price e) ∧
  Quantity.valid (ee_quantity e).

Definition execution_image (e : ExecutionEvent) : list Z :=
  le_bytes 8 (SequenceNumber.value (ee_sequence e)) ++
  le_bytes 8 (OrderId.value (ee_resting_order_id e)) ++
  le_bytes 8 (OrderId.value (ee_incoming_order_id e)) ++
  le_bytes 8 (of_i64 (Price.ticks (ee_price e))) ++ le_bytes 8 (Quantity.units (ee_quantity e)).

Lemma encode_execution_image e out :
  (kExecutionSize ≤ length out)%nat →
  encode_execution e out = Val (true, splice 0 (execution_image e) out).
Proof. unfold encode_execution, kExecutionSize. run_encoder out. Qed.

Lemma decode_execution_image e old :
  execution_ok e → decode_execution (execution_image e) old = Val (None, e).
Proof.
  intros (Hs & Hr & Hi & Hp & Hq). destruct e as [[s] [r] [i] [p] [q]].
  unfold execution_image, decode_execution. unfold_valid. proj.
  rewrite of_i64_small by lia. run_decoder. rewrite to_i64_small by lia.
  by rewrite SequenceNumber_from_nonzero, !OrderId_from_nonzero, from_units_nonzero,
    from_ticks_pos by lia.
Qed.

Lemma decode_execution_total s old :
  bytes_ok s → length s = kExecutionSize →
  (∃ e, decode_execution s old = Val (Some e, old)) ∨
  (∃ a, decode_execution s old = Val (None, a) ∧ execution_ok a ∧ s = execution_image a).
Proof.
  intros Hok Hl.
  destruct (split_u64 s 32 Hok Hl) as (seq & s1 & -> & Hseq & Hok1 & Hl1).
  destruct (split_u64 s1 24 Hok1 Hl1) as (rid & s2 & -> & Hrid & Hok2 & Hl2).
  destruct (split_u64 s2 16 Hok2 Hl2) as (iid & s3 & -> & Hiid & Hok3 & Hl3).
  destruct (split_u64 s3 8 Hok3 Hl3) as (price & s4 & -> & Hprice & Hok4 & Hl4).
  destruct (split_u64 s4 0 Hok4 Hl4) as (qty & s5 & -> & Hqty & Hok5 & Hl5).
  apply nil_length_inv in Hl5 as ->. rewrite app_nil_r in *.
  clear Hok Hl Hok1 Hl1 Hok2 Hl2 Hok3 Hl3 Hok4 Hl4 Hok5.
  unfold decode_execution, SequenceNumber.from_value, OrderId.from_value, Price.from_ticks,
    Quantity.from_units. run_decoder.
  destruct (Z.eqb_spec seq 0), (Z.eqb_spec rid 0), (Z.eqb_spec iid 0),
    (Z.leb_spec (to_i64 price) 0), (Z.eqb_spec qty 0); eauto.
  destruct (to_i64_nonneg price) as [Hpeq Hplt]; [done|lia|]. rewrite Hpeq in *. right.
  eexists; split_and!; [done| |].
  - unfold execution_ok. unfold_valid. simpl in *. lia.
  - unfold execution_image. proj. by rewrite of_i64_small by lia.
Qed.

#[export] Program Instance execution_codec : Codec ExecutionEvent := {|
  codec_size := kExecutionSize;
  codec_encode := encode_execution;
  codec_decode := decode_execution;
  codec_ok := execution_ok;
  codec_image := execution_image;
|}.
Next Obligation. done. Qed.
Next Obligation. intros. unfold encode_execution. by rewrite decide_True. Qed.
Next Obligation. apply encode_execution_image. Qed.
Next Obligation. intros. by apply decode_execution_image. Qed.
Next Obligation. intros. unfold decode_execution. by rewrite bool_decide_eq_false_2. Qed.
Next Obligation. intros. destruct (decode_execution_total s old) as [|(?&?&?&?)]; eauto. Qed.

#[export] Instance execution_canonical : CanonicalCodec ExecutionEvent.
Proof.
  apply codec_canonical_intro. intros.
  destruct (decode_execution_total s old) as [|(?&?&?&?)]; eauto.
Qed.

(** ** Cancel accepted *)

Definition cancel_accepted_ok (e : CancelAcceptedEvent) : Prop :=
  SequenceNumber.valid (ca_sequence e) ∧ OrderId.valid (ca_order_id e) ∧
  Quantity.valid (ca_cancelled_quantity e).

Definition cancel_accepted_image (e : CancelAcceptedEvent) : list Z :=
  le_bytes 8 (SequenceNumber.value (ca_sequence e)) ++ le_bytes 8 (OrderId.value (ca_order_id e)) ++
  le_bytes 8 (Quantity.units (ca_cancelled_quantity e)).

Lemma encode_cancel_accepted_image e out :
  (kCancelAcceptedSize ≤ length out)%nat →
  encode_cancel_accepted e out = Val (true, splice 0 (cancel_accepted_image e) out).
Proof. unfold encode_cancel_accepted, kCancelAcceptedSize. run_encoder out. Qed.

Lemma decode_cancel_accepted_image e old :
  cancel_accepted_ok e → decode_cancel_accepted (cancel_accepted_image e) old = Val (None, e).
Proof.
  intros (Hs & Hi & Hq). destruct e as [[s] [i] [q]].
  unfold cancel_accepted_image, decode_cancel_accepted. unfold_valid. proj. run_decoder.
  by rewrite SequenceNumber_from_nonzero, OrderId_from_nonzero, from_units_nonzero by lia.
Qed.

Lemma decode_cancel_accepted_total s old :
  bytes_ok s → length s = kCancelAcceptedSize →
  (∃ e, decode_cancel_accepted s old = Val (Some e, old)) ∨
  (∃ a, decode_cancel_accepted s old = Val (None, a) ∧ cancel_accepted_ok a ∧
        s = cancel_accepted_image a).
Proof.
  intros Hok Hl.
  destruct (split_u64 s 16 Hok Hl) as (seq & s1 & -> & Hseq & Hok1 & Hl1).
  destruct (split_u64 s1 8 Hok1 Hl1) as (oid & s2 & -> & Hoid & Hok2 & Hl2).
  destruct (split_u64 s2 0 Hok2 Hl2) as (qty & s3 & -> & Hqty & Hok3 & Hl3).
  apply nil_length_inv in Hl3 as ->. rewrite app_nil_r in *. clear Hok Hl Hok1 Hl1 Hok2 Hl2 Hok3.
  unfold decode_cancel_accepted, SequenceNumber.from_value, OrderId.from_value,
    Quantity.from_units. run_decoder.
  destruct (Z.eqb_spec seq 0), (Z.eqb_spec oid 0), (Z.eqb_spec qty 0); eauto.
  right. eexists; split_and!; [done| |done].
  unfold cancel_accepted_ok. unfold_valid. simpl in *. lia.
Qed.

#[export] Program Instance cancel_accepted_codec : Codec CancelAcceptedEvent := {|
  codec_size := kCancelAcceptedSize;
  codec_encode := encode_cancel_accepted;
  codec_decode := decode_cancel_accepted;
  codec_ok := cancel_accepted_ok;
  codec_image := cancel_accepted_image;
|}.
Next Obligation. done. Qed.
Next Obligation. intros. unfold encode_cancel_accepted. by rewrite decide_True. Qed.
Next Obligation. apply encode_cancel_accepted_image. Qed.
Next Obligation. intros. by apply decode_cancel_accepted_image. Qed.
Next Obligation. intros. unfold decode_cancel_accepted. by rewrite bool_decide_eq_false_2. Qed.
Next Obligation. intros. destruct (decode_cancel_accepted_total s old) as [|(?&?&?&?)]; eauto. Qed.

#[export] Instance cancel_accepted_canonical : CanonicalCodec CancelAcceptedEvent.
Proof.
  apply codec_canonical_intro. intros.
  destruct (decode_cancel_accepted_total s old) as [|(?&?&?&?)]; eauto.
Qed.

(** ** Protocol errors *)

Definition protocol_error_ok (e : ProtocolErrorEvent) : Prop :=
  0 ≤ pe_error_code e < 2 ^ 16 ∧ 0 ≤ pe_offending_type e < 256.

Definition protocol_error_image (e : ProtocolErrorEvent) : list Z :=
  le_bytes 2 (pe_error_code e) ++ pe_offending_type e :: replicate 5 0.

Lemma encode_protocol_error_image e out :
  (kProtocolErrorSize ≤ length out)%nat →
  encode_protocol_error e out = Val (true, splice 0 (protocol_error_image e) out).
Proof. unfold encode_protocol_error, kProtocolErrorSize. run_encoder out. Qed.

Lemma decode_protocol_error_image e old :
  protocol_error_ok e → decode_protocol_error (protocol_error_image e) old = Val (None, e).
Proof.
  intros (Hc & Ht). destruct e as [c t].
  unfold protocol_error_image, decode_protocol_error. proj. run_decoder.
  rewrite bool_decide_true by done. by autorewrite with wire.
Qed.

Lemma decode_protocol_error_total s old :
  bytes_ok s → length s = kProtocolErrorSize →
  (∃ e, decode_protocol_error s old = Val (Some e, old)) ∨
  (∃ a, decode_protocol_error s old = Val (None, a) ∧ protocol_error_ok a ∧
        s = protocol_error_image a).
Proof.
  intros Hok Hl.
  destruct (split_u16 s 6 Hok Hl) as (code & s1 & -> & Hcode & Hok1 & Hl1).
  destruct (split_u8 s1 5 Hok1 Hl1) as (t & res & -> & Ht & Hok2 & Hl2).
  clear Hok Hl Hok1 Hl1.
  unfold decode_protocol_error. run_decoder.
  case_bool_decide as Hres; [|by eauto]. autorewrite with wire. right.
  eexists; split_and!; [done| |by rewrite Hres]. unfold protocol_error_ok. simpl in *. lia.
Qed.

#[export] Program Instance protocol_error_codec : Codec ProtocolErrorEvent := {|
  codec_size := kProtocolErrorSize;
  codec_encode := encode_protocol_error;
  codec_decode := decode_protocol_error;
  codec_ok := protocol_error_ok;
  codec_image := protocol_error_image;
|}.
Next Obligation. done. Qed.
Next Obligation. intros. unfold encode_protocol_error. by rewrite decide_True. Qed.
Next Obligation. apply encode_protocol_error_image. Qed.
Next Obligation. intros. by apply decode_protocol_error_image. Qed.
Next Obligation. intros. unfold decode_protocol_error. by rewrite bool_decide_eq_false_2. Qed.
Next Obligation. intros. destruct (decode_protocol_error_total s old) as [|(?&?&?&?)]; eauto. Qed.

#[export] Instance protocol_error_canonical : CanonicalCodec ProtocolErrorEvent.
Proof.
  apply codec_canonical_intro. intros.
  destruct (decode_protocol_error_total s old) as [|(?&?&?&?)]; eauto.
Qed.
