(* ===== verification/ProtocolProps.v ===== *)
(** * Properties of the wire protocol

    Round trips of headers, payloads and whole frames, safety of the decoders
    on arbitrary bytes, canonicity of the inbound encoding and the exact
    acceptance condition of the header check.  The frame theorem is proved once
    against the [Codec] interface and instantiated at every payload. *)

From stdpp Require Import prelude list.
From Stdlib Require Import ZArith Lia.
From S2P Require Import Prelude Types OrderBook Bytes Protocol ProtocolInv.

Open Scope Z_scope.
Import layout.
#[local] Arguments le_bytes : simpl never.

(** ** The header *)

Definition header_ok (h : WireHeader) : Prop :=
  0 ≤ magic h < 2 ^ 16 ∧ 0 ≤ version h < 256 ∧ 0 ≤ wh_type h < 256 ∧
  0 ≤ flags h < 2 ^ 16 ∧ 0 ≤ payload_length h < 2 ^ 16.

Definition header_image (h : WireHeader) : list Z :=
  le_bytes 2 (magic h) ++ version h :: wh_type h :: le_bytes 2 (flags h) ++
  le_bytes 2 (payload_length h).

Lemma encode_header_image h out :
  (kHeaderSize ≤ length out)%nat →
  encode_header h out = Val (true, splice 0 (header_image h) out).
Proof. unfold encode_header, kHeaderSize. run_encoder out. Qed.

Lemma decode_header_image h s :
  header_ok h → decode_header (header_image h ++ s) = Val (Some h).
Proof.
  intros (Hm & Hv & Ht & Hf & Hl). destruct h as [m v t f l]. cbn in Hm, Hv, Ht, Hf, Hl.
  unfold decode_header, header_image, kHeaderSize. cbn [magic version wh_type flags payload_length].
  rewrite <- app_assoc. cbn [app]. rewrite <- app_assoc.
  rewrite decide_False by (rewrite length_app, length_le_bytes; simpl; lia).
  by autorewrite with wire.
Qed.

Lemma split_header s :
  bytes_ok s → (kHeaderSize ≤ length s)%nat →
  ∃ h s', s = header_image h ++ s' ∧ header_ok h.
Proof.
  intros Hok Hl.
  destruct (split_u16 s (length s - 2)%nat) as (m & s1 & -> & Hm & Hok1 & Hl1);
    [done|unfold kHeaderSize in Hl; lia|].
  unfold kHeaderSize in Hl. rewrite length_app, length_le_bytes in *.
  destruct (split_u8 s1 (length s1 - 1)%nat) as (v & s2 & -> & Hv & Hok2 & Hl2); [done|lia|].
  destruct (split_u8 s2 (length s2 - 1)%nat) as (t & s3 & -> & Ht & Hok3 & Hl3);
    [done|simpl in *; lia|].
  destruct (split_u16 s3 (length s3 - 2)%nat) as (f & s4 & -> & Hf & Hok4 & Hl4);
    [done|simpl in *; lia|].
  destruct (split_u16 s4 (length s4 - 2)%nat) as (l & s5 & -> & Hlen & Hok5 & Hl5);
    [done|rewrite length_app, length_le_bytes in *; simpl in *; lia|].
  exists {| magic := m; version := v; wh_type := t; flags := f; payload_length := l |}, s5.
  split; [|done]. unfold header_image. cbn [magic version wh_type flags payload_length].
  rewrite <- app_assoc. cbn [app]. by rewrite <- app_assoc.
Qed.

(** ** Frames *)

Lemma copy_payload payload bs out i n :
  (i + n)%nat = length payload → (length bs + length payload ≤ length out)%nat →
  for_from i n (λ i out, b ← byte_at payload i; set_byte out (length bs + i) b)
    (splice 0 (bs ++ take i payload) out)
  = Val (splice 0 (bs ++ payload) out).
Proof.
  revert i. induction n as [|n IH]; intros i Hi Hl; cbn [for_from].
  - by rewrite take_ge by lia.
  - destruct (lookup_lt_is_Some_2 payload i) as [b Hb]; [lia|].
    assert (byte_at payload i = Val b) as -> by (unfold byte_at; by rewrite Hb).
    rewrite bind_Val.
    rewrite set_byte_next by (rewrite ?length_app, ?length_take; lia).
    rewrite bind_Val, <- app_assoc, <- (take_S_r _ _ _ Hb). apply IH; lia.
Qed.

Definition frame_header (type : MessageType.t) (size : nat) (flags : Z) : WireHeader :=
  {| magic := kMagic; version := kVersion; wh_type := type; flags := flags;
     payload_length := wrap 16 (Z.of_nat size) |}.

Lemma encode_frame_image type payload out flags :
  (kHeaderSize + length payload ≤ length out)%nat →
  encode_frame type payload out flags
  = Val (true, splice 0 (header_image (frame_header type (length payload) flags) ++ payload) out).
Proof.
  intros Hl. unfold encode_frame. rewrite decide_False by lia.
  fold (frame_header type (length payload) flags).
  set (h := frame_header _ _ _).
  assert (length (take kHeaderSize out) = kHeaderSize) as Ht by (rewrite length_take; lia).
  rewrite encode_header_image by lia. rewrite bind_Val.
  rewrite splice_all by (by rewrite Ht).
  assert (header_image h ++ drop kHeaderSize out
          = splice 0 (header_image h ++ take 0 payload) out) as ->.
  { by rewrite take_0, app_nil_r. }
  cbn [negb]. change kHeaderSize with (length (header_image h)).
  rewrite copy_payload; [done|done|]. exact Hl.
Qed.

(** A value sent as a frame: the sender fills a payload buffer of the exact
    size and frames it into [out]; the receiver decodes and validates the
    header, then decodes the payload bytes that follow it. *)
Definition frame_roundtrips {A} (type : MessageType.t) (size : nat)
    (encode : A → span → outcome (bool * span))
    (decode : span → A → outcome (option ErrorCode.t * A)) (v : A) : Prop :=
  ∀ (fl : Z) (out : span) (old : A),
    (fl = 0 ∨ fl = kFlagMore) → (kHeaderSize + size ≤ length out)%nat →
    ∃ payload frame header,
      encode v (replicate size 0) = Val (true, payload) ∧
      encode_frame type payload out fl = Val (true, frame) ∧
      length frame = length out ∧
      decode_header frame = Val (Some header) ∧
      validate_header header = None ∧ wh_type header = type ∧ flags header = fl ∧
      payload_length header = Z.of_nat size ∧
      decode (take size (drop kHeaderSize frame)) old = Val (None, v) ∧
      drop (kHeaderSize + size) frame = drop (kHeaderSize + size) out.

Lemma codec_frame_roundtrip {A} `{Codec A} type v :
  expected_payload_length type = Some (Z.of_nat codec_size) → 0 ≤ type < 256 →
  (codec_size ≤ 1024)%nat → codec_ok v →
  frame_roundtrips type codec_size codec_encode codec_decode v.
Proof.
  intros Htype Hrange Hsize Hv fl out old Hfl Hl.
  exists (codec_image v). eexists. exists (frame_header type codec_size fl).
  assert (length (codec_image v) = codec_size) as Hlen by apply codec_image_length.
  assert (payload_length (frame_header type codec_size fl) = Z.of_nat codec_size) as Hpl.
  { apply wrap_small. lia. }
  assert (header_ok (frame_header type codec_size fl)) as Hh.
  { unfold header_ok. rewrite Hpl. unfold kFlagMore in Hfl.
    cbn [magic version wh_type flags frame_header]. unfold kMagic, kVersion. lia. }
  split_and!.
  - rewrite codec_encode_image by (by rewrite length_replicate).
    by rewrite splice_all by (by rewrite length_replicate).
  - rewrite encode_frame_image by (by rewrite Hlen). by rewrite Hlen.
  - rewrite length_splice; [done|]. rewrite length_app, Hlen. simpl. exact Hl.
  - unfold splice. rewrite take_0, app_nil_l, <- app_assoc. by apply decode_header_image.
  - unfold validate_header. rewrite Hpl. cbn [magic version flags wh_type frame_header].
    rewrite Htype. unfold kMaxPayloadLength. zcase; try lia.
    by destruct Hfl as [->| ->].
  - done.
  - done.
  - done.
  - unfold splice. rewrite take_0, app_nil_l, <- app_assoc.
    rewrite drop_app_length' by reflexivity. rewrite take_app_length' by by rewrite Hlen. by apply codec_decode_image.
  - assert (kHeaderSize + codec_size =
      length (header_image (frame_header type codec_size fl) ++ codec_image v))%nat as ->.
    { rewrite length_app, Hlen. done. }
    by rewrite drop_splice_0.
Qed.

(** Instantiates the frame theorem at the codec of [A]. *)
Ltac frame_roundtrip A :=
  refine (codec_frame_roundtrip (A:=A) _ _ _ _ _ _); [reflexivity|by vm_compute|by apply Nat.leb_le|done].

(** ** Decoders on arbitrary bytes *)

(** A decoder either fails and leaves its out-parameter alone, or stores a
    value that satisfies [ok]; it never reads outside the span. *)
Definition decodes_safely {A} (ok : A → Prop) (decode : span → A → outcome (option ErrorCode.t * A))
    (s : span) : Prop :=
  ∀ old, (∃ e, decode s old = Val (Some e, old)) ∨ (∃ v, decode s old = Val (None, v) ∧ ok v).

Lemma codec_decodes_safely {A} `{Codec A} s : bytes_ok s → decodes_safely codec_ok codec_decode s.
Proof.
  intros Hok old. destruct (decide (length s = codec_size)) as [Hl|Hl].
  - by apply codec_decode_total.
  - left. eexists. by apply codec_decode_length.
Qed.

(** An accepted payload is what the encoder writes for the decoded value. *)
Definition encodes_back {A} (encode : A → span → outcome (bool * span))
    (decode : span → A → outcome (option ErrorCode.t * A)) : Prop :=
  ∀ s old v out, bytes_ok s → decode s old = Val (None, v) → length out = length s →
    encode v out = Val (true, s).

Lemma codec_encodes_back {A} `{CanonicalCodec A} : encodes_back codec_encode codec_decode.
Proof.
  intros s old v out Hok Hd Hl. apply codec_canonical in Hd as ->; [|done].
  rewrite codec_image_length in Hl. rewrite codec_encode_image by lia.
  rewrite splice_all; [done|]. by rewrite codec_image_length.
Qed.

Lemma land_reserved_mask f : 0 ≤ f < 2 ^ 16 → Z.land f 0xFFFE = 0 ↔ f = 0 ∨ f = 1.
Proof.
  intros Hf. split; [|by intros [->| ->]]. intros Hl.
  assert (Z.shiftr (Z.land f 0xFFFE) 1 = f / 2) as Hs.
  { rewrite Z.shiftr_land. change (Z.shiftr 0xFFFE 1) with (Z.ones 15).
    rewrite Z.land_ones by lia. rewrite Z.shiftr_div_pow2 by lia. change (2 ^ 1) with 2.
    apply Z.mod_small. split; [apply Z.div_pos; lia|].
    apply Z.div_lt_upper_bound; lia. }
  rewrite Hl in Hs. change (Z.shiftr 0 1) with 0 in Hs.
  pose proof (Z.div_mod f 2). pose proof (Z.mod_pos_bound f 2). lia.
Qed.

Lemma expected_payload_length_bound type n :
  expected_payload_length type = Some n → 8 ≤ n ≤ 40.
Proof. unfold expected_payload_length. repeat case_match; intros; simplify_eq;
  split; vm_compute; discriminate. Qed.

(** ** Claims *)

(** C22. Every well-formed inbound command survives the wire: encoded into a
    payload buffer, framed with either value of the more flag into any large
    enough buffer, it is recovered by decoding and validating the header and
    decoding the payload behind it, and bytes behind the frame are untouched. *)
Theorem command_frames_roundtrip :
  (∀ o, NewOrder_wf o → validate o = None →
     frame_roundtrips MessageType.new_order kNewOrderSize encode_new_order decode_new_order o) ∧
  (∀ c, CancelOrder_wf c →
     frame_roundtrips MessageType.cancel_order kCancelOrderSize encode_cancel_order
       decode_cancel_order c) ∧
  (∀ r, ReplaceOrder_wf r →
     frame_roundtrips MessageType.replace_order kReplaceOrderSize encode_replace_order
       decode_replace_order r).
Proof.
  split_and!; intros.
  - frame_roundtrip NewOrder.
  - frame_roundtrip CancelOrder.
  - frame_roundtrip ReplaceOrder.
Qed.

(** C23. Every event the exchange sends survives the wire in the same way:
    acceptances, rejections, executions, accepted cancels (and replaces, which
    reuse the acceptance payload) and protocol errors. *)
Theorem event_frames_roundtrip :
  (∀ e, order_accepted_ok e →
     frame_roundtrips MessageType.order_accepted kOrderAcceptedSize encode_order_accepted
       decode_order_accepted e ∧
     frame_roundtrips MessageType.replace_accepted kReplaceAcceptedSize encode_order_accepted
       decode_order_accepted e) ∧
  (∀ e, order_rejected_ok e →
     frame_roundtrips MessageType.order_rejected kOrderRejectedSize encode_order_rejected
       decode_order_rejected e ∧
     frame_roundtrips MessageType.cancel_rejected kCancelRejectedSize encode_order_rejected
       decode_order_rejected e ∧
     frame_roundtrips MessageType.replace_rejected kReplaceRejectedSize encode_order_rejected
       decode_order_rejected e) ∧
  (∀ e, execution_ok e →
     frame_roundtrips MessageType.execution kExecutionSize encode_execution decode_execution e) ∧
  (∀ e, cancel_accepted_ok e →
     frame_roundtrips MessageType.cancel_accepted kCancelAcceptedSize encode_cancel_accepted
       decode_cancel_accepted e) ∧
  (∀ e, protocol_error_ok e →
     frame_roundtrips MessageType.protocol_error kProtocolErrorSize encode_protocol_error
       decode_protocol_error e).
Proof.
  split_and!; intros; repeat apply conj.
  1,2: frame_roundtrip OrderAcceptedEvent.
  1-3: frame_roundtrip OrderRejectedEvent.
  - frame_roundtrip ExecutionEvent.
  - frame_roundtrip CancelAcceptedEvent.
  - frame_roundtrip ProtocolErrorEvent.
Qed.

(** C24. The inbound decoders are safe on every byte string, whatever its
    length: no read outside the span, an error leaves the command untouched,
    and an accepted command has valid fields and passes [validate]. *)
Theorem inbound_decoders_safe s :
  bytes_ok s →
  decodes_safely (λ o, NewOrder_wf o ∧ validate o = None) decode_new_order s ∧
  decodes_safely CancelOrder_wf decode_cancel_order s ∧
  decodes_safely ReplaceOrder_wf decode_replace_order s.
Proof.
  intros Hok. split_and!.
  - exact (codec_decodes_safely (A:=NewOrder) s Hok).
  - exact (codec_decodes_safely (A:=CancelOrder) s Hok).
  - exact (codec_decodes_safely (A:=ReplaceOrder) s Hok).
Qed.

(** The inbound encoding is canonical: the payload a decoder accepts is
    byte for byte the one the encoder writes for the decoded command, so two
    different accepted payloads never decode to the same command. *)
Lemma inbound_payloads_canonical :
  encodes_back encode_new_order decode_new_order ∧
  encodes_back encode_cancel_order decode_cancel_order ∧
  encodes_back encode_replace_order decode_replace_order.
Proof.
  split_and!.
  - exact (codec_encodes_back (A:=NewOrder)).
  - exact (codec_encodes_back (A:=CancelOrder)).
  - exact (codec_encodes_back (A:=ReplaceOrder)).
Qed.

(** [validate_header] accepts exactly the headers with the protocol's
    magic and version, at most the more flag set, a known message type and the
    payload length of that type, which is then between 8 and 40 bytes. *)
Lemma validate_header_exact h :
  header_ok h →
  (validate_header h = None ↔
   magic h = kMagic ∧ version h = kVersion ∧ (flags h = 0 ∨ flags h = kFlagMore) ∧
   expected_payload_length (wh_type h) = Some (payload_length h) ∧ 8 ≤ payload_length h ≤ 40).
Proof.
  intros (_ & _ & _ & Hf & _). unfold validate_header, flags_reserved_bits_clear.
  pose proof (land_reserved_mask (flags h) Hf) as Hmask. unfold kFlagMore.
  change kFlagReservedMask with 0xFFFE. unfold kMaxPayloadLength.
  destruct (expected_payload_length (wh_type h)) as [n|] eqn:He.
  - pose proof (expected_payload_length_bound _ _ He). zcase; simpl; split; try done;
      intros; destruct_and?; simplify_eq; split_and?; auto; try lia; tauto.
  - zcase; simpl; split; try done; intros; destruct_and?; simplify_eq.
Qed.

(** Headers round trip in both directions: a header with fields in range
    written to a buffer is read back, and any eight bytes decode to a header
    whose encoding is those bytes; fewer than eight bytes decode to nothing
    and are not written to. *)
Lemma header_roundtrip :
  (∀ h out, header_ok h → (kHeaderSize ≤ length out)%nat →
     ∃ out', encode_header h out = Val (true, out') ∧ decode_header out' = Val (Some h) ∧
             drop kHeaderSize out' = drop kHeaderSize out) ∧
  (∀ s, bytes_ok s → (kHeaderSize ≤ length s)%nat →
     ∃ h, decode_header s = Val (Some h) ∧ header_ok h ∧ encode_header h s = Val (true, s)) ∧
  (∀ h s, (length s < kHeaderSize)%nat →
     decode_header s = Val None ∧ encode_header h s = Val (false, s)).
Proof.
  split_and!.
  - intros h out Hh Hl. eexists. split; [by apply encode_header_image|]. split.
    + unfold splice. rewrite take_0, app_nil_l. by apply decode_header_image.
    + apply (drop_splice_0 (header_image h)).
  - intros s Hok Hl. destruct (split_header s Hok Hl) as (h & s' & -> & Hh).
    exists h. split; [by apply decode_header_image|]. split; [done|].
    rewrite encode_header_image by done. unfold splice.
    rewrite take_0, app_nil_l, drop_app_length' by done. done.
  - intros h s Hl. unfold decode_header, encode_header. by rewrite !decide_True.
Qed.

(** A rejection whose order id is zero on the wire (the id could not be
    parsed) is decoded as a rejection of order id 1: the two are not
    distinguishable after decoding. *)
Lemma rejected_zero_id_read_as_one seq code old :
  0 < seq ≤ u64_max → 0 ≤ code < 2 ^ 16 →
  let wire id := le_bytes 8 seq ++ le_bytes 8 id ++ le_bytes 2 code ++ replicate 6 0 in
  let rejected := {| or_sequence := SequenceNumber.mk seq; or_order_id := OrderId.mk 1;
                     or_error_code := code |} in
  decode_order_rejected (wire 0) old = Val (None, rejected) ∧
  decode_order_rejected (wire 1) old = Val (None, rejected).
Proof.
  intros Hs Hc wire rejected. unfold wire, u64_max in *. split; unfold decode_order_rejected;
    run_decoder; rewrite bool_decide_true by done; by rewrite SequenceNumber_from_nonzero by lia.
Qed.

(** ** Witnesses *)

Definition demo_limit : NewOrder :=
  {| no_sequence := SequenceNumber.mk 7; no_order_id := OrderId.mk 42; no_side := sell;
     no_type := limit; no_quantity := Quantity.mk 300; no_limit_price := Some (Price.mk 10050) |}.
Definition demo_replace : ReplaceOrder :=
  {| rp_sequence := SequenceNumber.mk 9; rp_order_id := OrderId.mk 42;
     rp_new_quantity := Quantity.mk 100; rp_new_price := Price.mk 10049 |}.
Definition demo_execution : ExecutionEvent :=
  {| ee_sequence := SequenceNumber.mk 8; ee_resting_order_id := OrderId.mk 42;
     ee_incoming_order_id := OrderId.mk 43; ee_price := Price.mk 10050;
     ee_quantity := Quantity.mk 50 |}.

Lemma demo_limit_wf : NewOrder_wf demo_limit.
Proof. vm_compute. intuition discriminate. Qed.

Lemma command_frames_roundtrip_witness :
  frame_roundtrips MessageType.new_order kNewOrderSize encode_new_order decode_new_order
    demo_limit ∧
  frame_roundtrips MessageType.replace_order kReplaceOrderSize encode_replace_order
    decode_replace_order demo_replace.
Proof.
  split; [apply (proj1 command_frames_roundtrip)
         |apply (proj2 (proj2 command_frames_roundtrip))].
  - exact demo_limit_wf.
  - reflexivity.
  - vm_compute. intuition discriminate.
Defined.

Lemma event_frames_roundtrip_witness :
  frame_roundtrips MessageType.execution kExecutionSize encode_execution decode_execution
    demo_execution.
Proof.
  apply (proj1 (proj2 (proj2 event_frames_roundtrip))). vm_compute. intuition discriminate.
Defined.

(** A sell of 300 at 10050 on the wire; the demo payload is accepted, the same
    bytes with the side byte out of range are not. *)
Definition demo_payload : span := new_order_image demo_limit.

Lemma demo_payload_ok : bytes_ok demo_payload.
Proof. repeat constructor; vm_compute; intuition discriminate. Qed.

Lemma inbound_decoders_safe_witness :
  decodes_safely (λ o, NewOrder_wf o ∧ validate o = None) decode_new_order demo_payload ∧
  decode_new_order demo_payload demo_limit = Val (None, demo_limit) ∧
  decode_new_order (<[32%nat := 2]> demo_payload) demo_limit
  = Val (Some ErrorCode.invalid_field, demo_limit).
Proof.
  split; [|split; vm_compute; reflexivity].
  apply (inbound_decoders_safe demo_payload). exact demo_payload_ok.
Defined.

Lemma inbound_payloads_canonical_witness :
  encode_new_order demo_limit (replicate 40 255) = Val (true, demo_payload).
Proof.
  apply (proj1 inbound_payloads_canonical demo_payload demo_limit).
  - exact demo_payload_ok.
  - vm_compute. reflexivity.
  - reflexivity.
Defined.

Lemma validate_header_exact_witness :
  validate_header (frame_header MessageType.execution 40 kFlagMore) = None.
Proof.
  apply (validate_header_exact (frame_header MessageType.execution 40 kFlagMore));
    vm_compute; intuition discriminate.
Defined.

Lemma header_roundtrip_witness :
  ∃ out', encode_header (frame_header MessageType.execution 40 kFlagMore) (replicate 9 255)
          = Val (true, out') ∧
    decode_header out' = Val (Some (frame_header MessageType.execution 40 kFlagMore)) ∧
    drop kHeaderSize out' = [255].
Proof.
  apply (proj1 header_roundtrip); [vm_compute; intuition discriminate|].
  by apply Nat.leb_le.
Defined.

Lemma rejected_zero_id_read_as_one_witness :
  let old := {| or_sequence := SequenceNumber.mk 1; or_order_id := OrderId.mk 1;
                or_error_code := 0 |} in
  decode_order_rejected (le_bytes 8 5 ++ le_bytes 8 0 ++ le_bytes 2 ErrorCode.order_not_found ++
    replicate 6 0) old
  = Val (None, {| or_sequence := SequenceNumber.mk 5; or_order_id := OrderId.mk 1;
                  or_error_code := ErrorCode.order_not_found |}).
Proof.
  intros old. apply (rejected_zero_id_read_as_one 5 ErrorCode.order_not_found old);
    vm_compute; intuition discriminate.
Defined.
