(* ===== verification/Spsc.v ===== *)
(** * The bounded single-producer single-consumer queue

    Models [BoundedSPSCQueue] of [include/low_latency_exchange/spsc_queue.hpp]:
    the ring buffer, the two 64-bit indices, and the index each side caches of
    the other.  The operations appear twice.  [try_push], [try_pop], [size],
    [empty] and [full] are the member functions run without interruption; they
    discharge the interface [BoundedQueue] the other components are proved
    against.  [step] splits [try_push] and [try_pop] at every access to shared
    memory and interleaves the producer with the consumer.

    Memory order: the side that owns an index always reads its own last store.
    An acquire load of the other side's index may return any value of that
    index's modification order between the one last seen and the newest
    (coherence; the indices are only ever incremented), so the cached index may
    lag arbitrarily.  The buffer is plain memory, updated in program order; the
    theorem [slots_never_race] is what makes this a faithful view of it.
    [moved_from x] is what [std::move] leaves behind in a slot that held [x];
    nothing is assumed of it. *)

From stdpp Require Import prelude list relations.
From Stdlib Require Import ZArith Lia.
From S2P Require Import Prelude.

Open Scope Z_scope.

Module BoundedSPSCQueue.

Record Queue (T : Type) : Type := mkQueue {
  buffer : list T;
  write_index : Z;
  cached_read_index : Z;
  read_index : Z;
  cached_write_index : Z;
}.
Arguments mkQueue {T}.
Arguments buffer {T}.
Arguments write_index {T}.
Arguments cached_read_index {T}.
Arguments read_index {T}.
Arguments cached_write_index {T}.

(** The static assertion of the class template on a 64-bit [Capacity]. *)
Definition capacity_ok (Capacity : Z) : bool :=
  (2 <=? Capacity) && (Z.land Capacity (Capacity - 1) =? 0) && (Capacity <? 2 ^ 64).

(** Abbreviations for updating one member. *)
Definition with_cached_read {T} (q : Queue T) (r : Z) : Queue T :=
  mkQueue (buffer q) (write_index q) r (read_index q) (cached_write_index q).
Definition with_cached_write {T} (q : Queue T) (w : Z) : Queue T :=
  mkQueue (buffer q) (write_index q) (cached_read_index q) (read_index q) w.
Definition with_write {T} (q : Queue T) (w : Z) : Queue T :=
  mkQueue (buffer q) w (cached_read_index q) (read_index q) (cached_write_index q).
Definition with_read {T} (q : Queue T) (r : Z) : Queue T :=
  mkQueue (buffer q) (write_index q) (cached_read_index q) r (cached_write_index q).
Definition with_buffer {T} (q : Queue T) (b : list T) : Queue T :=
  mkQueue b (write_index q) (cached_read_index q) (read_index q) (cached_write_index q).

Section Operations.
Context {T : Type} (Capacity : Z) (moved_from : T → T).

Definition kMask : Z := Capacity - 1.

(** The array index [index & kMask]. *)
Definition slot (index : Z) : nat := Z.to_nat (Z.land index kMask).

(** [BoundedSPSCQueue()]: every element value-initialised, all indices zero. *)
Definition new_queue (value_init : T) : Queue T :=
  mkQueue (replicate (Z.to_nat Capacity) value_init) 0 0 0 0.

(** [buffer_[current_write & kMask] = item] *)
Definition store_slot (item : T) (index : Z) (q : Queue T) : outcome (Queue T) :=
  if decide (slot index < length (buffer q))%nat
  then Val (with_buffer q (<[slot index := item]> (buffer q)))
  else Undef.

(** [out = std::move(buffer_[current_read & kMask])] *)
Definition take_slot (index : Z) (q : Queue T) : outcome (T * Queue T) :=
  item ← deref_opt (buffer q !! slot index);
  Val (item, with_buffer q (<[slot index := moved_from item]> (buffer q))).

Definition try_push (item : T) (q : Queue T) : outcome (bool * Queue T) :=
  let current_write := write_index q in
  let finish (q : Queue T) :=
    q ← store_slot item current_write q;
    Val (true, with_write q (u64_add current_write 1)) in
  if Capacity <=? u64_sub current_write (cached_read_index q) then
    let q := with_cached_read q (read_index q) in
    if Capacity <=? u64_sub current_write (cached_read_index q) then Val (false, q)
    else finish q
  else finish q.

(** [out] is the previous value of the reference argument. *)
Definition try_pop (out : T) (q : Queue T) : outcome (bool * T * Queue T) :=
  let current_read := read_index q in
  let finish (q : Queue T) :=
    '(item, q) ← take_slot current_read q;
    Val (true, item, with_read q (u64_add current_read 1)) in
  if current_read =? cached_write_index q then
    let q := with_cached_write q (write_index q) in
    if current_read =? cached_write_index q then Val (false, out, q)
    else finish q
  else finish q.

Definition size (q : Queue T) : Z :=
  let w := write_index q in
  let r := read_index q in
  if r <=? w then w - r else 0.

Definition empty (q : Queue T) : bool := write_index q =? read_index q.

Definition full (q : Queue T) : bool :=
  let w := write_index q in
  let r := read_index q in
  Capacity <=? u64_sub w r.

(** ** Interleaved execution *)

Inductive producer : Type :=
| PIdle
| PRefresh (item : T) (current_write : Z)
| PStore (item : T) (current_write : Z)
| PPublish (item : T) (current_write : Z).

Inductive consumer : Type :=
| CIdle
| CRefresh (current_read : Z)
| CTake (current_read : Z)
| CPublish (current_read : Z) (out : T).

(** [pushed] and [popped] record the items of the calls that returned true. *)
Record system : Type := mkSystem {
  queue : Queue T;
  prod : producer;
  cons_ : consumer;
  pushed : list T;
  popped : list T;
}.

(** A value the acquire load may return: between the last one seen and the
    newest one of an index that only grows by one. *)
Definition may_load (seen newest v : Z) : Prop :=
  ∃ d, 0 ≤ d ≤ u64_sub newest seen ∧ v = u64_add seen d.

Inductive step : system → system → Prop :=
| push_begin q c l1 l2 item :
    step (mkSystem q PIdle c l1 l2)
      (mkSystem q
        (if Capacity <=? u64_sub (write_index q) (cached_read_index q)
         then PRefresh item (write_index q) else PStore item (write_index q)) c l1 l2)
| push_refresh q c l1 l2 item w r :
    may_load (cached_read_index q) (read_index q) r →
    step (mkSystem q (PRefresh item w) c l1 l2)
      (mkSystem (with_cached_read q r)
        (if Capacity <=? u64_sub w r then PIdle else PStore item w) c l1 l2)
| push_store q q' c l1 l2 item w :
    store_slot item w q = Val q' →
    step (mkSystem q (PStore item w) c l1 l2) (mkSystem q' (PPublish item w) c l1 l2)
| push_publish q c l1 l2 item w :
    step (mkSystem q (PPublish item w) c l1 l2)
      (mkSystem (with_write q (u64_add w 1)) PIdle c (l1 ++ [item]) l2)
| pop_begin q p l1 l2 :
    step (mkSystem q p CIdle l1 l2)
      (mkSystem q p
        (if read_index q =? cached_write_index q
         then CRefresh (read_index q) else CTake (read_index q)) l1 l2)
| pop_refresh q p l1 l2 r w :
    may_load (cached_write_index q) (write_index q) w →
    step (mkSystem q p (CRefresh r) l1 l2)
      (mkSystem (with_cached_write q w) p (if r =? w then CIdle else CTake r) l1 l2)
| pop_take q q' p l1 l2 r out :
    take_slot r q = Val (out, q') →
    step (mkSystem q p (CTake r) l1 l2) (mkSystem q' p (CPublish r out) l1 l2)
| pop_publish q p l1 l2 r out :
    step (mkSystem q p (CPublish r out) l1 l2)
      (mkSystem (with_read q (u64_add r 1)) p CIdle l1 (l2 ++ [out])).

Definition initial (value_init : T) : system :=
  mkSystem (new_queue value_init) PIdle CIdle [] [].

End Operations.

End BoundedSPSCQueue.

(** ** The interface

    What a bounded FIFO promises to the thread that uses one end of it: [rep q
    n l] says that [q] holds the items [l] and that [n] items were ever pushed. *)
Class BoundedQueue (Q T : Type) : Type := {
  bq_capacity : nat;
  bq_push : T → Q → outcome (bool * Q);
  bq_pop : T → Q → outcome (bool * T * Q);
  bq_size : Q → Z;
  bq_rep : Q → nat → list T → Prop;
  bq_rep_bound q n l : bq_rep q n l → (length l ≤ bq_capacity)%nat ∧ (length l ≤ n)%nat;
  bq_push_ok q n l x :
    bq_rep q n l → (length l < bq_capacity)%nat →
    ∃ q', bq_push x q = Val (true, q') ∧ bq_rep q' (S n) (l ++ [x]);
  bq_push_full q n l x :
    bq_rep q n l → length l = bq_capacity →
    ∃ q', bq_push x q = Val (false, q') ∧ bq_rep q' n l;
  bq_pop_ok q n l x out :
    bq_rep q n (x :: l) → ∃ q', bq_pop out q = Val (true, x, q') ∧ bq_rep q' n l;
  bq_pop_empty q n out :
    bq_rep q n [] → ∃ q', bq_pop out q = Val (false, out, q') ∧ bq_rep q' n [];
  bq_size_ok q n l :
    bq_rep q n l → Z.of_nat n < 2 ^ 64 → bq_size q = Z.of_nat (length l);
}.
