(* ===== verification/SpscProps.v ===== *)
(** * Correctness of the bounded queue

    The representation invariant relates the wrapped 64-bit indices to the
    unbounded numbers of pushes and pops; from it follow the FIFO refinement of
    every interleaving, the absence of races on the slots, the sequential
    specification of the operations and the instance of [BoundedQueue]. *)

From stdpp Require Import prelude list relations.
From Stdlib Require Import ZArith Lia.
From S2P Require Import Prelude Spsc.
Import BoundedSPSCQueue.

Open Scope Z_scope.

(** ** Arithmetic of wrapped counters *)

Lemma u64_sub_wraps a b : u64_sub (wrap 64 a) (wrap 64 b) = wrap 64 (a - b).
Proof. unfold u64_sub, wrap. by rewrite Zminus_mod_idemp_l, Zminus_mod_idemp_r. Qed.

Lemma u64_sub_close a b : 0 ≤ a - b < 2 ^ 64 → u64_sub (wrap 64 a) (wrap 64 b) = a - b.
Proof. intros. rewrite u64_sub_wraps. by apply wrap_small. Qed.

Lemma wrap_inj_close a b : - 2 ^ 64 < a - b < 2 ^ 64 → wrap 64 a = wrap 64 b → a = b.
Proof.
  unfold wrap. intros Hab Hw.
  pose proof (Z.div_mod a (2 ^ 64)). pose proof (Z.div_mod b (2 ^ 64)). nia.
Qed.

Lemma wrap_eqb_close a b : - 2 ^ 64 < a - b < 2 ^ 64 → (wrap 64 a =? wrap 64 b) = (a =? b).
Proof.
  intros. destruct (Z.eqb_spec a b) as [->|Hne]; [apply Z.eqb_refl|].
  apply Z.eqb_neq. intros Hw. by apply Hne, wrap_inj_close.
Qed.

(** A capacity that passes the static assertion is a power of two. *)
Lemma capacity_pow2 c : capacity_ok c = true → ∃ k, c = 2 ^ k ∧ 0 < k < 64.
Proof.
  unfold capacity_ok. rewrite !andb_true_iff, Z.leb_le, Z.eqb_eq, Z.ltb_lt.
  intros [[H2 Hl] H64]. exists (Z.log2 c).
  assert (0 < Z.log2 c < 64) as Hk.
  { split; [apply Z.log2_pos; lia|apply Z.log2_lt_pow2; lia]. }
  split; [|done]. pose proof (Z.log2_spec c ltac:(lia)) as [Hlo Hhi].
  destruct (Z.eq_dec c (2 ^ Z.log2 c)) as [|Hne]; [done|exfalso].
  assert (Z.testbit (Z.land c (c - 1)) (Z.log2 c) = true) as Hb.
  { rewrite Z.land_spec, Z.bit_log2 by lia. simpl.
    rewrite <- (Z.log2_unique (c - 1) (Z.log2 c)) by lia. apply Z.bit_log2. lia. }
  rewrite Hl, Z.bits_0 in Hb. done.
Qed.

Section Ring.
Context {T : Type} (Capacity : Z) (moved_from : T → T).
Hypothesis Hcap : capacity_ok Capacity = true.

Notation slot := (slot Capacity).

Lemma capacity_bounds : 2 ≤ Capacity < 2 ^ 64.
Proof.
  revert Hcap. unfold capacity_ok. rewrite !andb_true_iff, Z.leb_le, Z.ltb_lt. lia.
Qed.

Lemma slot_mod i : Z.of_nat (slot (wrap 64 i)) = i `mod` Capacity.
Proof.
  destruct (capacity_pow2 _ Hcap) as (k & -> & Hk). unfold slot, kMask, wrap.
  replace (2 ^ k - 1) with (Z.ones k) by (rewrite Z.ones_equiv; lia).
  rewrite Z.land_ones by lia.
  replace (2 ^ 64) with (2 ^ k * 2 ^ (64 - k)) by (rewrite <- Z.pow_add_r by lia; f_equal; lia).
  rewrite Z.rem_mul_r by (apply Z.pow_nonzero || apply Z.pow_pos_nonneg; lia).
  rewrite (Z.mul_comm (2 ^ k)), Z_mod_plus_full, Zmod_mod.
  apply Z2Nat.id, Z.mod_pos_bound, Z.pow_pos_nonneg; lia.
Qed.

Lemma slot_bound i : (slot (wrap 64 i) < Z.to_nat Capacity)%nat.
Proof.
  pose proof capacity_bounds. pose proof (slot_mod i).
  pose proof (Z.mod_pos_bound i Capacity). lia.
Qed.

(** Indices less than [Capacity] apart occupy different slots. *)
Lemma slot_inj i j :
  - Capacity < i - j < Capacity → slot (wrap 64 i) = slot (wrap 64 j) → i = j.
Proof.
  intros Hij Hs. pose proof capacity_bounds.
  assert (i `mod` Capacity = j `mod` Capacity) as Hm by (rewrite <- !slot_mod; congruence).
  pose proof (Z.div_mod i Capacity ltac:(lia)) as Hi.
  pose proof (Z.div_mod j Capacity ltac:(lia)) as Hj.
  assert (i / Capacity = j / Capacity); nia.
Qed.

(** ** The invariant

    [W] items were pushed and [R] popped; [CR] and [CW] are the cached counts;
    [lo] is the first index whose slot still holds its item (one past [R] while
    a pop has taken its item and not yet published). *)
Record ring (q : Queue T) (items : list T) (lo W R CR CW : Z) : Prop := {
  ring_write : write_index q = wrap 64 W;
  ring_read : read_index q = wrap 64 R;
  ring_cached_read : cached_read_index q = wrap 64 CR;
  ring_cached_write : cached_write_index q = wrap 64 CW;
  ring_order : 0 ≤ CR ≤ R ∧ R ≤ CW ≤ W ∧ W ≤ CR + Capacity;
  ring_lo : R ≤ lo;
  ring_buffer : Z.of_nat (length (buffer q)) = Capacity;
  ring_count : Z.of_nat (length items) = W;
  ring_items i : lo ≤ i < W → buffer q !! slot (wrap 64 i) = items !! Z.to_nat i;
}.

Lemma ring_init v : ring (new_queue Capacity v) [] 0 0 0 0 0.
Proof.
  pose proof capacity_bounds. split; simpl; try done; try lia.
  rewrite length_replicate. lia.
Qed.

Lemma store_slot_total item q items lo W R CR CW :
  ring q items lo W R CR CW → ∃ q', store_slot Capacity item (wrap 64 W) q = Val q'.
Proof.
  intros HR. unfold store_slot. rewrite decide_True; [eauto|].
  pose proof (ring_buffer _ _ _ _ _ _ _ HR). pose proof (slot_bound W). lia.
Qed.

(** Storing the next item keeps the ring and fills slot [W]. *)
Lemma store_slot_ring item q q' items lo W R CR CW :
  ring q items lo W R CR CW → W < CR + Capacity →
  store_slot Capacity item (wrap 64 W) q = Val q' →
  ring q' items lo W R CR CW ∧ buffer q' !! slot (wrap 64 W) = Some item.
Proof.
  intros [] HW. unfold store_slot. case_decide as Hd; [|done]. intros [= <-].
  split; [|by apply list_lookup_insert_eq].
  split; simpl; try done; try lia.
  - by rewrite length_insert.
  - intros i Hi. rewrite list_lookup_insert_ne; [by auto|].
    intros Heq%slot_inj; lia.
Qed.

(** Publishing the stored item. *)
Lemma publish_ring item q items lo W R CR CW :
  ring q items lo W R CR CW → W < CR + Capacity →
  buffer q !! slot (wrap 64 W) = Some item →
  ring (with_write q (u64_add (wrap 64 W) 1)) (items ++ [item]) lo (W + 1) R CR CW.
Proof.
  intros [] HW Hs. split; simpl; try done; try lia.
  - apply u64_add_wrap_l.
  - rewrite length_app. simpl. lia.
  - intros i Hi. destruct (Z.eq_dec i W) as [->|].
    + rewrite Hs. symmetry. apply list_lookup_middle. lia.
    + rewrite lookup_app_l by lia. apply ring_items0. lia.
Qed.

(** Taking the oldest item gives the item pushed as number [R]. *)
Lemma take_slot_ring q items W R CR CW :
  ring q items R W R CR CW → R < CW →
  ∃ item q', take_slot Capacity moved_from (wrap 64 R) q = Val (item, q') ∧
    items !! Z.to_nat R = Some item ∧ ring q' items (R + 1) W R CR CW.
Proof.
  intros [] HR. unfold take_slot. rewrite ring_items0 by lia.
  destruct (lookup_lt_is_Some_2 items (Z.to_nat R)) as [item Hitem]; [lia|].
  rewrite Hitem. cbn [deref_opt]. rewrite bind_Val. do 2 eexists. split_and!; [done..|].
  split; simpl; try done; try lia.
  - by rewrite length_insert.
  - intros i Hi. rewrite list_lookup_insert_ne; [apply ring_items0; lia|].
    intros Heq%slot_inj; lia.
Qed.

Lemma release_ring q items W R CR CW :
  ring q items (R + 1) W R CR CW → R < CW →
  ring (with_read q (u64_add (wrap 64 R) 1)) items (R + 1) W (R + 1) CR CW.
Proof.
  intros [] HR. split; simpl; try done; try lia. apply u64_add_wrap_l.
Qed.

Lemma refresh_read_ring q items lo W R CR CW r :
  ring q items lo W R CR CW → CR ≤ r ≤ R →
  ring (with_cached_read q (wrap 64 r)) items lo W R r CW.
Proof. intros [] Hr. split; simpl; try done; try lia. Qed.

Lemma refresh_write_ring q items lo W R CR CW w :
  ring q items lo W R CR CW → CW ≤ w ≤ W →
  ring (with_cached_write q (wrap 64 w)) items lo W R CR w.
Proof. intros [] Hr. split; simpl; try done; try lia. Qed.

(** The producer's test sees the number of items it believes are queued. *)
Lemma ring_full_test q items lo W R CR CW :
  ring q items lo W R CR CW →
  (Capacity <=? u64_sub (wrap 64 W) (cached_read_index q)) = (Capacity <=? W - CR).
Proof.
  intros []. rewrite ring_cached_read0, u64_sub_close; [done|].
  pose proof capacity_bounds. lia.
Qed.

Lemma ring_empty_test q items lo W R CR CW :
  ring q items lo W R CR CW → (wrap 64 R =? cached_write_index q) = (R =? CW).
Proof.
  intros []. rewrite ring_cached_write0. apply wrap_eqb_close.
  pose proof capacity_bounds. lia.
Qed.

Lemma may_load_between a b v :
  0 ≤ b - a < 2 ^ 64 → may_load (wrap 64 a) (wrap 64 b) v → ∃ c, v = wrap 64 c ∧ a ≤ c ≤ b.
Proof.
  intros Hab (d & Hd & ->). rewrite u64_sub_close in Hd by done.
  exists (a + d). split; [apply u64_add_wrap_l|lia].
Qed.

(** ** The operations run without interruption *)

Lemma push_finish x q items W R CR CW :
  ring q items R W R CR CW → W < CR + Capacity →
  ∃ q', (q ← store_slot Capacity x (wrap 64 W) q;
         Val (true, with_write q (u64_add (wrap 64 W) 1))) = Val (true, q') ∧
        ring q' (items ++ [x]) R (W + 1) R CR CW.
Proof.
  intros HR HW. destruct (store_slot_total x _ _ _ _ _ _ _ HR) as [q1 Hq1]. rewrite Hq1, bind_Val.
  destruct (store_slot_ring _ _ _ _ _ _ _ _ _ HR HW Hq1) as [HR1 Hs].
  eauto using publish_ring.
Qed.

Lemma try_push_ok x q items W R CR CW :
  ring q items R W R CR CW → W - R < Capacity →
  ∃ q' CR', try_push Capacity x q = Val (true, q') ∧ ring q' (items ++ [x]) R (W + 1) R CR' CW.
Proof.
  intros HR HW. unfold try_push.
  rewrite (ring_write _ _ _ _ _ _ _ HR), (ring_full_test _ _ _ _ _ _ _ HR).
  pose proof (refresh_read_ring _ _ _ _ _ _ _ R HR) as HR'.
  destruct (Z.leb_spec Capacity (W - CR)).
  - specialize (HR' ltac:(destruct HR; lia)). rewrite (ring_read _ _ _ _ _ _ _ HR).
    rewrite (ring_full_test _ _ _ _ _ _ _ HR'). destruct (Z.leb_spec Capacity (W - R)); [lia|].
    destruct (push_finish x _ _ _ _ _ _ HR') as (q' & -> & ?); [lia|eauto].
  - destruct (push_finish x _ _ _ _ _ _ HR) as (q' & -> & ?); [lia|eauto].
Qed.

Lemma try_push_full x q items W R CR CW :
  ring q items R W R CR CW → W - R = Capacity →
  ∃ q', try_push Capacity x q = Val (false, q') ∧ ring q' items R W R R CW.
Proof.
  intros HR HW. unfold try_push.
  rewrite (ring_write _ _ _ _ _ _ _ HR), (ring_full_test _ _ _ _ _ _ _ HR).
  pose proof (refresh_read_ring _ _ _ _ _ _ _ R HR ltac:(destruct HR; lia)) as HR'.
  destruct (Z.leb_spec Capacity (W - CR)); [|destruct HR; lia].
  rewrite (ring_read _ _ _ _ _ _ _ HR).
  rewrite (ring_full_test _ _ _ _ _ _ _ HR'). destruct (Z.leb_spec Capacity (W - R)); [|lia].
  eauto.
Qed.

Lemma pop_finish q items W R CR CW :
  ring q items R W R CR CW → R < CW →
  ∃ item q', ('(item, q) ← take_slot Capacity moved_from (wrap 64 R) q;
              Val (true, item, with_read q (u64_add (wrap 64 R) 1))) = Val (true, item, q') ∧
        items !! Z.to_nat R = Some item ∧ ring q' items (R + 1) W (R + 1) CR CW.
Proof.
  intros HR HW. destruct (take_slot_ring _ _ _ _ _ _ HR HW) as (item & q1 & -> & Hi & HR1).
  rewrite bind_Val. exists item. eexists. split_and!; [done|done|by apply release_ring].
Qed.

Lemma try_pop_ok out q items W R CR CW :
  ring q items R W R CR CW → R < W →
  ∃ item q' CW', try_pop Capacity moved_from out q = Val (true, item, q') ∧
    items !! Z.to_nat R = Some item ∧ ring q' items (R + 1) W (R + 1) CR CW'.
Proof.
  intros HR HW. unfold try_pop.
  rewrite (ring_read _ _ _ _ _ _ _ HR), (ring_empty_test _ _ _ _ _ _ _ HR).
  pose proof (refresh_write_ring _ _ _ _ _ _ _ W HR ltac:(destruct HR; lia)) as HR'.
  destruct (Z.eqb_spec R CW) as [->|].
  - rewrite (ring_write _ _ _ _ _ _ _ HR).
    rewrite (ring_empty_test _ _ _ _ _ _ _ HR'). destruct (Z.eqb_spec CW W); [lia|].
    destruct (pop_finish _ _ _ _ _ _ HR') as (item & q' & -> & ? & ?); [lia|eauto 10].
  - destruct (pop_finish _ _ _ _ _ _ HR) as (item & q' & -> & ? & ?); [destruct HR; lia|eauto 10].
Qed.

Lemma try_pop_empty out q items W R CR CW :
  ring q items R W R CR CW → R = W →
  ∃ q', try_pop Capacity moved_from out q = Val (false, out, q') ∧ ring q' items R W R CR W.
Proof.
  intros HR ->. unfold try_pop.
  rewrite (ring_read _ _ _ _ _ _ _ HR), (ring_empty_test _ _ _ _ _ _ _ HR).
  pose proof (refresh_write_ring _ _ _ _ _ _ _ W HR ltac:(destruct HR; lia)) as HR'.
  destruct (Z.eqb_spec W CW); [|destruct HR; lia].
  rewrite (ring_write _ _ _ _ _ _ _ HR).
  rewrite (ring_empty_test _ _ _ _ _ _ _ HR'), Z.eqb_refl. eauto.
Qed.

(** ** The sequential representation and the interface *)

Definition queue_rep (q : Queue T) (n : nat) (l : list T) : Prop :=
  ∃ items W R CR CW, ring q items R W R CR CW ∧ n = length items ∧ l = drop (Z.to_nat R) items.

Lemma queue_rep_init v : queue_rep (new_queue Capacity v) 0 [].
Proof. exists [], 0, 0, 0, 0. split_and!; [apply ring_init|done..]. Qed.

Lemma queue_rep_push q n l x :
  queue_rep q n l → (length l < Z.to_nat Capacity)%nat →
  ∃ q', try_push Capacity x q = Val (true, q') ∧ queue_rep q' (S n) (l ++ [x]).
Proof.
  intros (items & W & R & CR & CW & HR & -> & ->) Hl. rewrite length_drop in Hl.
  destruct (try_push_ok x _ _ _ _ _ _ HR) as (q' & CR' & Hq & HR'); [destruct HR; lia|].
  exists q'. split; [done|]. exists (items ++ [x]), (W + 1), R, CR', CW. split; [done|].
  rewrite length_app. simpl. split; [lia|]. rewrite drop_app_le; [done|]. destruct HR; lia.
Qed.

Lemma queue_rep_full q n l x :
  queue_rep q n l → length l = Z.to_nat Capacity →
  ∃ q', try_push Capacity x q = Val (false, q') ∧ queue_rep q' n l.
Proof.
  intros (items & W & R & CR & CW & HR & -> & ->) Hl. rewrite length_drop in Hl.
  pose proof capacity_bounds.
  destruct (try_push_full x _ _ _ _ _ _ HR) as (q' & Hq & HR'); [destruct HR; lia|].
  exists q'. split; [done|]. by exists items, W, R, R, CW.
Qed.

Lemma queue_rep_pop q n l x out :
  queue_rep q n (x :: l) →
  ∃ q', try_pop Capacity moved_from out q = Val (true, x, q') ∧ queue_rep q' n l.
Proof.
  intros (items & W & R & CR & CW & HR & -> & Hl).
  assert (R < W) as HRW.
  { pose proof (f_equal length Hl) as Hlen. rewrite length_drop in Hlen. simpl in Hlen.
    destruct HR; lia. }
  destruct (try_pop_ok out _ _ _ _ _ _ HR HRW) as (item & q' & CW' & Hq & Hitem & HR').
  rewrite (drop_S _ _ _ Hitem) in Hl. simplify_eq.
  exists q'. split; [done|]. exists items, W, (R + 1), CR, CW'. split_and!; [done..|].
  f_equal. destruct HR; lia.
Qed.

Lemma queue_rep_pop_empty q n out :
  queue_rep q n [] →
  ∃ q', try_pop Capacity moved_from out q = Val (false, out, q') ∧ queue_rep q' n [].
Proof.
  intros (items & W & R & CR & CW & HR & -> & Hl).
  pose proof (f_equal length Hl) as Hlen. rewrite length_drop in Hlen. simpl in Hlen.
  destruct (try_pop_empty out _ _ _ _ _ _ HR) as (q' & Hq & HR'); [destruct HR; lia|].
  exists q'. split; [done|]. by exists items, W, R, CR, W.
Qed.

Lemma queue_rep_size q n l :
  queue_rep q n l → Z.of_nat n < 2 ^ 64 → size q = Z.of_nat (length l).
Proof.
  intros (items & W & R & CR & CW & [] & -> & ->) Hn. rewrite length_drop. unfold size.
  rewrite ring_write0, ring_read0, !wrap_small by lia. zcase; lia.
Qed.

Lemma queue_rep_bound q n l :
  queue_rep q n l → (length l ≤ Z.to_nat Capacity)%nat ∧ (length l ≤ n)%nat.
Proof.
  intros (items & W & R & CR & CW & [] & -> & ->). rewrite length_drop. lia.
Qed.

Definition spsc_bounded_queue : BoundedQueue (Queue T) T := {|
  bq_capacity := Z.to_nat Capacity;
  bq_push := try_push Capacity;
  bq_pop := try_pop Capacity moved_from;
  bq_size := size;
  bq_rep := queue_rep;
  bq_rep_bound := queue_rep_bound;
  bq_push_ok := queue_rep_push;
  bq_push_full := queue_rep_full;
  bq_pop_ok := queue_rep_pop;
  bq_pop_empty := queue_rep_pop_empty;
  bq_size_ok := queue_rep_size;
|}.

(** ** Every interleaving *)

Definition prod_ok (p : producer) (q : Queue T) (W CR : Z) : Prop :=
  match p with
  | PIdle => True
  | PRefresh _ w => w = wrap 64 W
  | PStore _ w => w = wrap 64 W ∧ W < CR + Capacity
  | PPublish item w =>
      w = wrap 64 W ∧ W < CR + Capacity ∧ buffer q !! slot (wrap 64 W) = Some item
  end.

Definition cons_ok (c : consumer) (items : list T) (lo R CW : Z) : Prop :=
  match c with
  | CIdle => lo = R
  | CRefresh r => lo = R ∧ r = wrap 64 R
  | CTake r => lo = R ∧ r = wrap 64 R ∧ R < CW
  | CPublish r out => lo = R + 1 ∧ r = wrap 64 R ∧ R < CW ∧ items !! Z.to_nat R = Some out
  end.

Definition sys_inv (s : system) : Prop :=
  ∃ lo W R CR CW,
    ring (queue s) (pushed s) lo W R CR CW ∧
    popped s = take (Z.to_nat R) (pushed s) ∧
    prod_ok (prod s) (queue s) W CR ∧ cons_ok (cons_ s) (pushed s) lo R CW.

Lemma sys_inv_init v : sys_inv (initial Capacity v).
Proof. exists 0, 0, 0, 0, 0. split_and!; try done. by apply ring_init. Qed.

(** The slot of a stored but unpublished item is not one the consumer takes. *)
Lemma take_keeps_stored q q' items W R CR CW item x :
  ring q items R W R CR CW → R < CW → W < CR + Capacity →
  buffer q !! slot (wrap 64 W) = Some item →
  take_slot Capacity moved_from (wrap 64 R) q = Val (x, q') →
  buffer q' !! slot (wrap 64 W) = Some item.
Proof.
  intros HR HRW HW Hs (y & Hy & Ht)%bind_Val_inv. injection Ht as <- <-. simpl.
  rewrite list_lookup_insert_ne; [done|]. intros Heq%slot_inj; destruct HR; lia.
Qed.

Lemma sys_inv_step s s' : sys_inv s → step Capacity moved_from s s' → sys_inv s'.
Proof.
  intros (lo & W & R & CR & CW & HR & Hpop & Hp & Hc) Hstep.
  pose proof capacity_bounds as Hb. pose proof (ring_order _ _ _ _ _ _ _ HR) as Ho.
  destruct Hstep as [q c l1 l2 item|q c l1 l2 item w r Hl|q q' c l1 l2 item w Hst|q c l1 l2 item w
    |q p l1 l2|q p l1 l2 r w Hl|q q' p l1 l2 r out Ht|q p l1 l2 r out]; simpl in *.
  - exists lo, W, R, CR, CW. split_and!; [done..| |done]. simpl.
    rewrite (ring_write _ _ _ _ _ _ _ HR), (ring_full_test _ _ _ _ _ _ _ HR).
    destruct (Z.leb_spec Capacity (W - CR)); simpl; [done|]. split; [done|lia].
  - subst w. rewrite (ring_cached_read _ _ _ _ _ _ _ HR), (ring_read _ _ _ _ _ _ _ HR) in Hl.
    apply may_load_between in Hl as (r' & -> & Hr'); [|lia].
    pose proof (refresh_read_ring _ _ _ _ _ _ _ r' HR Hr') as HR'.
    exists lo, W, R, r', CW. split_and!; [done..| |done]. simpl.
    rewrite u64_sub_close by lia. destruct (Z.leb_spec Capacity (W - r')); simpl; [done|].
    split; [done|lia].
  - destruct Hp as [-> Hw]. destruct (store_slot_ring _ _ _ _ _ _ _ _ _ HR Hw Hst) as [HR' Hs].
    by exists lo, W, R, CR, CW.
  - destruct Hp as (-> & Hw & Hs). exists lo, (W + 1), R, CR, CW. split_and!.
    + by apply publish_ring.
    + simpl. rewrite take_app_le; [done|]. destruct HR; lia.
    + done.
    + destruct c; simpl in *; try done. destruct_and!. split_and!; try done.
      apply lookup_app_l_Some. done.
  - exists lo, W, R, CR, CW. split_and!; [done..|]. simpl in *. subst lo.
    rewrite (ring_read _ _ _ _ _ _ _ HR), (ring_empty_test _ _ _ _ _ _ _ HR).
    destruct (Z.eqb_spec R CW); simpl; [done|]. split_and!; [done..|lia].
  - destruct Hc as [-> ->].
    rewrite (ring_cached_write _ _ _ _ _ _ _ HR), (ring_write _ _ _ _ _ _ _ HR) in Hl.
    apply may_load_between in Hl as (w' & -> & Hw'); [|lia].
    pose proof (refresh_write_ring _ _ _ _ _ _ _ w' HR Hw') as HR'.
    exists R, W, R, CR, w'. split_and!; [done..|]. simpl.
    rewrite wrap_eqb_close by lia. destruct (Z.eqb_spec R w'); simpl; [done|].
    split_and!; [done..|lia].
  - destruct Hc as (-> & -> & HRW).
    destruct (take_slot_ring _ _ _ _ _ _ HR HRW) as (item & q1 & Ht1 & Hi & HR').
    rewrite Ht1 in Ht. simplify_eq. exists (R + 1), W, R, CR, CW. split_and!; try done.
    destruct p; simpl in *; try done. destruct_and!. split_and!; try done.
    by eapply take_keeps_stored.
  - destruct Hc as (-> & -> & HRW & Hout).
    exists (R + 1), W, (R + 1), CR, CW. split_and!; simpl; try done.
    + by apply release_ring.
    + rewrite Hpop. replace (Z.to_nat (R + 1)) with (S (Z.to_nat R)) by lia.
      symmetry. by apply take_S_r.
Qed.

Lemma sys_inv_reachable v s :
  rtc (step Capacity moved_from) (initial Capacity v) s → sys_inv s.
Proof.
  assert (∀ s s', rtc (step Capacity moved_from) s s' → sys_inv s → sys_inv s') as H.
  { induction 1; eauto using sys_inv_step. }
  intros Hr. eapply H; [done|]. apply sys_inv_init.
Qed.

(** An operation that nobody interrupts and that sees fresh indices is the
    member function. *)
Lemma may_load_newest a b : 0 ≤ a < 2 ^ 64 → 0 ≤ b < 2 ^ 64 → may_load a b b.
Proof.
  intros. exists (u64_sub b a). pose proof (wrap_range 64 (b - a)). unfold u64_sub.
  split; [lia|]. unfold u64_add, wrap. rewrite Zplus_mod_idemp_r.
  replace (a + (b - a)) with b by lia. symmetry. by apply Z.mod_small.
Qed.

Definition indices_ok (q : Queue T) : Prop :=
  0 ≤ write_index q < 2 ^ 64 ∧ 0 ≤ read_index q < 2 ^ 64 ∧
  0 ≤ cached_read_index q < 2 ^ 64 ∧ 0 ≤ cached_write_index q < 2 ^ 64.

Lemma store_publish_steps q q' c l1 l2 x w :
  (q ← store_slot Capacity x w q; Val (true, with_write q (u64_add w 1))) = Val (true, q') →
  rtc (step Capacity moved_from) (mkSystem q (PStore x w) c l1 l2)
    (mkSystem q' PIdle c (l1 ++ [x]) l2).
Proof.
  intros (q1 & Hq1 & Hq')%bind_Val_inv. injection Hq' as <-.
  eapply rtc_l; [by apply push_store|]. eapply rtc_once, push_publish.
Qed.

Lemma take_publish_steps q q' p l1 l2 r out :
  ('(item, q) ← take_slot Capacity moved_from r q;
   Val (true, item, with_read q (u64_add r 1))) = Val (true, out, q') →
  rtc (step Capacity moved_from) (mkSystem q p (CTake r) l1 l2)
    (mkSystem q' p CIdle l1 (l2 ++ [out])).
Proof.
  intros ([item q1] & Hq1 & Hq')%bind_Val_inv. injection Hq' as <- <-.
  eapply rtc_l; [by apply pop_take|]. eapply rtc_once, pop_publish.
Qed.

Lemma try_push_steps q q' c l1 l2 x b :
  indices_ok q → try_push Capacity x q = Val (b, q') →
  rtc (step Capacity moved_from) (mkSystem q PIdle c l1 l2)
    (mkSystem q' PIdle c (if b then l1 ++ [x] else l1) l2).
Proof.
  intros (Hw & Hr & Hcr & _) Hpush. eapply rtc_l; [apply (push_begin _ _ _ _ _ _ x)|].
  unfold try_push in Hpush. destruct (Capacity <=? _).
  - eapply rtc_l; [apply push_refresh, may_load_newest; done|]. simpl in Hpush.
    destruct (Capacity <=? _); [by simplify_eq|].
    destruct b; [by apply store_publish_steps|].
    apply bind_Val_inv in Hpush as (? & _ & [=]).
  - destruct b; [by apply store_publish_steps|].
    apply bind_Val_inv in Hpush as (? & _ & [=]).
Qed.

Lemma try_pop_steps q q' p l1 l2 old out b :
  indices_ok q → try_pop Capacity moved_from old q = Val (b, out, q') →
  rtc (step Capacity moved_from) (mkSystem q p CIdle l1 l2)
    (mkSystem q' p CIdle l1 (if b then l2 ++ [out] else l2)).
Proof.
  intros (Hw & Hr & _ & Hcw) Hpop. eapply rtc_l; [apply pop_begin|].
  unfold try_pop in Hpop. destruct (read_index q =? _).
  - eapply rtc_l; [apply pop_refresh, may_load_newest; done|]. simpl in Hpop.
    destruct (read_index q =? _); [by simplify_eq|].
    destruct b; [by apply take_publish_steps|].
    apply bind_Val_inv in Hpop as ([] & _ & [=]).
  - destruct b; [by apply take_publish_steps|].
    apply bind_Val_inv in Hpop as ([] & _ & [=]).
Qed.

End Ring.

(** ** Claims *)

(** C7. In every interleaving of one producer with one consumer, with cached
    indices of any staleness and the 64-bit indices wrapping around, the items
    popped are a prefix of the items pushed, in order, without loss or
    duplication, and at most [Capacity] items are in between. *)
Theorem spsc_fifo {T} (Capacity : Z) (moved_from : T → T) (v : T) s :
  capacity_ok Capacity = true →
  rtc (step Capacity moved_from) (initial Capacity v) s →
  ∃ queued, pushed s = popped s ++ queued ∧ Z.of_nat (length queued) ≤ Capacity.
Proof.
  intros Hcap Hr.
  destruct (sys_inv_reachable _ _ Hcap _ _ Hr) as (lo & W & R & CR & CW & [] & Hpop & _ & _).
  exists (drop (Z.to_nat R) (pushed s)). rewrite Hpop, take_drop. split; [done|].
  rewrite length_drop. lia.
Qed.

(** C28. The slots never race: whenever the producer is about to write a slot
    and the consumer is about to move out of one, the slots differ. *)
Theorem slots_never_race {T} (Capacity : Z) (moved_from : T → T) (v : T) q item w r l1 l2 :
  capacity_ok Capacity = true →
  rtc (step Capacity moved_from) (initial Capacity v)
    (mkSystem q (PStore item w) (CTake r) l1 l2) →
  slot Capacity w ≠ slot Capacity r.
Proof.
  intros Hcap Hr.
  destruct (sys_inv_reachable _ _ Hcap _ _ Hr)
    as (lo & W & R & CR & CW & [] & Hpop & (-> & HW) & (-> & -> & HRW)).
  intros Heq%slot_inj; [lia|done|lia].
Qed.

(** No interleaving gets stuck on the buffer: whenever a producer has
    passed its full test, or a consumer its empty test, the slot access is in
    bounds and the operation can complete. *)
Lemma spsc_no_stuck {T} (Capacity : Z) (moved_from : T → T) (v : T) q p c l1 l2 :
  capacity_ok Capacity = true →
  rtc (step Capacity moved_from) (initial Capacity v) (mkSystem q p c l1 l2) →
  (∀ item w, p = PStore item w → ∃ q', store_slot Capacity item w q = Val q') ∧
  (∀ r, c = CTake r → ∃ out q', take_slot Capacity moved_from r q = Val (out, q')).
Proof.
  intros Hcap Hr.
  destruct (sys_inv_reachable _ _ Hcap _ _ Hr) as (lo & W & R & CR & CW & HR & _ & Hp & Hc).
  split.
  - intros item w ->. destruct Hp as [-> _]. by eapply store_slot_total.
  - intros r ->. destruct Hc as (-> & -> & HRW).
    destruct (take_slot_ring _ moved_from Hcap _ _ _ _ _ _ HR HRW) as (x & q' & Ht & _). eauto.
Qed.

(** Run without interruption the operations implement a bounded FIFO: a
    push appends exactly when fewer than [Capacity] items are queued, a pop
    removes the oldest item exactly when there is one, a failed operation
    changes neither the contents nor the destination, and [size] counts the
    items while fewer than 2^64 were ever pushed. *)
Lemma spsc_sequential {T} (Capacity : Z) (moved_from : T → T) q n (l : list T) x out :
  capacity_ok Capacity = true → queue_rep Capacity q n l →
  (∃ b q', try_push Capacity x q = Val (b, q') ∧
     b = bool_decide (Z.of_nat (length l) < Capacity) ∧
     queue_rep Capacity q' (if b then S n else n) (if b then l ++ [x] else l)) ∧
  (∃ b y q', try_pop Capacity moved_from out q = Val (b, y, q') ∧
     b = bool_decide (l ≠ []) ∧ y = default out (head l) ∧ queue_rep Capacity q' n (tail l)) ∧
  (Z.of_nat n < 2 ^ 64 → size q = Z.of_nat (length l)).
Proof.
  intros Hcap HR. pose proof (capacity_bounds _ Hcap).
  destruct (queue_rep_bound _ _ _ _ HR) as [Hle _]. split_and!.
  - case_bool_decide as Hl.
    + destruct (queue_rep_push _ Hcap _ _ _ x HR) as (q' & ? & ?); [lia|]. by exists true, q'.
    + destruct (queue_rep_full _ Hcap _ _ _ x HR) as (q' & ? & ?); [lia|]. by exists false, q'.
  - destruct l as [|y l].
    + destruct (queue_rep_pop_empty _ moved_from Hcap _ _ out HR) as (q' & ? & ?).
      by exists false, out, q'.
    + destruct (queue_rep_pop _ moved_from Hcap _ _ _ _ out HR) as (q' & ? & ?).
      by exists true, y, q'.
  - by eapply queue_rep_size.
Qed.

(** The interleaved semantics is that of the code: a call of [try_push] or
    [try_pop] that is not interrupted is a sequence of its steps, from idle to
    idle, with the same final queue and the item recorded exactly when the call
    returned true. *)
Lemma spsc_calls_are_steps {T} (Capacity : Z) (moved_from : T → T) (q : Queue T) l1 l2 :
  indices_ok q →
  (∀ x b q', try_push Capacity x q = Val (b, q') →
     ∀ c, rtc (step Capacity moved_from) (mkSystem q PIdle c l1 l2)
            (mkSystem q' PIdle c (if b then l1 ++ [x] else l1) l2)) ∧
  (∀ old b out q', try_pop Capacity moved_from old q = Val (b, out, q') →
     ∀ p, rtc (step Capacity moved_from) (mkSystem q p CIdle l1 l2)
            (mkSystem q' p CIdle l1 (if b then l2 ++ [out] else l2))).
Proof. intros Hi. split; intros; eauto using try_push_steps, try_pop_steps. Qed.

(** ** Witnesses *)

(** Capacity two: after one push the consumer is about to take the item while
    the producer is about to store the next one. *)
Definition demo_system : system :=
  mkSystem (mkQueue [10; 0] 1 0 0 1) (PStore 11 1) (CTake 0) [10] [].

Lemma demo_reachable_spsc : rtc (step 2 (λ _, 0)) (initial 2 0) demo_system.
Proof.
  eapply rtc_l; [apply (push_begin _ _ _ _ _ _ 10)|].
  eapply rtc_l; [by apply push_store|].
  eapply rtc_l; [apply push_publish|].
  eapply rtc_l; [apply pop_begin|].
  eapply rtc_l; [apply (pop_refresh _ _ _ _ _ _ _ 1); exists 1; done|].
  eapply rtc_l; [apply (push_begin _ _ _ _ _ _ 11)|].
  apply rtc_refl.
Qed.

Lemma spsc_fifo_witness :
  ∃ queued, pushed demo_system = popped demo_system ++ queued ∧ Z.of_nat (length queued) ≤ 2.
Proof.
  apply (spsc_fifo 2 (λ _, 0) 0 demo_system); [reflexivity|exact demo_reachable_spsc].
Defined.

Lemma slots_never_race_witness : slot 2 1 ≠ slot 2 0.
Proof.
  apply (slots_never_race 2 (λ _, 0) 0 (mkQueue [10; 0] 1 0 0 1) 11 1 0 [10] []);
    [reflexivity|exact demo_reachable_spsc].
Defined.

Lemma spsc_no_stuck_witness :
  ∃ out q', take_slot 2 (λ _, 0) 0 (mkQueue [10; 0] 1 0 0 1) = Val (out, q').
Proof.
  apply (spsc_no_stuck 2 (λ _, 0) 0 (mkQueue [10; 0] 1 0 0 1) (PStore 11 1) (CTake 0) [10] []);
    [reflexivity|exact demo_reachable_spsc|reflexivity].
Defined.

Lemma spsc_sequential_witness :
  ∃ b q', try_push 2 7 (new_queue 2 0) = Val (b, q') ∧
    b = bool_decide (Z.of_nat (@length Z []) < 2) ∧
    queue_rep 2 q' (if b then 1%nat else 0%nat) (if b then [] ++ [7] else []).
Proof.
  apply (spsc_sequential 2 (λ _, 0) (new_queue 2 0) 0 [] 7 0);
    [reflexivity|by apply queue_rep_init].
Defined.

Lemma spsc_calls_are_steps_witness :
  rtc (step 2 (λ _, 0)) (mkSystem (new_queue 2 0) PIdle CIdle [] [])
    (mkSystem (mkQueue [7; 0] 1 0 0 0) PIdle CIdle [7] []).
Proof.
  apply (proj1 (spsc_calls_are_steps 2 (λ _, 0) (new_queue 2 0) [] []
           ltac:(vm_compute; intuition discriminate)) 7 true); reflexivity.
Defined.
