(* ===== verification/MarketData.v ===== *)
(** * Market data

    Models [include/low_latency_exchange/market_data.hpp] and
    [src/market_data.cpp]: the feed the engine thread publishes to, the
    subscriber's materialised book and the publisher that moves events from
    the queue to a subscriber.  The queue is used through the interface
    [BoundedQueue], which [SpscProps] discharges for the ring buffer; feed and
    publisher share it, so both take the queue and return it. *)

From stdpp Require Import prelude list.
From Stdlib Require Import ZArith Lia.
From S2P Require Import Prelude Types OrderBook Spsc.

Open Scope Z_scope.

Definition kMarketDataDepth : nat := 5.

Record MarketDataLevel : Type := mkMarketDataLevel {
  md_price : Price.t;
  md_quantity : Quantity.t;
  md_order_count : Z;
}.

(** [std::array<std::optional<MarketDataLevel>, kMarketDataDepth>] *)
Notation MarketDataDepth := (list (option MarketDataLevel)).
Definition empty_depth : MarketDataDepth := replicate kMarketDataDepth None.

Inductive MarketDataEventKind : Type := snapshot | depth_update.

#[export] Instance MarketDataEventKind_eq_dec : EqDecision MarketDataEventKind.
Proof. solve_decision. Defined.

Record MarketDataEvent : Type := mkMarketDataEvent {
  ev_sequence : option FeedSequence.t;
  ev_kind : MarketDataEventKind;
  ev_bids : MarketDataDepth;
  ev_asks : MarketDataDepth;
}.

Definition default_event : MarketDataEvent :=
  mkMarketDataEvent None snapshot empty_depth empty_depth.

Definition valid_event (e : MarketDataEvent) : bool := bool_decide (is_Some (ev_sequence e)).

Record MarketDataMetrics : Type := mkMarketDataMetrics {
  published_events : Z;
  dropped_events : Z;
  queue_occupancy : Z;
  max_queue_occupancy : Z;
}.

Definition to_market_data_level (level : LevelQuote) : MarketDataLevel :=
  mkMarketDataLevel (lq_price level) (lq_quantity level) (lq_order_count level).

Definition is_next_sequence (previous current : FeedSequence.t) : bool :=
  negb (FeedSequence.value previous =? u64_max) &&
  (FeedSequence.value current =? u64_add (FeedSequence.value previous) 1).

(** ** The feed *)

Record MarketDataFeed : Type := mkMarketDataFeed {
  next_sequence_ : Z;
  snapshot_interval_ : Z;
  updates_since_snapshot_ : Z;
  published_events_ : Z;
  dropped_events_ : Z;
  max_queue_occupancy_ : Z;
  snapshot_pending_ : bool;
}.

Definition new_feed (snapshot_interval : Z) : MarketDataFeed :=
  mkMarketDataFeed 1 (Z.max snapshot_interval 1) 0 0 0 0 true.

(** One array of the loop of [make_event] at [index]. *)
Definition copy_level (levels : list (option LevelQuote)) (index : nat) (out : MarketDataDepth)
  : outcome MarketDataDepth :=
  level ← deref_opt (levels !! index);
  match level with
  | Some q => Val (<[index := Some (to_market_data_level q)]> out)
  | None => Val out
  end.

Definition make_event (book : OrderBook) (kind : MarketDataEventKind) (sequence : FeedSequence.t)
  : outcome MarketDataEvent :=
  '(bid_levels, ask_levels) ←
    copy_depth (replicate kMarketDataDepth None) (replicate kMarketDataDepth None) book;
  '(bids, asks) ← for_range kMarketDataDepth (λ index '(bids, asks),
      bids ← copy_level bid_levels index bids;
      asks ← copy_level ask_levels index asks;
      Val (bids, asks)) (empty_depth, empty_depth);
  Val (mkMarketDataEvent (Some sequence) kind bids asks).

Section Feed.
Context {Q : Type} `{BQ : BoundedQueue Q MarketDataEvent}.

Definition record_queue_occupancy (f : MarketDataFeed) (q : Q) : MarketDataFeed :=
  mkMarketDataFeed (next_sequence_ f) (snapshot_interval_ f) (updates_since_snapshot_ f)
    (published_events_ f) (dropped_events_ f) (Z.max (max_queue_occupancy_ f) (bq_size q))
    (snapshot_pending_ f).

(** [++dropped_events_; snapshot_pending_ = true;] *)
Definition count_drop (f : MarketDataFeed) : MarketDataFeed :=
  mkMarketDataFeed (next_sequence_ f) (snapshot_interval_ f) (updates_since_snapshot_ f)
    (published_events_ f) (u64_add (dropped_events_ f) 1) (max_queue_occupancy_ f) true.

Definition publish (book : OrderBook) (f : MarketDataFeed) (q : Q) : outcome (MarketDataFeed * Q) :=
  match FeedSequence.from_value (next_sequence_ f) with
  | None => Val (count_drop f, q)
  | Some sequence =>
      if next_sequence_ f =? u64_max then Val (count_drop f, q)
      else
        let f := mkMarketDataFeed (u64_add (next_sequence_ f) 1) (snapshot_interval_ f)
                   (updates_since_snapshot_ f) (published_events_ f) (dropped_events_ f)
                   (max_queue_occupancy_ f) (snapshot_pending_ f) in
        let kind := if snapshot_pending_ f then snapshot else depth_update in
        event ← make_event book kind sequence;
        '(pushed, q) ← bq_push event q;
        if negb pushed then Val (record_queue_occupancy (count_drop f) q, q)
        else
          let f := mkMarketDataFeed (next_sequence_ f) (snapshot_interval_ f)
                     (updates_since_snapshot_ f) (u64_add (published_events_ f) 1)
                     (dropped_events_ f) (max_queue_occupancy_ f) (snapshot_pending_ f) in
          let f := record_queue_occupancy f q in
          match kind with
          | snapshot =>
              Val (mkMarketDataFeed (next_sequence_ f) (snapshot_interval_ f) 0
                     (published_events_ f) (dropped_events_ f) (max_queue_occupancy_ f) false, q)
          | depth_update =>
              let updates := u64_add (updates_since_snapshot_ f) 1 in
              Val (mkMarketDataFeed (next_sequence_ f) (snapshot_interval_ f) updates
                     (published_events_ f) (dropped_events_ f) (max_queue_occupancy_ f)
                     (if snapshot_interval_ f <=? updates then true else snapshot_pending_ f), q)
          end
  end.

Definition metrics (f : MarketDataFeed) (q : Q) : MarketDataMetrics :=
  mkMarketDataMetrics (published_events_ f) (dropped_events_ f) (bq_size q)
    (max_queue_occupancy_ f).

(** ** The subscriber *)

Record MarketDataBook : Type := mkMarketDataBook {
  mb_bids : MarketDataDepth;
  mb_asks : MarketDataDepth;
  last_sequence_ : option FeedSequence.t;
  synchronized_ : bool;
}.

Definition new_market_data_book : MarketDataBook :=
  mkMarketDataBook empty_depth empty_depth None false.

Definition apply (event : MarketDataEvent) (b : MarketDataBook) : bool * MarketDataBook :=
  match ev_sequence event with
  | None => (false, b)
  | Some sequence =>
      let accepted := mkMarketDataBook (ev_bids event) (ev_asks event) (ev_sequence event) in
      match ev_kind event with
      | snapshot => (true, accepted true)
      | depth_update =>
          let gap :=
            negb (synchronized_ b) ||
            match last_sequence_ b with
            | None => true
            | Some last => negb (is_next_sequence last sequence)
            end in
          if gap then (false, mkMarketDataBook (mb_bids b) (mb_asks b) (last_sequence_ b) false)
          else (true, accepted (synchronized_ b))
      end
  end.

(** ** The publisher *)

Definition publish_one (subscriber : MarketDataBook) (q : Q)
  : outcome (bool * MarketDataBook * Q) :=
  '(popped, event, q) ← bq_pop default_event q;
  if negb popped then Val (false, subscriber, q)
  else
    let '(applied, subscriber) := apply event subscriber in
    Val (applied, subscriber, q).

(** The loop [while (queue_.try_pop(event))]; the fuel bounds the number of
    events drained. *)
Fixpoint drain (fuel : nat) (event : MarketDataEvent) (published : Z)
    (subscriber : MarketDataBook) (q : Q) : outcome (Z * MarketDataBook * Q) :=
  '(popped, event, q) ← bq_pop event q;
  if negb popped then Val (published, subscriber, q)
  else
    let '(applied, subscriber) := apply event subscriber in
    let published := if applied : bool then u64_add published 1 else published in
    match fuel with
    | O => OutOfFuel
    | S fuel' => drain fuel' event published subscriber q
    end.

Definition publish_available (fuel : nat) (subscriber : MarketDataBook) (q : Q)
  : outcome (Z * MarketDataBook * Q) := drain fuel default_event 0 subscriber q.

End Feed.
