(* ===== verification/MarketDataProps.v ===== *)
(** * Correctness of the market data path

    A pipeline is a feed, the queue and a subscriber; it moves when the engine
    publishes a book or when the publisher hands an event over.  The invariant
    links the events in flight: a gap in the feed sequence is always followed
    by a snapshot, so a subscriber that receives the queue's events in order
    accepts every one of them and always shows what the feed made of the book
    whose event it applied last.  The engine may publish any book for which
    [publish] is defined: a book with a level whose units reach 2^64 can make it
    undefined, or make the feed show the wrapped total; for the other books the
    feed shows the five best levels of the priority lists. *)

From stdpp Require Import prelude list relations.
From Stdlib Require Import ZArith Lia.
From S2P Require Import Prelude Types OrderBook BookSpec BookInv BookProps BookQueries Spsc.
From S2P Require Import SpscProps MarketData.

Open Scope Z_scope.

(** ** Events *)

(** The five best levels of a priority list, as the feed shows them. *)
Definition depth_of (l : list quote) : MarketDataDepth :=
  resize kMarketDataDepth None ((λ q, Some (to_market_data_level q)) <$> spec_depth l).

Definition book_ok (b : OrderBook) : Prop := wf b ∧ no_overflow b.

(** The depth the feed makes of a book. *)
Definition published (b : OrderBook) (bids asks : MarketDataDepth) : Prop :=
  ∀ kind seq, make_event b kind seq = Val (mkMarketDataEvent (Some seq) kind bids asks).

Definition shows (bids asks : MarketDataDepth) (b : OrderBook) : Prop :=
  bids = depth_of (sb_bids (abs b)) ∧ asks = depth_of (sb_asks (abs b)).

Lemma copy_level_next (levels : list (option LevelQuote)) (i n : nat) :
  (i + S n)%nat = length levels →
  copy_level levels i ((option_map to_market_data_level <$> take i levels) ++ replicate (S n) None) =
  Val ((option_map to_market_data_level <$> take (S i) levels) ++ replicate n None).
Proof.
  intros Hl. unfold copy_level.
  destruct (lookup_lt_is_Some_2 levels i) as [x Hx]; [lia|]. rewrite Hx. cbn [deref_opt].
  rewrite bind_Val, (take_S_r _ _ _ Hx), fmap_app, <- app_assoc. simpl.
  assert (length (option_map to_market_data_level <$> take i levels) = i) as Hlen.
  { rewrite length_fmap, length_take. lia. }
  destruct x as [q|]; [|done]. rewrite insert_app_r_alt by lia.
  by rewrite Hlen, Nat.sub_diag.
Qed.

Lemma copy_levels_loop (lb la : list (option LevelQuote)) n i :
  (i + n)%nat = length lb → (i + n)%nat = length la →
  for_from i n (λ index '(bids, asks),
      bids ← copy_level lb index bids;
      asks ← copy_level la index asks;
      Val (bids, asks))
    ((option_map to_market_data_level <$> take i lb) ++ replicate n None,
     (option_map to_market_data_level <$> take i la) ++ replicate n None)
  = Val (option_map to_market_data_level <$> lb, option_map to_market_data_level <$> la).
Proof.
  revert i. induction n as [|n IH]; intros i Hb Ha; cbn [for_from].
  - rewrite !take_ge, !app_nil_r by lia. done.
  - rewrite (copy_level_next lb), (copy_level_next la), !bind_Val by lia. apply IH; lia.
Qed.

Lemma fmap_resize_depth l :
  option_map to_market_data_level <$> resize 5 None (Some <$> spec_depth l) = depth_of l.
Proof.
  unfold depth_of, kMarketDataDepth. rewrite !resize_spec, fmap_app, fmap_replicate, <- fmap_take.
  rewrite <- !list_fmap_compose, !length_fmap. by rewrite fmap_take.
Qed.

(** Without an overflow these are the five best levels of the priority lists. *)
Lemma book_ok_published b :
  book_ok b → published b (depth_of (sb_bids (abs b))) (depth_of (sb_asks (abs b))).
Proof.
  intros [Hwf Hno] kind seq. unfold make_event. rewrite copy_depth_exact, bind_Val by done.
  rewrite !length_replicate.
  pose proof (copy_levels_loop (resize 5 None (Some <$> spec_depth (sb_bids (abs b))))
    (resize 5 None (Some <$> spec_depth (sb_asks (abs b)))) 5 0) as Hloop.
  rewrite !length_resize in Hloop. unfold empty_depth, kMarketDataDepth in *.
  etrans; [apply (f_equal (λ o, o ≫= _)), Hloop; done|].
  rewrite bind_Val. by rewrite !fmap_resize_depth.
Qed.

Lemma published_shows b bids asks : published b bids asks → book_ok b → shows bids asks b.
Proof.
  intros Hp Hb%book_ok_published. specialize (Hp snapshot (FeedSequence.mk 1)).
  rewrite Hb in Hp. by injection Hp as <- <-.
Qed.

Lemma make_event_published b kind seq e :
  make_event b kind seq = Val e → ∃ bids asks, published b bids asks.
Proof.
  unfold published, make_event. intros ([lb la] & Hd & H)%bind_Val_inv.
  apply bind_Val_inv in H as ([bids asks] & Hl & _). exists bids, asks. intros k s.
  by rewrite Hd, bind_Val, Hl, bind_Val.
Qed.

(** ** The pipeline *)

Section Pipeline.
Context {Q : Type} `{BQ : BoundedQueue Q MarketDataEvent}.

(** [hist] records the books published so far; the event of the book at
    position [i] has feed sequence [i + 1]. *)
Record pipeline : Type := mkPipeline {
  pl_feed : MarketDataFeed;
  pl_queue : Q;
  pl_sub : MarketDataBook;
  pl_hist : list OrderBook;
}.

Inductive md_step : pipeline → pipeline → Prop :=
| md_publish book f q f' q' sub hist :
    publish book f q = Val (f', q') →
    md_step (mkPipeline f q sub hist)
      (mkPipeline f' q' sub (if next_sequence_ f =? u64_max then hist else hist ++ [book]))
| md_deliver applied f q q' sub sub' hist :
    publish_one sub q = Val (applied, sub', q') →
    md_step (mkPipeline f q sub hist) (mkPipeline f q' sub' hist).

(** The book at feed sequence [s], and what a subscriber at [s] should show. *)
Definition book_at (hist : list OrderBook) (s : Z) : option OrderBook :=
  if s <=? 0 then None else hist !! Z.to_nat (s - 1).

Definition event_of (hist : list OrderBook) (e : MarketDataEvent) : Prop :=
  ∃ s b, ev_sequence e = Some (FeedSequence.mk s) ∧ book_at hist s = Some b ∧
         published b (ev_bids e) (ev_asks e).

(** Every event of the list continues the sequence before it or is a snapshot. *)
Fixpoint chained (prev : option Z) (l : list MarketDataEvent) : Prop :=
  match l with
  | [] => True
  | e :: l' =>
      ∃ s, ev_sequence e = Some (FeedSequence.mk s) ∧
           (ev_kind e = snapshot ∨ prev = Some (s - 1)) ∧ chained (Some s) l'
  end.

(** The sequence after the whole list. *)
Fixpoint last_of (prev : option Z) (l : list MarketDataEvent) : option Z :=
  match l with
  | [] => prev
  | e :: l' => last_of (FeedSequence.value <$> ev_sequence e) l'
  end.

Definition sub_seq (sub : MarketDataBook) : option Z :=
  FeedSequence.value <$> last_sequence_ sub.

Definition sub_ok (hist : list OrderBook) (sub : MarketDataBook) : Prop :=
  match last_sequence_ sub with
  | None => sub = new_market_data_book
  | Some s =>
      synchronized_ sub = true ∧
      ∃ b, book_at hist (FeedSequence.value s) = Some b ∧ published b (mb_bids sub) (mb_asks sub)
  end.

Record feed_ok (f : MarketDataFeed) (n : nat) (hist : list OrderBook) (last : option Z) : Prop := {
  fo_next : next_sequence_ f = Z.of_nat (length hist) + 1;
  fo_bound : next_sequence_ f ≤ u64_max;
  fo_pushed : (n ≤ length hist)%nat;
  fo_pending : snapshot_pending_ f = false → last = Some (next_sequence_ f - 1);
  fo_published : published_events_ f = Z.of_nat n;
  fo_dropped : next_sequence_ f < u64_max → dropped_events_ f = Z.of_nat (length hist - n);
  fo_interval : 1 ≤ snapshot_interval_ f ≤ u64_max;
  fo_updates : 0 ≤ updates_since_snapshot_ f ≤ snapshot_interval_ f ∧
    (snapshot_pending_ f = false → updates_since_snapshot_ f < snapshot_interval_ f);
  fo_occupancy : 0 ≤ max_queue_occupancy_ f ≤ Z.of_nat bq_capacity;
}.

Definition md_inv_at (p : pipeline) (n : nat) (l : list MarketDataEvent) : Prop :=
  bq_rep (pl_queue p) n l ∧ Forall (event_of (pl_hist p)) l ∧
  chained (sub_seq (pl_sub p)) l ∧ sub_ok (pl_hist p) (pl_sub p) ∧
  feed_ok (pl_feed p) n (pl_hist p) (last_of (sub_seq (pl_sub p)) l).

Definition md_inv (p : pipeline) : Prop := ∃ n l, md_inv_at p n l.

Lemma book_at_app hist b s b' : book_at hist s = Some b → book_at (hist ++ [b']) s = Some b.
Proof. unfold book_at. zcase; [done|]. apply lookup_app_l_Some. Qed.

Lemma book_at_last hist b : book_at (hist ++ [b]) (Z.of_nat (length hist) + 1) = Some b.
Proof. unfold book_at. zcase; [lia|]. apply list_lookup_middle. lia. Qed.

Lemma event_of_app hist b e : event_of hist e → event_of (hist ++ [b]) e.
Proof. intros (s & b' & ? & ? & ?). exists s, b'. eauto using book_at_app. Qed.

Lemma sub_ok_app hist b sub : sub_ok hist sub → sub_ok (hist ++ [b]) sub.
Proof.
  unfold sub_ok. destruct (last_sequence_ sub); [|done].
  intros (? & b' & ? & ?). split; [done|]. exists b'. eauto using book_at_app.
Qed.

Lemma last_of_app prev l e :
  last_of prev (l ++ [e]) = FeedSequence.value <$> ev_sequence e.
Proof. revert prev. induction l as [|e' l IH]; intros prev; simpl; auto. Qed.

Lemma chained_app prev l e s :
  chained prev l → ev_sequence e = Some (FeedSequence.mk s) →
  (ev_kind e = snapshot ∨ last_of prev l = Some (s - 1)) → chained prev (l ++ [e]).
Proof.
  revert prev. induction l as [|e' l IH]; intros prev Hc He Hk; simpl in *.
  - eauto.
  - destruct Hc as (s' & Hs' & Hor & Hc). exists s'. split_and!; [done..|].
    rewrite Hs' in Hk. by apply IH.
Qed.

(** Every delivered event is applied. *)
Lemma apply_chained hist e l sub :
  Z.of_nat (length hist) < u64_max → event_of hist e → chained (sub_seq sub) (e :: l) → sub_ok hist sub →
  ∃ sub', apply e sub = (true, sub') ∧ sub_ok hist sub' ∧
    sub_seq sub' = FeedSequence.value <$> ev_sequence e ∧ chained (sub_seq sub') l.
Proof.
  intros Hlen (s & b & Hs & Hb & Hshow) (s' & Hs' & Hor & Hc) Hsub.
  rewrite Hs in Hs'. injection Hs' as <-.
  assert (0 < s < u64_max) as Hpos.
  { revert Hb. unfold book_at. zcase; [done|]. intros ?%lookup_lt_Some. lia. }
  assert (∀ sy, sy = true → sub_ok hist (mkMarketDataBook (ev_bids e) (ev_asks e) (ev_sequence e) sy))
    as Hok.
  { intros sy ->. unfold sub_ok. simpl. rewrite Hs. eauto. }
  unfold apply. rewrite Hs in *. destruct (ev_kind e) eqn:Hk.
  - eexists. split_and!; [done|by apply Hok|done|done].
  - destruct Hor as [?|Hor]; [done|]. unfold sub_seq, sub_ok in *.
    destruct (last_sequence_ sub) as [[last]|]; simpl in *; [|done]. simplify_eq.
    destruct Hsub as (Hsync & b' & Hb' & _). rewrite Hsync in *. simpl.
    assert (is_next_sequence (FeedSequence.mk (s - 1)) (FeedSequence.mk s) = true) as ->.
    { unfold is_next_sequence, u64_max in *. simpl.
      rewrite u64_add_small by lia. zcase; simpl; lia. }
    eexists. split_and!; [done|by apply Hok|done|done].
Qed.

Lemma publish_one_inv f q sub hist n l :
  md_inv_at (mkPipeline f q sub hist) n l →
  ∃ sub' q', publish_one sub q = Val (bool_decide (l ≠ []), sub', q') ∧
    md_inv_at (mkPipeline f q' sub' hist) n (tail l).
Proof.
  intros (Hrep & Hev & Hch & Hsub & Hf). simpl in *. unfold publish_one.
  destruct l as [|e l].
  - destruct (bq_pop_empty _ _ default_event Hrep) as (q' & -> & Hrep'). rewrite bind_Val. simpl.
    exists sub, q'. done.
  - destruct (bq_pop_ok _ _ _ _ default_event Hrep) as (q' & -> & Hrep'). rewrite bind_Val. simpl.
    apply Forall_cons in Hev as [He Hev].
    assert (Z.of_nat (length hist) < u64_max) as Hlen by (destruct Hf; lia).
    destruct (apply_chained _ _ _ _ Hlen He Hch Hsub) as (sub' & -> & Hsub' & Hseq & Hch').
    exists sub', q'. split; [done|]. split_and!; try done. simpl.
    simpl in Hf. by rewrite Hseq.
Qed.

(** The feed after an event was queued or dropped, with the sequence number used up. *)
Lemma feed_ok_drop f q n hist last b l :
  feed_ok f n hist last → next_sequence_ f ≠ u64_max → bq_rep q n l →
  feed_ok (record_queue_occupancy (count_drop (mkMarketDataFeed (u64_add (next_sequence_ f) 1)
    (snapshot_interval_ f) (updates_since_snapshot_ f) (published_events_ f) (dropped_events_ f)
    (max_queue_occupancy_ f) (snapshot_pending_ f))) q) n (hist ++ [b]) last.
Proof.
  intros [] Hne Hrep. pose proof (bq_rep_bound _ _ _ Hrep).
  assert (bq_size q = Z.of_nat (length l)) as Hsize.
  { eapply bq_size_ok; [done|]. unfold u64_max in *. lia. }
  assert (u64_add (next_sequence_ f) 1 = next_sequence_ f + 1) as Hadd.
  { unfold u64_max in *. apply u64_add_small. lia. }
  split; simpl; rewrite ?Hadd, ?length_app, ?Hsize; simpl; try done; try lia.
  intros Hlt. rewrite fo_dropped0 by lia. unfold u64_max in *. rewrite u64_add_small by lia. lia.
Qed.

(** The fields of the feed a successful push changes. *)
Lemma feed_ok_push f q n hist last b l updates pending :
  feed_ok f n hist last → next_sequence_ f ≠ u64_max → bq_rep q (S n) l →
  0 ≤ updates ≤ snapshot_interval_ f → (pending = false → updates < snapshot_interval_ f) →
  feed_ok (mkMarketDataFeed (u64_add (next_sequence_ f) 1) (snapshot_interval_ f) updates
    (u64_add (published_events_ f) 1) (dropped_events_ f)
    (Z.max (max_queue_occupancy_ f) (bq_size q)) pending)
    (S n) (hist ++ [b]) (Some (next_sequence_ f)).
Proof.
  intros [] Hne Hrep Hu Hp. pose proof (bq_rep_bound _ _ _ Hrep).
  assert (bq_size q = Z.of_nat (length l)) as Hsize.
  { eapply bq_size_ok; [done|]. unfold u64_max in *. lia. }
  assert (u64_add (next_sequence_ f) 1 = next_sequence_ f + 1) as Hadd.
  { unfold u64_max in *. apply u64_add_small. lia. }
  split; simpl; rewrite ?Hadd, ?length_app, ?Hsize; simpl; try done; try lia.
  - intros _. f_equal. lia.
  - rewrite fo_published0. unfold u64_max in *. rewrite u64_add_small by lia. lia.
Qed.

Lemma publish_inv book f q sub hist n l :
  (next_sequence_ f ≠ u64_max → ∃ bids asks, published book bids asks) →
  md_inv_at (mkPipeline f q sub hist) n l →
  ∃ f' q' n' l', publish book f q = Val (f', q') ∧
    md_inv_at (mkPipeline f' q' sub (if next_sequence_ f =? u64_max then hist else hist ++ [book]))
      n' l' ∧
    (next_sequence_ f < u64_max → (length l < bq_capacity)%nat →
     ∃ e, l' = l ++ [e] ∧ ev_sequence e = Some (FeedSequence.mk (next_sequence_ f))).
Proof.
  intros Hbook (Hrep & Hev & Hch & Hsub & Hf). simpl in *. unfold publish.
  assert (0 < next_sequence_ f) as Hpos by (destruct Hf; lia).
  assert (FeedSequence.from_value (next_sequence_ f) = Some (FeedSequence.mk (next_sequence_ f)))
    as ->. { unfold FeedSequence.from_value. zcase; [lia|done]. }
  destruct (Z.eqb_spec (next_sequence_ f) u64_max) as [Heq|Hne].
  { do 4 eexists. split; [done|]. split; [|lia]. split_and!; try done.
    destruct Hf. split; simpl; try done; lia. }
  destruct (Hbook Hne) as (bids & asks & Hpub). set (kind := if snapshot_pending_ _ then _ else _).
  rewrite Hpub, bind_Val. set (e := mkMarketDataEvent _ kind bids asks).
  assert (event_of (hist ++ [book]) e) as He.
  { exists (next_sequence_ f), book. split_and!; [done| |done].
    rewrite (fo_next _ _ _ _ Hf). apply book_at_last. }
  assert (Forall (event_of (hist ++ [book])) l) as Hev'
    by (eapply Forall_impl; [done|]; intros; by apply event_of_app).
  destruct (bq_rep_bound _ _ _ Hrep) as [Hle _].
  destruct (decide (length l = bq_capacity)) as [Hfull|Hroom].
  - destruct (bq_push_full _ _ _ e Hrep Hfull) as (q' & -> & Hrep'). rewrite bind_Val. simpl.
    do 4 eexists. split; [done|]. split; [|lia].
    split_and!; try done; simpl; [by apply sub_ok_app|by eapply feed_ok_drop].
  - destruct (bq_push_ok _ _ _ e Hrep) as (q' & -> & Hrep'); [lia|]. rewrite bind_Val. simpl.
    assert (chained (sub_seq sub) (l ++ [e])) as Hch'.
    { eapply chained_app; [done|done|]. unfold e, kind. simpl.
      destruct (snapshot_pending_ f) eqn:Hp; [by left|right]. by apply (fo_pending _ _ _ _ Hf). }
    assert (last_of (sub_seq sub) (l ++ [e]) = Some (next_sequence_ f)) as Hlast
      by (by rewrite last_of_app).
    assert (∀ f', feed_ok f' (S n) (hist ++ [book]) (Some (next_sequence_ f)) →
      md_inv_at (mkPipeline f' q' sub (hist ++ [book])) (S n) (l ++ [e])) as Hdone.
    { intros f' Hf'. split_and!; simpl; try done; [|by apply sub_ok_app|by rewrite Hlast].
      apply Forall_app. split; [done|]. by apply Forall_singleton. }
    destruct (fo_interval _ _ _ _ Hf), (fo_updates _ _ _ _ Hf) as [Hu Hlt].
    unfold kind in *. destruct (snapshot_pending_ f) eqn:Hp; simpl.
    + do 4 eexists. split; [done|]. split; [|by intros; exists e].
      apply Hdone. eapply feed_ok_push; [done..|lia|lia].
    + do 4 eexists. split; [done|]. split; [|by intros; exists e].
      apply Hdone. specialize (Hlt eq_refl). unfold u64_max in *.
      eapply feed_ok_push; [done..| |]; rewrite u64_add_small by lia; [lia|]. zcase; [done|lia].
Qed.

(** A book whose publication is defined has a depth. *)
Lemma publish_defined book f q sub hist n l r :
  md_inv_at (mkPipeline f q sub hist) n l → publish book f q = Val r →
  next_sequence_ f ≠ u64_max → ∃ bids asks, published book bids asks.
Proof.
  intros (_ & _ & _ & _ & Hf) Hp Hne. cbn [pl_feed pl_hist] in Hf. unfold publish in Hp.
  unfold FeedSequence.from_value in Hp. destruct (Z.eqb_spec (next_sequence_ f) 0) as [H0|_].
  { destruct Hf. lia. }
  destruct (Z.eqb_spec (next_sequence_ f) u64_max); [done|].
  apply bind_Val_inv in Hp as (e & He & _). by eapply make_event_published.
Qed.

Lemma md_inv_step p p' : md_inv p → md_step p p' → md_inv p'.
Proof.
  intros (n & l & Hinv) Hstep. destruct Hstep as [book f q f' q' sub hist Hp|
    applied f q q' sub sub' hist Hp].
  - destruct (publish_inv book _ _ _ _ _ _ (publish_defined _ _ _ _ _ _ _ _ Hinv Hp) Hinv)
      as (f1 & q1 & n1 & l1 & Hp1 & Hinv' & _).
    rewrite Hp1 in Hp. simplify_eq. by exists n1, l1.
  - destruct (publish_one_inv _ _ _ _ _ _ Hinv) as (sub1 & q1 & Hp1 & Hinv').
    rewrite Hp1 in Hp. simplify_eq. by exists n, (tail l).
Qed.

Definition start (interval : Z) (q : Q) : pipeline :=
  mkPipeline (new_feed interval) q new_market_data_book [].

Lemma md_inv_start interval q :
  0 ≤ interval ≤ u64_max → bq_rep q 0 [] → md_inv_at (start interval q) 0 [].
Proof.
  intros Hi Hrep. split_and!; try done; simpl. unfold u64_max in *.
  split; simpl; try done; unfold u64_max; lia.
Qed.

Lemma md_inv_reachable interval q p :
  0 ≤ interval ≤ u64_max → bq_rep q 0 [] → rtc md_step (start interval q) p → md_inv p.
Proof.
  intros Hi Hrep Hr.
  assert (∀ p p', rtc md_step p p' → md_inv p → md_inv p') as H
    by (induction 1; eauto using md_inv_step).
  eapply H; [done|]. exists 0%nat, []. by apply md_inv_start.
Qed.

(** Draining the queue applies every event. *)
Lemma drain_inv f hist l : ∀ fuel event published sub q n,
  (length l ≤ fuel)%nat → 0 ≤ published → published + Z.of_nat (length l) ≤ u64_max →
  md_inv_at (mkPipeline f q sub hist) n l →
  ∃ sub' q', drain fuel event published sub q = Val (published + Z.of_nat (length l), sub', q') ∧
    md_inv_at (mkPipeline f q' sub' hist) n [] ∧
    sub_seq sub' = last_of (sub_seq sub) l.
Proof.
  induction l as [|e l IH]; intros fuel event published sub q n Hfuel Hp Hb Hinv;
    pose proof Hinv as (Hrep & Hev & Hch & Hsub & Hf); simpl in Hrep, Hev, Hsub, Hch, Hf.
  - destruct (bq_pop_empty _ _ event Hrep) as (q' & Hq & Hrep').
    exists sub, q'. rewrite Z.add_0_r. destruct fuel; simpl; rewrite Hq; done.
  - destruct (bq_pop_ok _ _ _ _ event Hrep) as (q' & Hq & Hrep').
    apply Forall_cons in Hev as [He Hev].
    assert (Z.of_nat (length hist) < u64_max) as Hlen by (destruct Hf; lia).
    destruct (apply_chained _ _ _ _ Hlen He Hch Hsub) as (sub' & Ha & Hsub' & Hseq & Hch').
    destruct fuel as [|fuel]; [simpl in Hfuel; lia|]. simpl in Hfuel, Hb |- *.
    rewrite Hq, bind_Val. simpl. rewrite Ha. unfold u64_max in Hb.
    rewrite u64_add_small by lia.
    destruct (IH fuel e (published + 1) sub' q' n) as (sub2 & q2 & Hd & Hinv2 & Hs2);
      [lia|lia|unfold u64_max; lia| |].
    { split_and!; try done. simpl. by rewrite Hseq. }
    exists sub2, q2. rewrite Hd, <- Hseq. split_and!; [|done..]. do 3 f_equal. lia.
Qed.

End Pipeline.

(** ** Claims *)

(** C10. Over any run in which the engine publishes books and the publisher
    delivers events, whatever was dropped because the queue was full, a
    subscriber accepts every event it is handed ([publish_one] returns false
    only on an empty queue), and once it has applied one it is synchronized and
    shows the depth the feed made of the book published under its last sequence
    number.  That is exactly the five best levels of the book's priority lists
    when no level total of that book reaches 2^64; beyond that the feed shows
    what [copy_depth] returned, and a run in which [copy_depth] is undefined does
    not go on. *)
Theorem subscriber_stays_synchronized {Q} `{BQ : BoundedQueue Q MarketDataEvent} interval q p :
  0 ≤ interval ≤ u64_max → bq_rep q 0 [] → rtc md_step (start interval q) p →
  (∃ n l sub' q', bq_rep (pl_queue p) n l ∧
     publish_one (pl_sub p) (pl_queue p) = Val (bool_decide (l ≠ []), sub', q')) ∧
  (∀ s, last_sequence_ (pl_sub p) = Some s →
     synchronized_ (pl_sub p) = true ∧
     ∃ b, book_at (pl_hist p) (FeedSequence.value s) = Some b ∧
          published b (mb_bids (pl_sub p)) (mb_asks (pl_sub p)) ∧
          (wf b → no_overflow b → shows (mb_bids (pl_sub p)) (mb_asks (pl_sub p)) b)).
Proof.
  intros Hi Hrep Hr. destruct (md_inv_reachable _ _ _ Hi Hrep Hr) as (n & l & Hinv).
  destruct p as [f q' sub hist]. split.
  - destruct (publish_one_inv _ _ _ _ _ _ Hinv) as (sub1 & q1 & Hp & _).
    destruct Hinv as (Hrep' & _). eauto 10.
  - destruct Hinv as (_ & _ & _ & Hsub & _). unfold sub_ok in Hsub. simpl in *.
    intros s Hs. rewrite Hs in Hsub. destruct Hsub as (Hsync & b & Hat & Hpub).
    split; [done|]. exists b. split_and!; try done. intros Hwf Hno. by apply published_shows.
Qed.

(** C29. The subscriber catches up: in any reachable state in which the queue
    has room and the sequence numbers are not used up, publishing a well-formed
    book whose level totals stay below 2^64 and draining the queue (fuel: one
    iteration per queued event, at most the capacity) leaves the subscriber
    synchronized at the new sequence number and showing the five best levels of
    that book, with every queued event counted as applied.  The books published
    before may be any for which publishing is defined. *)
Theorem publish_then_drain_shows_book {Q} `{BQ : BoundedQueue Q MarketDataEvent} interval q p book :
  0 ≤ interval ≤ u64_max → bq_rep q 0 [] → rtc md_step (start interval q) p →
  book_ok book → next_sequence_ (pl_feed p) < u64_max → Z.of_nat bq_capacity ≤ u64_max →
  ∃ n l, bq_rep (pl_queue p) n l ∧
    ((length l < bq_capacity)%nat →
     ∃ f1 q1 sub2 q2,
       publish book (pl_feed p) (pl_queue p) = Val (f1, q1) ∧
       publish_available bq_capacity (pl_sub p) q1
       = Val (Z.of_nat (length l) + 1, sub2, q2) ∧
       synchronized_ sub2 = true ∧
       last_sequence_ sub2 = Some (FeedSequence.mk (next_sequence_ (pl_feed p))) ∧
       shows (mb_bids sub2) (mb_asks sub2) book).
Proof.
  intros Hi Hrep Hr Hb Hnext Hcap. destruct (md_inv_reachable _ _ _ Hi Hrep Hr) as (n & l & Hinv).
  destruct p as [f q0 sub hist]. simpl in *. exists n, l. split; [apply Hinv|]. intros Hroom.
  destruct (publish_inv book _ _ _ _ _ _ (λ _, ex_intro _ _ (ex_intro _ _ (book_ok_published _ Hb))) Hinv)
    as (f1 & q1 & n1 & l1 & Hp & Hinv1 & Hl1).
  destruct (Hl1 Hnext Hroom) as (e & -> & He).
  destruct (Z.eqb_spec (next_sequence_ f) u64_max); [lia|].
  destruct (drain_inv f1 (hist ++ [book])
      (l ++ [e]) bq_capacity default_event 0 sub q1 n1)
    as (sub2 & q2 & Hd & Hinv2 & Hs2); [rewrite length_app; simpl; lia|lia|
    rewrite length_app; simpl; lia|done|].
  exists f1, q1, sub2, q2. rewrite last_of_app, He in Hs2. simpl in Hs2.
  destruct Hinv as (_ & _ & _ & _ & Hf). destruct Hinv2 as (_ & _ & _ & Hsub & _).
  cbn [pl_sub pl_hist] in Hsub. unfold sub_ok, sub_seq in *. destruct (last_sequence_ sub2) as [[s]|] eqn:Hlast; [|done].
  simpl in Hs2, Hsub. injection Hs2 as ->. destruct Hsub as (Hsync & b & Hat & Hshow).
  pose proof (fo_next _ _ _ _ Hf) as Hn. simpl in Hn. rewrite Hn, book_at_last in Hat. injection Hat as <-.
  split_and!; try done; [|by apply published_shows]. unfold publish_available.
  rewrite Hd, length_app. simpl. do 3 f_equal. lia.
Qed.

(** Publishing never blocks and never fails: in every reachable state it
    returns for any well-formed book, and the metrics add up: the published
    count is the number of events queued, the dropped count is the number of
    sequence numbers used without queueing an event, the recorded occupancy
    never exceeds the capacity, and at most [snapshot_interval] updates are
    queued between two snapshots. *)
Lemma publish_total_and_accounted {Q} `{BQ : BoundedQueue Q MarketDataEvent} interval q p book :
  0 ≤ interval ≤ u64_max → bq_rep q 0 [] → rtc md_step (start interval q) p → book_ok book →
  (∃ f' q', publish book (pl_feed p) (pl_queue p) = Val (f', q')) ∧
  (∃ n l, bq_rep (pl_queue p) n l ∧
     published_events (metrics (pl_feed p) (pl_queue p)) = Z.of_nat n ∧
     (next_sequence_ (pl_feed p) < u64_max →
      dropped_events (metrics (pl_feed p) (pl_queue p)) = Z.of_nat (length (pl_hist p) - n)) ∧
     queue_occupancy (metrics (pl_feed p) (pl_queue p)) = Z.of_nat (length l) ∧
     max_queue_occupancy (metrics (pl_feed p) (pl_queue p)) ≤ Z.of_nat bq_capacity) ∧
  0 ≤ updates_since_snapshot_ (pl_feed p) ≤ snapshot_interval_ (pl_feed p).
Proof.
  intros Hi Hrep Hr Hb. destruct (md_inv_reachable _ _ _ Hi Hrep Hr) as (n & l & Hinv).
  destruct p as [f q0 sub hist]. simpl in *. split_and!.
  - destruct (publish_inv book f q0 sub hist n l) as (f1 & q1 & n1 & l1 & Hp & _); [|done|by eauto].
    intros _. by do 2 eexists; apply book_ok_published.
  - exists n, l. destruct Hinv as (Hrep' & _ & _ & _ & []). simpl in *. split_and!; try done; try lia.
    eapply bq_size_ok; [done|]. unfold u64_max in *. lia.
  - destruct Hinv as (_ & _ & _ & _ & []). simpl in *. lia.
  - destruct Hinv as (_ & _ & _ & _ & []). simpl in *. lia.
Qed.

(** ** Witnesses

    The production queue (capacity 1024, nothing left behind by a move); two
    books are published and the first event is delivered. *)

Definition md_queue : BoundedQueue (BoundedSPSCQueue.Queue MarketDataEvent) MarketDataEvent :=
  spsc_bounded_queue 1024 (λ e, e) eq_refl.
Definition md_empty : BoundedSPSCQueue.Queue MarketDataEvent :=
  BoundedSPSCQueue.new_queue 1024 default_event.

Definition demo_publish (b : OrderBook) (p : MarketDataFeed * BoundedSPSCQueue.Queue MarketDataEvent) :=
  value_of (publish (BQ:=md_queue) b p.1 p.2) p.
Definition demo_md1 := demo_publish demo_book (new_feed 64, md_empty).
Definition demo_md2 := demo_publish demo_submit.2 demo_md1.
Definition demo_delivered :=
  value_of (publish_one (BQ:=md_queue) new_market_data_book demo_md2.2)
    (false, new_market_data_book, demo_md2.2).

Definition demo_pipeline : pipeline :=
  mkPipeline demo_md2.1 demo_delivered.2 demo_delivered.1.2 [demo_book; demo_submit.2].

Lemma md_empty_rep : bq_rep (BoundedQueue:=md_queue) md_empty 0 [].
Proof. by apply queue_rep_init. Qed.

Lemma demo_books_ok : book_ok demo_book ∧ book_ok demo_submit.2.
Proof.
  split; split.
  - exact demo_wf.
  - exact demo_no_overflow.
  - apply reachable_wf, demo_submit_reachable.
  - intros s. apply (bool_decide_unpack _). destruct s; vm_compute; exact I.
Qed.

Lemma demo_pipeline_reachable : rtc (md_step (BQ:=md_queue)) (start 64 md_empty) demo_pipeline.
Proof.
  eapply rtc_l; [apply (md_publish demo_book _ _ demo_md1.1 demo_md1.2); by vm_compute|].
  eapply rtc_l; [apply (md_publish demo_submit.2 _ _ demo_md2.1 demo_md2.2); by vm_compute|].
  eapply rtc_once.
  apply (md_deliver true demo_md2.1 demo_md2.2 demo_delivered.2 _ demo_delivered.1.2).
  by vm_compute.
Qed.

Lemma subscriber_stays_synchronized_witness :
  synchronized_ (pl_sub demo_pipeline) = true ∧
  ∃ b, book_at (pl_hist demo_pipeline) 1 = Some b ∧
       published b (mb_bids (pl_sub demo_pipeline)) (mb_asks (pl_sub demo_pipeline)) ∧
       (wf b → no_overflow b →
        shows (mb_bids (pl_sub demo_pipeline)) (mb_asks (pl_sub demo_pipeline)) b).
Proof.
  apply (subscriber_stays_synchronized (BQ:=md_queue) 64 md_empty demo_pipeline
    ltac:(vm_compute; intuition discriminate) md_empty_rep demo_pipeline_reachable)
    with (s := FeedSequence.mk 1).
  vm_compute. reflexivity.
Defined.

Lemma publish_then_drain_shows_book_witness :
  ∃ n l, bq_rep (BoundedQueue:=md_queue) (pl_queue demo_pipeline) n l ∧
    ((length l < 1024)%nat →
     ∃ f1 q1 sub2 q2,
       publish (BQ:=md_queue) demo_book (pl_feed demo_pipeline) (pl_queue demo_pipeline)
       = Val (f1, q1) ∧
       publish_available (BQ:=md_queue) 1024 (pl_sub demo_pipeline) q1
       = Val (Z.of_nat (length l) + 1, sub2, q2) ∧
       synchronized_ sub2 = true ∧ last_sequence_ sub2 = Some (FeedSequence.mk 3) ∧
       shows (mb_bids sub2) (mb_asks sub2) demo_book).
Proof.
  apply (publish_then_drain_shows_book (BQ:=md_queue) 64 md_empty demo_pipeline demo_book
    ltac:(vm_compute; intuition discriminate) md_empty_rep demo_pipeline_reachable);
    [apply demo_books_ok|vm_compute; reflexivity|vm_compute; discriminate].
Defined.

Lemma publish_total_and_accounted_witness :
  ∃ f' q', publish (BQ:=md_queue) demo_book (pl_feed demo_pipeline) (pl_queue demo_pipeline)
           = Val (f', q').
Proof.
  apply (publish_total_and_accounted (BQ:=md_queue) 64 md_empty demo_pipeline demo_book
    ltac:(vm_compute; intuition discriminate) md_empty_rep demo_pipeline_reachable).
  apply demo_books_ok.
Defined.
