(* ===== verification/EventLog.v ===== *)
(** * The event log

    Models [include/low_latency_exchange/event_log.hpp] and
    [src/event_log.cpp]: the capture feed the engine thread writes accepted
    commands to, the framed and checksummed record format, the writer and the
    replay that rebuilds a book from a log.

    Files: an [ofstream] is the file, the stream buffer in front of it, the good
    state and the number of bytes the device still accepts.  A write goes to the
    buffer, which the implementation empties when it likes; only passing bytes
    to the device can fail (it then leaves a prefix and sets the bad state), so
    a write succeeds as long as it stays in the buffer.  An [ifstream] is the
    bytes not yet read and the eof state.  [read n] delivers [gcount] = min n
    (remaining) bytes and sets eof when it falls short. *)

From stdpp Require Import prelude list.
From Stdlib Require Import ZArith Lia.
From S2P Require Import Prelude Types OrderBook Bytes Protocol Spsc.

Open Scope Z_scope.
Import layout.

(** ** Capture feed *)

Record EventCaptureMessage : Type := mkEventCaptureMessage { msg_command : Command }.
Definition default_message : EventCaptureMessage := mkEventCaptureMessage monostate.

Record EventCaptureMetrics : Type := mkEventCaptureMetrics {
  ecm_captured_commands : Z;
  ecm_dropped_commands : Z;
  ecm_queue_occupancy : Z;
  ecm_max_queue_occupancy : Z;
}.

Record EventCaptureFeed : Type := mkEventCaptureFeed {
  captured_commands_ : Z;
  dropped_commands_ : Z;
  ecf_max_queue_occupancy_ : Z;
}.

Definition new_capture_feed : EventCaptureFeed := mkEventCaptureFeed 0 0 0.

Section Capture.
Context {Q : Type} `{BQ : BoundedQueue Q EventCaptureMessage}.

Definition capture_record_occupancy (f : EventCaptureFeed) (q : Q) : EventCaptureFeed :=
  if ecf_max_queue_occupancy_ f <? bq_size q
  then mkEventCaptureFeed (captured_commands_ f) (dropped_commands_ f) (bq_size q)
  else f.

Definition capture (command : Command) (f : EventCaptureFeed) (q : Q)
  : outcome (EventCaptureFeed * Q) :=
  '(pushed, q) ← bq_push (mkEventCaptureMessage command) q;
  if negb pushed then
    let f := mkEventCaptureFeed (captured_commands_ f) (u64_add (dropped_commands_ f) 1)
               (ecf_max_queue_occupancy_ f) in
    Val (capture_record_occupancy f q, q)
  else
    let f := mkEventCaptureFeed (u64_add (captured_commands_ f) 1) (dropped_commands_ f)
               (ecf_max_queue_occupancy_ f) in
    Val (capture_record_occupancy f q, q).

Definition capture_metrics (f : EventCaptureFeed) (q : Q) : EventCaptureMetrics :=
  mkEventCaptureMetrics (captured_commands_ f) (dropped_commands_ f) (bq_size q)
    (ecf_max_queue_occupancy_ f).
End Capture.

(** ** Records *)

Module EventLogError.
Inductive t : Type :=
| io_error
| truncated_header
| malformed_header
| truncated_payload
| checksum_mismatch
| invalid_command
| replay_command_rejected.

#[export] Instance eq_dec : EqDecision t.
Proof. solve_decision. Defined.
End EventLogError.

Definition kRecordMagic : Z := 0x474C584C.
Definition kRecordVersion : Z := 1.
Definition kRecordHeaderSize : nat := 16.
Definition kRecordPayloadMax : nat := kNewOrderSize.

Definition write_u32_le (out : span) (offset : nat) (value : Z) : outcome span :=
  for_range 4 (λ byte out,
    set_byte out (offset + byte) (Z.land (Z.shiftr value (Z.of_nat byte * 8)) 0xFF)) out.

Definition read_u32_le (s : span) (offset : nat) : outcome Z :=
  for_range 4 (λ byte value,
    b ← byte_at s (offset + byte);
    Val (Z.lor value (wrap 32 (Z.shiftl b (Z.of_nat byte * 8))))) 0.

(** [hash ^= value; hash *= kFnvPrime] *)
Definition mix (hash value : Z) : Z := u64_mul (Z.lxor hash value) kFnvPrime.

Definition checksum (type : MessageType.t) (payload : span) : Z :=
  let size := Z.of_nat (length payload) in
  let hash := mix kFnvOffsetBasis kRecordVersion in
  let hash := mix hash type in
  let hash := mix hash (Z.land size 0xFF) in
  let hash := mix hash (Z.land (Z.shiftr size 8) 0xFF) in
  foldl mix hash payload.

(** The three reference arguments of [encode_command]. *)
Record encoded : Type := mkEncoded {
  enc_type : MessageType.t;
  enc_payload : span;
  enc_size : nat;
}.

(** Encodes through [std::span(payload.data(), payload_size)]. *)
Definition encode_prefix (encode : span → outcome (bool * span)) (type : MessageType.t)
    (size : nat) (payload : span) : outcome (bool * encoded) :=
  '(ok, head) ← encode (take size payload);
  Val (ok, mkEncoded type (head ++ drop size payload) size).

Definition encode_command (command : Command) (r : encoded) : outcome (bool * encoded) :=
  match command with
  | CmdNew o =>
      encode_prefix (encode_new_order o) MessageType.new_order kNewOrderSize (enc_payload r)
  | CmdCancel c =>
      encode_prefix (encode_cancel_order c) MessageType.cancel_order kCancelOrderSize
        (enc_payload r)
  | CmdReplace c =>
      encode_prefix (encode_replace_order c) MessageType.replace_order kReplaceOrderSize
        (enc_payload r)
  | monostate => Val (false, r)
  end.

Definition placeholder_new : NewOrder :=
  {| no_sequence := SequenceNumber.mk 1; no_order_id := OrderId.mk 1; no_side := buy;
     no_type := limit; no_quantity := Quantity.mk 1; no_limit_price := None |}.
Definition placeholder_cancel : CancelOrder :=
  {| co_sequence := SequenceNumber.mk 1; co_order_id := OrderId.mk 1 |}.
Definition placeholder_replace : ReplaceOrder :=
  {| rp_sequence := SequenceNumber.mk 1; rp_order_id := OrderId.mk 1;
     rp_new_quantity := Quantity.mk 1; rp_new_price := Price.mk 1 |}.

Definition decode_command (type : MessageType.t) (payload : span) (command : Command)
  : outcome (option EventLogError.t * Command) :=
  if type =? MessageType.new_order then
    '(error, order) ← decode_new_order payload placeholder_new;
    match error with
    | Some _ => Val (Some EventLogError.invalid_command, command)
    | None => Val (None, CmdNew order)
    end
  else if type =? MessageType.cancel_order then
    '(error, order) ← decode_cancel_order payload placeholder_cancel;
    match error with
    | Some _ => Val (Some EventLogError.invalid_command, command)
    | None => Val (None, CmdCancel order)
    end
  else if type =? MessageType.replace_order then
    '(error, order) ← decode_replace_order payload placeholder_replace;
    match error with
    | Some _ => Val (Some EventLogError.invalid_command, command)
    | None => Val (None, CmdReplace order)
    end
  else Val (Some EventLogError.invalid_command, command).

Definition apply_command (book : OrderBook) (command : Command) : outcome (bool * OrderBook) :=
  match command with
  | CmdNew o => '(r, book) ← submit o book; Val (submit_accepted r, book)
  | CmdCancel c => '(r, book) ← cancel c book; Val (cancel_accepted r, book)
  | CmdReplace c => '(r, book) ← replace c book; Val (replace_accepted r, book)
  | monostate => Val (false, book)
  end.

(** ** The writer *)

(** A file stream: the bytes that reached the file, the bytes still in the
    stream buffer, whether the state is good, and how many more bytes the device
    takes.  When a filebuf passes on what it holds is left to the
    implementation: [os_spill held n] is how much of the buffer a write of [n]
    bytes pushes out when [held] bytes are waiting. *)
Record ofstream : Type := mkOfstream {
  os_device : list Z;
  os_buffer : list Z;
  os_good : bool;
  os_room : nat;
  os_spill : nat → nat → nat;
}.

(** The constructor with [std::ios::trunc]. *)
Definition open_log (spill : nat → nat → nat) (room : nat) : ofstream :=
  mkOfstream [] [] true room spill.

(** The buffer of libstdc++, for writes of less than a kilobyte: one that fits
    behind the bytes held stays in the buffer, any other goes to the file
    together with them. *)
Definition filebuf_spill (capacity held n : nat) : nat :=
  if decide (held + n < capacity)%nat then 0%nat else (held + n)%nat.

(** The filebuf passes its first [n] bytes to the device; on a device that does
    not take them all the rest stays behind and the stream turns bad. *)
Definition os_drain (n : nat) (o : ofstream) : ofstream :=
  let n := Nat.min n (length (os_buffer o)) in
  if decide (n ≤ os_room o)%nat
  then mkOfstream (os_device o ++ take n (os_buffer o)) (drop n (os_buffer o)) (os_good o)
         (os_room o - n) (os_spill o)
  else mkOfstream (os_device o ++ take (os_room o) (os_buffer o)) (drop (os_room o) (os_buffer o))
         false 0 (os_spill o).

(** [output_.write]: nothing on a bad stream, otherwise into the buffer. *)
Definition os_write (bs : list Z) (o : ofstream) : ofstream :=
  if negb (os_good o) then o
  else os_drain (os_spill o (length (os_buffer o)) (length bs))
         (mkOfstream (os_device o) (os_buffer o ++ bs) true (os_room o) (os_spill o)).

(** [output_.flush] *)
Definition os_flush (o : ofstream) : ofstream :=
  if negb (os_good o) then o else os_drain (length (os_buffer o)) o.

Definition append (command : Command) (output : ofstream) : outcome (bool * ofstream) :=
  if negb (os_good output) then Val (false, output) else
  '(ok, r) ← encode_command command
    (mkEncoded MessageType.new_order (replicate kRecordPayloadMax 0) 0);
  if negb ok then Val (false, output) else
  let payload := take (enc_size r) (enc_payload r) in
  header ← write_u32_le (replicate kRecordHeaderSize 0) 0 kRecordMagic;
  header ← set_byte header 4 kRecordVersion;
  header ← set_byte header 5 (enc_type r);
  header ← write_u16_le header 6 (wrap 16 (Z.of_nat (enc_size r)));
  header ← write_u64_le header 8 (checksum (enc_type r) payload);
  let output := os_write header output in
  let output := os_write payload output in
  Val (os_good output, output).

Definition writer_good (output : ofstream) : bool := os_good output.

Definition flush (output : ofstream) : bool * ofstream :=
  let output := os_flush output in (os_good output, output).

Definition drain_event_capture_one {Q} `{BQ : BoundedQueue Q EventCaptureMessage} (q : Q)
    (writer : ofstream) : outcome (bool * Q * ofstream) :=
  '(popped, message, q) ← bq_pop default_message q;
  if negb popped then Val (false, q, writer) else
  '(ok, writer) ← append (msg_command message) writer;
  Val (ok, q, writer).

(** ** The reader *)

Record ifstream : Type := mkIfstream {
  is_rest : list Z;
  is_eof : bool;
}.

(** [input.read(data, n)]: the bytes delivered ([gcount] of them). *)
Definition is_read (n : nat) (i : ifstream) : list Z * ifstream :=
  if is_eof i then ([], i)
  else (take n (is_rest i),
        mkIfstream (drop n (is_rest i)) (bool_decide (length (is_rest i) < n)%nat)).

Inductive ReadResult : Type :=
| ReadRecord (command : Command)
| ReadEnd
| ReadError (error : EventLogError.t).

Definition read_u16_record (s : span) (offset : nat) : outcome Z :=
  low ← byte_at s offset;
  high ← byte_at s (offset + 1);
  Val (wrap 16 (Z.lor low (Z.shiftl high 8))).

(** The part of [read_record] behind the header checks. *)
Definition read_payload (type : MessageType.t) (payload_size expected_checksum : Z)
    (input : ifstream) : outcome (ReadResult * ifstream) :=
  let '(payload, input) := is_read (Z.to_nat payload_size) input in
  if negb (Z.of_nat (length payload) =? payload_size)
  then Val (ReadError EventLogError.truncated_payload, input)
  else if negb (checksum type payload =? expected_checksum)
  then Val (ReadError EventLogError.checksum_mismatch, input)
  else
    '(error, command) ← decode_command type payload monostate;
    match error with
    | Some error => Val (ReadError error, input)
    | None => Val (ReadRecord command, input)
    end.

(** The condition under which a header is malformed. *)
Definition header_malformed (magic version : Z) (type : MessageType.t) (payload_size : Z) : bool :=
  negb (magic =? kRecordMagic) || negb (version =? kRecordVersion) || negb (is_inbound type) ||
  match expected_payload_length type with
  | None => true
  | Some expected => negb (payload_size =? expected)
  end || (Z.of_nat kRecordPayloadMax <? payload_size).

Definition read_record (input : ifstream) : outcome (ReadResult * ifstream) :=
  let '(header, input) := is_read kRecordHeaderSize input in
  if bool_decide (length header = 0%nat) && is_eof input then Val (ReadEnd, input)
  else if negb (bool_decide (length header = kRecordHeaderSize))
  then Val (ReadError EventLogError.truncated_header, input)
  else
    magic ← read_u32_le header 0;
    version ← byte_at header 4;
    type ← byte_at header 5;
    payload_size ← read_u16_record header 6;
    expected_checksum ← read_u64_le header 8;
    if header_malformed magic version type payload_size
    then Val (ReadError EventLogError.malformed_header, input)
    else read_payload type payload_size expected_checksum input.

Record ReplayResult : Type := mkReplayResult {
  rr_error : option EventLogError.t;
  rr_replayed_commands : Z;
  rr_state_digest : Z;
}.

Definition replay_succeeded (r : ReplayResult) : bool := bool_decide (rr_error r = None).

(** The [while (true)] of [replay_event_log]; every iteration that does not
    return consumes a header, so the length of the file is enough fuel. *)
Fixpoint replay_loop (fuel : nat) (book : OrderBook) (replayed_commands : Z) (input : ifstream)
  : outcome ReplayResult :=
  '(record, input) ← read_record input;
  match record with
  | ReadEnd => Val (mkReplayResult None replayed_commands (state_digest book))
  | ReadError error => Val (mkReplayResult (Some error) replayed_commands (state_digest book))
  | ReadRecord command =>
      '(accepted, book) ← apply_command book command;
      if negb accepted
      then Val (mkReplayResult (Some EventLogError.replay_command_rejected) replayed_commands
                  (state_digest book))
      else
        match fuel with
        | O => OutOfFuel
        | S fuel' => replay_loop fuel' book (u64_add replayed_commands 1) input
        end
  end.

(** [file] is the contents of the log, or nothing when it cannot be opened. *)
Definition replay_event_log (file : option (list Z)) : outcome ReplayResult :=
  match file with
  | None => Val (mkReplayResult (Some EventLogError.io_error) 0 0)
  | Some bytes => replay_loop (length bytes) empty_book 0 (mkIfstream bytes false)
  end.
