(* ===== verification/EventLogProps.v ===== *)
(** * Correctness of the event log

    What was written to a stream is in its file, in its buffer or, on a full
    device, lost with the stream bad ([stream]).  A record written by [append] is
    read back by [read_record] (the codecs are
    used through the [Codec] interface); replay returns a result on every byte
    string; replaying the log of the commands a book accepted rebuilds that
    book, and of any beginning of that log the book after its whole records; and the checksum detects every
    corruption of a single payload byte, because each FNV-1a step is a
    bijection of the hash. *)

From stdpp Require Import prelude list.
From Stdlib Require Import ZArith Lia Znumtheory.
From S2P Require Import Prelude Types OrderBook BookSpec BookInv BookRefine BookProps Bytes.
From S2P Require Import Protocol ProtocolInv ProtocolProps Spsc SpscProps EventLog.

Open Scope Z_scope.
Import layout.
#[local] Arguments le_bytes : simpl never.

(** ** 32-bit fields *)

Lemma write_u32_next bs out off v :
  off = length bs → (off + 4 ≤ length out)%nat →
  write_u32_le (splice 0 bs out) off v = Val (splice 0 (bs ++ le_bytes 4 v) out).
Proof.
  intros -> Hl. unfold write_u32_le. rewrite write_loop_ok by (rewrite length_splice; lia).
  rewrite Nat.add_0_r, Z.shiftr_0_r.
  rewrite splice_splice by (rewrite ?length_le_bytes; lia). done.
Qed.

Lemma read_u32_head v s : 0 ≤ v < 2 ^ 32 → read_u32_le (le_bytes 4 v ++ s) 0 = Val v.
Proof.
  intros Hv. unfold read_u32_le. rewrite <- (length_le_bytes 4 v) at 1.
  rewrite (read_loop_ok 32 _ 0 (le_bytes 4 v) s); [|done|rewrite length_le_bytes; lia|].
  - rewrite Z.shiftl_0_r, Z.lor_0_l, le_value_le_bytes. f_equal. by apply Z.mod_small.
  - apply le_bytes_ok.
Qed.

Lemma read_u16_record_eq s off : bytes_ok s → read_u16_record s off = read_u16_le s off.
Proof.
  intros Hok. unfold read_u16_record, read_u16_le, byte_at.
  destruct (s !! off) as [lo|] eqn:Hlo; [|done]. destruct (s !! (off + 1)%nat) as [hi|] eqn:Hhi; [|done].
  simpl. apply (Forall_lookup_1 _ _ _ _ Hok) in Hhi. unfold byte_ok in Hhi.
  rewrite (wrap_small 16 (Z.shiftl hi 8)); [done|]. rewrite Z.shiftl_mul_pow2 by lia. lia.
Qed.

#[local] Hint Rewrite write_u32_next using offset_bound : wire.
#[local] Hint Rewrite read_u32_head using (assumption || lia) : wire.

(** ** The checksum *)

Lemma mix_range h b : 0 ≤ mix h b < 2 ^ 64.
Proof. apply wrap_range. lia. Qed.

Lemma checksum_range type payload : 0 ≤ checksum type payload < 2 ^ 64.
Proof.
  unfold checksum. set (h := mix _ _).
  assert (0 ≤ h < 2 ^ 64) as Hh by apply mix_range. revert Hh. generalize h.
  induction payload as [|b payload IH]; intros h' Hh; simpl; [done|]. apply IH, mix_range.
Qed.

(** The inverse of the FNV prime modulo 2^64, which makes a step reversible. *)
Definition kFnvInverse : Z := 14886173955864302971.
Definition unmix (hash value : Z) : Z := Z.lxor (u64_mul hash kFnvInverse) value.

Lemma lxor_range a b n : 0 ≤ n → 0 ≤ a < 2 ^ n → 0 ≤ b < 2 ^ n → 0 ≤ Z.lxor a b < 2 ^ n.
Proof.
  intros Hn Ha Hb. assert (Z.lxor a b = (Z.lxor a b) `mod` 2 ^ n) as ->.
  { apply Z.bits_inj'. intros i Hi.
    destruct (Z.ltb_spec i n); [by rewrite Z.mod_pow2_bits_low by lia|].
    rewrite Z.mod_pow2_bits_high, Z.lxor_spec by lia.
    rewrite <- (Z.mod_small a (2 ^ n)), <- (Z.mod_small b (2 ^ n)) by done.
    by rewrite !Z.mod_pow2_bits_high by lia. }
  apply Z.mod_pos_bound, Z.pow_pos_nonneg; lia.
Qed.

Lemma unmix_mix h b : 0 ≤ h < 2 ^ 64 → byte_ok b → unmix (mix h b) b = h.
Proof.
  intros Hh Hb. unfold unmix, mix, u64_mul, wrap. rewrite Zmult_mod_idemp_l, <- Z.mul_assoc.
  rewrite <- Zmult_mod_idemp_r. change ((kFnvPrime * kFnvInverse) `mod` 2 ^ 64) with 1.
  rewrite Z.mul_1_r, Z.mod_small.
  - by rewrite Z.lxor_assoc, Z.lxor_nilpotent, Z.lxor_0_r.
  - apply lxor_range; [lia|done|]. unfold byte_ok in Hb. lia.
Qed.

Lemma mix_inj_hash h1 h2 b :
  0 ≤ h1 < 2 ^ 64 → 0 ≤ h2 < 2 ^ 64 → byte_ok b → mix h1 b = mix h2 b → h1 = h2.
Proof.
  intros H1 H2 Hb Heq. apply (f_equal (λ h, unmix h b)) in Heq. by rewrite !unmix_mix in Heq.
Qed.

Lemma mix_inj_byte h b1 b2 :
  0 ≤ h < 2 ^ 64 → byte_ok b1 → byte_ok b2 → mix h b1 = mix h b2 → b1 = b2.
Proof.
  intros Hh H1 H2 Heq. pose proof (unmix_mix h b1 Hh H1) as E1.
  pose proof (unmix_mix h b2 Hh H2) as E2. unfold unmix in *. rewrite Heq in E1.
  revert E1 E2. generalize (u64_mul (mix h b2) kFnvInverse). intros x E1 E2.
  assert (Z.lxor x b1 = Z.lxor x b2) as E by congruence. apply (f_equal (Z.lxor x)) in E.
  by rewrite <- !Z.lxor_assoc, Z.lxor_nilpotent, !Z.lxor_0_l in E.
Qed.

Lemma foldl_mix_inj l h1 h2 :
  bytes_ok l → 0 ≤ h1 < 2 ^ 64 → 0 ≤ h2 < 2 ^ 64 → foldl mix h1 l = foldl mix h2 l → h1 = h2.
Proof.
  intros Hl. revert h1 h2. induction Hl as [|b l Hb _ IH]; intros h1 h2 H1 H2 Heq; [done|].
  simpl in Heq. apply IH in Heq; [|apply mix_range..]. by eapply mix_inj_hash.
Qed.

(** Two payloads that differ in exactly one byte have different checksums. *)
Lemma checksum_one_byte type l1 b b' l2 :
  bytes_ok l1 → bytes_ok l2 → byte_ok b → byte_ok b' → b ≠ b' →
  checksum type (l1 ++ b :: l2) ≠ checksum type (l1 ++ b' :: l2).
Proof.
  intros H1 H2 Hb Hb' Hne. unfold checksum. rewrite !length_app. simpl.
  set (h := mix _ (Z.land (Z.shiftr _ 8) 255)).
  rewrite !foldl_app. simpl. intros Heq.
  apply foldl_mix_inj in Heq; [|done|apply mix_range..].
  apply mix_inj_byte in Heq; [done| |done..].
  assert (0 ≤ h < 2 ^ 64) as Hh by apply mix_range. revert Hh. generalize h.
  clear -H1. induction H1; intros h Hh; simpl; [done|]. apply IHForall, mix_range.
Qed.

(** ** Record images *)

Definition command_ok (c : Command) : Prop :=
  match c with
  | monostate => False
  | CmdNew o => new_order_ok o
  | CmdCancel c => CancelOrder_wf c
  | CmdReplace r => ReplaceOrder_wf r
  end.

Definition command_type (c : Command) : MessageType.t :=
  match c with
  | CmdNew _ | monostate => MessageType.new_order
  | CmdCancel _ => MessageType.cancel_order
  | CmdReplace _ => MessageType.replace_order
  end.

Definition command_image (c : Command) : list Z :=
  match c with
  | monostate => []
  | CmdNew o => new_order_image o
  | CmdCancel c => cancel_order_image c
  | CmdReplace r => replace_order_image r
  end.

Definition record_header (type : MessageType.t) (payload : list Z) : list Z :=
  le_bytes 4 kRecordMagic ++ kRecordVersion :: type ::
  le_bytes 2 (Z.of_nat (length payload)) ++ le_bytes 8 (checksum type payload).

Definition record_image (c : Command) : list Z :=
  record_header (command_type c) (command_image c) ++ command_image c.

Lemma encode_prefix_codec {A} `{Codec A} (a : A) type out :
  (codec_size ≤ length out)%nat →
  encode_prefix (codec_encode a) type codec_size out
  = Val (true, mkEncoded type (codec_image a ++ drop codec_size out) codec_size).
Proof.
  intros Hl. unfold encode_prefix.
  rewrite codec_encode_image by (rewrite length_take; lia). rewrite bind_Val.
  rewrite splice_all; [done|]. rewrite codec_image_length, length_take. lia.
Qed.

Lemma encode_command_image c r :
  c ≠ monostate → length (enc_payload r) = kRecordPayloadMax →
  ∃ rest, encode_command c r
    = Val (true, mkEncoded (command_type c) (command_image c ++ rest) (length (command_image c))).
Proof.
  intros Hc Hl. assert (∀ n, (n <=? 40)%nat = true → (n ≤ length (enc_payload r))%nat) as Hle.
  { intros n ?%Nat.leb_le. rewrite Hl. done. }
  destruct c as [|o|c|o]; [done|..].
  - exists (drop kNewOrderSize (enc_payload r)).
    exact (encode_prefix_codec (A:=NewOrder) o _ _ (Hle kNewOrderSize eq_refl)).
  - exists (drop kCancelOrderSize (enc_payload r)).
    exact (encode_prefix_codec (A:=CancelOrder) c _ _ (Hle kCancelOrderSize eq_refl)).
  - exists (drop kReplaceOrderSize (enc_payload r)).
    exact (encode_prefix_codec (A:=ReplaceOrder) o _ _ (Hle kReplaceOrderSize eq_refl)).
Qed.

Lemma command_image_length c :
  c ≠ monostate → expected_payload_length (command_type c) = Some (Z.of_nat (length (command_image c))) ∧
    is_inbound (command_type c) = true ∧ (length (command_image c) ≤ kRecordPayloadMax)%nat.
Proof. intros Hc. destruct c; [done|..]; split_and!; try done; by apply Nat.leb_le. Qed.

Lemma decode_command_image c :
  command_ok c → decode_command (command_type c) (command_image c) monostate = Val (None, c).
Proof.
  intros Hc. unfold decode_command. destruct c as [|o|c|o]; simpl in *; [done|..].
  - by rewrite decode_new_order_image.
  - by rewrite decode_cancel_order_image.
  - by rewrite decode_replace_order_image.
Qed.

(** ** The stream

    [stream size o bs]: [bs] was written to the stream [o], whose device takes
    [size] bytes.  A good stream has all of it in the file or the buffer; a bad
    one was stopped by the end of the device. *)

Definition stream (size : nat) (o : ofstream) (bs : list Z) : Prop :=
  if os_good o
  then os_device o ++ os_buffer o = bs ∧ (length (os_device o) + os_room o = size)%nat
  else os_device o = take size bs ∧ (size < length bs)%nat.

Lemma stream_open spill room : stream room (open_log spill room) [].
Proof. done. Qed.

Lemma os_drain_stream n size o bs :
  os_good o = true → stream size o bs → stream size (os_drain n o) bs.
Proof.
  unfold stream. intros Hg. rewrite Hg. intros [<- Hs]. unfold os_drain. case_decide as Hn; cbn.
  - rewrite Hg, <- app_assoc, take_drop, length_app, length_take. split; [done|lia].
  - rewrite <- Hs, take_app_add, length_app. split; [done|lia].
Qed.

Lemma os_write_stream x size o bs : stream size o bs → stream size (os_write x o) (bs ++ x).
Proof.
  intros Hst. unfold os_write. destruct (os_good o) eqn:Hg; cbn [negb].
  - apply os_drain_stream; [done|]. revert Hst. unfold stream. rewrite Hg. cbn.
    intros [<- ?]. by rewrite <- app_assoc.
  - revert Hst. unfold stream. rewrite Hg. intros [-> ?]. rewrite take_app_le, length_app by lia.
    split; [done|lia].
Qed.

(** After a flush the file holds what was written, as far as the device goes,
    and the stream is good when that is all of it. *)
Lemma os_flush_stream size o bs :
  stream size o bs →
  os_good (os_flush o) = bool_decide (length bs ≤ size)%nat ∧
  os_device (os_flush o) = take size bs ∧
  (os_good (os_flush o) = true → os_buffer (os_flush o) = []).
Proof.
  unfold stream, os_flush. destruct (os_good o) eqn:Hg; cbn [negb].
  - intros [<- <-]. unfold os_drain. rewrite Nat.min_id, length_app. case_decide as Hr; cbn.
    + rewrite Hg, firstn_all, drop_all, take_ge by (rewrite length_app; lia).
      by rewrite bool_decide_eq_true_2 by lia.
    + rewrite take_app_add. by rewrite bool_decide_eq_false_2 by lia.
  - intros [-> ?]. rewrite Hg. by rewrite bool_decide_eq_false_2 by lia.
Qed.

Lemma flush_stream size o bs :
  stream size o bs → ∃ o', flush o = (bool_decide (length bs ≤ size)%nat, o') ∧
    stream size o' bs ∧ os_device o' = take size bs ∧ (os_good o' = true → os_buffer o' = []).
Proof.
  intros Hst. destruct (os_flush_stream _ _ _ Hst) as (Hg & Hd & Hb).
  exists (os_flush o). unfold flush. rewrite Hg. split_and!; try done; [|by rewrite <- Hg].
  unfold os_flush. destruct (os_good o) eqn:Ho; [by apply os_drain_stream|done].
Qed.

(** At any time the file is a beginning of what was written. *)
Lemma stream_device size o bs : stream size o bs → os_device o `prefix_of` bs.
Proof.
  unfold stream. destruct (os_good o); intros [H _].
  - by exists (os_buffer o).
  - rewrite H. apply prefix_take.
Qed.

(** [append] writes the header and then the payload of the record. *)
Lemma append_writes c o :
  c ≠ monostate → os_good o = true →
  let o' := os_write (command_image c)
              (os_write (record_header (command_type c) (command_image c)) o) in
  append c o = Val (os_good o', o').
Proof.
  intros Hc Hg. unfold append. rewrite Hg. cbn [negb].
  set (r0 := mkEncoded _ _ _). assert (length (enc_payload r0) = kRecordPayloadMax) as Hr0 by done.
  destruct (encode_command_image c r0 Hc Hr0) as (rest & ->). rewrite bind_Val.
  cbn [negb enc_size enc_payload enc_type]. rewrite take_app_length.
  destruct (command_image_length c Hc) as (_ & _ & Hlen).
  rewrite wrap_small by (unfold kRecordPayloadMax, kNewOrderSize in Hlen; lia).
  assert (length (replicate kRecordHeaderSize 0) = 16%nat) as Hz by done. revert Hz.
  generalize (replicate kRecordHeaderSize 0). intros zeros Hz. rewrite <- (splice_nil 0 zeros).
  autorewrite with wire. rewrite splice_all by (by rewrite Hz). rewrite app_nil_l, <- !app_assoc.
  done.
Qed.

(** Whatever happened to the stream, an append adds the record to what was
    written and reports the state of the stream. *)
Lemma append_stream c size o bs :
  c ≠ monostate → stream size o bs →
  ∃ o', append c o = Val (os_good o', o') ∧ stream size o' (bs ++ record_image c).
Proof.
  intros Hc Hst. destruct (os_good o) eqn:Hg.
  - rewrite append_writes by done. eexists. split; [done|]. unfold record_image. rewrite app_assoc.
    by apply os_write_stream, os_write_stream.
  - exists o. unfold append. rewrite Hg. split; [done|]. revert Hst. unfold stream. rewrite Hg.
    intros [-> ?]. rewrite take_app_le, length_app by lia. split; [done|lia].
Qed.

(** ** Reading records *)

Lemma byte_at_skip4 v s off : byte_at (le_bytes 4 v ++ s) (S (S (S (S off)))) = byte_at s off.
Proof. apply (byte_at_app_r (le_bytes 4 v)). Qed.

Lemma read_u16_skip4 v s off :
  read_u16_le (le_bytes 4 v ++ s) (S (S (S (S off)))) = read_u16_le s off.
Proof. apply (read_u16_skip (le_bytes 4 v)). Qed.

Lemma read_u64_skip4 v s off :
  read_u64_le (le_bytes 4 v ++ s) (S (S (S (S off)))) = read_u64_le s off.
Proof. apply (read_u64_skip (le_bytes 4 v)). Qed.

Lemma read_u64_skip2 v s off :
  read_u64_le (le_bytes 2 v ++ s) (S (S off)) = read_u64_le s off.
Proof. apply (read_u64_skip (le_bytes 2 v)). Qed.

Lemma read_u64_skip1 b s off : read_u64_le (b :: s) (S off) = read_u64_le s off.
Proof. apply (read_u64_skip [b]). Qed.

#[local] Hint Rewrite byte_at_skip4 read_u16_skip4 read_u64_skip4 read_u64_skip2 read_u64_skip1 : wire.

Definition raw_header (m v t n ck : Z) : list Z :=
  le_bytes 4 m ++ v :: t :: le_bytes 2 n ++ le_bytes 8 ck.

Lemma read_record_fields m v t n ck body :
  0 ≤ m < 2 ^ 32 → 0 ≤ v < 256 → 0 ≤ t < 256 → 0 ≤ n < 2 ^ 16 → 0 ≤ ck < 2 ^ 64 →
  read_record (mkIfstream (raw_header m v t n ck ++ body) false) =
  if header_malformed m v t n then Val (ReadError EventLogError.malformed_header, mkIfstream body false)
  else read_payload t n ck (mkIfstream body false).
Proof.
  intros Hm Hv Ht Hn Hck. unfold read_record, is_read. cbn [is_eof is_rest].
  assert (length (raw_header m v t n ck) = kRecordHeaderSize) as Hl by done.
  assert (bytes_ok (raw_header m v t n ck)) as Hok.
  { unfold raw_header, bytes_ok. apply Forall_app. split; [apply le_bytes_ok|].
    repeat (constructor; [done|]). apply Forall_app. split; apply le_bytes_ok. }
  rewrite take_app_length', drop_app_length' by done.
  rewrite length_app, Hl, bool_decide_eq_false_2 by (unfold kRecordHeaderSize; lia).
  rewrite (bool_decide_eq_false_2 (_ < _)%nat) by lia.
  rewrite (bool_decide_eq_true_2 (kRecordHeaderSize = _)) by done. cbn [andb negb].
  rewrite read_u16_record_eq by done. unfold raw_header. by autorewrite with wire.
Qed.

Lemma split_raw_header s :
  bytes_ok s → length s = kRecordHeaderSize →
  ∃ m v t n ck, s = raw_header m v t n ck ∧ 0 ≤ m < 2 ^ 32 ∧ 0 ≤ v < 256 ∧ 0 ≤ t < 256 ∧
    0 ≤ n < 2 ^ 16 ∧ 0 ≤ ck < 2 ^ 64.
Proof.
  intros Hok Hl.
  destruct (split_le 4 s 12 Hok Hl) as (m & s1 & -> & Hm & Hok1 & Hl1).
  destruct (split_u8 s1 11 Hok1 Hl1) as (v & s2 & -> & Hv & Hok2 & Hl2).
  destruct (split_u8 s2 10 Hok2 Hl2) as (t & s3 & -> & Ht & Hok3 & Hl3).
  destruct (split_u16 s3 8 Hok3 Hl3) as (n & s4 & -> & Hn & Hok4 & Hl4).
  destruct (split_u64 s4 0 Hok4 Hl4) as (ck & s5 & -> & Hck & Hok5 & Hl5).
  apply nil_length_inv in Hl5 as ->. exists m, v, t, n, ck. unfold raw_header.
  rewrite app_nil_r. done.
Qed.

Lemma decode_command_total t payload :
  bytes_ok payload →
  (∃ e, decode_command t payload monostate = Val (Some e, monostate)) ∨
  (∃ c, decode_command t payload monostate = Val (None, c) ∧ command_ok c).
Proof.
  intros Hok. unfold decode_command.
  pose proof (codec_decodes_safely (A:=NewOrder) payload Hok placeholder_new) as Hn.
  pose proof (codec_decodes_safely (A:=CancelOrder) payload Hok placeholder_cancel) as Hc.
  pose proof (codec_decodes_safely (A:=ReplaceOrder) payload Hok placeholder_replace) as Hr.
  cbn [codec_decode new_order_codec cancel_order_codec replace_order_codec codec_ok] in *.
  destruct (t =? MessageType.new_order).
  { destruct Hn as [[e ->]|(v & -> & Hv)]; rewrite bind_Val; [by eauto|right].
    by exists (CmdNew v). }
  destruct (t =? MessageType.cancel_order).
  { destruct Hc as [[e ->]|(v & -> & Hv)]; rewrite bind_Val; [by eauto|right].
    by exists (CmdCancel v). }
  destruct (t =? MessageType.replace_order); [|by eauto].
  destruct Hr as [[e ->]|(v & -> & Hv)]; rewrite bind_Val; [by eauto|right].
  by exists (CmdReplace v).
Qed.

(** What [read_record] returns on any stream: the end, an error, or a
    well-formed command and a strictly shorter stream. *)
Lemma read_record_total i :
  bytes_ok (is_rest i) →
  ∃ r i', read_record i = Val (r, i') ∧
    match r with
    | ReadRecord c => command_ok c ∧ bytes_ok (is_rest i') ∧
        (length (is_rest i') < length (is_rest i))%nat
    | _ => True
    end.
Proof.
  intros Hok. destruct i as [bs eof]. simpl in Hok.
  destruct eof; [by do 2 eexists|].
  destruct (decide (length bs < kRecordHeaderSize)%nat) as [Hs|Hl].
  { unfold read_record, is_read. cbn [is_eof is_rest]. rewrite (bool_decide_eq_true_2 (_ < _)%nat) by done.
    rewrite andb_true_r, length_take. case_bool_decide; [by do 2 eexists|].
    rewrite bool_decide_eq_false_2 by lia. by do 2 eexists. }
  destruct (split_raw_header (take kRecordHeaderSize bs)) as (m & v & t & n & ck & Heq & Hr);
    [by apply Forall_take|rewrite length_take; lia|].
  rewrite <- (take_drop kRecordHeaderSize bs), Heq.
  assert (bytes_ok (drop kRecordHeaderSize bs)) as Hok' by (by apply Forall_drop).
  revert Hok'. generalize (drop kRecordHeaderSize bs). intros body Hok'.
  destruct Hr as (? & ? & ? & ? & ?). rewrite read_record_fields by done.
  destruct (header_malformed m v t n); [by do 2 eexists|].
  unfold read_payload, is_read. cbn [is_eof is_rest].
  destruct (_ =? n); [|by do 2 eexists]. destruct (_ =? ck); [|by do 2 eexists]. cbn [negb].
  destruct (decode_command_total t (take (Z.to_nat n) body)) as [[e ->]|(c & -> & Hc)];
    [by apply Forall_take|by do 2 eexists|].
  rewrite bind_Val. do 2 eexists. split; [done|]. cbn [is_rest].
  split_and!; [done|by apply Forall_drop|]. rewrite length_drop, length_app. simpl. lia.
Qed.

(** Behind the header [append] writes, the payload is read. *)
Lemma read_record_written c body :
  command_ok c →
  read_record (mkIfstream (record_header (command_type c) (command_image c) ++ body) false)
  = read_payload (command_type c) (Z.of_nat (length (command_image c)))
      (checksum (command_type c) (command_image c)) (mkIfstream body false).
Proof.
  intros Hc. assert (c ≠ monostate) as Hne by (by intros ->).
  destruct (command_image_length c Hne) as (He & Hin & Hlen).
  assert (0 ≤ command_type c < 256) as Ht by (destruct c; vm_compute; intuition discriminate).
  unfold kRecordPayloadMax, kNewOrderSize in Hlen.
  change (record_header (command_type c) (command_image c)) with
    (raw_header kRecordMagic kRecordVersion (command_type c) (Z.of_nat (length (command_image c)))
       (checksum (command_type c) (command_image c))).
  rewrite read_record_fields; [|unfold kRecordMagic; lia|unfold kRecordVersion; lia|done|lia|
    apply checksum_range].
  unfold header_malformed. rewrite He, Hin, !Z.eqb_refl. cbn [negb orb].
  destruct (Z.ltb_spec (Z.of_nat kRecordPayloadMax) (Z.of_nat (length (command_image c)))); [|done].
  unfold kRecordPayloadMax, kNewOrderSize in *. lia.
Qed.

Lemma read_record_image c rest :
  command_ok c →
  read_record (mkIfstream (record_image c ++ rest) false)
  = Val (ReadRecord c, mkIfstream rest false).
Proof.
  intros Hc. unfold record_image. rewrite <- app_assoc, read_record_written by done.
  unfold read_payload, is_read. cbn [is_eof is_rest].
  rewrite Nat2Z.id, take_app_length, drop_app_length, !Z.eqb_refl. cbn [negb].
  rewrite decode_command_image, bind_Val by done.
  rewrite bool_decide_eq_false_2; [done|]. rewrite length_app. lia.
Qed.

(** ** Replay *)

Lemma apply_command_total b c :
  wf b → command_ok c → ∃ r b', apply_command b c = Val (r, b') ∧ wf b'.
Proof.
  intros Hwf Hc. destruct c as [|o|c|o]; simpl in *; [done|..].
  - destruct Hc as [Ho _]. destruct (submit_refines_aux o b Hwf Ho) as (r & b' & -> & ? & _).
    rewrite bind_Val. eauto.
  - destruct (cancel_refines_aux c b Hwf) as (r & b' & -> & ? & _). rewrite bind_Val. eauto.
  - destruct (replace_refines_aux o b Hwf Hc) as (r & b' & -> & ? & _). rewrite bind_Val. eauto.
Qed.

Lemma replay_loop_total fuel : ∀ b k i,
  wf b → bytes_ok (is_rest i) → (length (is_rest i) ≤ fuel)%nat →
  ∃ r, replay_loop fuel b k i = Val r.
Proof.
  induction fuel as [|fuel IH]; intros b k i Hwf Hok Hf;
    destruct (read_record_total i Hok) as (r & i' & Hr & Hres); cbn [replay_loop];
    rewrite Hr, bind_Val; destruct r as [c| |e]; eauto; destruct Hres as (Hc & Hok' & Hlt).
  - lia.
  - destruct (apply_command_total b c Hwf Hc) as (acc & b' & -> & Hwf'). rewrite bind_Val.
    destruct acc; simpl; [|by eauto]. apply IH; [done..|lia].
Qed.

(** A run of commands a book accepts, one after the other. *)
Inductive accepted_run : OrderBook → list Command → OrderBook → Prop :=
| accepted_nil b : accepted_run b [] b
| accepted_cons b b1 b2 c cs :
    command_ok c → apply_command b c = Val (true, b1) → accepted_run b1 cs b2 →
    accepted_run b (c :: cs) b2.

Definition log_image (cs : list Command) : list Z := cs ≫= record_image.

Lemma replay_loop_run b cs b' : accepted_run b cs b' → ∀ fuel k rest,
  0 ≤ k → k + Z.of_nat (length cs) < 2 ^ 64 → (length cs ≤ fuel)%nat →
  replay_loop fuel b k (mkIfstream (log_image cs ++ rest) false)
  = replay_loop (fuel - length cs) b' (k + Z.of_nat (length cs)) (mkIfstream rest false).
Proof.
  unfold log_image. induction 1 as [b|b b1 b2 c cs Hc Ha Hrun IH]; intros fuel k rest Hk Hb Hf;
    cbn [length] in *.
  - simpl. by rewrite Nat.sub_0_r, Z.add_0_r.
  - destruct fuel as [|fuel]; [lia|]. cbn [replay_loop].
    rewrite bind_cons, <- app_assoc, read_record_image, bind_Val by done. rewrite Ha, bind_Val. cbn [negb].
    rewrite u64_add_small by lia. rewrite IH by lia. f_equal. lia.
Qed.

(** Appending the commands one by one; stops at the first failure. *)
Fixpoint append_all (cs : list Command) (o : ofstream) : outcome (bool * ofstream) :=
  match cs with
  | [] => Val (true, o)
  | c :: cs' =>
      '(ok, o) ← append c o;
      if negb ok then Val (false, o) else append_all cs' o
  end.

Lemma accepted_run_ok b cs b' : accepted_run b cs b' → Forall command_ok cs.
Proof. induction 1; by constructor. Qed.

Lemma log_image_cons c cs : log_image (c :: cs) = record_image c ++ log_image cs.
Proof. done. Qed.

Lemma log_image_snoc cs c : log_image (cs ++ [c]) = log_image cs ++ record_image c.
Proof. unfold log_image. rewrite bind_app. cbn. by rewrite app_nil_r. Qed.

Lemma append_all_stream cs : ∀ size o bs,
  Forall command_ok cs → stream size o bs → os_good o = true →
  ∃ o', append_all cs o = Val (os_good o', o') ∧ stream size o' (bs ++ log_image cs).
Proof.
  induction cs as [|c cs IH]; intros size o bs Hok Hst Hg; cbn [append_all].
  - exists o. rewrite Hg, app_nil_r. done.
  - apply Forall_cons in Hok as [Hc Hok].
    destruct (append_stream c size o bs) as (o1 & -> & Hst1); [by intros ->|done|].
    rewrite bind_Val, log_image_cons, app_assoc. destruct (os_good o1) eqn:Hg1; cbn [negb].
    + by apply IH.
    + exists o1. rewrite Hg1. split; [done|]. revert Hst1. unfold stream. rewrite Hg1.
      intros [-> ?]. rewrite (take_app_le _ (log_image cs)), length_app by lia. split; [done|lia].
Qed.

(** Writing a log: the appends up to the first failure, then the flush, as
    [write_commands] of [tests/event_log_test.cpp]. *)
Definition write_commands (cs : list Command) (o : ofstream) : outcome (bool * ofstream) :=
  '(ok, o) ← append_all cs o;
  if negb ok then Val (false, o) else Val (flush o).

Lemma log_image_length cs : Forall command_ok cs → (length cs ≤ length (log_image cs))%nat.
Proof.
  unfold log_image. induction 1 as [|c cs Hc _ IH]; [simpl; lia|].
  rewrite bind_cons, length_app. unfold record_image at 1. rewrite length_app.
  assert (length (record_header (command_type c) (command_image c)) = 16%nat) as -> by done.
  simpl. lia.
Qed.

Lemma replay_log_image cs b :
  accepted_run empty_book cs b → Z.of_nat (length cs) < 2 ^ 64 →
  replay_event_log (Some (log_image cs))
  = Val (mkReplayResult None (Z.of_nat (length cs)) (state_digest b)).
Proof.
  intros Hrun Hn. pose proof (log_image_length cs (accepted_run_ok _ _ _ Hrun)).
  pose proof (replay_loop_run _ _ _ Hrun (length (log_image cs)) 0 []) as Hl.
  rewrite app_nil_r in Hl. cbn [replay_event_log]. rewrite Hl by lia.
  by destruct (length (log_image cs) - length cs)%nat.
Qed.

(** ** Torn and corrupted records *)

Lemma read_record_torn c k :
  command_ok c → (0 < k < length (record_image c))%nat →
  ∃ e i, read_record (mkIfstream (take k (record_image c)) false) = Val (ReadError e, i) ∧
    (e = EventLogError.truncated_header ∨ e = EventLogError.truncated_payload).
Proof.
  intros Hc Hk. unfold record_image in *.
  assert (length (record_header (command_type c) (command_image c)) = kRecordHeaderSize) as Hh by done.
  rewrite length_app, Hh in Hk. destruct (decide (k < kRecordHeaderSize)%nat) as [Hs|Hl].
  - rewrite take_app_le by lia. unfold read_record, is_read. cbn [is_eof is_rest].
    assert (length (take k (record_header (command_type c) (command_image c))) = k) as Hlk
      by (rewrite length_take; lia).
    rewrite take_take, Nat.min_r, Hlk by lia.
    rewrite bool_decide_eq_false_2 by lia. rewrite (bool_decide_eq_false_2 (k = _)) by lia.
    do 2 eexists. split; [done|]. by left.
  - rewrite take_app_ge, Hh, read_record_written by (done || lia).
    unfold read_payload, is_read. cbn [is_eof is_rest]. rewrite Nat2Z.id, !length_take.
    destruct (Z.eqb_spec (Z.of_nat (Nat.min (length (command_image c))
      (Nat.min (k - kRecordHeaderSize) (length (command_image c)))))
      (Z.of_nat (length (command_image c)))) as [Heq|_]; [lia|].
    do 2 eexists. split; [done|]. by right.
Qed.

(** [recovered cs p k e]: in the beginning [p] of the log of [cs] the first [k]
    records are whole, and [e] is a truncation error unless it ends there. *)
Record recovered (cs : list Command) (p : list Z) (k : nat) (e : option EventLogError.t) : Prop := {
  rc_count : (k ≤ length cs)%nat;
  rc_whole : log_image (take k cs) `prefix_of` p;
  rc_last : (k < length cs)%nat → (length p < length (log_image (take (S k) cs)))%nat;
  rc_clean : e = None ↔ p = log_image (take k cs);
  rc_error x : e = Some x →
    x = EventLogError.truncated_header ∨ x = EventLogError.truncated_payload;
}.

Lemma accepted_run_split k cs b b' :
  accepted_run b cs b' → ∃ b1, accepted_run b (take k cs) b1.
Proof.
  intros Hrun. revert k. induction Hrun as [b|b b1 b2 c cs Hc Ha _ IH]; intros k.
  - exists b. rewrite take_nil. apply accepted_nil.
  - destruct k as [|k]; [exists b; apply accepted_nil|]. destruct (IH k) as (b3 & ?).
    exists b3. cbn. by eapply accepted_cons.
Qed.

(** Where a beginning of the log falls among its records. *)
Lemma log_prefix_split cs : ∀ p,
  p `prefix_of` log_image cs →
  p = log_image cs ∨
  ∃ k c n, cs !! k = Some c ∧ (n < length (record_image c))%nat ∧
    p = log_image (take k cs) ++ take n (record_image c).
Proof.
  induction cs as [|c cs IH]; intros p Hp.
  - left. by apply prefix_nil_inv in Hp.
  - rewrite log_image_cons in *. destruct Hp as [t Ht].
    destruct (decide (length (record_image c) ≤ length p)%nat) as [Hge|Hlt].
    + assert (p = record_image c ++ drop (length (record_image c)) p) as Hp.
      { apply (f_equal (take (length (record_image c)))) in Ht.
        rewrite take_app_length, take_app_le in Ht by done. rewrite Ht at 1. by rewrite take_drop. }
      rewrite Hp in Ht. rewrite <- app_assoc in Ht. apply app_inv_head in Ht.
      destruct (IH (drop (length (record_image c)) p)) as [H|(k & c' & n & Hk & Hn & H)];
        [by exists t|..]; rewrite H in Hp; [by left|]. right. exists (S k), c', n.
      cbn [take]. by rewrite log_image_cons, <- app_assoc.
    + right. exists 0%nat, c, (length p). split_and!; [done|lia|].
      apply (f_equal (take (length p))) in Ht.
      rewrite take_app_length, take_app_le in Ht by lia. by rewrite Ht.
Qed.

Lemma replay_log_prefix cs b p :
  accepted_run empty_book cs b → Z.of_nat (length cs) < 2 ^ 64 → p `prefix_of` log_image cs →
  ∃ k bk e, recovered cs p k e ∧ accepted_run empty_book (take k cs) bk ∧
    replay_event_log (Some p) = Val (mkReplayResult e (Z.of_nat k) (state_digest bk)).
Proof.
  intros Hrun Hlen Hp. destruct (log_prefix_split cs p Hp) as [->|(k & c & n & Hk & Hn & ->)].
  - exists (length cs), b, None. rewrite firstn_all. split_and!; [|done|by apply replay_log_image].
    split; rewrite ?firstn_all; (done || lia).
  - pose proof (lookup_lt_Some _ _ _ Hk) as Hlt.
    destruct (accepted_run_split k _ _ _ Hrun) as (bk & Hk').
    assert (length (take k cs) = k) as Hlk by (rewrite length_take; lia).
    assert (∀ e, (e = None ↔ n = 0%nat) →
      (∀ x, e = Some x → x = EventLogError.truncated_header ∨ x = EventLogError.truncated_payload) →
      recovered cs (log_image (take k cs) ++ take n (record_image c)) k e) as Hrc.
    { intros e He Hx. split; [lia|by eexists| | |done].
      - intros _. rewrite (take_S_r _ _ _ Hk), log_image_snoc, !length_app, length_take. lia.
      - rewrite He. split; [intros ->; by rewrite app_nil_r|]. intros H.
        rewrite <- (app_nil_r (log_image _)) in H at 2. apply app_inv_head, (f_equal length) in H.
        rewrite length_take in H. cbn in H. lia. }
    destruct n as [|n].
    + exists k, bk, None. split_and!; [by apply Hrc|done|]. rewrite take_0, app_nil_r.
      rewrite (replay_log_image _ _ Hk') by lia. by rewrite Hlk.
    + assert (command_ok c) as Hc.
      { eapply (Forall_lookup_1 command_ok cs k); [by eapply accepted_run_ok|done]. }
      destruct (read_record_torn c (S n) Hc) as (e & i & Hr & He); [lia|].
      exists k, bk, (Some e). split_and!; [apply Hrc; [by split|by intros ? [= <-]]|done|].
      cbn [replay_event_log]. pose proof (log_image_length _ (accepted_run_ok _ _ _ Hk')).
      rewrite (replay_loop_run _ _ _ Hk') by (rewrite ?length_app; lia). rewrite Z.add_0_l, Hlk.
      destruct (_ - k)%nat; cbn [replay_loop]; by rewrite Hr.
Qed.

Lemma read_record_corrupt c l1 b b' l2 rest :
  command_ok c → command_image c = l1 ++ b :: l2 → bytes_ok (command_image c) →
  byte_ok b' → b' ≠ b →
  ∃ i, read_record (mkIfstream (record_header (command_type c) (command_image c) ++
         (l1 ++ b' :: l2) ++ rest) false)
       = Val (ReadError EventLogError.checksum_mismatch, i).
Proof.
  intros Hc Himg Hok Hb' Hneb. rewrite read_record_written by done.
  assert (length (command_image c) = length (l1 ++ b' :: l2)) as Hlen'
    by (rewrite Himg, !length_app; done).
  unfold read_payload, is_read. cbn [is_eof is_rest].
  rewrite Nat2Z.id, Hlen', take_app_length, Z.eqb_refl. cbn [negb].
  destruct (Z.eqb_spec (checksum (command_type c) (l1 ++ b' :: l2))
              (checksum (command_type c) (command_image c))) as [Heq|_]; [|by eexists].
  exfalso. rewrite Himg in Heq, Hok. apply Forall_app in Hok as [H1 [Hb H2]%Forall_cons].
  by eapply checksum_one_byte in Heq.
Qed.

(** Every image consists of bytes. *)
Lemma command_image_bytes c : command_ok c → bytes_ok (command_image c).
Proof.
  intros Hc. destruct c as [|o|c|o]; simpl in Hc; [done|..]; unfold bytes_ok; cbn [command_image].
  - unfold new_order_image. rewrite !Forall_app. split_and!; try apply le_bytes_ok.
    do 2 (constructor; [by case_decide; vm_compute|]).
    apply Forall_replicate. by vm_compute.
  - unfold cancel_order_image. rewrite Forall_app. split; apply le_bytes_ok.
  - unfold replace_order_image. rewrite !Forall_app. split_and!; apply le_bytes_ok.
Qed.

(** ** Claims *)

(** C9. Replay rebuilds the book: when a fresh book accepts the commands [cs]
    one after the other, writing them to an empty log and flushing it (on a
    device with room for them, whenever the stream buffer is emptied) succeeds,
    and replaying that log reports success, the number of commands and the
    digest of the book. *)
Theorem replay_rebuilds_book cs b spill room :
  accepted_run empty_book cs b → Z.of_nat (length cs) < 2 ^ 64 →
  (length (log_image cs) ≤ room)%nat →
  ∃ o1 o2, append_all cs (open_log spill room) = Val (true, o1) ∧ flush o1 = (true, o2) ∧
    replay_event_log (Some (os_device o2))
    = Val (mkReplayResult None (Z.of_nat (length cs)) (state_digest b)).
Proof.
  intros Hrun Hn Hroom. pose proof (accepted_run_ok _ _ _ Hrun) as Hok.
  destruct (append_all_stream cs room _ [] Hok (stream_open spill room) eq_refl) as (o1 & Ha & Hst).
  rewrite app_nil_l in Hst. destruct (flush_stream _ _ _ Hst) as (o2 & Hfl & _ & Hd & _).
  exists o1, o2. rewrite Ha, Hfl, bool_decide_eq_true_2, Hd, take_ge by done.
  split_and!; [|done|by apply replay_log_image]. do 2 f_equal. revert Hst. unfold stream.
  destruct (os_good o1); [done|]. lia.
Qed.

(** C30. A torn log is recovered up to its last whole record: when the device is
    too small for the log of the commands [cs] (fewer than 2^64) that a fresh
    book accepts, some append or the final flush
    reports the failure, whenever the stream buffer is emptied; the file holds
    the beginning of the log that fits, and replaying it reports the number of
    the whole records in it and the digest of the book after those commands,
    with a truncation error unless the file ends between two records. *)
Theorem replay_of_torn_log cs b spill room :
  accepted_run empty_book cs b → Z.of_nat (length cs) < 2 ^ 64 →
  (room < length (log_image cs))%nat →
  ∃ o k bk e, write_commands cs (open_log spill room) = Val (false, o) ∧
    os_device o = take room (log_image cs) ∧
    recovered cs (os_device o) k e ∧ accepted_run empty_book (take k cs) bk ∧
    replay_event_log (Some (os_device o))
    = Val (mkReplayResult e (Z.of_nat k) (state_digest bk)).
Proof.
  intros Hrun Hn Hroom. pose proof (accepted_run_ok _ _ _ Hrun) as Hok.
  destruct (replay_log_prefix cs b (take room (log_image cs)) Hrun Hn) as (k & bk & e & Hrc & Hk & Hr);
    [apply prefix_take|].
  assert (∃ o, write_commands cs (open_log spill room) = Val (false, o) ∧
    os_device o = take room (log_image cs)) as (o & Hw & Hd).
  { destruct (append_all_stream cs room _ [] Hok (stream_open spill room) eq_refl) as (o1 & Ha & Hst).
    rewrite app_nil_l in Hst. unfold write_commands. rewrite Ha, bind_Val.
    destruct (os_good o1) eqn:Hg; cbn [negb].
    - destruct (flush_stream _ _ _ Hst) as (o2 & Hfl & _ & Hd & _). exists o2.
      by rewrite Hfl, bool_decide_eq_false_2 by lia.
    - exists o1. split; [done|]. revert Hst. unfold stream. rewrite Hg. by intros [-> _]. }
  exists o, k, bk, e. by rewrite Hd.
Qed.

(** C31. A corrupted payload byte never goes unnoticed: replacing any single
    byte of the payload of any record makes replay stop there with
    [checksum_mismatch], having applied exactly the records before it. *)
Theorem replay_detects_corrupt_byte cs b c l1 x x' l2 rest :
  accepted_run empty_book cs b → command_ok c → Z.of_nat (length cs) < 2 ^ 64 →
  command_image c = l1 ++ x :: l2 → byte_ok x' → x' ≠ x →
  replay_event_log (Some (log_image cs ++
    record_header (command_type c) (command_image c) ++ (l1 ++ x' :: l2) ++ rest))
  = Val (mkReplayResult (Some EventLogError.checksum_mismatch) (Z.of_nat (length cs))
           (state_digest b)).
Proof.
  intros Hrun Hc Hn Himg Hx' Hne. pose proof (accepted_run_ok _ _ _ Hrun) as Hok.
  pose proof (log_image_length cs Hok). cbn [replay_event_log].
  rewrite (replay_loop_run _ _ _ Hrun) by (rewrite ?length_app; lia). rewrite Z.add_0_l.
  destruct (read_record_corrupt c l1 x x' l2 rest Hc Himg) as (i & Hr); [|done..|].
  { by apply command_image_bytes. }
  destruct (_ - length cs)%nat; cbn [replay_loop]; by rewrite Hr.
Qed.

(** C32. Replay is total: on every file, whatever its bytes, it terminates with
    a result, without undefined behaviour and within as many iterations as the
    file has bytes; a file that cannot be opened is an [io_error]. *)
Theorem replay_total file :
  default True (bytes_ok <$> file) → ∃ r, replay_event_log file = Val r.
Proof.
  destruct file as [bytes|]; simpl; intros Hok; [|by eexists].
  by apply replay_loop_total; [apply wf_empty| |].
Qed.

(** Capturing never blocks the engine: with room in the queue the command
    is appended and counted as captured, on a full queue it is dropped and
    counted as dropped, and the recorder thread pops the oldest command and
    appends exactly that one to the log. *)
Lemma capture_and_drain {Q} `{BQ : BoundedQueue Q EventCaptureMessage} f q n l c w :
  bq_rep q n l →
  0 ≤ captured_commands_ f < u64_max → 0 ≤ dropped_commands_ f < u64_max →
  (∃ f' q', capture c f q = Val (f', q') ∧
     let fits := bool_decide (length l < bq_capacity)%nat in
     bq_rep q' (if fits then S n else n) (if fits then l ++ [mkEventCaptureMessage c] else l) ∧
     captured_commands_ f' = captured_commands_ f + (if fits then 1 else 0) ∧
     dropped_commands_ f' = dropped_commands_ f + (if fits then 0 else 1)) ∧
  (∃ q', drain_event_capture_one q w =
     match l with
     | [] => Val (false, q', w)
     | m :: _ => r ← append (msg_command m) w; Val (r.1, q', r.2)
     end ∧ bq_rep q' n (tail l)).
Proof.
  intros Hrep Hcap Hdrop. unfold u64_max in *. split.
  - unfold capture, capture_record_occupancy. destruct (bq_rep_bound _ _ _ Hrep) as [Hle _].
    case_bool_decide as Hl; simpl.
    + destruct (bq_push_ok _ _ _ (mkEventCaptureMessage c) Hrep Hl) as (q' & -> & Hrep').
      rewrite bind_Val, !u64_add_small by lia. simpl.
      case_match; do 2 eexists; (split; [done|]); simpl; split_and!; (done || lia).
    + destruct (bq_push_full _ _ _ (mkEventCaptureMessage c) Hrep) as (q' & -> & Hrep'); [lia|].
      rewrite bind_Val, !u64_add_small by lia. simpl.
      case_match; do 2 eexists; (split; [done|]); simpl; split_and!; (done || lia).
  - unfold drain_event_capture_one. destruct l as [|m l].
    + destruct (bq_pop_empty _ _ default_message Hrep) as (q' & -> & ?). eauto.
    + destruct (bq_pop_ok _ _ _ _ default_message Hrep) as (q' & -> & ?). rewrite bind_Val.
      exists q'. split; [|done]. simpl. by destruct (append (msg_command m) w) as [[]| |].
Qed.

(** ** Witnesses

    Two sells, a partial cancel-by-replace and a cancel; the log of the first
    three commands followed by the fourth. *)

Definition demo_commands : list Command :=
  [CmdNew (demo_order 1 1 sell 10 100); CmdNew (demo_order 2 2 sell 5 99);
   CmdReplace BookProps.demo_replace].
Definition demo_logged : OrderBook := demo_replaced.2.

Lemma demo_run_accepted : accepted_run empty_book demo_commands demo_logged.
Proof.
  eapply (accepted_cons _ demo_book1); [split; [cmd_wf|done]|by vm_compute|].
  eapply (accepted_cons _ demo_book); [split; [cmd_wf|done]|by vm_compute|].
  eapply (accepted_cons _ demo_logged); [unfold command_ok; cmd_wf|by vm_compute|].
  apply accepted_nil.
Qed.

Lemma demo_cancel_ok : command_ok (CmdCancel demo_cancel).
Proof. unfold command_ok. cmd_wf. Qed.

Lemma replay_rebuilds_book_witness :
  ∃ o1 o2, append_all demo_commands (open_log (filebuf_spill 8191) 1000) = Val (true, o1) ∧
    flush o1 = (true, o2) ∧
    replay_event_log (Some (os_device o2)) = Val (mkReplayResult None 3 (state_digest demo_logged)).
Proof.
  apply (replay_rebuilds_book demo_commands demo_logged (filebuf_spill 8191) 1000);
    [exact demo_run_accepted|done|by apply Nat.leb_le].
Defined.

(** A device of 100 bytes behind the buffer of libstdc++: every append succeeds
    (nothing has reached the file yet), the flush fails, one record is whole. *)
Lemma torn_at_flush :
  let run := value_of (append_all demo_commands (open_log (filebuf_spill 8191) 100))
               (false, open_log (filebuf_spill 8191) 100) in
  run.1 = true ∧ os_device run.2 = [] ∧ (flush run.2).1 = false ∧
  length (os_device (flush run.2).2) = 100%nat.
Proof. by vm_compute. Qed.

Lemma replay_of_torn_log_witness :
  ∃ o k bk e,
    write_commands demo_commands (open_log (filebuf_spill 8191) 100) = Val (false, o) ∧
    os_device o = take 100 (log_image demo_commands) ∧
    recovered demo_commands (os_device o) k e ∧ accepted_run empty_book (take k demo_commands) bk ∧
    replay_event_log (Some (os_device o))
    = Val (mkReplayResult e (Z.of_nat k) (state_digest bk)).
Proof.
  apply (replay_of_torn_log demo_commands demo_logged (filebuf_spill 8191) 100);
    [exact demo_run_accepted|done|by apply Nat.ltb_lt].
Defined.

Lemma replay_detects_corrupt_byte_witness :
  replay_event_log (Some (log_image demo_commands ++
    record_header (command_type (CmdCancel demo_cancel)) (command_image (CmdCancel demo_cancel)) ++
    ([] ++ 5 :: tail (command_image (CmdCancel demo_cancel))) ++ []))
  = Val (mkReplayResult (Some EventLogError.checksum_mismatch) 3 (state_digest demo_logged)).
Proof.
  apply (replay_detects_corrupt_byte demo_commands demo_logged (CmdCancel demo_cancel) [] 4 5);
    [exact demo_run_accepted|exact demo_cancel_ok|done|by vm_compute|by vm_compute|done].
Defined.

Lemma replay_total_witness : ∃ r, replay_event_log (Some [76; 88; 76; 71; 1]) = Val r.
Proof.
  apply (replay_total (Some [76; 88; 76; 71; 1])). simpl.
  repeat constructor; vm_compute; intuition discriminate.
Defined.

Definition capture_queue :
  BoundedQueue (BoundedSPSCQueue.Queue EventCaptureMessage) EventCaptureMessage :=
  spsc_bounded_queue 4096 (λ m, m) eq_refl.

Lemma capture_and_drain_witness :
  ∃ f' q', capture (BQ:=capture_queue) (CmdCancel demo_cancel) new_capture_feed
             (BoundedSPSCQueue.new_queue 4096 default_message) = Val (f', q') ∧
    bq_rep (BoundedQueue:=capture_queue) q' 1 [mkEventCaptureMessage (CmdCancel demo_cancel)] ∧
    captured_commands_ f' = 0 + 1 ∧ dropped_commands_ f' = 0 + 0.
Proof.
  apply (capture_and_drain (BQ:=capture_queue) new_capture_feed
    (BoundedSPSCQueue.new_queue 4096 default_message) 0 [] (CmdCancel demo_cancel)
    (open_log (filebuf_spill 8191) 0)); [by apply queue_rep_init|done..].
Defined.
