(* ===== verification/Observability.v ===== *)
(** * The latency histogram

    Models [include/low_latency_exchange/observability.hpp].  A percentile is a
    [double] in the code; [percentile_upper_bound] takes the rank the floating
    point expression [percentile * (count - 1)] was truncated to, as a function
    [rank_of] of [count - 1]. *)

From stdpp Require Import prelude list.
From Stdlib Require Import ZArith Lia.
From S2P Require Import Prelude.

Open Scope Z_scope.

Definition kLatencyHistogramBuckets : nat := 64.

Record LatencyHistogramSnapshot : Type := mkSnapshot {
  sn_buckets : list Z;
  sn_count : Z;
  sn_min_nanoseconds : Z;
  sn_max_nanoseconds : Z;
}.

Record LatencyHistogram : Type := mkHistogram {
  buckets_ : list Z;
  count_ : Z;
  min_nanoseconds_ : Z;
  max_nanoseconds_ : Z;
}.

Definition new_histogram : LatencyHistogram :=
  mkHistogram (replicate kLatencyHistogramBuckets 0) 0 u64_max 0.

Definition observe (nanoseconds : Z) (h : LatencyHistogram) : outcome LatencyHistogram :=
  let normalized := if nanoseconds =? 0 then 1 else nanoseconds in
  let bucket := Z.to_nat (Z.min (bit_width normalized - 1)
                                (Z.of_nat kLatencyHistogramBuckets - 1)) in
  n ← deref_opt (buckets_ h !! bucket);
  Val (mkHistogram (<[bucket := u64_add n 1]> (buckets_ h)) (u64_add (count_ h) 1)
         (if normalized <? min_nanoseconds_ h then normalized else min_nanoseconds_ h)
         (if max_nanoseconds_ h <? normalized then normalized else max_nanoseconds_ h)).

Definition snapshot_of (h : LatencyHistogram) : LatencyHistogramSnapshot :=
  mkSnapshot (buckets_ h) (count_ h) (if count_ h =? 0 then 0 else min_nanoseconds_ h)
    (max_nanoseconds_ h).

(** The loop of [percentile_upper_bound] from bucket [index] on. *)
Fixpoint percentile_loop (rank : Z) (buckets : list Z) (index : Z) (observed max : Z) : Z :=
  match buckets with
  | [] => max
  | n :: buckets' =>
      let observed := u64_add observed n in
      if rank <? observed then (if index =? 0 then 1 else wrap 64 (Z.shiftl 1 index))
      else percentile_loop rank buckets' (index + 1) observed max
  end.

Definition percentile_upper_bound (rank_of : Z → Z) (s : LatencyHistogramSnapshot) : Z :=
  if sn_count s =? 0 then 0
  else percentile_loop (rank_of (u64_sub (sn_count s) 1)) (sn_buckets s) 0 0 (sn_max_nanoseconds s).

(** ** What the histogram holds *)

(** The observations a histogram has seen, as the code records them. *)
Definition normalize (v : Z) : Z := if v =? 0 then 1 else v.
Definition bucket_of (v : Z) : nat := Z.to_nat (Z.log2 (normalize v)).
Definition count_in (i : nat) (vs : list Z) : Z :=
  Z.of_nat (length (filter (λ v, bucket_of v = i) vs)).

Fixpoint observe_all (vs : list Z) (h : LatencyHistogram) : outcome LatencyHistogram :=
  match vs with
  | [] => Val h
  | v :: vs' => h ← observe v h; observe_all vs' h
  end.

(** [h] summarises the observations [vs]. *)
Record summary (h : LatencyHistogram) (vs : list Z) : Prop := {
  su_length : length (buckets_ h) = kLatencyHistogramBuckets;
  su_bucket i n : buckets_ h !! i = Some n → n = count_in i vs;
  su_count : count_ h = Z.of_nat (length vs);
  su_min : min_nanoseconds_ h = foldr (λ v acc, Z.min (normalize v) acc) u64_max vs;
  su_max : max_nanoseconds_ h = foldr (λ v acc, Z.max (normalize v) acc) 0 vs;
}.

Lemma summary_new : summary new_histogram [].
Proof.
  split; try done. intros i n. unfold new_histogram. cbn [buckets_].
  intros [-> _]%lookup_replicate. done.
Qed.

Lemma log2_u64 v : 0 < v ≤ u64_max → 0 ≤ Z.log2 v ≤ 63.
Proof.
  unfold u64_max. intros Hv. split; [apply Z.log2_nonneg|].
  apply Z.lt_succ_r. apply Z.log2_lt_pow2; lia.
Qed.

Lemma normalize_range v : 0 ≤ v ≤ u64_max → 0 < normalize v ≤ u64_max.
Proof. unfold normalize, u64_max. zcase; lia. Qed.

Lemma count_in_cons i v vs :
  count_in i (v :: vs) = (if decide (bucket_of v = i) then 1 else 0) + count_in i vs.
Proof. unfold count_in. rewrite filter_cons. case_decide; simpl; lia. Qed.

Lemma count_in_bound i vs : 0 ≤ count_in i vs ≤ Z.of_nat (length vs).
Proof.
  unfold count_in. pose proof (length_filter (λ v, bucket_of v = i) vs). lia.
Qed.

(** Observing adds the value to the summary, while fewer than 2^64 - 1 values
    were observed. *)
Lemma observe_summary h vs v :
  summary h vs → 0 ≤ v ≤ u64_max → Z.of_nat (length vs) < u64_max →
  ∃ h', observe v h = Val h' ∧ summary h' (v :: vs).
Proof.
  intros [Hl Hb Hc Hmin Hmax] Hv Hn. unfold observe. fold (normalize v).
  pose proof (normalize_range v Hv) as Hr. pose proof (log2_u64 _ Hr) as Hlog.
  assert (Z.to_nat (Z.min (bit_width (normalize v) - 1) (Z.of_nat kLatencyHistogramBuckets - 1))
          = bucket_of v) as ->.
  { unfold bit_width, bucket_of, kLatencyHistogramBuckets. zcase; [lia|]. f_equal. lia. }
  destruct (lookup_lt_is_Some_2 (buckets_ h) (bucket_of v)) as [n Hnth].
  { rewrite Hl. unfold bucket_of, kLatencyHistogramBuckets. lia. }
  rewrite Hnth. cbn [deref_opt]. rewrite bind_Val. eexists. split; [done|].
  pose proof (Hb _ _ Hnth) as Hcount. pose proof (count_in_bound (bucket_of v) vs).
  unfold u64_max in Hn. split; cbn [buckets_ count_ min_nanoseconds_ max_nanoseconds_].
  - by rewrite length_insert.
  - intros i m Hi. rewrite count_in_cons. destruct (decide (bucket_of v = i)) as [<-|Hne].
    + rewrite list_lookup_insert_eq in Hi by (by eapply lookup_lt_Some).
      injection Hi as <-. rewrite u64_add_small by lia. lia.
    + rewrite list_lookup_insert_ne in Hi by done. rewrite (Hb _ _ Hi). lia.
  - rewrite Hc. simpl. rewrite u64_add_small by lia. lia.
  - simpl. rewrite <- Hmin. zcase; lia.
  - simpl. rewrite <- Hmax. zcase; lia.
Qed.

Lemma observe_all_summary vs : ∀ h seen,
  summary h seen → Forall (λ v, 0 ≤ v ≤ u64_max) vs →
  Z.of_nat (length vs + length seen) ≤ u64_max →
  ∃ h', observe_all vs h = Val h' ∧ summary h' (reverse vs ++ seen).
Proof.
  induction vs as [|v vs IH]; intros h seen Hs Hok Hn; simpl; [by eauto|].
  apply Forall_cons in Hok as [Hv Hok]. simpl in Hn.
  destruct (observe_summary h seen v Hs Hv) as (h1 & -> & Hs1); [lia|]. rewrite bind_Val.
  destruct (IH h1 (v :: seen) Hs1 Hok) as (h2 & -> & Hs2); [simpl; lia|].
  exists h2. split; [done|]. by rewrite reverse_cons, <- app_assoc.
Qed.

(** Observing needs only the array to have its 64 entries. *)
Lemma observe_total h v :
  length (buckets_ h) = kLatencyHistogramBuckets → 0 ≤ v ≤ u64_max →
  ∃ h', observe v h = Val h' ∧ length (buckets_ h') = kLatencyHistogramBuckets.
Proof.
  intros Hl Hv. unfold observe. fold (normalize v).
  pose proof (normalize_range v Hv) as Hr. pose proof (log2_u64 _ Hr) as Hlog.
  set (i := Z.to_nat _). destruct (lookup_lt_is_Some_2 (buckets_ h) i) as [n ->].
  { rewrite Hl. unfold i, bit_width, kLatencyHistogramBuckets. zcase; lia. }
  eexists. split; [done|]. cbn [buckets_]. by rewrite length_insert.
Qed.

(** ** Percentiles *)

(** The number of observations below [p]. *)
Definition below (p : Z) (vs : list Z) : Z := Z.of_nat (length (filter (λ v, normalize v < p) vs)).

Lemma bucket_of_lt v i : 0 ≤ v ≤ u64_max → normalize v < 2 ^ Z.of_nat i ↔ (bucket_of v < i)%nat.
Proof.
  intros Hv. pose proof (normalize_range v Hv) as Hr. pose proof (log2_u64 _ Hr).
  unfold bucket_of. rewrite Z.log2_lt_pow2 by lia. lia.
Qed.

Lemma below_step i vs :
  Forall (λ v, 0 ≤ v ≤ u64_max) vs →
  below (2 ^ Z.of_nat (S i)) vs = below (2 ^ Z.of_nat i) vs + count_in i vs.
Proof.
  unfold below, count_in. induction 1 as [|v vs Hv _ IH]; [done|].
  rewrite !filter_cons. pose proof (bucket_of_lt v i Hv). pose proof (bucket_of_lt v (S i) Hv).
  repeat case_decide; cbn [length]; lia.
Qed.

Lemma below_le p vs : 0 ≤ below p vs ≤ Z.of_nat (length vs).
Proof. unfold below. pose proof (length_filter (λ v, normalize v < p) vs). lia. Qed.

Lemma below_zero vs : Forall (λ v, 0 ≤ v ≤ u64_max) vs → below (2 ^ Z.of_nat 0) vs = 0.
Proof.
  unfold below. induction 1 as [|v vs Hv _ IH]; [done|]. rewrite filter_cons.
  pose proof (normalize_range v Hv). change (2 ^ Z.of_nat 0) with 1 in *.
  rewrite decide_False by lia. done.
Qed.

Lemma below_all vs :
  Forall (λ v, 0 ≤ v ≤ u64_max) vs → below (2 ^ Z.of_nat 64) vs = Z.of_nat (length vs).
Proof.
  unfold below. induction 1 as [|v vs Hv _ IH]; [done|]. rewrite filter_cons.
  pose proof (normalize_range v Hv). unfold u64_max in *. change (2 ^ Z.of_nat 64) with (2 ^ 64) in *.
  rewrite decide_True by lia. cbn [length]. lia.
Qed.

(** The loop stops at the bucket that holds the observation of the given rank. *)
Lemma percentile_loop_ok h vs rank max n : ∀ i,
  summary h vs → Forall (λ v, 0 ≤ v ≤ u64_max) vs → Z.of_nat (length vs) ≤ u64_max →
  (i + n)%nat = kLatencyHistogramBuckets →
  below (2 ^ Z.of_nat i) vs ≤ rank < Z.of_nat (length vs) →
  ∃ j, percentile_loop rank (drop i (buckets_ h)) (Z.of_nat i) (below (2 ^ Z.of_nat i) vs) max
       = 2 ^ Z.of_nat j ∧
    below (2 ^ Z.of_nat j) vs ≤ rank < below (2 ^ Z.of_nat (S j)) vs.
Proof.
  unfold kLatencyHistogramBuckets. induction n as [|n IH]; intros i Hs Hok Hn Hi Hr.
  { assert (i = 64)%nat as -> by lia. rewrite below_all in Hr by done. lia. }
  pose proof Hs as [Hl Hb _ _ _]. unfold kLatencyHistogramBuckets in Hl.
  destruct (lookup_lt_is_Some_2 (buckets_ h) i) as [x Hx]; [lia|].
  rewrite (drop_S _ _ _ Hx). cbn [percentile_loop]. rewrite (Hb _ _ Hx).
  pose proof (below_step i vs Hok) as Hstep. pose proof (below_le (2 ^ Z.of_nat (S i)) vs).
  pose proof (below_le (2 ^ Z.of_nat i) vs). pose proof (count_in_bound i vs).
  unfold u64_max in Hn. rewrite u64_add_small, <- Hstep by lia.
  destruct (Z.ltb_spec rank (below (2 ^ Z.of_nat (S i)) vs)) as [Hlt|Hge].
  - exists i. split; [|lia]. rewrite Z.shiftl_1_l. zcase; [by replace i with 0%nat by lia|].
    apply wrap_small. split; [lia|]. apply Z.pow_lt_mono_r; lia.
  - replace (Z.of_nat i + 1) with (Z.of_nat (S i)) by lia. apply IH; (done || lia).
Qed.

(** [percentile_upper_bound] is not an upper bound: after the single
    observation 3 it reports 2 at every percentile, the lower end of the bucket
    that holds the observation. *)
Lemma percentile_below_observation :
  ∃ h, observe 3 new_histogram = Val h ∧
    ∀ rank_of, rank_of 0 = 0 → percentile_upper_bound rank_of (snapshot_of h) = 2.
Proof.
  exists (mkHistogram (<[1%nat := 1]> (replicate kLatencyHistogramBuckets 0)) 1 3 3).
  split; [by vm_compute|]. intros rank_of Hr.
  transitivity (percentile_loop (rank_of 0)
    (<[1%nat := 1]> (replicate kLatencyHistogramBuckets 0)) 0 0 3); [done|].
  rewrite Hr. by vm_compute.
Qed.

(** ** Claims *)

(** The histogram is exact: after fewer than 2^64 observations bucket [i]
    counts exactly the values in [2^i, 2^(i+1)) (zero counted as one), the
    count is their number, and minimum and maximum are those of the values. *)
Lemma histogram_exact vs :
  Forall (λ v, 0 ≤ v ≤ u64_max) vs → Z.of_nat (length vs) ≤ u64_max →
  ∃ h, observe_all vs new_histogram = Val h ∧ summary h (reverse vs) ∧
    ∀ i v, v ∈ vs → bucket_of v = i → 2 ^ Z.of_nat i ≤ normalize v < 2 ^ (Z.of_nat i + 1).
Proof.
  intros Hok Hn. destruct (observe_all_summary vs new_histogram [] summary_new Hok) as (h & Hh & Hs).
  { simpl. lia. }
  exists h. rewrite app_nil_r in Hs. split_and!; [done..|].
  intros i v Hv <-. rewrite Forall_forall in Hok. specialize (Hok v Hv).
  pose proof (normalize_range v Hok) as Hr. pose proof (log2_u64 _ Hr).
  unfold bucket_of. rewrite Z2Nat.id by lia. rewrite Z.add_1_r. apply Z.log2_spec. lia.
Qed.

(** A percentile is located to its bucket: for the observation of the rank
    the percentile was truncated to, [percentile_upper_bound] returns the lower
    end [p] of its bucket: at most [rank] observations are below [p] and more
    than [rank] are below [2 * p]. *)
Lemma percentile_brackets_rank h vs rank_of :
  summary h vs → Forall (λ v, 0 ≤ v ≤ u64_max) vs → Z.of_nat (length vs) ≤ u64_max →
  0 ≤ rank_of (count_ h - 1) < count_ h →
  let p := percentile_upper_bound rank_of (snapshot_of h) in
  below p vs ≤ rank_of (count_ h - 1) < below (2 * p) vs.
Proof.
  intros Hs Hok Hn Hr p. pose proof (su_count _ _ Hs) as Hc.
  assert (p = percentile_loop (rank_of (count_ h - 1)) (buckets_ h) 0 0 (max_nanoseconds_ h)) as Hp.
  { unfold p, percentile_upper_bound, snapshot_of. cbn [sn_count sn_buckets sn_max_nanoseconds].
    unfold u64_max in Hn. rewrite u64_sub_small by lia. zcase; [lia|done]. }
  destruct (percentile_loop_ok h vs (rank_of (count_ h - 1)) (max_nanoseconds_ h) 64 0 Hs Hok Hn)
    as (j & Hj & Hbr); [done|rewrite below_zero by done; lia|].
  rewrite below_zero in Hj by done. change (drop 0 (buckets_ h)) with (buckets_ h) in Hj.
  change (Z.of_nat 0) with 0 in Hj.
  rewrite Nat2Z.inj_succ, Z.pow_succ_r in Hbr by lia. by rewrite Hp, Hj.
Qed.

(** ** Witnesses *)

Lemma histogram_exact_witness :
  ∃ h, observe_all [0; 5; 1000] new_histogram = Val h ∧ summary h [1000; 5; 0] ∧
    ∀ i v, v ∈ [0; 5; 1000] → bucket_of v = i →
      2 ^ Z.of_nat i ≤ normalize v < 2 ^ (Z.of_nat i + 1).
Proof.
  apply (histogram_exact [0; 5; 1000]); [|vm_compute; discriminate].
  repeat constructor; vm_compute; discriminate.
Defined.

Lemma percentile_brackets_rank_witness :
  ∃ h, observe_all [0; 5; 1000] new_histogram = Val h ∧
    below 4 [1000; 5; 0] ≤ 1 < below (2 * 4) [1000; 5; 0].
Proof.
  destruct (observe_all_summary [0; 5; 1000] new_histogram [] summary_new) as (h & Hh & Hs);
    [repeat constructor; vm_compute; discriminate|vm_compute; discriminate|].
  exists h. split; [done|].
  pose proof (percentile_brackets_rank h [1000; 5; 0] (λ n, n / 2) Hs) as Hp.
  revert Hp. vm_compute in Hh. injection Hh as <-. intros Hp. apply Hp.
  - repeat constructor; vm_compute; discriminate.
  - vm_compute. discriminate.
  - vm_compute. split; [discriminate|reflexivity].
Defined.
