(* ===== verification/Engine.v ===== *)
(** * The matching engine service

    Models [MatchingEngineService] of [include/low_latency_exchange/tcp_gateway.hpp]
    and [src/tcp_gateway.cpp]: the single-writer loop body [process_one], the
    three command handlers and the outbound path.

    The queues are used through [BoundedQueue].  [push_outbound] spins until
    the outbound queue accepts the message; while the engine yields, the
    gateway thread may take messages out, which is the parameter [env] on the
    queue.  The clock ([std::chrono::steady_clock::now], in nanoseconds) is an
    argument; a time of zero is the default-constructed time point. *)

From stdpp Require Import prelude gmap list.
From Stdlib Require Import ZArith Lia.
From S2P Require Import Prelude Types OrderBook Protocol Spsc MarketData EventLog Observability.

Open Scope Z_scope.

Record InboundMessage : Type := mkInboundMessage {
  in_session_id : Z;
  in_command : Command;
  in_wire_bytes : Z;
  in_received_at : Z;
}.
Definition default_inbound : InboundMessage := mkInboundMessage 0 monostate 0 0.

Inductive OutboundPayload : Type :=
| PayloadNone
| PayloadOrderAccepted (e : OrderAcceptedEvent)
| PayloadOrderRejected (e : OrderRejectedEvent)
| PayloadExecution (e : ExecutionEvent)
| PayloadCancelAccepted (e : CancelAcceptedEvent)
| PayloadProtocolError (e : ProtocolErrorEvent).

Record OutboundMessage : Type := mkOutboundMessage {
  out_session_id : Z;
  out_type : MessageType.t;
  out_flags : Z;
  out_payload : OutboundPayload;
}.
Definition default_outbound : OutboundMessage :=
  mkOutboundMessage 0 MessageType.order_accepted 0 PayloadNone.

Record MatchingEngineMetrics : Type := mkEngineMetrics {
  accepted_commands : Z;
  rejected_commands : Z;
  accepted_cancels : Z;
  rejected_cancels : Z;
  executions : Z;
  inbound_bytes : Z;
  outbound_bytes : Z;
  inbound_queue_high_water : Z;
  outbound_queue_high_water : Z;
}.
Definition zero_metrics : MatchingEngineMetrics := mkEngineMetrics 0 0 0 0 0 0 0 0 0.

(** [++] and [+=] on one counter. *)
Definition count_result (accepted : bool) (is_cancel : bool) (m : MatchingEngineMetrics) :=
  mkEngineMetrics
    (if accepted then u64_add (accepted_commands m) 1 else accepted_commands m)
    (if accepted then rejected_commands m else u64_add (rejected_commands m) 1)
    (if is_cancel && accepted then u64_add (accepted_cancels m) 1 else accepted_cancels m)
    (if is_cancel && negb accepted then u64_add (rejected_cancels m) 1 else rejected_cancels m)
    (executions m) (inbound_bytes m) (outbound_bytes m)
    (inbound_queue_high_water m) (outbound_queue_high_water m).
Definition count_execution (m : MatchingEngineMetrics) :=
  mkEngineMetrics (accepted_commands m) (rejected_commands m) (accepted_cancels m)
    (rejected_cancels m) (u64_add (executions m) 1) (inbound_bytes m) (outbound_bytes m)
    (inbound_queue_high_water m) (outbound_queue_high_water m).
Definition add_inbound_bytes (n : Z) (m : MatchingEngineMetrics) :=
  mkEngineMetrics (accepted_commands m) (rejected_commands m) (accepted_cancels m)
    (rejected_cancels m) (executions m) (u64_add (inbound_bytes m) n) (outbound_bytes m)
    (inbound_queue_high_water m) (outbound_queue_high_water m).
Definition add_outbound_bytes (n : Z) (m : MatchingEngineMetrics) :=
  mkEngineMetrics (accepted_commands m) (rejected_commands m) (accepted_cancels m)
    (rejected_cancels m) (executions m) (inbound_bytes m) (u64_add (outbound_bytes m) n)
    (inbound_queue_high_water m) (outbound_queue_high_water m).
Definition raise_inbound_high_water (n : Z) (m : MatchingEngineMetrics) :=
  mkEngineMetrics (accepted_commands m) (rejected_commands m) (accepted_cancels m)
    (rejected_cancels m) (executions m) (inbound_bytes m) (outbound_bytes m)
    (if inbound_queue_high_water m <? n then n else inbound_queue_high_water m)
    (outbound_queue_high_water m).
Definition raise_outbound_high_water (n : Z) (m : MatchingEngineMetrics) :=
  mkEngineMetrics (accepted_commands m) (rejected_commands m) (accepted_cancels m)
    (rejected_cancels m) (executions m) (inbound_bytes m) (outbound_bytes m)
    (inbound_queue_high_water m)
    (if outbound_queue_high_water m <? n then n else outbound_queue_high_water m).

(** The members the handlers change. *)
Record Engine : Type := mkEngine {
  book_ : OrderBook;
  order_sessions_ : gmap OrderId.t Z;
  metrics_ : MatchingEngineMetrics;
  command_to_ack_latency_ : LatencyHistogram;
}.

Definition new_engine : Engine := mkEngine empty_book ∅ zero_metrics new_histogram.

Definition with_book (b : OrderBook) (e : Engine) : Engine :=
  mkEngine b (order_sessions_ e) (metrics_ e) (command_to_ack_latency_ e).
Definition with_sessions (s : gmap OrderId.t Z) (e : Engine) : Engine :=
  mkEngine (book_ e) s (metrics_ e) (command_to_ack_latency_ e).
Definition with_metrics (m : MatchingEngineMetrics) (e : Engine) : Engine :=
  mkEngine (book_ e) (order_sessions_ e) m (command_to_ack_latency_ e).
Definition with_latency (h : LatencyHistogram) (e : Engine) : Engine :=
  mkEngine (book_ e) (order_sessions_ e) (metrics_ e) h.

Definition record_outbound_message (msg : OutboundMessage) (e : Engine) : Engine :=
  match expected_payload_length (out_type msg) with
  | Some payload_size =>
      with_metrics (add_outbound_bytes (Z.of_nat kHeaderSize + payload_size) (metrics_ e)) e
  | None => e
  end.

Definition is_cancel (c : Command) : bool :=
  match c with CmdCancel _ => true | _ => false end.

(** [now] is the reading of the clock. *)
Definition record_command_result (message : InboundMessage) (accepted : bool) (now : Z) (e : Engine)
  : outcome Engine :=
  let e := with_metrics (count_result accepted (is_cancel (in_command message)) (metrics_ e)) e in
  if negb (in_received_at message =? 0) then
    let nanoseconds := now - in_received_at message in
    h ← observe (if 0 <? nanoseconds then nanoseconds else 0) (command_to_ack_latency_ e);
    Val (with_latency h e)
  else Val e.

(** [metrics()]: the counters with the snapshot of the histogram. *)
Definition service_metrics (e : Engine) : MatchingEngineMetrics * LatencyHistogramSnapshot :=
  (metrics_ e, snapshot_of (command_to_ack_latency_ e)).

Section Service.
Context {QI QO QM QC : Type}.
Context `{BI : BoundedQueue QI InboundMessage} `{BO : BoundedQueue QO OutboundMessage}.
Context `{BM : BoundedQueue QM MarketDataEvent} `{BC : BoundedQueue QC EventCaptureMessage}.
Context (env : QO → QO).

(** The loop [while (!outbound_.try_push(std::move(msg))) yield();]. *)
Fixpoint push_spin (fuel : nat) (msg : OutboundMessage) (q : QO) : outcome QO :=
  '(pushed, q) ← bq_push msg q;
  if pushed : bool then Val q
  else match fuel with
       | O => OutOfFuel
       | S fuel' => push_spin fuel' msg (env q)
       end.

Definition push_outbound (fuel : nat) (msg : OutboundMessage) (e : Engine) (q : QO)
  : outcome (Engine * QO) :=
  let e := record_outbound_message msg e in
  q ← push_spin fuel msg q;
  Val (with_metrics (raise_outbound_high_water (bq_size q) (metrics_ e)) e, q).

(** The body of the loop over [result.executions], the same in both handlers. *)
Definition emit_execution (fuel : nat) (session_id : Z) (sequence : SequenceNumber.t)
    (exec : Execution) (e : Engine) (q : QO) : outcome (Engine * QO) :=
  let e := with_metrics (count_execution (metrics_ e)) e in
  let resting_session_id := default 0 (order_sessions_ e !! ex_resting_order_id exec) in
  let e := if negb (contains (ex_resting_order_id exec) (book_ e))
           then with_sessions (delete (ex_resting_order_id exec) (order_sessions_ e)) e else e in
  let exec_event := {| ee_sequence := sequence;
                       ee_resting_order_id := ex_resting_order_id exec;
                       ee_incoming_order_id := ex_incoming_order_id exec;
                       ee_price := ex_price exec; ee_quantity := ex_quantity exec |} in
  '(e, q) ← push_outbound fuel (mkOutboundMessage session_id MessageType.execution kFlagMore
              (PayloadExecution exec_event)) e q;
  if negb (resting_session_id =? 0) && negb (resting_session_id =? session_id) then
    push_outbound fuel (mkOutboundMessage resting_session_id MessageType.execution 0
      (PayloadExecution exec_event)) e q
  else Val (e, q).

Fixpoint emit_executions (fuel : nat) (session_id : Z) (sequence : SequenceNumber.t)
    (execs : list Execution) (e : Engine) (q : QO) : outcome (Engine * QO) :=
  match execs with
  | [] => Val (e, q)
  | exec :: execs' =>
      '(e, q) ← emit_execution fuel session_id sequence exec e q;
      emit_executions fuel session_id sequence execs' e q
  end.

Definition remaining_or_zero (q : option Quantity.t) : Z :=
  match q with Some q => Quantity.units q | None => 0 end.

Definition handle_new_order (fuel : nat) (session_id : Z) (order : NewOrder) (e : Engine) (q : QO)
  : outcome (bool * Engine * QO) :=
  '(result, book) ← submit order (book_ e);
  let e := with_book book e in
  match sr_rejection result with
  | Some reason =>
      '(e, q) ← push_outbound fuel
        (mkOutboundMessage session_id MessageType.order_rejected 0
          (PayloadOrderRejected {| or_sequence := no_sequence order;
                                   or_order_id := no_order_id order;
                                   or_error_code := to_error_code_order reason |})) e q;
      Val (false, e, q)
  | None =>
      '(e, q) ← emit_executions fuel session_id (no_sequence order) (sr_executions result) e q;
      let remaining_units := remaining_or_zero (sr_remaining_quantity result) in
      '(e, q) ← push_outbound fuel
        (mkOutboundMessage session_id MessageType.order_accepted 0
          (PayloadOrderAccepted {| oa_sequence := no_sequence order;
                                   oa_order_id := no_order_id order;
                                   oa_remaining_quantity := remaining_units |})) e q;
      let e := if (0 <? remaining_units) && contains (no_order_id order) (book_ e)
               then with_sessions (<[no_order_id order := session_id]> (order_sessions_ e)) e
               else e in
      Val (true, e, q)
  end.

Definition handle_cancel_order (fuel : nat) (session_id : Z) (order : CancelOrder) (e : Engine)
    (q : QO) : outcome (bool * Engine * QO) :=
  '(result, book) ← cancel order (book_ e);
  let e := with_book book e in
  if OrderBook.cancel_accepted result then
    let e := with_sessions (delete (co_order_id order) (order_sessions_ e)) e in
    cancelled ← deref_opt (cr_cancelled_quantity result);
    '(e, q) ← push_outbound fuel
      (mkOutboundMessage session_id MessageType.cancel_accepted 0
        (PayloadCancelAccepted {| ca_sequence := co_sequence order;
                                  ca_order_id := co_order_id order;
                                  ca_cancelled_quantity := cancelled |})) e q;
    Val (true, e, q)
  else
    reason ← deref_opt (cr_rejection result);
    '(e, q) ← push_outbound fuel
      (mkOutboundMessage session_id MessageType.cancel_rejected 0
        (PayloadOrderRejected {| or_sequence := co_sequence order;
                                 or_order_id := co_order_id order;
                                 or_error_code := to_error_code_cancel reason |})) e q;
    Val (false, e, q).

Definition handle_replace_order (fuel : nat) (session_id : Z) (order : ReplaceOrder) (e : Engine)
    (q : QO) : outcome (bool * Engine * QO) :=
  '(result, book) ← replace order (book_ e);
  let e := with_book book e in
  match rr_rejection result with
  | Some reason =>
      '(e, q) ← push_outbound fuel
        (mkOutboundMessage session_id MessageType.replace_rejected 0
          (PayloadOrderRejected {| or_sequence := rp_sequence order;
                                   or_order_id := rp_order_id order;
                                   or_error_code := to_error_code_replace reason |})) e q;
      Val (false, e, q)
  | None =>
      '(e, q) ← emit_executions fuel session_id (rp_sequence order) (rr_executions result) e q;
      let remaining_units := remaining_or_zero (rr_remaining_quantity result) in
      let e := if (0 <? remaining_units) && contains (rp_order_id order) (book_ e)
               then with_sessions (<[rp_order_id order := session_id]> (order_sessions_ e)) e
               else with_sessions (delete (rp_order_id order) (order_sessions_ e)) e in
      '(e, q) ← push_outbound fuel
        (mkOutboundMessage session_id MessageType.replace_accepted 0
          (PayloadOrderAccepted {| oa_sequence := rp_sequence order;
                                   oa_order_id := rp_order_id order;
                                   oa_remaining_quantity := remaining_units |})) e q;
      Val (true, e, q)
  end.

(** The service with the queues and feeds it refers to. *)
Record Service : Type := mkService {
  sv_engine : Engine;
  sv_inbound : QI;
  sv_outbound : QO;
  sv_market : option (MarketDataFeed * QM);
  sv_capture : option (EventCaptureFeed * QC);
}.

Definition dispatch (fuel : nat) (msg : InboundMessage) (e : Engine) (q : QO)
  : outcome (bool * Engine * QO) :=
  match in_command msg with
  | CmdNew order => handle_new_order fuel (in_session_id msg) order e q
  | CmdCancel order => handle_cancel_order fuel (in_session_id msg) order e q
  | CmdReplace order => handle_replace_order fuel (in_session_id msg) order e q
  | monostate => Val (false, e, q)
  end.

Definition inbound_size (msg : InboundMessage) : Z :=
  let payload_size := expected_payload_length
    (match in_command msg with
     | CmdNew _ => MessageType.new_order
     | CmdCancel _ => MessageType.cancel_order
     | _ => MessageType.replace_order
     end) in
  if negb (in_wire_bytes msg =? 0) then in_wire_bytes msg
  else Z.of_nat kHeaderSize + default 0 payload_size.

Definition process_one (fuel : nat) (now : Z) (s : Service) : outcome (bool * Service) :=
  let e := with_metrics (raise_inbound_high_water (bq_size (sv_inbound s)) (metrics_ (sv_engine s)))
             (sv_engine s) in
  '(popped, msg, inbound) ← bq_pop default_inbound (sv_inbound s);
  if negb popped then
    Val (false, mkService e inbound (sv_outbound s) (sv_market s) (sv_capture s))
  else
    '(accepted, e, outbound) ← dispatch fuel msg e (sv_outbound s);
    let e := with_metrics (add_inbound_bytes (inbound_size msg) (metrics_ e)) e in
    e ← record_command_result msg accepted now e;
    captured ← match accepted, sv_capture s with
               | true, Some (f, q) => r ← capture (in_command msg) f q; Val (Some r)
               | _, c => Val c
               end;
    market ← match sv_market s with
             | Some (f, q) => r ← publish (book_ e) f q; Val (Some r)
             | None => Val None
             end;
    Val (true, mkService e inbound outbound market captured).

(** [clock i] is the clock reading of the [i]-th iteration. *)
Fixpoint process_available (iterations fuel : nat) (clock : nat → Z) (count : Z) (s : Service)
  : outcome (Z * Service) :=
  '(processed, s) ← process_one fuel (clock (Z.to_nat count)) s;
  if negb processed then Val (count, s)
  else match iterations with
       | O => OutOfFuel
       | S iterations' => process_available iterations' fuel clock (u64_add count 1) s
       end.

End Service.
