(* ===== verification/EngineProps.v ===== *)
(** * Correctness of the matching engine service

    Against the queue interface: one inbound message becomes one step of the
    order book, a well-framed sequence of replies in the outbound stream, and
    one entry of the capture stream when it was accepted.  The routing table
    holds exactly the resting orders, and the log a recorder thread writes
    replays to the engine's book. *)

From stdpp Require Import prelude gmap list relations.
From Stdlib Require Import ZArith Lia.
From S2P Require Import Prelude Types OrderBook BookSpec BookInv BookMatch BookEdit BookRefine BookProps.
From S2P Require Import BookQueries Bytes Protocol ProtocolInv Spsc SpscProps.
From S2P Require Import MarketData MarketDataProps EventLog EventLogProps.
From S2P Require Import Observability Engine.

Open Scope Z_scope.

(** ** The outbound stream *)

Section Outbound.
Context {QO : Type} `{BO : BoundedQueue QO OutboundMessage}.
Context (env : QO → QO).

(** The gateway thread takes messages from the front of the queue while the
    engine yields, at least one when there is one (it is scheduled). *)
Definition consumer_runs : Prop :=
  (0 < bq_capacity)%nat ∧
  ∀ q n l, bq_rep q n l → ∃ k, bq_rep (env q) n (drop k l) ∧ (l ≠ [] → (0 < k)%nat).

Context (Henv : consumer_runs).

(** [q] holds what is left, after [k] messages were taken, of the stream [l]. *)
Definition streams (q : QO) (n : nat) (l : list OutboundMessage) : Prop :=
  ∃ k, (k ≤ length l)%nat ∧ bq_rep q n (drop k l).

Lemma push_spin_ok fuel msg q n l :
  (0 < fuel)%nat → streams q n l →
  ∃ q', push_spin env fuel msg q = Val q' ∧ streams q' (S n) (l ++ [msg]).
Proof.
  destruct Henv as [Hcap Hrun]. intros Hf (k & Hk & Hrep). destruct fuel as [|fuel]; [lia|].
  assert (∀ q k, (k ≤ length l)%nat → bq_rep q n (drop k l) → (length (drop k l) < bq_capacity)%nat →
    ∀ fuel, ∃ q', push_spin env fuel msg q = Val q' ∧ streams q' (S n) (l ++ [msg])) as Hroom.
  { intros q0 k0 Hk0 Hrep0 Hlt f. destruct (bq_push_ok _ _ _ msg Hrep0 Hlt) as (q' & Hp & Hrep').
    exists q'. split; [destruct f; simpl; by rewrite Hp|]. exists k0. rewrite length_app. split; [lia|].
    by rewrite drop_app_le by lia. }
  destruct (bq_rep_bound _ _ _ Hrep) as [Hle _].
  destruct (decide (length (drop k l) = bq_capacity)) as [Hfull|]; [|apply (Hroom q k); (done || lia)].
  destruct (bq_push_full _ _ _ msg Hrep Hfull) as (q1 & Hp & Hrep1).
  cbn [push_spin]. rewrite Hp, bind_Val.
  destruct (Hrun _ _ _ Hrep1) as (j & Hrep2 & Hj). rewrite drop_drop in Hrep2.
  assert (0 < j)%nat as Hj0 by (apply Hj; intros Heq; rewrite Heq in Hfull; simpl in Hfull; lia).
  destruct (decide (k + j ≤ length l)%nat).
  - apply (Hroom (env q1) (k + j)%nat); [done..|]. rewrite length_drop in *. lia.
  - apply (Hroom (env q1) (length l)); [done| |rewrite length_drop; lia].
    rewrite drop_ge in Hrep2 by lia. by rewrite drop_ge by lia.
Qed.

End Outbound.

(** A view of the outbound queue in which every push appends its message: what
    the handlers need of the queue and of the thread behind it. *)
Definition pushes {QO} `{BO : BoundedQueue QO OutboundMessage} (env : QO → QO)
    (stream : QO → nat → list OutboundMessage → Prop) : Prop :=
  ∀ fuel msg q n l, (0 < fuel)%nat → stream q n l →
  ∃ q', push_spin env fuel msg q = Val q' ∧ stream q' (S n) (l ++ [msg]).

(** ** Replies *)

Definition exec_event (seq : SequenceNumber.t) (x : Execution) : ExecutionEvent :=
  {| ee_sequence := seq; ee_resting_order_id := ex_resting_order_id x;
     ee_incoming_order_id := ex_incoming_order_id x; ee_price := ex_price x;
     ee_quantity := ex_quantity x |}.

Definition owner (sessions : gmap OrderId.t Z) (x : Execution) : Z :=
  default 0 (sessions !! ex_resting_order_id x).

(** The routing table after an execution: filled orders are forgotten. *)
Definition forget (b : OrderBook) (sessions : gmap OrderId.t Z) (x : Execution) : gmap OrderId.t Z :=
  if contains (ex_resting_order_id x) b then sessions
  else delete (ex_resting_order_id x) sessions.

Definition exec_replies (sid : Z) (seq : SequenceNumber.t) (own : Z) (x : Execution)
  : list OutboundMessage :=
  mkOutboundMessage sid MessageType.execution kFlagMore (PayloadExecution (exec_event seq x)) ::
  if negb (own =? 0) && negb (own =? sid)
  then [mkOutboundMessage own MessageType.execution 0 (PayloadExecution (exec_event seq x))]
  else [].

Fixpoint execs_replies (sid : Z) (seq : SequenceNumber.t) (b : OrderBook)
    (sessions : gmap OrderId.t Z) (xs : list Execution) : list OutboundMessage :=
  match xs with
  | [] => []
  | x :: xs' =>
      exec_replies sid seq (owner sessions x) x ++
      execs_replies sid seq b (forget b sessions x) xs'
  end.

(** ** Counters *)

(** From [e] to [e'] the engine counted [k] executions and no result, and
    observed no latency. *)
Record tallied (k : nat) (e e' : Engine) : Prop := {
  tl_latency : command_to_ack_latency_ e' = command_to_ack_latency_ e;
  tl_accepted : accepted_commands (metrics_ e') = accepted_commands (metrics_ e);
  tl_rejected : rejected_commands (metrics_ e') = rejected_commands (metrics_ e);
  tl_accepted_cancels : accepted_cancels (metrics_ e') = accepted_cancels (metrics_ e);
  tl_rejected_cancels : rejected_cancels (metrics_ e') = rejected_cancels (metrics_ e);
  tl_executions :
    wrap 64 (executions (metrics_ e')) = wrap 64 (executions (metrics_ e) + Z.of_nat k);
}.

Lemma tallied_refl e : tallied 0 e e.
Proof. split; try done. by rewrite Z.add_0_r. Qed.

Lemma tallied_same e e' :
  command_to_ack_latency_ e' = command_to_ack_latency_ e → metrics_ e' = metrics_ e → tallied 0 e e'.
Proof. intros Hl Hm. split; rewrite ?Hm; try done. by rewrite Z.add_0_r. Qed.

Lemma tallied_trans j k e e1 e2 : tallied j e e1 → tallied k e1 e2 → tallied (j + k) e e2.
Proof.
  intros [] []. split; try congruence. rewrite tl_executions1, Nat2Z.inj_add, Z.add_assoc.
  unfold wrap in *. rewrite Zplus_mod, tl_executions0, <- Zplus_mod. done.
Qed.

Lemma tallied_step k e e1 e2 : tallied k e e1 → tallied 0 e1 e2 → tallied k e e2.
Proof. intros H1 H2. rewrite <- (Nat.add_0_r k). by eapply tallied_trans. Qed.

#[local] Hint Resolve tallied_refl : core.

Section Emit.
Context {QO : Type} `{BO : BoundedQueue QO OutboundMessage}.
Context (env : QO → QO) (stream : QO → nat → list OutboundMessage → Prop) (Hstr : pushes env stream).

Lemma push_outbound_ok fuel msg e q n l :
  (0 < fuel)%nat → stream q n l →
  ∃ e' q', push_outbound env fuel msg e q = Val (e', q') ∧ stream q' (S n) (l ++ [msg]) ∧
    book_ e' = book_ e ∧ order_sessions_ e' = order_sessions_ e ∧ tallied 0 e e'.
Proof.
  intros Hf Hs. unfold push_outbound.
  destruct (Hstr fuel msg q n l Hf Hs) as (q' & -> & Hs'). rewrite bind_Val.
  do 2 eexists. split; [done|]. unfold record_outbound_message. simpl.
  split; [done|]. destruct (expected_payload_length (out_type msg)); simpl; split_and!; try done;
    split; simpl; try done; by rewrite Z.add_0_r.
Qed.

Lemma emit_execution_ok fuel sid seq x e q n l :
  (0 < fuel)%nat → stream q n l →
  ∃ e' q', emit_execution env fuel sid seq x e q = Val (e', q') ∧
    stream q' (n + length (exec_replies sid seq (owner (order_sessions_ e) x) x))
      (l ++ exec_replies sid seq (owner (order_sessions_ e) x) x) ∧
    book_ e' = book_ e ∧ order_sessions_ e' = forget (book_ e) (order_sessions_ e) x ∧
    tallied 1 e e'.
Proof.
  intros Hf Hs. unfold emit_execution. fold (exec_event seq x). cbn [order_sessions_ with_metrics].
  fold (owner (order_sessions_ e) x). set (own := owner _ x). set (e1 := if negb _ then _ else _).
  assert (book_ e1 = book_ e ∧ order_sessions_ e1 = forget (book_ e) (order_sessions_ e) x ∧
    tallied 1 e e1) as (Hb1 & Hs1 & Hl1).
  { unfold e1, forget. cbn [book_ with_metrics].
    destruct (contains _ (book_ e)); cbn [negb]; split_and!; try done; split; try done; apply wrap_wrap. }
  edestruct (push_outbound_ok fuel) as (e2 & q2 & -> & Hs2 & Hb2 & Ho2 & Hl2); [done|done|].
  rewrite bind_Val. unfold exec_replies. destruct (negb (own =? 0) && negb (own =? sid)).
  - edestruct (push_outbound_ok fuel) as (e3 & q3 & -> & Hs3 & Hb3 & Ho3 & Hl3); [done|done|].
    do 2 eexists. split; [done|].
    split_and!; [|congruence..|eapply tallied_step; [by eapply tallied_step|done]].
    rewrite <- app_assoc in Hs3. simpl. by rewrite Nat.add_comm.
  - do 2 eexists. split; [done|]. split_and!; [|congruence..|by eapply tallied_step].
    simpl. by rewrite Nat.add_comm.
Qed.

Lemma emit_executions_ok fuel sid seq xs : ∀ e q n l,
  (0 < fuel)%nat → stream q n l →
  ∃ e' q', emit_executions env fuel sid seq xs e q = Val (e', q') ∧
    stream q' (n + length (execs_replies sid seq (book_ e) (order_sessions_ e) xs))
      (l ++ execs_replies sid seq (book_ e) (order_sessions_ e) xs) ∧
    book_ e' = book_ e ∧ order_sessions_ e' = foldl (forget (book_ e)) (order_sessions_ e) xs ∧
    tallied (length xs) e e'.
Proof.
  induction xs as [|x xs IH]; intros e q n l Hf Hs;
    cbn [execs_replies emit_executions foldl].
  - exists e, q. cbn [length]. by rewrite app_nil_r, Nat.add_0_r.
  - destruct (emit_execution_ok fuel sid seq x e q n l Hf Hs) as (e1 & q1 & -> & Hs1 & Hb1 & Ho1 & Hl1).
    rewrite bind_Val. destruct (IH e1 q1 _ _ Hf Hs1) as (e2 & q2 & -> & Hs2 & Hb2 & Ho2 & Hl2).
    rewrite Hb1, Ho1 in *. exists e2, q2. split; [done|].
    split_and!; [|congruence..|by apply (tallied_trans 1 (length xs) e e1)].
    by rewrite length_app, Nat.add_assoc, app_assoc.
Qed.

End Emit.

(** ** What a command does to the set of resting orders *)

Definition spec_ids (sb : SpecBook) : gset OrderId.t :=
  list_to_set (quote_id <$> sb_bids sb) ∪ list_to_set (quote_id <$> sb_asks sb).

Lemma elem_of_spec_ids x s sb :
  x ∈ spec_ids sb ↔ x ∈ quote_id <$> spec_side s sb ∨ x ∈ quote_id <$> spec_side (opposite s) sb.
Proof. unfold spec_ids. destruct s; set_solver. Qed.

Lemma resting_ids_abs b : wf b → dom (resting_orders_ b) = spec_ids (abs b).
Proof.
  intros Hwf. apply set_eq. intros x.
  rewrite elem_of_dom, (elem_of_spec_ids x buy), !abs_side.
  pose proof (contains_spec b x Hwf) as Hc. unfold contains in Hc.
  rewrite bool_decide_eq_false in Hc.
  assert (is_Some (resting_orders_ b !! x) ↔ x ∈ book_ids b) as -> by (destruct (decide (x ∈ book_ids b)), (decide (is_Some (resting_orders_ b !! x))); tauto).
  rewrite book_ids_sides. split; [intros [[] ?]|intros [?|?]]; eauto.
Qed.

Lemma contains_abs b x : wf b → contains x b = bool_decide (x ∈ spec_ids (abs b)).
Proof.
  intros Hwf. unfold contains. apply bool_decide_ext.
  by rewrite <- resting_ids_abs, elem_of_dom.
Qed.

Definition exec_ids (es : list Execution) : gset OrderId.t :=
  list_to_set (ex_resting_order_id <$> es).

Lemma sweep_ids ok inc l : ∀ rem es l' rem',
  sweep ok inc rem l = (es, l', rem') →
  (∀ x, x ∈ quote_id <$> l' → x ∈ quote_id <$> l) ∧
  (∀ x, x ∈ quote_id <$> l → x ∈ quote_id <$> l' ∨ x ∈ exec_ids es).
Proof.
  induction l as [|[p o] l IH]; intros rem es l' rem'; simpl.
  - intros [= <- <- <-]. set_solver.
  - destruct ((0 <? rem) && ok p); [|intros [= <- <- <-]; set_solver].
    case_match; [intros [= <- <- <-]; unfold exec_ids; csimpl; set_solver|].
    destruct (sweep _ _ _ l) as [[es1 l1] r1] eqn:E. intros [= <- <- <-].
    apply IH in E as [H1 H2]. unfold exec_ids in *. csimpl. set_solver.
Qed.

Lemma spec_insert_ids s q l x :
  x ∈ quote_id <$> spec_insert s q l ↔ x = quote_id q ∨ x ∈ quote_id <$> l.
Proof.
  induction l as [|q' l IH]; csimpl; [set_solver|]. case_match; csimpl; set_solver.
Qed.

Lemma spec_place_ids id seq side type lp units sb es q sb' :
  spec_place id seq side type lp units sb = (es, q, sb') →
  (∀ x, x ∈ spec_ids sb' → x ∈ spec_ids sb ∨ x = id ∧ is_Some q) ∧
  (∀ x, x ∈ spec_ids sb → x ∈ spec_ids sb' ∨ x ∈ exec_ids es) ∧
  (is_Some q → id ∈ spec_ids sb' ∧ ∀ n, q = Some n → 0 < Quantity.units n).
Proof.
  unfold spec_place. destruct (sweep _ _ _ _) as [[es1 contra] rem] eqn:E.
  apply sweep_ids in E as [H1 H2]. setoid_rewrite (elem_of_spec_ids _ side).
  assert (spec_side (opposite side) (set_spec_side (opposite side) contra sb) = contra ∧
    spec_side side (set_spec_side (opposite side) contra sb) = spec_side side sb) as [Hc Ho]
    by (by destruct side).
  destruct type; [destruct lp as [p|]; [destruct (Z.ltb_spec 0 rem)|]|]; intros [= <- <- <-];
    rewrite ?Hc, ?Ho; try (split_and!; [set_solver|set_solver|by intros []]).
  set (qq := (p, mkRestingOrder id seq (Quantity.mk rem))).
  assert (∀ sb, spec_side side (set_spec_side side (spec_insert side qq (spec_side side sb)) sb)
    = spec_insert side qq (spec_side side sb) ∧
    spec_side (opposite side) (set_spec_side side (spec_insert side qq (spec_side side sb)) sb)
    = spec_side (opposite side) sb) as Hins by (intros; by destruct side).
  destruct (Hins (set_spec_side (opposite side) contra sb)) as [Hi1 Hi2].
  rewrite Hc, Ho in *. rewrite Hi1, Hi2. setoid_rewrite spec_insert_ids. simpl.
  split_and!; [set_solver|set_solver|]. intros _. split; [by left; left|]. by intros n [= <-].
Qed.

(** The result of a submission on the set of resting ids. *)
Lemma submit_ids o b r b' :
  wf b → NewOrder_wf o → submit o b = Val (r, b') →
  wf b' ∧
  if submit_accepted r then
    (∀ x, x ∈ spec_ids (abs b') → x ∈ spec_ids (abs b) ∨
       x = no_order_id o ∧ is_Some (sr_remaining_quantity r)) ∧
    (∀ x, x ∈ spec_ids (abs b) → x ∈ spec_ids (abs b') ∨ x ∈ exec_ids (sr_executions r)) ∧
    (is_Some (sr_remaining_quantity r) → no_order_id o ∈ spec_ids (abs b') ∧
       ∀ n, sr_remaining_quantity r = Some n → 0 < Quantity.units n)
  else b' = b.
Proof.
  intros Hwf Ho Hs. destruct (submit_refines_aux o b Hwf Ho) as (r1 & b1 & Hs1 & Hwf' & Hsp).
  rewrite Hs in Hs1. injection Hs1 as <- <-. split; [done|].
  assert (submit_accepted r = false → b' = b) as Hrej.
  { revert Hs. unfold submit. destruct (validate o); simpl; [by intros [= <- <-]|].
    case_bool_decide; [by intros [= <- <-]|].
    intros ([[b2 rem] es] & _ & H2)%bind_Val_inv. revert H2. destruct (_ && _).
    - intros (? & _ & (? & _ & [= <- _])%bind_Val_inv)%bind_Val_inv. done.
    - by intros [= <- _]. }
  destruct (submit_accepted r) eqn:Hacc; [|by apply Hrej].
  unfold spec_submit in Hsp. destruct (validate o); simpl in Hsp; [by injection Hsp as <- _|].
  case_bool_decide; [by injection Hsp as <- _|].
  destruct (spec_place _ _ _ _ _ _ _) as [[es q] sb'] eqn:E. injection Hsp as <- <-. simpl.
  apply spec_place_ids in E. exact E.
Qed.

Lemma spec_set_units_ids id q l : quote_id <$> spec_set_units id q l = quote_id <$> l.
Proof.
  unfold spec_set_units. rewrite <- list_fmap_compose. apply list_fmap_ext.
  intros i x _. simpl. by case_bool_decide.
Qed.

Lemma spec_remove_ids id l x :
  x ∈ quote_id <$> spec_remove id l ↔ x ∈ quote_id <$> l ∧ x ≠ id.
Proof.
  unfold spec_remove. rewrite !list_elem_of_fmap. setoid_rewrite list_elem_of_filter.
  split; [intros (q & -> & ? & ?); eauto|]. intros [(q & -> & ?) ?]. eauto.
Qed.

(** Where a resting order sits, in the abstraction. *)
Lemma located b id loc :
  wf b → resting_orders_ b !! id = Some loc →
  ∃ q, spec_locate id (abs b) = Some (loc_side loc, q) ∧
    id ∈ quote_id <$> spec_side (loc_side loc) (abs b) ∧
    id ∉ quote_id <$> spec_side (opposite (loc_side loc)) (abs b).
Proof.
  intros Hwf Hl. destruct (wf_locate b id loc Hwf Hl) as (l1 & lvl & l2 & ns1 & o & ns2 & Hlv & Ho & <- & _).
  assert ((loc_price loc, o) ∈ flat (levels (loc_side loc) b)) as Hin.
  { rewrite Hlv. unfold flat. apply list_elem_of_bind. exists (loc_price loc, lvl).
    split; [|apply elem_of_app; right; by left]. unfold level_quotes. simpl. rewrite Ho.
    apply (list_elem_of_fmap_2 (λ n : node, (loc_price loc, n.2)) _ (loc_it loc, o)).
    apply elem_of_app. right. by left. }
  exists (loc_price loc, o). split; [exact (locate_Some _ b (loc_price loc, o) Hwf Hin)|].
  rewrite !abs_side. split; [by apply (list_elem_of_fmap_2 quote_id _ (loc_price loc, o))|].
  apply flat_sides_disjoint; [done|]. by apply (list_elem_of_fmap_2 quote_id _ (loc_price loc, o)).
Qed.

Lemma replace_ids o b r b' :
  wf b → ReplaceOrder_wf o → replace o b = Val (r, b') →
  wf b' ∧
  if OrderBook.replace_accepted r then
    (∀ x, x ∈ spec_ids (abs b') → x ∈ spec_ids (abs b) ∧ x ≠ rp_order_id o ∨
       x = rp_order_id o ∧ is_Some (rr_remaining_quantity r)) ∧
    (∀ x, x ∈ spec_ids (abs b) → x ≠ rp_order_id o →
       x ∈ spec_ids (abs b') ∨ x ∈ exec_ids (rr_executions r)) ∧
    (is_Some (rr_remaining_quantity r) → rp_order_id o ∈ spec_ids (abs b') ∧
       ∀ n, rr_remaining_quantity r = Some n → 0 < Quantity.units n)
  else b' = b.
Proof.
  intros Hwf Ho Hs. destruct (replace_refines_aux o b Hwf Ho) as (r1 & b1 & Hs1 & Hwf' & Hsp).
  rewrite Hs in Hs1. injection Hs1 as <- <-. split; [done|].
  destruct (resting_orders_ b !! rp_order_id o) as [loc|] eqn:Hl.
  2:{ revert Hs. unfold replace. rewrite Hl. by intros [= <- <-]. }
  destruct (located b _ loc Hwf Hl) as (q & Hloc & Hin & Hnin).
  unfold spec_replace in Hsp. rewrite Hloc in Hsp. set (s := loc_side loc) in *.
  assert (∀ l sb, spec_side s (set_spec_side s l sb) = l ∧
    spec_side (opposite s) (set_spec_side s l sb) = spec_side (opposite s) sb) as Hset
    by (intros; by destruct s).
  destruct (_ && _).
  - injection Hsp as <- Hb. simpl. rewrite <- Hb.
    setoid_rewrite (elem_of_spec_ids _ s). rewrite !(proj1 (Hset _ _)), !(proj2 (Hset _ _)).
    rewrite spec_set_units_ids. split_and!.
    + intros x Hx. destruct (decide (x = rp_order_id o)); [by right|by left].
    + auto.
    + intros _. split; [by left|]. intros n [= <-]. apply Ho.
  - destruct (spec_place _ _ _ _ _ _ _) as [[es q'] sb'] eqn:E. injection Hsp as <- <-. simpl.
    apply spec_place_ids in E as (H1 & H2 & H3).
    assert (∀ x, x ∈ spec_ids (set_spec_side s (spec_remove (rp_order_id o) (spec_side s (abs b)))
      (abs b)) ↔ x ∈ spec_ids (abs b) ∧ x ≠ rp_order_id o) as Hrem.
    { intros x. rewrite !(elem_of_spec_ids _ s), (proj1 (Hset _ _)), (proj2 (Hset _ _)).
      rewrite spec_remove_ids. destruct (decide (x = rp_order_id o)) as [->|]; tauto. }
    split_and!; [intros x Hx%H1; rewrite Hrem in Hx; tauto| |done].
    intros x Hx Hne. apply H2. by rewrite Hrem.
Qed.

(** ** Handlers *)

Definition new_order_replies (sid : Z) (o : NewOrder) (r : SubmitResult) (b : OrderBook)
    (sessions : gmap OrderId.t Z) : list OutboundMessage :=
  match sr_rejection r with
  | Some reason =>
      [mkOutboundMessage sid MessageType.order_rejected 0
         (PayloadOrderRejected {| or_sequence := no_sequence o; or_order_id := no_order_id o;
                                  or_error_code := to_error_code_order reason |})]
  | None =>
      execs_replies sid (no_sequence o) b sessions (sr_executions r) ++
      [mkOutboundMessage sid MessageType.order_accepted 0
         (PayloadOrderAccepted {| oa_sequence := no_sequence o; oa_order_id := no_order_id o;
            oa_remaining_quantity := remaining_or_zero (sr_remaining_quantity r) |})]
  end.

Definition cancel_replies (sid : Z) (o : CancelOrder) (r : CancelResult) : list OutboundMessage :=
  match cr_rejection r, cr_cancelled_quantity r with
  | Some reason, _ =>
      [mkOutboundMessage sid MessageType.cancel_rejected 0
         (PayloadOrderRejected {| or_sequence := co_sequence o; or_order_id := co_order_id o;
                                  or_error_code := to_error_code_cancel reason |})]
  | None, Some q =>
      [mkOutboundMessage sid MessageType.cancel_accepted 0
         (PayloadCancelAccepted {| ca_sequence := co_sequence o; ca_order_id := co_order_id o;
                                   ca_cancelled_quantity := q |})]
  | None, None => []
  end.

Definition replace_replies (sid : Z) (o : ReplaceOrder) (r : ReplaceResult) (b : OrderBook)
    (sessions : gmap OrderId.t Z) : list OutboundMessage :=
  match rr_rejection r with
  | Some reason =>
      [mkOutboundMessage sid MessageType.replace_rejected 0
         (PayloadOrderRejected {| or_sequence := rp_sequence o; or_order_id := rp_order_id o;
                                  or_error_code := to_error_code_replace reason |})]
  | None =>
      execs_replies sid (rp_sequence o) b sessions (rr_executions r) ++
      [mkOutboundMessage sid MessageType.replace_accepted 0
         (PayloadOrderAccepted {| oa_sequence := rp_sequence o; oa_order_id := rp_order_id o;
            oa_remaining_quantity := remaining_or_zero (rr_remaining_quantity r) |})]
  end.

(** The replies to a message, given the book before it and the routing table. *)
Inductive replies (m : InboundMessage) (b b' : OrderBook) (sessions : gmap OrderId.t Z)
  : list OutboundMessage → Prop :=
| replies_new o r :
    in_command m = CmdNew o → submit o b = Val (r, b') →
    replies m b b' sessions (new_order_replies (in_session_id m) o r b' sessions)
| replies_cancel o r :
    in_command m = CmdCancel o → cancel o b = Val (r, b') →
    replies m b b' sessions (cancel_replies (in_session_id m) o r)
| replies_replace o r :
    in_command m = CmdReplace o → replace o b = Val (r, b') →
    replies m b b' sessions (replace_replies (in_session_id m) o r b' sessions)
| replies_none :
    in_command m = monostate → b' = b → replies m b b' sessions [].

(** The routing table holds exactly the resting orders. *)
Definition routed (e : Engine) : Prop := dom (order_sessions_ e) = dom (resting_orders_ (book_ e)).

Lemma foldl_forget_dom b sessions xs x :
  x ∈ dom (foldl (forget b) sessions xs) ↔
  x ∈ dom sessions ∧ (contains x b = true ∨ x ∉ exec_ids xs).
Proof.
  revert sessions. induction xs as [|y xs IH]; intros sessions; simpl; [set_solver|].
  rewrite IH. unfold forget, exec_ids. csimpl.
  destruct (contains (ex_resting_order_id y) b) eqn:Hc;
    rewrite ?dom_delete_L, ?elem_of_difference, ?elem_of_singleton; set_unfold;
    destruct (decide (x = ex_resting_order_id y)) as [->|]; rewrite ?Hc; naive_solver.
Qed.

(** The commands a queue can hold: fields in range, as the decoder delivers them. *)
Definition inbound_ok (c : Command) : Prop :=
  match c with
  | monostate => True
  | CmdNew o => NewOrder_wf o
  | CmdCancel c => CancelOrder_wf c
  | CmdReplace r => ReplaceOrder_wf r
  end.

(** The routing table after an accepted command that may have left [id] resting. *)
Definition route (sid : Z) (id : OrderId.t) (rem : option Quantity.t) (b : OrderBook)
    (kept forgotten : gmap OrderId.t Z) : gmap OrderId.t Z :=
  if (0 <? remaining_or_zero rem) && contains id b then <[id := sid]> kept else forgotten.

Lemma route_dom sid id rem b kept forgotten :
  wf b →
  (is_Some rem → id ∈ spec_ids (abs b) ∧ ∀ n, rem = Some n → 0 < Quantity.units n) →
  (∀ x, x ≠ id → x ∈ dom kept ↔ x ∈ spec_ids (abs b)) →
  (rem = None → dom forgotten = spec_ids (abs b)) →
  dom (route sid id rem b kept forgotten) = dom (resting_orders_ b).
Proof.
  intros Hwf H3 Hkept Hforg. rewrite resting_ids_abs by done. unfold route.
  destruct rem as [n|]; [|by apply Hforg]. destruct (H3 (mk_is_Some _ _ eq_refl)) as [Hin Hpos].
  rewrite contains_abs, bool_decide_eq_true_2 by done. simpl.
  destruct (Z.ltb_spec 0 (Quantity.units n)) as [_|]; [|specialize (Hpos n eq_refl); lia].
  simpl. rewrite dom_insert_L. apply set_eq. intros x.
  rewrite elem_of_union, elem_of_singleton. destruct (decide (x = id)) as [->|]; [tauto|].
  rewrite Hkept by done. tauto.
Qed.

(** A rejected command executes nothing. *)
Lemma submit_rejected_empty o b r b' reason :
  submit o b = Val (r, b') → sr_rejection r = Some reason → sr_executions r = [].
Proof.
  unfold submit. destruct (validate o); simpl; [by intros [= <- _]|].
  case_bool_decide; [by intros [= <- _]|]. intros ([[b2 rem] es] & _ & Hr)%bind_Val_inv. revert Hr.
  destruct (_ && _); [|by intros [= <- _]].
  intros (rq & _ & (p & _ & [= <- _])%bind_Val_inv)%bind_Val_inv. done.
Qed.

Lemma replace_rejected_empty o b r b' reason :
  replace o b = Val (r, b') → rr_rejection r = Some reason → rr_executions r = [].
Proof.
  unfold replace. destruct (_ !! _); [|by intros [= <- _]].
  intros (x & _ & H)%bind_Val_inv. revert H. destruct (_ && _).
  { by intros (b2 & _ & [= <- _])%bind_Val_inv. }
  intros (y & _ & ([[b2 rem] es] & _ & H)%bind_Val_inv)%bind_Val_inv. revert H.
  destruct (_ <? _); [|by intros [= <- _]]. by intros (rq & _ & [= <- _])%bind_Val_inv.
Qed.

(** The number of executions of a command. *)
Definition fills_of (b : OrderBook) (c : Command) : nat :=
  match c with
  | CmdNew o => match submit o b with Val (r, _) => length (sr_executions r) | _ => 0 end
  | CmdReplace o => match replace o b with Val (r, _) => length (rr_executions r) | _ => 0 end
  | _ => 0
  end.

Section Handlers.
Context {QO : Type} `{BO : BoundedQueue QO OutboundMessage}.
Context (env : QO → QO) (stream : QO → nat → list OutboundMessage → Prop) (Hstr : pushes env stream).

(** What a handler does: the book steps, the stream grows by [msgs], the
    routing table follows the book, [k] executions are counted. *)
Record handled (k : nat) (e e' : Engine) (q' : QO) (n : nat) (l msgs : list OutboundMessage) : Prop := {
  hd_stream : stream q' (n + length msgs) (l ++ msgs);
  hd_wf : wf (book_ e');
  hd_routed : routed e → routed e';
  hd_tallied : tallied k e e';
}.

Lemma one_reply k fuel e0 msg e q n l :
  (0 < fuel)%nat → stream q n l → wf (book_ e) → (routed e0 → routed e) →
  tallied k e0 e →
  ∃ e' q', push_outbound env fuel msg e q = Val (e', q') ∧ handled k e0 e' q' n l [msg] ∧
    book_ e' = book_ e.
Proof.
  intros Hf Hs Hwf Hr Hl.
  destruct (push_outbound_ok env stream Hstr fuel msg e q n l Hf Hs) as (e' & q' & -> & Hs' & Hb & Ho & Hl').
  exists e', q'. split_and!; [done| |done]. split; [by rewrite Nat.add_comm|by rewrite Hb| |by eapply tallied_step].
  unfold routed. by rewrite Hb, Ho.
Qed.

Lemma handle_new_order_ok fuel sid o e q n l :
  (0 < fuel)%nat → wf (book_ e) → NewOrder_wf o → stream q n l →
  ∃ r e' q', submit o (book_ e) = Val (r, book_ e') ∧
    handle_new_order env fuel sid o e q = Val (submit_accepted r, e', q') ∧
    handled (length (sr_executions r)) e e' q' n l
      (new_order_replies sid o r (book_ e') (order_sessions_ e)).
Proof.
  intros Hf Hwf Ho Hs. destruct (submit_refines_aux o (book_ e) Hwf Ho) as (r & b' & Hsub & Hwf' & _).
  destruct (submit_ids o _ _ _ Hwf Ho Hsub) as [_ Hids]. unfold handle_new_order.
  rewrite Hsub, bind_Val. unfold submit_accepted in Hids.
  destruct (sr_rejection r) as [reason|] eqn:Hrej; cbn [is_none] in *.
  - subst b'.
    edestruct (one_reply 0 fuel e) as (e' & q' & -> & Hh & Hb); [done|done|done|done|by apply tallied_same|].
    exists r, e', q'. rewrite (submit_rejected_empty _ _ _ _ _ Hsub Hrej).
    unfold new_order_replies, submit_accepted. rewrite bind_Val, Hb, Hrej. done.
  - edestruct (emit_executions_ok env stream Hstr fuel sid (no_sequence o) (sr_executions r) (with_book b' e) q)
      as (e1 & q1 & -> & Hs1 & Hb1 & Ho1 & Hl1); [done|done|]. rewrite bind_Val.
    edestruct (push_outbound_ok env stream Hstr fuel) as (e2 & q2 & -> & Hs2 & Hb2 & Ho2 & Hl2); [done|done|].
    rewrite bind_Val. cbn [with_book book_ order_sessions_ command_to_ack_latency_] in *.
    set (e3 := if _ && _ then _ else _).
    assert (book_ e3 = b' ∧ tallied (length (sr_executions r)) e e3 ∧
      order_sessions_ e3 = let s := foldl (forget b') (order_sessions_ e) (sr_executions r) in
        route sid (no_order_id o) (sr_remaining_quantity r) b' s s) as (Hb3 & Hl3 & Ho3).
    { assert (tallied (length (sr_executions r)) e e2) as Ht.
      { eapply tallied_step; [|exact Hl2]. by destruct Hl1. }
      unfold e3, route. simpl. rewrite Hb2, Hb1, <- Ho1, <- Ho2.
      destruct (0 <? _), (contains (no_order_id o) b'); simpl; (split_and!; [congruence|by destruct Ht|congruence]). }
    exists r, e3, q2. unfold new_order_replies, submit_accepted. rewrite Hb3, Hrej. split_and!; [done|done|]. split; [|congruence| |done].
    + by rewrite length_app, Nat.add_assoc, app_assoc, (Nat.add_comm _ (length [_])).
    + destruct Hids as (H1 & H2 & H3). intros Hr. unfold routed in *. rewrite Hb3, Ho3.
      rewrite resting_ids_abs in Hr by done.
      assert (∀ x, x ∈ dom (foldl (forget b') (order_sessions_ e) (sr_executions r)) ↔
        x ∈ spec_ids (abs (book_ e)) ∧ x ∈ spec_ids (abs b')) as Hdom.
      { intros x. rewrite foldl_forget_dom, Hr, contains_abs, bool_decide_eq_true by done.
        specialize (H2 x). tauto. }
      apply route_dom; [done|done|intros x Hx; rewrite Hdom; naive_solver|].
      intros Hnone. apply set_eq. intros x. rewrite Hdom. rewrite Hnone in H1.
      specialize (H1 x). unfold is_Some in H1. naive_solver.
Qed.

Lemma cancel_ids o b r b' :
  wf b → cancel o b = Val (r, b') →
  wf b' ∧
  if OrderBook.cancel_accepted r then
    is_Some (cr_cancelled_quantity r) ∧
    (∀ x, x ∈ spec_ids (abs b') ↔ x ∈ spec_ids (abs b) ∧ x ≠ co_order_id o)
  else b' = b.
Proof.
  intros Hwf Hs. destruct (cancel_refines_aux o b Hwf) as (r1 & b1 & Hs1 & Hwf' & Hsp).
  rewrite Hs in Hs1. injection Hs1 as <- <-. split; [done|].
  destruct (resting_orders_ b !! co_order_id o) as [loc|] eqn:Hl.
  2:{ revert Hs. unfold cancel. rewrite Hl. by intros [= <- <-]. }
  destruct (located b _ loc Hwf Hl) as (q & Hloc & Hin & Hnin).
  unfold spec_cancel in Hsp. rewrite Hloc in Hsp. injection Hsp as <- <-. simpl. split; [by eexists|].
  intros x. rewrite !(elem_of_spec_ids x (loc_side loc)).
  assert (∀ s l sb, spec_side s (set_spec_side s l sb) = l ∧
    spec_side (opposite s) (set_spec_side s l sb) = spec_side (opposite s) sb) as Hset
    by (intros s; intros; by destruct s).
  rewrite (proj1 (Hset _ _ _)), (proj2 (Hset _ _ _)), spec_remove_ids.
  destruct (decide (x = co_order_id o)) as [->|]; tauto.
Qed.

Lemma handle_cancel_order_ok fuel sid o e q n l :
  (0 < fuel)%nat → wf (book_ e) → stream q n l →
  ∃ r e' q', cancel o (book_ e) = Val (r, book_ e') ∧
    handle_cancel_order env fuel sid o e q = Val (OrderBook.cancel_accepted r, e', q') ∧
    handled 0 e e' q' n l (cancel_replies sid o r).
Proof.
  intros Hf Hwf Hs. destruct (cancel_refines_aux o (book_ e) Hwf) as (r & b' & Hsub & Hwf' & _).
  destruct (cancel_ids o _ _ _ Hwf Hsub) as [_ Hids]. unfold handle_cancel_order.
  rewrite Hsub, bind_Val. unfold OrderBook.cancel_accepted in *.
  destruct (cr_rejection r) as [reason|] eqn:Hrej; cbn [is_none] in *.
  - subst b'. cbn [deref_opt]. rewrite bind_Val.
    edestruct (one_reply 0 fuel e) as (e' & q' & -> & Hh & Hb); [done|done|done|done|by apply tallied_same|].
    exists r, e', q'. unfold cancel_replies. rewrite bind_Val, Hb, Hrej. done.
  - destruct Hids as [[qty Hq] Hids]. rewrite Hq. cbn [deref_opt]. rewrite bind_Val.
    edestruct (one_reply 0 fuel e) as (e' & q' & -> & Hh & Hb); [done|done|done| |by apply tallied_same|].
    2:{ exists r, e', q'. unfold cancel_replies. rewrite bind_Val, Hb, Hrej, Hq. done. }
    unfold routed. cbn [with_sessions with_book book_ order_sessions_].
    rewrite !resting_ids_abs by done. intros Hr. apply set_eq. intros x.
    rewrite dom_delete_L, Hids, Hr. set_solver.
Qed.

Lemma handle_replace_order_ok fuel sid o e q n l :
  (0 < fuel)%nat → wf (book_ e) → ReplaceOrder_wf o → stream q n l →
  ∃ r e' q', replace o (book_ e) = Val (r, book_ e') ∧
    handle_replace_order env fuel sid o e q = Val (OrderBook.replace_accepted r, e', q') ∧
    handled (length (rr_executions r)) e e' q' n l
      (replace_replies sid o r (book_ e') (order_sessions_ e)).
Proof.
  intros Hf Hwf Ho Hs. destruct (replace_refines_aux o (book_ e) Hwf Ho) as (r & b' & Hsub & Hwf' & _).
  destruct (replace_ids o _ _ _ Hwf Ho Hsub) as [_ Hids]. unfold handle_replace_order.
  rewrite Hsub, bind_Val. unfold OrderBook.replace_accepted in Hids.
  destruct (rr_rejection r) as [reason|] eqn:Hrej; cbn [is_none] in *.
  - subst b'.
    edestruct (one_reply 0 fuel e) as (e' & q' & -> & Hh & Hb); [done|done|done|done|by apply tallied_same|].
    exists r, e', q'. rewrite (replace_rejected_empty _ _ _ _ _ Hsub Hrej).
    unfold replace_replies, OrderBook.replace_accepted. rewrite bind_Val, Hb, Hrej. done.
  - edestruct (emit_executions_ok env stream Hstr fuel sid (rp_sequence o) (rr_executions r) (with_book b' e) q)
      as (e1 & q1 & -> & Hs1 & Hb1 & Ho1 & Hl1); [done|done|]. rewrite bind_Val.
    cbn [with_book book_ order_sessions_ command_to_ack_latency_] in *.
    set (e2 := if _ && _ then _ else _).
    assert (book_ e2 = b' ∧ tallied (length (rr_executions r)) e e2 ∧
      order_sessions_ e2 = let s := foldl (forget b') (order_sessions_ e) (rr_executions r) in
        route sid (rp_order_id o) (rr_remaining_quantity r) b' s (delete (rp_order_id o) s))
      as (Hb2 & Hl2 & Ho2).
    { unfold e2, route. simpl. rewrite Hb1, <- Ho1.
      destruct (0 <? _), (contains (rp_order_id o) b'); simpl;
        (split_and!; [congruence|by destruct Hl1|congruence]). }
    edestruct (one_reply (length (rr_executions r)) fuel e) as (e3 & q3 & -> & Hh & Hb3);
      [done|exact Hs1|by rewrite Hb2| |done|].
    2:{ exists r, e3, q3. unfold replace_replies, OrderBook.replace_accepted.
        rewrite bind_Val, Hb3, Hb2, Hrej. split_and!; [done|done|]. destruct Hh as [Hst ? ? ?].
        split; [|done..]. by rewrite length_app, Nat.add_assoc, app_assoc. }
    destruct Hids as (H1 & H2 & H3). intros Hr. unfold routed in *. rewrite Hb2, Ho2.
    rewrite resting_ids_abs in Hr by done.
    assert (∀ x, x ≠ rp_order_id o →
      x ∈ dom (foldl (forget b') (order_sessions_ e) (rr_executions r)) ↔
      x ∈ spec_ids (abs b')) as Hdom.
    { intros x Hx. rewrite foldl_forget_dom, Hr, contains_abs, bool_decide_eq_true by done.
      specialize (H1 x). specialize (H2 x). tauto. }
    apply route_dom; [done|done|done|].
    intros Hnone. apply set_eq. intros x. rewrite Hnone in H1. specialize (H1 x).
    rewrite dom_delete_L, elem_of_difference, elem_of_singleton. specialize (Hdom x).
    unfold is_Some in H1. naive_solver.
Qed.

Lemma dispatch_ok fuel msg e q n l :
  (0 < fuel)%nat → wf (book_ e) → inbound_ok (in_command msg) → stream q n l →
  ∃ acc e' q' msgs, dispatch env fuel msg e q = Val (acc, e', q') ∧
    apply_command (book_ e) (in_command msg) = Val (acc, book_ e') ∧
    replies msg (book_ e) (book_ e') (order_sessions_ e) msgs ∧
    handled (fills_of (book_ e) (in_command msg)) e e' q' n l msgs.
Proof.
  intros Hf Hwf Hok Hs. unfold dispatch. destruct (in_command msg) as [|o|o|o] eqn:Hc; simpl in Hok.
  - exists false, e, q, []. split_and!; [done|done|by apply replies_none|].
    split; [by rewrite Nat.add_0_r, app_nil_r|done..].
  - destruct (handle_new_order_ok fuel (in_session_id msg) o e q n l) as (r & e' & q' & Hb & -> & Hh);
      [done..|]. exists (submit_accepted r), e', q'. eexists. split; [done|].
    cbn [apply_command fills_of]. rewrite Hb. split_and!; [done|by apply replies_new|done].
  - destruct (handle_cancel_order_ok fuel (in_session_id msg) o e q n l) as (r & e' & q' & Hb & -> & Hh);
      [done..|]. exists (OrderBook.cancel_accepted r), e', q'. eexists. split; [done|].
    cbn [apply_command fills_of]. rewrite Hb. split_and!; [done|by apply replies_cancel|done].
  - destruct (handle_replace_order_ok fuel (in_session_id msg) o e q n l) as (r & e' & q' & Hb & -> & Hh);
      [done..|]. exists (OrderBook.replace_accepted r), e', q'. eexists. split; [done|].
    cbn [apply_command fills_of]. rewrite Hb. split_and!; [done|by apply replies_replace|done].
Qed.

End Handlers.

(** ** Framing *)

(** The messages of a stream for one session. *)
Definition to_session (sid : Z) (msgs : list OutboundMessage) : list OutboundMessage :=
  filter (λ m, out_session_id m = sid) msgs.

Definition is_execution (m : OutboundMessage) : Prop :=
  out_type m = MessageType.execution ∧ ∃ e, out_payload m = PayloadExecution e.

(** The sender gets its executions, all announcing that more follows, and then
    one terminal message that does not; everyone else gets unframed executions. *)
Definition well_framed (sid : Z) (msgs : list OutboundMessage) : Prop :=
  (∃ fills last, to_session sid msgs = fills ++ [last] ∧
     Forall (λ m, is_execution m ∧ out_flags m = kFlagMore) fills ∧
     ¬ is_execution last ∧ out_flags last = 0) ∧
  Forall (λ m, out_session_id m ≠ sid →
    is_execution m ∧ out_flags m = 0 ∧ out_session_id m ≠ 0) msgs.

Lemma exec_replies_framed sid seq own x :
  to_session sid (exec_replies sid seq own x) =
    [mkOutboundMessage sid MessageType.execution kFlagMore (PayloadExecution (exec_event seq x))] ∧
  Forall (λ m, out_session_id m ≠ sid →
    is_execution m ∧ out_flags m = 0 ∧ out_session_id m ≠ 0) (exec_replies sid seq own x).
Proof.
  unfold exec_replies, to_session, is_execution. rewrite filter_cons_True by done.
  destruct (Z.eqb_spec own 0), (Z.eqb_spec own sid); cbn [negb andb];
    (split; [rewrite ?filter_cons_False, ?filter_nil by done; done|]);
    repeat (apply Forall_cons; split; [simpl; intros; try done; split_and!; eauto|]); done.
Qed.

Lemma execs_replies_framed sid seq b xs : ∀ sessions,
  to_session sid (execs_replies sid seq b sessions xs) =
    (λ x, mkOutboundMessage sid MessageType.execution kFlagMore (PayloadExecution (exec_event seq x)))
    <$> xs ∧
  Forall (λ m, out_session_id m ≠ sid →
    is_execution m ∧ out_flags m = 0 ∧ out_session_id m ≠ 0) (execs_replies sid seq b sessions xs).
Proof.
  induction xs as [|x xs IH]; intros sessions; cbn [execs_replies]; [done|].
  destruct (exec_replies_framed sid seq (owner sessions x) x) as [H1 H2].
  destruct (IH (forget b sessions x)) as [H3 H4]. split.
  - unfold to_session in *. by rewrite filter_app, H1, H3.
  - by apply Forall_app.
Qed.

(** A framed sequence from executions and a terminal message to the sender. *)
Lemma terminal_framed sid seq b sessions xs type payload :
  type ≠ MessageType.execution →
  well_framed sid (execs_replies sid seq b sessions xs ++ [mkOutboundMessage sid type 0 payload]).
Proof.
  intros Ht. destruct (execs_replies_framed sid seq b xs sessions) as [H1 H2]. split.
  - unfold to_session in *. rewrite filter_app, H1, filter_cons_True by done. do 2 eexists.
    split; [done|]. split_and!; [|by intros [? _]|done].
    apply Forall_fmap, Forall_true. intros x. unfold is_execution. simpl. eauto.
  - apply Forall_app. split; [done|]. by apply Forall_singleton.
Qed.

Lemma replies_framed m b b' sessions msgs :
  wf b → in_command m ≠ monostate → replies m b b' sessions msgs →
  well_framed (in_session_id m) msgs.
Proof.
  intros Hwf Hc Hr. assert (∀ type payload, type ≠ MessageType.execution →
    well_framed (in_session_id m) [mkOutboundMessage (in_session_id m) type 0 payload]) as Hone.
  { intros type payload Ht. by apply (terminal_framed _ (SequenceNumber.mk 0) b sessions []). }
  destruct Hr as [o r _ _|o r _ Hs|o r _ _|]; [| | |done].
  - unfold new_order_replies. destruct (sr_rejection r); [by apply Hone|by apply terminal_framed].
  - destruct (cancel_ids o b r b' Hwf Hs) as [_ Hids]. unfold cancel_replies.
    unfold OrderBook.cancel_accepted in Hids.
    destruct (cr_rejection r); simpl in Hids; [by apply Hone|].
    destruct Hids as [[q ->] _]. by apply Hone.
  - unfold replace_replies. destruct (rr_rejection r); [by apply Hone|by apply terminal_framed].
Qed.

(** ** The service *)

Section Service.
Context {QI QO QM QC : Type}.
Context `{BI : BoundedQueue QI InboundMessage} `{BO : BoundedQueue QO OutboundMessage}.
Context `{BM : BoundedQueue QM MarketDataEvent} `{BC : BoundedQueue QC EventCaptureMessage}.
Context (env : QO → QO) (Henv : consumer_runs env).

Notation Service := (@Service QI QO QM QC).

Definition market_ready (m : option (MarketDataFeed * QM)) : Prop :=
  match m with
  | Some (f, q) => ∃ sub hist, md_inv (mkPipeline f q sub hist)
  | None => True
  end.

Definition capture_ready (c : option (EventCaptureFeed * QC)) : Prop :=
  match c with Some (_, q) => ∃ n l, bq_rep q n l | None => True end.

(** Between two calls of [process_one]: [inb] is queued, [out] is everything
    the engine has sent so far. *)
Record core_ok (s : Service) (inb : list InboundMessage) (out : list OutboundMessage) : Prop := {
  co_inbound : ∃ n, bq_rep (sv_inbound s) n inb;
  co_commands : Forall (λ m, inbound_ok (in_command m)) inb;
  co_outbound : ∃ n, streams (sv_outbound s) n out;
  co_wf : wf (book_ (sv_engine s));
  co_routed : routed (sv_engine s);
}.

Record service_ok (s : Service) (inb : list InboundMessage) (out : list OutboundMessage) : Prop := {
  so_core : core_ok s inb out;
  so_histogram : length (buckets_ (command_to_ack_latency_ (sv_engine s))) = kLatencyHistogramBuckets;
  so_market : market_ready (sv_market s);
  so_capture : capture_ready (sv_capture s);
}.

Lemma capture_total c f q n l :
  bq_rep q n l →
  ∃ f' q', capture c f q = Val (f', q') ∧
    if bool_decide (length l < bq_capacity)%nat
    then bq_rep q' (S n) (l ++ [mkEventCaptureMessage c]) ∧ dropped_commands_ f' = dropped_commands_ f
    else bq_rep q' n l ∧ dropped_commands_ f' = u64_add (dropped_commands_ f) 1.
Proof.
  intros Hrep. destruct (bq_rep_bound _ _ _ Hrep) as [Hle _].
  unfold capture, capture_record_occupancy. case_bool_decide as Hl.
  - destruct (bq_push_ok _ _ _ (mkEventCaptureMessage c) Hrep Hl) as (q' & -> & Hrep').
    rewrite bind_Val. simpl. case_match; do 2 eexists; done.
  - destruct (bq_push_full _ _ _ (mkEventCaptureMessage c) Hrep) as (q' & -> & Hrep'); [lia|].
    rewrite bind_Val. simpl. case_match; do 2 eexists; done.
Qed.

Definition capture_after (acc : bool) (c : Command) (o : option (EventCaptureFeed * QC))
  : outcome (option (EventCaptureFeed * QC)) :=
  match acc, o with
  | true, Some (f, q) => r ← capture c f q; Val (Some r)
  | _, c => Val c
  end.

Definition publish_after (b : OrderBook) (o : option (MarketDataFeed * QM))
  : outcome (option (MarketDataFeed * QM)) :=
  match o with
  | Some (f, q) => r ← publish b f q; Val (Some r)
  | None => Val None
  end.

Lemma capture_after_total acc c o :
  capture_ready o → ∃ o', capture_after acc c o = Val o' ∧ capture_ready o'.
Proof.
  intros Ho. destruct acc, o as [[f q]|]; simpl in *; try by eexists.
  destruct Ho as (n & l & Hrep). destruct (capture_total c f q n l Hrep) as (f' & q' & -> & H).
  rewrite bind_Val. eexists. split; [done|]. simpl. case_bool_decide; naive_solver.
Qed.

Lemma publish_after_total b o :
  wf b → (o ≠ None → no_overflow b) → market_ready o →
  ∃ o', publish_after b o = Val o' ∧ market_ready o'.
Proof.
  intros Hwf Hno Ho. destruct o as [[f q]|]; simpl in *; [|by eexists].
  destruct Ho as (sub & hist & n & l & Hinv).
  destruct (publish_inv b f q sub hist n l) as (f' & q' & n' & l' & -> & Hinv' & _);
    [|done|].
  { intros _. do 2 eexists. apply book_ok_published. split; [done|by apply Hno]. }
  rewrite bind_Val. eexists. split; [done|]. simpl. unfold md_inv. eauto.
Qed.

(** [process_one] on a queue that holds a message, up to the clock and the feeds. *)
Lemma process_one_runs fuel now s m inb out :
  (0 < fuel)%nat → core_ok s (m :: inb) out →
  ∃ acc e1 outbound inbound msgs,
    apply_command (book_ (sv_engine s)) (in_command m) = Val (acc, book_ e1) ∧
    replies m (book_ (sv_engine s)) (book_ e1) (order_sessions_ (sv_engine s)) msgs ∧
    (∃ n, streams outbound n (out ++ msgs)) ∧ (∃ n, bq_rep inbound n inb) ∧
    wf (book_ e1) ∧ routed e1 ∧
    tallied (fills_of (book_ (sv_engine s)) (in_command m)) (sv_engine s) e1 ∧
    process_one env fuel now s =
      (e ← record_command_result m acc now e1;
       captured ← capture_after acc (in_command m) (sv_capture s);
       market ← publish_after (book_ e) (sv_market s);
       Val (true, mkService e inbound outbound market captured)).
Proof.
  intros Hf [(n & Hi) Hc (no & Ho) Hwf Hr]. unfold process_one.
  destruct (bq_pop_ok _ _ _ _ default_inbound Hi) as (inbound & -> & Hi'). rewrite bind_Val.
  cbn [negb]. set (e0 := with_metrics _ (sv_engine s)). apply Forall_cons in Hc as [Hc _].
  destruct (dispatch_ok env streams (push_spin_ok env Henv) fuel m e0 (sv_outbound s) no out Hf Hwf Hc Ho)
    as (acc & e1 & outbound & msgs & -> & Ha & Hrep & [Hst Hwf' Hr' Hl]). rewrite bind_Val.
  exists acc, (with_metrics (add_inbound_bytes (inbound_size m) (metrics_ e1)) e1), outbound, inbound, msgs.
  split_and!; [done|done|by eexists|by eexists|done|by apply Hr'|by destruct Hl|]. by destruct acc, (sv_capture s) as [[]|].
Qed.

Lemma record_result_total m acc now e :
  length (buckets_ (command_to_ack_latency_ e)) = kLatencyHistogramBuckets →
  now - in_received_at m ≤ u64_max →
  ∃ e', record_command_result m acc now e = Val e' ∧ book_ e' = book_ e ∧
    order_sessions_ e' = order_sessions_ e ∧
    length (buckets_ (command_to_ack_latency_ e')) = kLatencyHistogramBuckets.
Proof.
  intros Hl Hn. unfold record_command_result. destruct (_ =? 0); cbn [negb]; [by eexists|].
  set (v := if 0 <? _ then _ else _). destruct (observe_total (command_to_ack_latency_ e) v Hl)
    as (h & Hh & Hlen). { unfold v. zcase; unfold u64_max in *; lia. }
  cbn [with_metrics command_to_ack_latency_]. rewrite Hh, bind_Val. by eexists.
Qed.

Lemma process_one_ok fuel now s m inb out :
  (0 < fuel)%nat → service_ok s (m :: inb) out → now - in_received_at m ≤ u64_max →
  (∀ acc b, apply_command (book_ (sv_engine s)) (in_command m) = Val (acc, b) →
     sv_market s ≠ None → no_overflow b) →
  ∃ acc s' msgs, process_one env fuel now s = Val (true, s') ∧
    service_ok s' inb (out ++ msgs) ∧
    apply_command (book_ (sv_engine s)) (in_command m) = Val (acc, book_ (sv_engine s')) ∧
    replies m (book_ (sv_engine s)) (book_ (sv_engine s')) (order_sessions_ (sv_engine s)) msgs ∧
    capture_after acc (in_command m) (sv_capture s) = Val (sv_capture s') ∧
    publish_after (book_ (sv_engine s')) (sv_market s) = Val (sv_market s').
Proof.
  intros Hf [Hok Hh Hm Hcap] Hnow Hno.
  destruct (process_one_runs fuel now s m inb out Hf Hok)
    as (acc & e1 & outbound & inbound & msgs & Ha & Hrep & Hst & Hi & Hwf & Hr & Hl & ->).
  destruct Hok as [_ Hc _ _ _]. apply Forall_cons in Hc as [_ Hc].
  destruct (record_result_total m acc now e1) as (e2 & -> & Hb2 & Hs2 & Hh2);
    [by rewrite (tl_latency _ _ _ Hl)|done|].
  destruct (capture_after_total acc (in_command m) _ Hcap) as (cap & Hce & Hcap').
  destruct (publish_after_total (book_ e2) (sv_market s)) as (mkt & Hp & Hm');
    [by rewrite Hb2|rewrite Hb2; by eapply Hno|done|].
  rewrite bind_Val, Hce, bind_Val, Hp, bind_Val. exists acc. do 2 eexists. split; [done|]. simpl.
  rewrite Hb2 in *. split_and!; try done. split; [|done..]. split; simpl; rewrite ?Hb2; try done.
  unfold routed in *. by rewrite Hs2, Hb2.
Qed.

(** The commands of a batch, one after the other. *)
Fixpoint apply_all (b : OrderBook) (cs : list Command) : outcome (list bool * OrderBook) :=
  match cs with
  | [] => Val ([], b)
  | c :: cs' =>
      '(acc, b) ← apply_command b c;
      '(accs, b) ← apply_all b cs';
      Val (acc :: accs, b)
  end.

(** Verdicts: a command with whether it was accepted. *)
Definition accepted_in : Command * bool → bool := snd.
Definition rejected_in (v : Command * bool) : bool := negb v.2.
Definition cancel_in (b : bool) (v : Command * bool) : bool := is_cancel v.1 && Bool.eqb v.2 b.

Lemma apply_all_snoc b cs accs b1 c acc b2 :
  apply_all b cs = Val (accs, b1) → apply_command b1 c = Val (acc, b2) →
  apply_all b (cs ++ [c]) = Val (accs ++ [acc], b2).
Proof.
  revert b accs. induction cs as [|c' cs IH]; intros b accs Ha Hc; simpl in *.
  - injection Ha as <- <-. by rewrite Hc.
  - destruct (apply_command b c') as [[acc' b']| |]; try done. simpl in Ha |- *.
    destruct (apply_all b' cs) as [[accs' b'']| |] eqn:E; try done. simpl in Ha.
    injection Ha as <- <-. by rewrite (IH b' accs' E Hc).
Qed.

Lemma apply_all_length cs : ∀ b accs b', apply_all b cs = Val (accs, b') → length accs = length cs.
Proof.
  induction cs as [|c cs IH]; intros b accs b'; simpl; [by intros [= <- _]|].
  intros ([acc b1] & _ & ([accs' b2] & Ha & [= <- _])%bind_Val_inv)%bind_Val_inv. simpl.
  f_equal. by eapply IH.
Qed.

(** The executions of a batch. *)
Fixpoint total_fills (b : OrderBook) (cs : list Command) : nat :=
  match cs with
  | [] => 0
  | c :: cs' =>
      fills_of b c + match apply_command b c with Val (_, b') => total_fills b' cs' | _ => 0 end
  end.

Lemma total_fills_snoc cs : ∀ b accs b' c,
  apply_all b cs = Val (accs, b') → total_fills b (cs ++ [c]) = (total_fills b cs + fills_of b' c)%nat.
Proof.
  induction cs as [|c0 cs IH]; intros b accs b' c; simpl.
  - intros [= _ <-]. destruct (apply_command b c) as [[]| |]; simpl; lia.
  - intros ([acc b1] & Hb & ([accs' b2] & Ha & [= _ <-])%bind_Val_inv)%bind_Val_inv.
    rewrite Hb, (IH b1 accs' b2 c Ha). lia.
Qed.

(** The metrics count the commands, by verdict, and their executions (modulo
    the width of the counters). *)
Record metrics_count (cs : list Command) (accs : list bool) (m : MatchingEngineMetrics) : Prop := {
  mc_accepted : accepted_commands m = wrap 64 (tally accepted_in (zip cs accs));
  mc_rejected : rejected_commands m = wrap 64 (tally rejected_in (zip cs accs));
  mc_accepted_cancels : accepted_cancels m = wrap 64 (tally (cancel_in true) (zip cs accs));
  mc_rejected_cancels : rejected_cancels m = wrap 64 (tally (cancel_in false) (zip cs accs));
  mc_executions : wrap 64 (executions m) = wrap 64 (Z.of_nat (total_fills empty_book cs));
}.

Lemma metrics_count_snoc cs accs c acc b e e1 :
  apply_all empty_book cs = Val (accs, b) → metrics_count cs accs (metrics_ e) →
  tallied (fills_of b c) e e1 →
  metrics_count (cs ++ [c]) (accs ++ [acc]) (count_result acc (is_cancel c) (metrics_ e1)).
Proof.
  intros Ha [] []. pose proof (apply_all_length _ _ _ _ Ha) as Hl.
  assert (zip (cs ++ [c]) (accs ++ [acc]) = zip cs accs ++ [(c, acc)]) as Hz.
  { by rewrite zip_with_app by done. }
  split; rewrite ?Hz, ?tally_snoc; unfold accepted_in, rejected_in, cancel_in;
    cbn [count_result accepted_commands rejected_commands accepted_cancels rejected_cancels executions fst snd].
  1-4: destruct acc, (is_cancel c); cbn [andb negb Bool.eqb]; rewrite ?Z.add_0_r;
    rewrite ?tl_accepted0, ?tl_rejected0, ?tl_accepted_cancels0, ?tl_rejected_cancels0,
      ?mc_accepted0, ?mc_rejected0, ?mc_accepted_cancels0, ?mc_rejected_cancels0;
    rewrite ?u64_add_wrap_l; done.
  rewrite tl_executions0, (total_fills_snoc _ _ _ _ c Ha), Nat2Z.inj_add.
  unfold wrap in *. rewrite Zplus_mod, mc_executions0, <- Zplus_mod. done.
Qed.

(** One framed block of replies per message, in the order of the messages. *)
Definition answered (inb : list InboundMessage) (blocks : list (list OutboundMessage)) : Prop :=
  Forall2 (λ m block, in_command m ≠ monostate → well_framed (in_session_id m) block) inb blocks.

Lemma process_empty fuel now s out :
  service_ok s [] out →
  ∃ s', process_one env fuel now s = Val (false, s') ∧ service_ok s' [] out ∧
    book_ (sv_engine s') = book_ (sv_engine s) ∧ sv_market s' = sv_market s ∧
    sv_capture s' = sv_capture s.
Proof.
  intros [[(n & Hi) Hc Ho Hwf Hr] Hh Hm Hcap]. unfold process_one.
  destruct (bq_pop_empty _ _ default_inbound Hi) as (q' & -> & Hi'). rewrite bind_Val. cbn [negb].
  eexists. split; [done|]. split; [|done]. split; [|done..]. by split; [eexists| | | |].
Qed.

Lemma process_available_ok fuel clock inb : ∀ iterations count s out,
  (0 < fuel)%nat → service_ok s inb out → (length inb ≤ iterations)%nat →
  0 ≤ count → count + Z.of_nat (length inb) ≤ u64_max →
  (∀ i m, m ∈ inb → clock i - in_received_at m ≤ u64_max) →
  (sv_market s ≠ None → ∀ cs1 cs2 accs b, in_command <$> inb = cs1 ++ cs2 → cs1 ≠ [] →
     apply_all (book_ (sv_engine s)) cs1 = Val (accs, b) → no_overflow b) →
  ∃ s' accs blocks,
    process_available env iterations fuel clock count s = Val (count + Z.of_nat (length inb), s') ∧
    service_ok s' [] (out ++ concat blocks) ∧ answered inb blocks ∧
    apply_all (book_ (sv_engine s)) (in_command <$> inb) = Val (accs, book_ (sv_engine s')).
Proof.
  induction inb as [|m inb IH]; intros iterations count s out Hf Hok Hit Hc0 Hc Hclk Hno.
  - destruct (process_empty fuel (clock (Z.to_nat count)) s out Hok) as (s' & Hp & Hok' & Hb & _).
    exists s', [], []. rewrite Z.add_0_r. simpl. rewrite app_nil_r, Hb.
    split_and!; [|done|constructor|done].
    destruct iterations; cbn [process_available]; by rewrite Hp.
  - destruct (process_one_ok fuel (clock (Z.to_nat count)) s m inb out Hf Hok)
      as (acc & s1 & msgs & Hp & Hok1 & Ha & Hrep & _ & Hpub); [apply Hclk; by left| |].
    { intros acc b Ha Hm. apply (Hno Hm [in_command m] (in_command <$> inb) [acc]); [done..|].
      simpl. by rewrite Ha. }
    cbn [length] in *. destruct iterations as [|iterations]; [lia|].
    assert (u64_add count 1 = count + 1) as Hadd by (unfold u64_max in *; apply u64_add_small; lia).
    destruct (IH iterations (count + 1) s1 (out ++ msgs))
      as (s2 & accs & blocks & Hp2 & Hok2 & Hans & Hall);
      [done|done|lia|lia|lia|intros i x Hx; apply Hclk; by right| |].
    { intros Hm cs1 cs2 accs b Heq Hne Hall. assert (sv_market s ≠ None) as Hm'.
      { intros Hn. rewrite Hn in Hpub. simpl in Hpub. congruence. }
      apply (Hno Hm' (in_command m :: cs1) cs2 (acc :: accs)); [csimpl; by rewrite Heq|done|].
      simpl. rewrite Ha, bind_Val, Hall. done. }
    exists s2, (acc :: accs), (msgs :: blocks). cbn [process_available].
    rewrite Hp, bind_Val, Hadd. cbn [negb]. rewrite Hp2. split_and!.
    + do 2 f_equal. lia.
    + simpl. by rewrite app_assoc.
    + constructor; [|done]. intros Hne. eapply replies_framed; [apply Hok|done|done].
    + csimpl. by rewrite Ha, bind_Val, Hall.
Qed.

End Service.
