(* ===== verification/EngineSystem.v ===== *)
(** * The engine among its threads

    The engine thread, the gateway thread that fills the inbound and empties
    the outbound queue, and the recorder thread that writes the captured
    commands to the log, as one transition system.  The claims of the service
    and the end-to-end claim of the event log: whatever of the log has left the
    stream buffer, it replays to a state the engine's book went through. *)

From stdpp Require Import prelude gmap list relations.
From Stdlib Require Import ZArith Lia.
From S2P Require Import Prelude Types OrderBook BookSpec BookInv BookRefine BookProps BookQueries.
From S2P Require Import Bytes Protocol ProtocolInv Spsc SpscProps MarketData MarketDataProps.
From S2P Require Import EventLog EventLogProps Observability Engine EngineProps.

Open Scope Z_scope.

(** ** Accepted commands *)

Lemma accepted_command_ok b c b' :
  inbound_ok c → apply_command b c = Val (true, b') → command_ok c.
Proof.
  destruct c as [|o|c|o]; simpl; [done| |done..]. intros Ho Hs. split; [done|].
  revert Hs. unfold submit. by destruct (validate o).
Qed.

Lemma accepted_run_snoc b cs b1 c b2 :
  accepted_run b cs b1 → command_ok c → apply_command b1 c = Val (true, b2) →
  accepted_run b (cs ++ [c]) b2.
Proof.
  induction 1; intros Hc Ha; simpl; eapply accepted_cons; eauto using accepted_nil.
Qed.

Lemma accepted_run_app b cs1 cs2 b2 :
  accepted_run b (cs1 ++ cs2) b2 → ∃ b1, accepted_run b cs1 b1 ∧ accepted_run b1 cs2 b2.
Proof.
  revert b. induction cs1 as [|c cs1 IH]; intros b Hrun; simpl in *; [by eauto using accepted_nil|].
  inversion Hrun as [|? b0 ? ? ? Hc Ha Hrun']; subst.
  destruct (IH b0 Hrun') as (b1 & H1 & H2). exists b1. split; [by eapply accepted_cons|done].
Qed.

Lemma rejected_keeps_book b c b' :
  wf b → inbound_ok c → apply_command b c = Val (false, b') → b' = b.
Proof.
  intros Hwf Hc. destruct c as [|o|o|o]; simpl in *; [congruence|..].
  - destruct (submit_refines_aux o b Hwf Hc) as (r & b1 & Hs & _). rewrite Hs, bind_Val.
    intros [= Hr ->]. pose proof (submit_ids o b r b' Hwf Hc Hs) as [_ H]. by rewrite Hr in H.
  - destruct (cancel_refines_aux o b Hwf) as (r & b1 & Hs & _). rewrite Hs, bind_Val.
    intros [= Hr ->]. pose proof (cancel_ids o b r b' Hwf Hs) as [_ H]. by rewrite Hr in H.
  - destruct (replace_refines_aux o b Hwf Hc) as (r & b1 & Hs & _). rewrite Hs, bind_Val.
    intros [= Hr ->]. pose proof (replace_ids o b r b' Hwf Hc Hs) as [_ H]. by rewrite Hr in H.
Qed.

Section Exchange.
Context {QI QO QM QC : Type}.
Context `{BI : BoundedQueue QI InboundMessage} `{BO : BoundedQueue QO OutboundMessage}.
Context `{BM : BoundedQueue QM MarketDataEvent} `{BC : BoundedQueue QC EventCaptureMessage}.
Context (env : QO → QO) (fuel : nat).

Notation Service := (@Service QI QO QM QC).

Definition with_inbound (q : QI) (s : Service) : Service :=
  mkService (sv_engine s) q (sv_outbound s) (sv_market s) (sv_capture s).
Definition with_outbound (q : QO) (s : Service) : Service :=
  mkService (sv_engine s) (sv_inbound s) q (sv_market s) (sv_capture s).
Definition with_capture (c : option (EventCaptureFeed * QC)) (s : Service) : Service :=
  mkService (sv_engine s) (sv_inbound s) (sv_outbound s) (sv_market s) c.

(** [xc_accepted] records the commands the engine accepted so far. *)
Record exchange : Type := mkExchange {
  xc_service : Service;
  xc_writer : ofstream;
  xc_accepted : list Command;
}.

(** The gateway queues a decoded command or takes a reply, the engine
    processes a message, the recorder drains one captured command. *)
Inductive exchange_step : exchange → exchange → Prop :=
| sys_receive s w cs m pushed q :
    inbound_ok (in_command m) → bq_push m (sv_inbound s) = Val (pushed, q) →
    exchange_step (mkExchange s w cs) (mkExchange (with_inbound q s) w cs)
| sys_send s w cs popped m q :
    bq_pop default_outbound (sv_outbound s) = Val (popped, m, q) →
    exchange_step (mkExchange s w cs) (mkExchange (with_outbound q s) w cs)
| sys_process s s' w cs now m q acc b :
    bq_pop default_inbound (sv_inbound s) = Val (true, m, q) →
    apply_command (book_ (sv_engine s)) (in_command m) = Val (acc, b) →
    process_one env fuel now s = Val (true, s') →
    exchange_step (mkExchange s w cs) (mkExchange s' w (if acc then cs ++ [in_command m] else cs))
| sys_record s w cs f q r q' w' :
    sv_capture s = Some (f, q) → drain_event_capture_one q w = Val (r, q', w') →
    exchange_step (mkExchange s w cs) (mkExchange (with_capture (Some (f, q')) s) w' cs).

(** Unless a capture was dropped, the accepted commands are those written to the
    log followed by those in the capture queue; what was written may still be
    in the stream buffer, or lost when the device is full. *)
Definition logging (s : Service) (w : ofstream) (cs : list Command) : Prop :=
  ∃ f q n queued d,
    sv_capture s = Some (f, q) ∧ bq_rep q n (mkEventCaptureMessage <$> queued) ∧
    dropped_commands_ f = wrap 64 (Z.of_nat d) ∧ (d ≤ length cs)%nat ∧
    (d = 0%nat → ∃ size logged, cs = logged ++ queued ∧ stream size w (log_image logged)).

Definition exchange_inv (x : exchange) : Prop :=
  (∃ inb out, core_ok (xc_service x) inb out) ∧
  accepted_run empty_book (xc_accepted x) (book_ (sv_engine (xc_service x))) ∧
  logging (xc_service x) (xc_writer x) (xc_accepted x).

Context (Henv : consumer_runs env) (Hfuel : (0 < fuel)%nat).

(** Capturing an accepted command. *)
Lemma logging_capture s s' w cs acc c :
  logging s w cs → capture_after acc c (sv_capture s) = Val (sv_capture s') →
  logging s' w (if acc then cs ++ [c] else cs).
Proof.
  intros (f & q & n & queued & d & Hc & Hrep & Hd & Hle & Hlog) Hcap. rewrite Hc in Hcap.
  destruct acc; simpl in Hcap.
  2:{ injection Hcap as Hcap. unfold logging. rewrite <- Hcap. naive_solver. }
  destruct (capture_total c f q n _ Hrep) as (f' & q' & Hcp & Hres). rewrite Hcp, bind_Val in Hcap.
  injection Hcap as Hcap. case_bool_decide.
  - destruct Hres as [Hrep' Hd']. exists f', q', (S n), (queued ++ [c]), d.
    rewrite <- Hcap, fmap_app, length_app. split_and!; [done|done|congruence|lia|].
    intros Hd0. destruct (Hlog Hd0) as (size & logged & -> & ?). exists size, logged.
    by rewrite app_assoc.
  - destruct Hres as [Hrep' Hd']. exists f', q', n, queued, (S d).
    rewrite <- Hcap, length_app. simpl. split_and!; [done|done| |lia|lia].
    rewrite Hd', Hd, Nat2Z.inj_succ, <- Z.add_1_r. apply u64_add_wrap_l.
Qed.

(** Draining a captured command. *)
Lemma logging_drain s w cs f q r q' w' b :
  logging s w cs → accepted_run empty_book cs b → sv_capture s = Some (f, q) →
  drain_event_capture_one q w = Val (r, q', w') →
  logging (with_capture (Some (f, q')) s) w' cs.
Proof.
  intros (f0 & q0 & n & queued & d & Hc & Hrep & Hd & Hle & Hlog) Hrun Hc' Hdr.
  rewrite Hc in Hc'. injection Hc' as -> ->. unfold drain_event_capture_one in Hdr.
  destruct queued as [|c queued].
  - destruct (bq_pop_empty _ _ default_message Hrep) as (q1 & Hp & Hrep'). rewrite Hp, bind_Val in Hdr.
    simpl in Hdr. injection Hdr as _ <- <-. exists f, q1, n, [], d. done.
  - destruct (bq_pop_ok _ _ _ _ default_message Hrep) as (q1 & Hp & Hrep'). rewrite Hp, bind_Val in Hdr.
    simpl in Hdr. destruct (append c w) as [[ok w1]| |] eqn:Ha; simpl in Hdr; try done.
    injection Hdr as _ <- <-. exists f, q1, n, queued, d. split_and!; try done.
    intros Hd0. destruct (Hlog Hd0) as (size & logged & -> & Hst).
    apply accepted_run_ok in Hrun. rewrite Forall_app, Forall_cons in Hrun. destruct Hrun as (_ & Hok & _).
    destruct (append_stream c _ _ _ ltac:(by destruct c) Hst) as (w2 & Ha2 & Hst2).
    rewrite Ha in Ha2. injection Ha2 as -> ->.
    exists size, (logged ++ [c]). rewrite <- app_assoc, log_image_snoc. done.
Qed.

Lemma record_result_keeps m acc now e e' :
  record_command_result m acc now e = Val e' →
  book_ e' = book_ e ∧ order_sessions_ e' = order_sessions_ e ∧
  metrics_ e' = count_result acc (is_cancel (in_command m)) (metrics_ e).
Proof.
  unfold record_command_result. destruct (_ =? 0); cbn [negb]; [by intros [= <-]|].
  intros (h & _ & [= <-])%bind_Val_inv. done.
Qed.

Lemma popped_head q n l m q' :
  bq_rep q n l → bq_pop default_inbound q = Val (true, m, q') → ∃ l', l = m :: l'.
Proof.
  intros Hrep Hp. destruct l as [|m' l'].
  - destruct (bq_pop_empty _ _ default_inbound Hrep) as (? & Hp' & _). congruence.
  - destruct (bq_pop_ok _ _ _ _ default_inbound Hrep) as (? & Hp' & _).
    rewrite Hp in Hp'. injection Hp' as <- _. by eexists.
Qed.

Lemma core_receive s inb out m pushed q :
  core_ok s inb out → inbound_ok (in_command m) → bq_push m (sv_inbound s) = Val (pushed, q) →
  ∃ inb', core_ok (with_inbound q s) inb' out.
Proof.
  intros [(n & Hi) Hc Ho Hwf Hr] Hm Hp. destruct (bq_rep_bound _ _ _ Hi) as [Hle _].
  destruct (decide (length inb = bq_capacity (Q:=QI))) as [Hfull|Hroom].
  - destruct (bq_push_full _ _ _ m Hi Hfull) as (q' & Hp' & Hi'). rewrite Hp in Hp'.
    injection Hp' as _ <-. exists inb. split; simpl; eauto.
  - destruct (bq_push_ok _ _ _ m Hi) as (q' & Hp' & Hi'); [lia|]. rewrite Hp in Hp'.
    injection Hp' as _ <-. exists (inb ++ [m]). split; simpl; [by eauto| |done..].
    apply Forall_app. split; [done|]. by apply Forall_singleton.
Qed.

Lemma core_send s inb out popped m q :
  core_ok s inb out → bq_pop default_outbound (sv_outbound s) = Val (popped, m, q) →
  core_ok (with_outbound q s) inb out.
Proof.
  intros [Hi Hc (n & k & Hk & Ho) Hwf Hr] Hp. split; simpl; try done. exists n.
  destruct (drop k out) as [|m' l'] eqn:Hd.
  - destruct (bq_pop_empty _ _ default_outbound Ho) as (q' & Hp' & Ho'). rewrite Hp in Hp'.
    injection Hp' as _ _ <-. exists k. by rewrite Hd.
  - destruct (bq_pop_ok _ _ _ _ default_outbound Ho) as (q' & Hp' & Ho'). rewrite Hp in Hp'.
    injection Hp' as _ _ <-. apply (f_equal length) in Hd as Hlen. rewrite length_drop in Hlen.
    simpl in Hlen. exists (S k). split; [lia|].
    by rewrite <- Nat.add_1_r, <- drop_drop, Hd.
Qed.

Lemma exchange_inv_process s s' w cs now m q acc b :
  exchange_inv (mkExchange s w cs) → bq_pop default_inbound (sv_inbound s) = Val (true, m, q) →
  apply_command (book_ (sv_engine s)) (in_command m) = Val (acc, b) →
  process_one env fuel now s = Val (true, s') →
  exchange_inv (mkExchange s' w (if acc then cs ++ [in_command m] else cs)).
Proof.
  intros ((inb & out & Hcore) & Hrun & Hlog) Hpop Ha Hp. cbn [xc_service xc_accepted xc_writer] in *.
  destruct (co_inbound _ _ _ Hcore) as (n & Hi). destruct (popped_head _ _ _ _ _ Hi Hpop) as (inb' & ->).
  destruct (process_one_runs env Henv fuel now s m inb' out Hfuel Hcore)
    as (acc1 & e1 & outbound & inbound & msgs & Ha1 & _ & Hst & Hi' & Hwf & Hr & _ & Heq).
  rewrite Ha1 in Ha. injection Ha as -> <-. rewrite Heq in Hp.
  apply bind_Val_inv in Hp as (e2 & (Hb2 & Hs2 & _)%record_result_keeps & Hp).
  apply bind_Val_inv in Hp as (cap & Hcap & Hp). apply bind_Val_inv in Hp as (mkt & _ & Hp).
  injection Hp as <-. destruct Hcore as [_ Hc _ Hwf0 _]. apply Forall_cons in Hc as [Hm Hc].
  split_and!; simpl.
  - exists inb', (out ++ msgs). split; simpl; try done; rewrite ?Hb2; try done.
    unfold routed in *. by rewrite Hs2, Hb2.
  - rewrite Hb2. destruct acc; [|by rewrite (rejected_keeps_book _ _ _ Hwf0 Hm Ha1)].
    eapply accepted_run_snoc; [done| |done]. by eapply accepted_command_ok.
  - by eapply logging_capture.
Qed.

Lemma exchange_inv_step x y : exchange_inv x → exchange_step x y → exchange_inv y.
Proof.
  intros Hinv Hstep. destruct Hstep.
  - destruct Hinv as ((inb & out & Hcore) & Hrun & Hlog). simpl in *.
    edestruct core_receive as (inb' & Hcore'); [done..|]. split; [by eauto|done].
  - destruct Hinv as ((inb & out & Hcore) & Hrun & Hlog). simpl in *.
    split; [|done]. exists inb, out. by eapply core_send.
  - by eapply exchange_inv_process.
  - destruct Hinv as ((inb & out & Hcore) & Hrun & Hlog). simpl in *.
    split_and!; [by destruct Hcore; exists inb, out|done|by eapply logging_drain].
Qed.

(** Everything empty: a new engine, empty queues, a new log. *)
Definition started (qi : QI) (qo : QO) (qc : QC) (market : option (MarketDataFeed * QM))
    (spill : nat → nat → nat) (room : nat) : exchange :=
  mkExchange (mkService new_engine qi qo market (Some (new_capture_feed, qc)))
    (open_log spill room) [].

Lemma service_ok_started qi qo qc market spill room :
  bq_rep qi 0 [] → bq_rep qo 0 [] → bq_rep qc 0 [] → market_ready market →
  service_ok (xc_service (started qi qo qc market spill room)) [] [].
Proof.
  intros Hi Ho Hc Hm. split; [|done|done|by exists 0%nat, []]. split; simpl; try done.
  - by eexists.
  - exists 0%nat, 0%nat. done.
  - apply wf_empty.
Qed.

Lemma exchange_inv_started qi qo qc market spill room :
  bq_rep qi 0 [] → bq_rep qo 0 [] → bq_rep qc 0 [] → exchange_inv (started qi qo qc market spill room).
Proof.
  intros Hi Ho Hc. split_and!; simpl.
  - exists [], []. destruct (so_core _ _ _ (service_ok_started qi qo qc None spill room Hi Ho Hc I)).
    by split.
  - apply accepted_nil.
  - exists new_capture_feed, qc, 0%nat, [], 0%nat. split_and!; try done. intros _.
    exists room, []. split; [done|]. apply stream_open.
Qed.

Lemma exchange_inv_reachable qi qo qc market spill room x :
  bq_rep qi 0 [] → bq_rep qo 0 [] → bq_rep qc 0 [] →
  rtc exchange_step (started qi qo qc market spill room) x → exchange_inv x.
Proof.
  intros Hi Ho Hc Hr. assert (∀ x y, rtc exchange_step x y → exchange_inv x → exchange_inv y) as H
    by (induction 1; eauto using exchange_inv_step).
  eapply H; [done|]. by apply exchange_inv_started.
Qed.
End Exchange.

(** ** Claims *)

(** C3. One message, one step.  Assume that the consumer takes a message
    whenever the engine yields on a full outbound queue ([consumer_runs]), that
    the clock reading minus the time of receipt fits in 64 bits, and, when a
    market feed is attached, that no level total of the resulting book reaches
    2^64 (otherwise [copy_depth] and with it publishing can be undefined).  When
    the inbound queue holds a command, [process_one] returns, for every positive
    number of retries of a full outbound queue; the command is applied to the
    book exactly as by [apply_command], the outbound stream grows by its
    replies, which are well framed (the sender gets its executions with the
    more flag and one terminal message without it, the owners of the orders hit
    get one unframed execution each), the command is captured exactly when it
    was accepted, the new book is published, and the invariant of the service
    (a well-formed book, a routing table with exactly the resting orders)
    holds again. *)
Theorem process_one_correct {QI QO QM QC} `{BI : BoundedQueue QI InboundMessage}
    `{BO : BoundedQueue QO OutboundMessage} `{BM : BoundedQueue QM MarketDataEvent}
    `{BC : BoundedQueue QC EventCaptureMessage} (env : QO → QO) fuel now (s : Service) m inb out :
  consumer_runs env → (0 < fuel)%nat → service_ok s (m :: inb) out → in_command m ≠ monostate →
  now - in_received_at m ≤ u64_max →
  (∀ acc b, apply_command (book_ (sv_engine s)) (in_command m) = Val (acc, b) →
     sv_market s ≠ None → no_overflow b) →
  ∃ acc s' msgs, process_one env fuel now s = Val (true, s') ∧
    service_ok s' inb (out ++ msgs) ∧
    apply_command (book_ (sv_engine s)) (in_command m) = Val (acc, book_ (sv_engine s')) ∧
    replies m (book_ (sv_engine s)) (book_ (sv_engine s')) (order_sessions_ (sv_engine s)) msgs ∧
    well_framed (in_session_id m) msgs ∧
    capture_after acc (in_command m) (sv_capture s) = Val (sv_capture s') ∧
    publish_after (book_ (sv_engine s')) (sv_market s) = Val (sv_market s').
Proof.
  intros Henv Hf Hok Hne Hnow Hno.
  destruct (process_one_ok env Henv fuel now s m inb out Hf Hok Hnow Hno)
    as (acc & s' & msgs & Hp & Hok' & Ha & Hrep & Hcap & Hpub).
  exists acc, s', msgs. split_and!; try done. eapply replies_framed; [apply Hok|done|done].
Qed.

(** [process_available] empties the inbound queue: it returns the number
    of queued messages, having applied their commands in order and answered
    each with its own framed block of replies, in the same order (as many
    iterations as messages are enough). *)
Lemma process_available_drains {QI QO QM QC} `{BI : BoundedQueue QI InboundMessage}
    `{BO : BoundedQueue QO OutboundMessage} `{BM : BoundedQueue QM MarketDataEvent}
    `{BC : BoundedQueue QC EventCaptureMessage} (env : QO → QO) fuel clock (s : Service) inb out :
  consumer_runs env → (0 < fuel)%nat → service_ok s inb out →
  Z.of_nat (length inb) ≤ u64_max →
  (∀ i m, m ∈ inb → clock i - in_received_at m ≤ u64_max) →
  (sv_market s ≠ None → ∀ cs1 cs2 accs b, in_command <$> inb = cs1 ++ cs2 → cs1 ≠ [] →
     apply_all (book_ (sv_engine s)) cs1 = Val (accs, b) → no_overflow b) →
  ∃ s' accs blocks,
    process_available env (length inb) fuel clock 0 s = Val (Z.of_nat (length inb), s') ∧
    service_ok s' [] (out ++ concat blocks) ∧ answered inb blocks ∧
    apply_all (book_ (sv_engine s)) (in_command <$> inb) = Val (accs, book_ (sv_engine s')).
Proof.
  intros Henv Hf Hok Hlen Hclk Hno. rewrite <- (Z.add_0_l (Z.of_nat (length inb))).
  apply process_available_ok; (done || lia).
Qed.

(** C15. Replies find their owner: in every reachable state of the engine among
    its threads the routing table has an entry for exactly the orders that
    rest in the book. *)
Theorem routing_table_exact {QI QO QM QC} `{BI : BoundedQueue QI InboundMessage}
    `{BO : BoundedQueue QO OutboundMessage} `{BM : BoundedQueue QM MarketDataEvent}
    `{BC : BoundedQueue QC EventCaptureMessage} (env : QO → QO) fuel qi qo qc
    (market : option (MarketDataFeed * QM)) spill room x id :
  consumer_runs env → (0 < fuel)%nat → bq_rep qi 0 [] → bq_rep qo 0 [] → bq_rep qc 0 [] →
  rtc (exchange_step env fuel) (started qi qo qc market spill room) x →
  let e := sv_engine (xc_service x) in
  is_Some (order_sessions_ e !! id) ↔ contains id (book_ e) = true.
Proof.
  intros Henv Hf Hi Ho Hc Hr.
  destruct (exchange_inv_reachable env fuel Henv Hf _ _ _ _ _ _ _ Hi Ho Hc Hr)
    as ((inb & out & [_ _ _ _ Hrt]) & _). unfold routed in Hrt. unfold contains.
  rewrite bool_decide_eq_true, <- !elem_of_dom, Hrt. done.
Qed.

(** C4. The log follows the engine: with a gateway that takes a reply whenever
    the engine waits for room, in every reachable state in which no capture was
    dropped and fewer than 2^64 commands were accepted, the commands the engine accepted are those handed to
    the log writer followed by those still in the capture queue.  Whenever the
    stream empties its buffer and whether or not the device filled up, the file
    as it stands replays to a book the engine went through: the one after the
    whole records in it, with a truncation error when the last record is not
    yet complete.  A flush succeeds when the device takes what the buffer holds,
    and once it succeeds the file replays without error to the book after all
    the commands handed to the writer, which is the engine's own book when the
    capture queue is empty. *)
Theorem log_replays_engine {QI QO QM QC} `{BI : BoundedQueue QI InboundMessage}
    `{BO : BoundedQueue QO OutboundMessage} `{BM : BoundedQueue QM MarketDataEvent}
    `{BC : BoundedQueue QC EventCaptureMessage} (env : QO → QO) fuel qi qo qc
    (market : option (MarketDataFeed * QM)) spill room x f q :
  consumer_runs env → (0 < fuel)%nat → bq_rep qi 0 [] → bq_rep qo 0 [] → bq_rep qc 0 [] →
  rtc (exchange_step env fuel) (started qi qo qc market spill room) x →
  sv_capture (xc_service x) = Some (f, q) → dropped_commands_ f = 0 →
  Z.of_nat (length (xc_accepted x)) < 2 ^ 64 →
  let w := xc_writer x in
  ∃ n logged queued b k bk e w',
    bq_rep q n (mkEventCaptureMessage <$> queued) ∧ xc_accepted x = logged ++ queued ∧
    accepted_run empty_book logged b ∧
    accepted_run b queued (book_ (sv_engine (xc_service x))) ∧
    (queued = [] → b = book_ (sv_engine (xc_service x))) ∧
    recovered logged (os_device w) k e ∧ accepted_run empty_book (take k logged) bk ∧
    replay_event_log (Some (os_device w))
    = Val (mkReplayResult e (Z.of_nat k) (state_digest bk)) ∧
    flush w = (os_good w', w') ∧
    (os_good w = true → (length (os_buffer w) ≤ os_room w)%nat → os_good w' = true) ∧
    (os_good w' = true → replay_event_log (Some (os_device w'))
     = Val (mkReplayResult None (Z.of_nat (length logged)) (state_digest b))).
Proof.
  intros Henv Hf Hi Ho Hc Hr Hcap Hd Hn w.
  destruct (exchange_inv_reachable env fuel Henv Hf _ _ _ _ _ _ _ Hi Ho Hc Hr)
    as (_ & Hrun & (f' & q' & n & queued & d & Hcap' & Hrep & Hd' & Hle & Hlog)).
  rewrite Hcap in Hcap'. injection Hcap' as <- <-.
  rewrite Hd, wrap_small in Hd' by lia. destruct Hlog as (size & logged & Heq & Hst); [lia|].
  change (stream size w (log_image logged)) in Hst. rewrite Heq in Hrun, Hn. rewrite length_app in Hn.
  destruct (accepted_run_app _ _ _ _ Hrun) as (b & Hrun1 & Hrun2).
  destruct (replay_log_prefix logged b (os_device w) Hrun1) as (k & bk & e & Hrc & Hk & Hrp);
    [lia|by eapply stream_device|].
  exists n, logged, queued, b, k, bk, e, (os_flush w). split_and!; try done.
  - intros ->. by inversion Hrun2.
  - destruct (os_flush_stream _ _ _ Hst) as (-> & _ & _). intros Hg Hfit.
    apply bool_decide_eq_true_2. revert Hst. unfold stream. rewrite Hg. intros [<- <-].
    rewrite length_app. lia.
  - destruct (os_flush_stream _ _ _ Hst) as (-> & -> & _). intros Hg%bool_decide_eq_true.
    rewrite take_ge by done. apply replay_log_image; [done|lia].
Qed.

(** ** Witnesses

    The production queues, a gateway that takes one reply whenever the engine
    yields, and two sell orders from different sessions. *)

Definition inbound_queue : BoundedQueue (BoundedSPSCQueue.Queue InboundMessage) InboundMessage :=
  spsc_bounded_queue 4096 (λ m, m) eq_refl.
Definition outbound_queue : BoundedQueue (BoundedSPSCQueue.Queue OutboundMessage) OutboundMessage :=
  spsc_bounded_queue 4096 (λ m, m) eq_refl.

#[local] Existing Instance inbound_queue.
#[local] Existing Instance outbound_queue.
#[local] Existing Instance capture_queue.
#[local] Existing Instance md_queue.

Definition take_one (q : BoundedSPSCQueue.Queue OutboundMessage) :
    BoundedSPSCQueue.Queue OutboundMessage :=
  (value_of (bq_pop default_outbound q) (false, default_outbound, q)).2.

Lemma take_one_runs : consumer_runs take_one.
Proof.
  split; [by apply Nat.ltb_lt|]. intros q n l Hrep. unfold take_one. destruct l as [|m l].
  - destruct (bq_pop_empty _ _ default_outbound Hrep) as (q' & -> & Hrep'). by exists 0%nat.
  - destruct (bq_pop_ok _ _ _ _ default_outbound Hrep) as (q' & -> & Hrep'). exists 1%nat.
    split; [done|lia].
Qed.

Definition empty_in := BoundedSPSCQueue.new_queue 4096 default_inbound.
Definition empty_out := BoundedSPSCQueue.new_queue 4096 default_outbound.
Definition empty_cap := BoundedSPSCQueue.new_queue 4096 default_message.

Lemma empty_queues :
  bq_rep empty_in 0 [] ∧ bq_rep empty_out 0 [] ∧ bq_rep empty_cap 0 [].
Proof. split_and!; by apply queue_rep_init. Qed.

Definition demo_inbound1 : InboundMessage :=
  mkInboundMessage 7 (CmdNew (demo_order 1 1 sell 10 100)) 56 1000.
Definition demo_inbound2 : InboundMessage :=
  mkInboundMessage 8 (CmdNew (demo_order 2 2 buy 4 100)) 56 1000.

Definition demo_in1 := (value_of (bq_push demo_inbound1 empty_in) (false, empty_in)).2.
Definition demo_in2 := (value_of (bq_push demo_inbound2 demo_in1) (false, demo_in1)).2.

Definition demo_service (q : BoundedSPSCQueue.Queue InboundMessage) :=
  mkService new_engine q empty_out (Some (new_feed 64, md_empty)) (Some (new_capture_feed, empty_cap)).

Lemma demo_in_rep : bq_rep demo_in1 1 [demo_inbound1] ∧ bq_rep demo_in2 2 [demo_inbound1; demo_inbound2].
Proof.
  assert (bq_rep demo_in1 1 [demo_inbound1]) as H1.
  { destruct empty_queues as (Hq & _). unfold demo_in1.
    destruct (bq_push_ok _ _ _ demo_inbound1 Hq) as (q' & -> & Hrep); [by apply Nat.ltb_lt|done]. }
  split; [done|]. unfold demo_in2.
  destruct (bq_push_ok _ _ _ demo_inbound2 H1) as (q' & -> & Hrep); [by apply Nat.ltb_lt|done].
Qed.

Lemma demo_inbound_ok : inbound_ok (in_command demo_inbound1) ∧ inbound_ok (in_command demo_inbound2).
Proof. split; unfold inbound_ok, demo_inbound1, demo_inbound2; cbn [in_command]; cmd_wf. Qed.

Lemma demo_service_ok :
  service_ok (demo_service demo_in2) [demo_inbound1; demo_inbound2] [].
Proof.
  destruct empty_queues as (Hi & Ho & Hc). destruct demo_in_rep as [_ Hrep], demo_inbound_ok.
  destruct (service_ok_started empty_in empty_out empty_cap (Some (new_feed 64, md_empty))
    (filebuf_spill 8191) 0 Hi Ho Hc)
    as [[] ? ? ?].
  - exists new_market_data_book, [], 0%nat, []. apply (md_inv_start (BQ:=md_queue) 64 md_empty);
      [done|exact md_empty_rep].
  - split; [|done..]. split; try done; [by eexists|]. by repeat constructor.
Qed.

Definition book_after (b : OrderBook) (c : Command) : OrderBook :=
  (value_of (apply_command b c) (false, b)).2.
Definition demo_first := book_after empty_book (in_command demo_inbound1).
Definition demo_second := book_after demo_first (in_command demo_inbound2).

Lemma demo_first_eq : apply_command empty_book (in_command demo_inbound1) = Val (true, demo_first).
Proof. by vm_compute. Qed.
Lemma demo_second_eq : apply_command demo_first (in_command demo_inbound2) = Val (true, demo_second).
Proof. by vm_compute. Qed.

Lemma demo_steps_fit : no_overflow demo_first ∧ no_overflow demo_second.
Proof. split; intros s; apply (bool_decide_unpack _); destruct s; vm_compute; exact I. Qed.

Lemma process_one_correct_witness :
  ∃ s' msgs, process_one take_one 1 2000 (demo_service demo_in2) = Val (true, s') ∧
    well_framed 7 msgs ∧ service_ok s' [demo_inbound2] ([] ++ msgs).
Proof.
  destruct (process_one_correct take_one 1 2000 (demo_service demo_in2) demo_inbound1 [demo_inbound2] [])
    as (acc & s' & msgs & H1 & H2 & _ & _ & H5 & _);
    [exact take_one_runs|lia|exact demo_service_ok|done|vm_compute; discriminate| |].
  - intros acc b Ha _. cbn [demo_service sv_engine new_engine book_] in Ha.
    rewrite demo_first_eq in Ha. injection Ha as _ <-.
    apply demo_steps_fit.
  - exists s', msgs. split_and!; [exact H1|exact H5|exact H2].
Defined.

Lemma process_available_drains_witness :
  ∃ s' accs blocks,
    process_available take_one 2 1 (λ _, 2000) 0 (demo_service demo_in2) = Val (2, s') ∧
    service_ok s' [] ([] ++ concat blocks) ∧ answered [demo_inbound1; demo_inbound2] blocks ∧
    apply_all empty_book (in_command <$> [demo_inbound1; demo_inbound2])
    = Val (accs, book_ (sv_engine s')).
Proof.
  apply (process_available_drains take_one 1 (λ _, 2000) (demo_service demo_in2)
    [demo_inbound1; demo_inbound2] []);
    [exact take_one_runs|lia|exact demo_service_ok|vm_compute; discriminate| |].
  - intros _ m Hm. assert (in_received_at m = 1000) as -> by set_solver. vm_compute. discriminate.
  - cbn [demo_service sv_engine new_engine book_]. intros _ cs1 cs2 accs b Heq Hne Hall.
    rewrite !fmap_cons, fmap_nil in Heq.
    destruct cs1 as [|c1 [|c2 [|c3 cs1]]]; [done|..]; cbn [app] in Heq;
      [injection Heq as <- _|injection Heq as <- <- _|discriminate Heq].
    + change (CmdNew (demo_order 1 1 sell 10 100)) with (in_command demo_inbound1) in Hall.
      cbn [apply_all] in Hall. rewrite demo_first_eq, bind_Val in Hall.
      injection Hall as _ <-. apply demo_steps_fit.
    + change (CmdNew (demo_order 1 1 sell 10 100)) with (in_command demo_inbound1) in Hall.
      change (CmdNew (demo_order 2 2 buy 4 100)) with (in_command demo_inbound2) in Hall.
      cbn [apply_all] in Hall. rewrite demo_first_eq, bind_Val, demo_second_eq, bind_Val in Hall.
      injection Hall as _ <-. apply demo_steps_fit.
Defined.

(** A run: the gateway queues the first message, the engine processes it, the
    recorder logs it. *)
Definition demo_spill : nat → nat → nat := filebuf_spill 8191.
Definition demo_start := started empty_in empty_out empty_cap
  (None : option (MarketDataFeed * BoundedSPSCQueue.Queue MarketDataEvent)) demo_spill 100.
Definition demo_received := with_inbound demo_in1 (xc_service demo_start).
Definition demo_processed :=
  (value_of (process_one take_one 1 2000 demo_received) (false, demo_received)).2.
Definition demo_feed := default (new_capture_feed, empty_cap) (sv_capture demo_processed).
Definition demo_recorded :=
  value_of (drain_event_capture_one demo_feed.2 (open_log demo_spill 100))
    (false, empty_cap, open_log demo_spill 100).
Definition demo_final := mkExchange
  (with_capture (Some (demo_feed.1, demo_recorded.1.2)) demo_processed) demo_recorded.2
  [in_command demo_inbound1].

Lemma demo_exchange_reachable : rtc (exchange_step take_one 1) demo_start demo_final.
Proof.
  eapply rtc_l; [eapply (sys_receive _ _ _ _ _ demo_inbound1 true demo_in1);
    [apply demo_inbound_ok|by vm_compute]|].
  eapply rtc_l; [eapply (sys_process _ _ _ demo_processed _ _ 2000 demo_inbound1
    (value_of (bq_pop default_inbound demo_in1) (false, default_inbound, demo_in1)).2 true demo_first);
    by vm_compute|].
  eapply rtc_once, (sys_record _ _ _ _ _ demo_feed.1 demo_feed.2 true demo_recorded.1.2 demo_recorded.2);
    by vm_compute.
Qed.

Lemma routing_table_exact_witness :
  is_Some (order_sessions_ (sv_engine (xc_service demo_final)) !! OrderId.mk 1) ↔
  contains (OrderId.mk 1) (book_ (sv_engine (xc_service demo_final))) = true.
Proof.
  destruct empty_queues as (Hi & Ho & Hc).
  apply (routing_table_exact take_one 1 empty_in empty_out empty_cap None demo_spill 100 demo_final);
    [exact take_one_runs|lia|exact Hi|exact Ho|exact Hc|exact demo_exchange_reachable].
Defined.

(** Nothing has reached the file yet; the flush brings it up to date. *)
Lemma log_replays_engine_witness :
  os_device demo_recorded.2 = [] ∧
  ∃ n logged queued b k bk e w',
    bq_rep demo_recorded.1.2 n (mkEventCaptureMessage <$> queued) ∧
    [in_command demo_inbound1] = logged ++ queued ∧
    accepted_run empty_book logged b ∧
    accepted_run b queued (book_ (sv_engine (xc_service demo_final))) ∧
    (queued = [] → b = book_ (sv_engine (xc_service demo_final))) ∧
    recovered logged (os_device demo_recorded.2) k e ∧ accepted_run empty_book (take k logged) bk ∧
    replay_event_log (Some (os_device demo_recorded.2))
    = Val (mkReplayResult e (Z.of_nat k) (state_digest bk)) ∧
    flush demo_recorded.2 = (os_good w', w') ∧
    (os_good demo_recorded.2 = true →
     (length (os_buffer demo_recorded.2) ≤ os_room demo_recorded.2)%nat → os_good w' = true) ∧
    (os_good w' = true → replay_event_log (Some (os_device w'))
     = Val (mkReplayResult None (Z.of_nat (length logged)) (state_digest b))).
Proof.
  split; [by vm_compute|]. destruct empty_queues as (Hi & Ho & Hc).
  apply (log_replays_engine take_one 1 empty_in empty_out empty_cap None demo_spill 100 demo_final
    demo_feed.1);
    [exact take_one_runs|lia|exact Hi|exact Ho|exact Hc|exact demo_exchange_reachable
    |reflexivity|by vm_compute|by vm_compute].
Defined.
