(* ===== verification/Gateway.v ===== *)
(** * The TCP gateway and its sessions

    Models [TcpSession] and [TcpGateway] of [src/tcp_gateway.cpp] with the
    serializers in front of them.

    Boost.Asio is a parameter: an operation that was started is a field of the
    session or of the gateway ([pending_read], [pending_write],
    [pending_accept], [pending_timer]), and its completion handler is a
    definition that takes the result of the operation as an argument, [None]
    for an error code.  Handlers run one at a time, on the thread of the
    [io_context].

    A session lives as long as a handler holds it, also after the gateway
    forgot it: [gw_objects] are the session objects ever created, by session
    id, and [gw_sessions] the keys of [sessions_]. *)

From stdpp Require Import prelude gmap list.
From Stdlib Require Import ZArith Lia.
From S2P Require Import Prelude Types OrderBook Bytes Protocol Spsc EventLog Engine.

Open Scope Z_scope.
Import layout.

(** ** Frames *)

(** One branch of the chain in [serialize_outbound]: encode into the first
    [size] bytes of the buffer. *)
Definition encode_branch (encode : span → outcome (bool * span)) (size : nat) (payload_buf : span)
  : outcome (bool * nat * span) :=
  '(encoded, head) ← encode (take size payload_buf);
  Val (encoded, size, head ++ drop size payload_buf).

Definition serialize_outbound (msg : OutboundMessage) : outcome (list Z) :=
  let payload_buf := replicate (Z.to_nat kMaxPayloadLength) 0 in
  '(encoded, payload_size, payload_buf) ←
    match out_payload msg with
    | PayloadOrderAccepted e => encode_branch (encode_order_accepted e) kOrderAcceptedSize payload_buf
    | PayloadOrderRejected e => encode_branch (encode_order_rejected e) kOrderRejectedSize payload_buf
    | PayloadExecution e => encode_branch (encode_execution e) kExecutionSize payload_buf
    | PayloadCancelAccepted e => encode_branch (encode_cancel_accepted e) kCancelAcceptedSize payload_buf
    | PayloadProtocolError e => encode_branch (encode_protocol_error e) kProtocolErrorSize payload_buf
    | PayloadNone => Val (false, 0%nat, payload_buf)
    end;
  if negb encoded then Val [] else
  '(ok, frame) ← encode_frame (out_type msg) (take payload_size payload_buf)
    (replicate (kHeaderSize + payload_size) 0) (out_flags msg);
  if negb ok then Val [] else Val frame.

Definition make_error_frame (code : ErrorCode.t) (offending : Z) : outcome (list Z) :=
  let event := {| pe_error_code := code; pe_offending_type := offending |} in
  '(ok, payload) ← encode_protocol_error event (replicate kProtocolErrorSize 0);
  if negb ok then Val [] else
  '(ok, frame) ← encode_frame MessageType.protocol_error payload
    (replicate (kHeaderSize + length payload) 0) 0;
  if negb ok then Val [] else Val frame.

(** ** Sessions *)

Inductive PendingRead : Type :=
| NoRead
| ReadHeader
| ReadPayload (header : WireHeader).

Record TcpSession : Type := mkSession {
  socket_open : bool;
  header_buf_ : list Z;
  payload_buf_ : list Z;
  write_queue_ : list (list Z);
  ts_last_sequence_ : Z;
  close_after_write_ : bool;
  pending_read : PendingRead;
  pending_write : bool;
}.

Definition new_session : TcpSession :=
  mkSession true (replicate kHeaderSize 0) (replicate (Z.to_nat kMaxPayloadLength) 0) [] 0 false
    NoRead false.

Definition set_buffers (h p : list Z) (s : TcpSession) : TcpSession :=
  mkSession (socket_open s) h p (write_queue_ s) (ts_last_sequence_ s) (close_after_write_ s)
    (pending_read s) (pending_write s).
Definition set_write_queue (q : list (list Z)) (s : TcpSession) : TcpSession :=
  mkSession (socket_open s) (header_buf_ s) (payload_buf_ s) q (ts_last_sequence_ s)
    (close_after_write_ s) (pending_read s) (pending_write s).
Definition set_last_sequence (n : Z) (s : TcpSession) : TcpSession :=
  mkSession (socket_open s) (header_buf_ s) (payload_buf_ s) (write_queue_ s) n
    (close_after_write_ s) (pending_read s) (pending_write s).
Definition set_close_after_write (b : bool) (s : TcpSession) : TcpSession :=
  mkSession (socket_open s) (header_buf_ s) (payload_buf_ s) (write_queue_ s) (ts_last_sequence_ s)
    b (pending_read s) (pending_write s).
Definition set_pending_read (r : PendingRead) (s : TcpSession) : TcpSession :=
  mkSession (socket_open s) (header_buf_ s) (payload_buf_ s) (write_queue_ s) (ts_last_sequence_ s)
    (close_after_write_ s) r (pending_write s).
Definition set_pending_write (b : bool) (s : TcpSession) : TcpSession :=
  mkSession (socket_open s) (header_buf_ s) (payload_buf_ s) (write_queue_ s) (ts_last_sequence_ s)
    (close_after_write_ s) (pending_read s) b.

Definition close (s : TcpSession) : TcpSession :=
  mkSession false (header_buf_ s) (payload_buf_ s) (write_queue_ s) (ts_last_sequence_ s)
    (close_after_write_ s) (pending_read s) (pending_write s).

(** Starting the asynchronous operations. *)
Definition do_read_header (s : TcpSession) : TcpSession := set_pending_read ReadHeader s.
Definition do_read_payload (header : WireHeader) (s : TcpSession) : TcpSession :=
  set_pending_read (ReadPayload header) s.
Definition do_write (s : TcpSession) : TcpSession := set_pending_write true s.

Definition send_raw_frame (frame : list Z) (s : TcpSession) : TcpSession :=
  if bool_decide (frame = []) || negb (socket_open s) then s
  else
    let write_in_progress := negb (bool_decide (write_queue_ s = [])) in
    let s := set_write_queue (write_queue_ s ++ [frame]) s in
    if negb write_in_progress then do_write s else s.

(** ** The gateway *)

Section Gateway.
Context {QI QO : Type}.
Context `{BI : BoundedQueue QI InboundMessage} `{BO : BoundedQueue QO OutboundMessage}.

(** [gw_history] is not part of the program: it records the messages the
    gateway put into the inbound queue, in order. *)
Record TcpGateway : Type := mkGateway {
  gw_inbound : QI;
  gw_outbound : QO;
  next_session_id_ : Z;
  gw_objects : gmap Z TcpSession;
  gw_sessions : gset Z;
  stopped_ : bool;
  pending_accept : bool;
  pending_timer : bool;
  gw_history : list InboundMessage;
}.

Definition new_gateway (inbound : QI) (outbound : QO) : TcpGateway :=
  mkGateway inbound outbound 1 ∅ ∅ true false false [].

Definition set_sessions (ids : gset Z) (g : TcpGateway) : TcpGateway :=
  mkGateway (gw_inbound g) (gw_outbound g) (next_session_id_ g) (gw_objects g) ids (stopped_ g)
    (pending_accept g) (pending_timer g) (gw_history g).
Definition set_objects (os : gmap Z TcpSession) (g : TcpGateway) : TcpGateway :=
  mkGateway (gw_inbound g) (gw_outbound g) (next_session_id_ g) os (gw_sessions g) (stopped_ g)
    (pending_accept g) (pending_timer g) (gw_history g).
Definition set_inbound (q : QI) (h : list InboundMessage) (g : TcpGateway) : TcpGateway :=
  mkGateway q (gw_outbound g) (next_session_id_ g) (gw_objects g) (gw_sessions g) (stopped_ g)
    (pending_accept g) (pending_timer g) h.
Definition set_outbound (q : QO) (g : TcpGateway) : TcpGateway :=
  mkGateway (gw_inbound g) q (next_session_id_ g) (gw_objects g) (gw_sessions g) (stopped_ g)
    (pending_accept g) (pending_timer g) (gw_history g).
Definition set_next_session_id (n : Z) (g : TcpGateway) : TcpGateway :=
  mkGateway (gw_inbound g) (gw_outbound g) n (gw_objects g) (gw_sessions g) (stopped_ g)
    (pending_accept g) (pending_timer g) (gw_history g).
Definition set_flags (stopped accept timer : bool) (g : TcpGateway) : TcpGateway :=
  mkGateway (gw_inbound g) (gw_outbound g) (next_session_id_ g) (gw_objects g) (gw_sessions g)
    stopped accept timer (gw_history g).

Definition unregister_session (session_id : Z) (g : TcpGateway) : TcpGateway :=
  set_sessions (gw_sessions g ∖ {[session_id]}) g.

(** ** Members of [TcpSession] that use the gateway *)

Definition send_protocol_error (session_id : Z) (code : ErrorCode.t) (offending_type : Z)
    (fatal : bool) (s : TcpSession) (g : TcpGateway) : outcome (TcpSession * TcpGateway) :=
  let s := if fatal then set_close_after_write true s else s in
  frame ← make_error_frame code offending_type;
  if bool_decide (frame = []) then Val (close s, unregister_session session_id g)
  else Val (send_raw_frame frame s, g).

(** [now] is the reading of the clock. *)
Definition enqueue_command (session_id now sequence : Z) (type : MessageType.t) (command : Command)
    (s : TcpSession) (g : TcpGateway) : outcome (bool * TcpSession * TcpGateway) :=
  if sequence <=? ts_last_sequence_ s then
    '(s, g) ← send_protocol_error session_id ErrorCode.sequence_out_of_order type true s g;
    Val (false, s, g)
  else
    let payload_size := default 0 (expected_payload_length type) in
    let msg := mkInboundMessage session_id command
                 (wrap 32 (Z.of_nat kHeaderSize + payload_size)) now in
    '(pushed, q) ← bq_push msg (gw_inbound g);
    if negb pushed then
      '(s, g) ← send_protocol_error session_id ErrorCode.session_overloaded type true s
                  (set_inbound q (gw_history g) g);
      Val (false, s, g)
    else Val (true, set_last_sequence sequence s, set_inbound q (gw_history g ++ [msg]) g).

(** The handler of [do_read_header]: the bytes read, or an error. *)
Definition on_header (session_id : Z) (result : option (list Z)) (s : TcpSession) (g : TcpGateway)
  : outcome (TcpSession * TcpGateway) :=
  let s := set_pending_read NoRead s in
  match result with
  | None => Val (s, unregister_session session_id g)
  | Some bytes =>
      let s := set_buffers bytes (payload_buf_ s) s in
      header ← decode_header (header_buf_ s);
      match header with
      | None =>
          '(s, g) ← send_protocol_error session_id ErrorCode.malformed_frame 0 true s g;
          Val (s, unregister_session session_id g)
      | Some header =>
          match validate_header header with
          | Some err => send_protocol_error session_id err (wh_type header) true s g
          | None => Val (do_read_payload header s, g)
          end
      end
  end.

(** A case of the switch behind its decoder: an error is reported, a command
    is queued, and reading goes on only when that succeeded. *)
Definition after_decode (session_id now : Z) (type : MessageType.t) (err : option ErrorCode.t)
    (sequence : SequenceNumber.t) (command : Command) (s : TcpSession) (g : TcpGateway)
  : outcome (TcpSession * TcpGateway) :=
  match err with
  | Some err => send_protocol_error session_id err type true s g
  | None =>
      '(ok, s, g) ← enqueue_command session_id now (SequenceNumber.value sequence) type command s g;
      if negb ok then Val (s, g) else Val (do_read_header s, g)
  end.

(** The handler of [do_read_payload]. *)
Definition on_payload (session_id now : Z) (header : WireHeader) (result : option (list Z))
    (s : TcpSession) (g : TcpGateway) : outcome (TcpSession * TcpGateway) :=
  let s := set_pending_read NoRead s in
  match result with
  | None => Val (s, unregister_session session_id g)
  | Some bytes =>
      let n := Z.to_nat (payload_length header) in
      let s := set_buffers (header_buf_ s) (bytes ++ drop n (payload_buf_ s)) s in
      let payload_slice := take n (payload_buf_ s) in
      if wh_type header =? MessageType.new_order then
        '(err, order) ← decode_new_order payload_slice placeholder_new;
        after_decode session_id now (wh_type header) err (no_sequence order) (CmdNew order) s g
      else if wh_type header =? MessageType.cancel_order then
        '(err, order) ← decode_cancel_order payload_slice placeholder_cancel;
        after_decode session_id now (wh_type header) err (co_sequence order) (CmdCancel order) s g
      else if wh_type header =? MessageType.replace_order then
        '(err, order) ← decode_replace_order payload_slice placeholder_replace;
        after_decode session_id now (wh_type header) err (rp_sequence order) (CmdReplace order) s g
      else send_protocol_error session_id ErrorCode.unknown_message_type (wh_type header) true s g
  end.

(** The handler of [do_write]; [ok] says whether the front of the queue was
    written. *)
Definition on_write (session_id : Z) (ok : bool) (s : TcpSession) (g : TcpGateway)
  : outcome (TcpSession * TcpGateway) :=
  let s := set_pending_write false s in
  if negb ok then Val (s, unregister_session session_id g)
  else
    match write_queue_ s with
    | [] => Undef
    | _ :: rest =>
        let s := set_write_queue rest s in
        if negb (bool_decide (rest = [])) then Val (do_write s, g)
        else if close_after_write_ s then
          Val (close (set_close_after_write false s), unregister_session session_id g)
        else Val (s, g)
    end.

(** Running a handler on the session object it captured. *)
Definition on_session (session_id : Z)
    (handler : TcpSession → TcpGateway → outcome (TcpSession * TcpGateway)) (g : TcpGateway)
  : outcome TcpGateway :=
  s ← deref_opt (gw_objects g !! session_id);
  '(s, g) ← handler s g;
  Val (set_objects (<[session_id := s]> (gw_objects g)) g).

(** ** Members of [TcpGateway] *)

Definition do_accept (g : TcpGateway) : TcpGateway :=
  set_flags (stopped_ g) true (pending_timer g) g.
Definition schedule_outbound_drain (g : TcpGateway) : TcpGateway :=
  set_flags (stopped_ g) (pending_accept g) true g.

Definition start_gateway (g : TcpGateway) : TcpGateway :=
  if negb (stopped_ g) then g
  else schedule_outbound_drain (do_accept (set_flags false (pending_accept g) (pending_timer g) g)).

(** A change of every registered session. *)
Definition for_sessions (f : TcpSession → TcpSession) (g : TcpGateway) : TcpGateway :=
  set_objects (map_imap (λ id s, Some (if bool_decide (id ∈ gw_sessions g) then f s else s))
                 (gw_objects g)) g.

Definition stop_gateway (g : TcpGateway) : TcpGateway :=
  if stopped_ g then g
  else set_sessions ∅ (for_sessions close (set_flags true (pending_accept g) (pending_timer g) g)).

Definition active_session_count (g : TcpGateway) : Z := Z.of_nat (size (gw_sessions g)).

(** The body of the loop in [poll_outbound].  The sessions are independent, so
    the order of [sessions_] in a broadcast does not matter. *)
Definition deliver (msg : OutboundMessage) (g : TcpGateway) : outcome TcpGateway :=
  frame ← serialize_outbound msg;
  Val (if out_session_id msg =? 0 then for_sessions (send_raw_frame frame) g
       else if bool_decide (out_session_id msg ∈ gw_sessions g)
       then set_objects (alter (send_raw_frame frame) (out_session_id msg) (gw_objects g)) g
       else g).

Fixpoint poll_loop (fuel : nat) (msg : OutboundMessage) (count : Z) (g : TcpGateway)
  : outcome (Z * TcpGateway) :=
  '(popped, msg, q) ← bq_pop msg (gw_outbound g);
  let g := set_outbound q g in
  if negb popped then Val (count, g)
  else
    g ← deliver msg g;
    match fuel with
    | O => OutOfFuel
    | S fuel' => poll_loop fuel' msg (u64_add count 1) g
    end.

Definition poll_outbound (fuel : nat) (g : TcpGateway) : outcome (Z * TcpGateway) :=
  poll_loop fuel default_outbound 0 g.

(** The handler of the drain timer. *)
Definition on_timer (fuel : nat) (ok : bool) (g : TcpGateway) : outcome TcpGateway :=
  let g := set_flags (stopped_ g) (pending_accept g) false g in
  if ok && negb (stopped_ g) then
    '(_, g) ← poll_outbound fuel g;
    Val (schedule_outbound_drain g)
  else Val g.

(** The handler of [do_accept]: a connection, or an error.  Session ids are
    distinct until the 64-bit counter wraps around. *)
Definition on_accept (ok : bool) (g : TcpGateway) : TcpGateway :=
  let g := set_flags (stopped_ g) false (pending_timer g) g in
  let g :=
    if ok then
      let session_id := next_session_id_ g in
      let g := set_next_session_id (u64_add session_id 1) g in
      let session := do_read_header new_session in
      set_sessions ({[session_id]} ∪ gw_sessions g)
        (set_objects (<[session_id := session]> (gw_objects g)) g)
    else g in
  if negb (stopped_ g) then do_accept g else g.

End Gateway.
