(* ===== verification/GatewayFrames.v ===== *)
(** * The frames the gateway writes

    Every reply of the engine is serialized to one frame that a client decodes to
    the same event: the fields of every reply are in the ranges the
    codecs round-trip. *)

From stdpp Require Import prelude gmap list.
From Stdlib Require Import ZArith Lia.
From S2P Require Import Prelude Types OrderBook BookSpec BookInv BookMatch BookEdit BookRefine BookProps.
From S2P Require Import Bytes Protocol ProtocolInv ProtocolProps Spsc EventLog EventLogProps.
From S2P Require Import Engine EngineProps Gateway.

Open Scope Z_scope.
Import layout.
#[local] Arguments le_bytes : simpl never.

(** ** Serialization *)

Definition payload_image (p : OutboundPayload) : option (list Z) :=
  match p with
  | PayloadNone => None
  | PayloadOrderAccepted e => Some (order_accepted_image e)
  | PayloadOrderRejected e => Some (order_rejected_image e)
  | PayloadExecution e => Some (execution_image e)
  | PayloadCancelAccepted e => Some (cancel_accepted_image e)
  | PayloadProtocolError e => Some (protocol_error_image e)
  end.

(** The frame of a message; nothing for an empty payload. *)
Definition frame_of (msg : OutboundMessage) : list Z :=
  match payload_image (out_payload msg) with
  | None => []
  | Some image => header_image (frame_header (out_type msg) (length image) (out_flags msg)) ++ image
  end.

Lemma encode_branch_image {A} `{Codec A} (v : A) buf :
  (codec_size ≤ length buf)%nat →
  encode_branch (codec_encode v) codec_size buf
  = Val (true, codec_size, codec_image v ++ drop codec_size buf).
Proof.
  intros Hl. unfold encode_branch. rewrite codec_encode_image by (rewrite length_take; lia).
  rewrite bind_Val, splice_all; [done|]. rewrite codec_image_length, length_take. lia.
Qed.

Lemma encode_frame_exact type payload flags :
  encode_frame type payload (replicate (kHeaderSize + length payload) 0) flags
  = Val (true, header_image (frame_header type (length payload) flags) ++ payload).
Proof.
  rewrite encode_frame_image by (by rewrite length_replicate).
  rewrite splice_all; [done|]. rewrite length_app, length_replicate. done.
Qed.

(** Serialization always succeeds on a payload. *)
Lemma serialize_image msg : serialize_outbound msg = Val (frame_of msg).
Proof.
  unfold serialize_outbound, frame_of. set (buf := replicate (Z.to_nat kMaxPayloadLength) 0).
  assert (length buf = 1024%nat) as Hbuf by apply length_replicate.
  assert (∀ A (c : Codec A) (v : A), (codec_size ≤ 1024)%nat →
    ('(encoded, payload_size, payload_buf) ← encode_branch (codec_encode v) codec_size buf;
     if negb encoded then Val [] else
     '(ok, frame) ← encode_frame (out_type msg) (take payload_size payload_buf)
       (replicate (kHeaderSize + payload_size) 0) (out_flags msg);
     if negb ok then Val [] else Val frame) =
    Val (header_image (frame_header (out_type msg) (length (codec_image v)) (out_flags msg)) ++
         codec_image v)) as Hone.
  { intros A c v Hs. rewrite encode_branch_image, bind_Val by lia. cbn [negb].
    rewrite <- (codec_image_length v), take_app_length, encode_frame_exact. done. }
  destruct (out_payload msg) as [|e|e|e|e|e]; cbn [payload_image]; [done|..].
  - exact (Hone _ order_accepted_codec e ltac:(by apply Nat.leb_le)).
  - exact (Hone _ order_rejected_codec e ltac:(by apply Nat.leb_le)).
  - exact (Hone _ execution_codec e ltac:(by apply Nat.leb_le)).
  - exact (Hone _ cancel_accepted_codec e ltac:(by apply Nat.leb_le)).
  - exact (Hone _ protocol_error_codec e ltac:(by apply Nat.leb_le)).
Qed.

Definition error_frame (code offending : Z) : list Z :=
  frame_of (mkOutboundMessage 0 MessageType.protocol_error 0
    (PayloadProtocolError {| pe_error_code := code; pe_offending_type := offending |})).

Lemma make_error_frame_image code offending :
  make_error_frame code offending = Val (error_frame code offending).
Proof.
  unfold make_error_frame. set (e := Build_ProtocolErrorEvent _ _).
  pose proof (codec_encode_image (A:=ProtocolErrorEvent) e (replicate kProtocolErrorSize 0)) as He.
  cbn [codec_encode protocol_error_codec] in He. rewrite He by (by apply Nat.leb_le).
  rewrite bind_Val. cbn [negb]. rewrite splice_all by done. by rewrite encode_frame_exact.
Qed.

Lemma frame_of_nonempty msg : out_payload msg ≠ PayloadNone → frame_of msg ≠ [].
Proof. unfold frame_of. by destruct (out_payload msg). Qed.

(** ** What a client reads *)

(** The decoder of the payload, applied to [bytes], returns the event sent. *)
Definition payload_decodes (p : OutboundPayload) (bytes : list Z) : Prop :=
  match p with
  | PayloadNone => False
  | PayloadOrderAccepted e => ∀ old, decode_order_accepted bytes old = Val (None, e)
  | PayloadOrderRejected e => ∀ old, decode_order_rejected bytes old = Val (None, e)
  | PayloadExecution e => ∀ old, decode_execution bytes old = Val (None, e)
  | PayloadCancelAccepted e => ∀ old, decode_cancel_accepted bytes old = Val (None, e)
  | PayloadProtocolError e => ∀ old, decode_protocol_error bytes old = Val (None, e)
  end.

(** A client reads a header, checks it, and reads the payload it announces. *)
Definition client_reads (msg : OutboundMessage) (frame : list Z) : Prop :=
  ∃ header, decode_header (take kHeaderSize frame) = Val (Some header) ∧
    validate_header header = None ∧ wh_type header = out_type msg ∧ flags header = out_flags msg ∧
    Z.of_nat (length frame) = Z.of_nat kHeaderSize + payload_length header ∧
    payload_decodes (out_payload msg) (drop kHeaderSize frame).

Definition payload_ok (type : MessageType.t) (p : OutboundPayload) : Prop :=
  match p with
  | PayloadNone => False
  | PayloadOrderAccepted e =>
      order_accepted_ok e ∧ (type = MessageType.order_accepted ∨ type = MessageType.replace_accepted)
  | PayloadOrderRejected e =>
      order_rejected_ok e ∧ (type = MessageType.order_rejected ∨
        type = MessageType.cancel_rejected ∨ type = MessageType.replace_rejected)
  | PayloadExecution e => execution_ok e ∧ type = MessageType.execution
  | PayloadCancelAccepted e => cancel_accepted_ok e ∧ type = MessageType.cancel_accepted
  | PayloadProtocolError e => protocol_error_ok e ∧ type = MessageType.protocol_error
  end.

Definition reply_ok (msg : OutboundMessage) : Prop :=
  payload_ok (out_type msg) (out_payload msg) ∧ (out_flags msg = 0 ∨ out_flags msg = kFlagMore).

Lemma frame_header_ok type size fl :
  expected_payload_length type = Some (Z.of_nat size) → 0 ≤ type < 256 → (size ≤ 1024)%nat →
  fl = 0 ∨ fl = kFlagMore →
  header_ok (frame_header type size fl) ∧ validate_header (frame_header type size fl) = None ∧
  payload_length (frame_header type size fl) = Z.of_nat size.
Proof.
  intros Ht Hr Hs Hfl.
  assert (payload_length (frame_header type size fl) = Z.of_nat size) as Hpl by (apply wrap_small; lia).
  split_and!; [| |done].
  - unfold header_ok. rewrite Hpl. unfold kFlagMore in Hfl.
    cbn [magic version wh_type flags frame_header]. unfold kMagic, kVersion. lia.
  - unfold validate_header. rewrite Hpl. cbn [magic version flags wh_type frame_header].
    rewrite Ht. unfold kMaxPayloadLength. zcase; try lia. by destruct Hfl as [->| ->].
Qed.

Lemma client_reads_frame msg : reply_ok msg → client_reads msg (frame_of msg).
Proof.
  intros [Hp Hfl]. assert (∃ image, payload_image (out_payload msg) = Some image ∧
    payload_decodes (out_payload msg) image ∧ (length image ≤ 1024)%nat ∧
    expected_payload_length (out_type msg) = Some (Z.of_nat (length image)) ∧
    0 ≤ out_type msg < 256) as (image & Himg & Hdec & Hlen & Hexp & Hty).
  { destruct (out_payload msg) as [|e|e|e|e|e]; cbn [payload_image payload_ok payload_decodes] in *;
      [done|..]; eexists; (split; [reflexivity|]); destruct Hp as [He Hty].
    - split; [intros old; exact (codec_decode_image e old He)|].
      split; [by apply Nat.leb_le|]. destruct Hty as [->| ->]; (split; [reflexivity|by vm_compute]).
    - split; [intros old; exact (codec_decode_image e old He)|].
      split; [by apply Nat.leb_le|]. destruct Hty as [->|[->| ->]]; (split; [reflexivity|by vm_compute]).
    - split; [intros old; exact (codec_decode_image e old He)|].
      split; [by apply Nat.leb_le|]. rewrite Hty. split; [reflexivity|by vm_compute].
    - split; [intros old; exact (codec_decode_image e old He)|].
      split; [by apply Nat.leb_le|]. rewrite Hty. split; [reflexivity|by vm_compute].
    - split; [intros old; exact (codec_decode_image e old He)|].
      split; [by apply Nat.leb_le|]. rewrite Hty. split; [reflexivity|by vm_compute]. }
  destruct (frame_header_ok _ _ _ Hexp Hty Hlen Hfl) as (Hok & Hval & Hpl).
  unfold client_reads, frame_of. rewrite Himg. exists (frame_header (out_type msg) (length image) (out_flags msg)).
  set (h := frame_header _ _ _) in *. assert (length (header_image h) = kHeaderSize) as Hh by done.
  split_and!; [|done|done|done| |].
  - rewrite take_app_length' by done. rewrite <- (app_nil_r (header_image h)).
    by apply decode_header_image.
  - rewrite length_app, Hh, Hpl. lia.
  - by rewrite drop_app_length' by done.
Qed.

(** ** The fields of the engine's replies *)

Definition quote_valid (q : quote) : Prop :=
  Price.valid q.1 ∧ OrderId.valid (ro_order_id q.2) ∧ Quantity.valid (ro_remaining_quantity q.2).

Lemma wf_quotes b s : wf b → Forall quote_valid (spec_side s (abs b)).
Proof.
  intros Hwf. rewrite abs_side. apply Forall_forall. intros [p o] Hin.
  assert (OrderId.valid (ro_order_id o)) as Hid.
  { assert (ro_order_id o ∈ book_ids b) as Hids.
    { apply book_ids_sides. exists s. exact (list_elem_of_fmap_2 quote_id _ _ Hin). }
    unfold book_ids in Hids. apply elem_of_list_to_set, list_elem_of_fmap in Hids as (kv & Hkv & Hkin).
    pose proof (ix_valid _ _ _ _ _ (wf_index _ Hwf)) as Hv. rewrite Forall_forall in Hv.
    rewrite Hkv. by apply Hv. }
  unfold flat in Hin. apply list_elem_of_bind in Hin as (pl & Hin & Hpl).
  destruct (wf_side _ Hwf s) as [_ Hlv]. rewrite Forall_forall in Hlv.
  destruct (Hlv pl Hpl) as [Hp _ _ Hn]. unfold level_quotes in Hin.
  apply list_elem_of_fmap in Hin as (n & [= -> ->] & Hn'). rewrite Forall_forall in Hn.
  split_and!; [done|done|]. by apply (Hn n Hn').
Qed.

Definition exec_valid (x : Execution) : Prop :=
  OrderId.valid (ex_resting_order_id x) ∧ OrderId.valid (ex_incoming_order_id x) ∧
  Price.valid (ex_price x) ∧ Quantity.valid (ex_quantity x).

Lemma sweep_valid ok inc l : ∀ rem es l' rem',
  OrderId.valid inc → Forall quote_valid l → 0 ≤ rem ≤ u64_max → sweep ok inc rem l = (es, l', rem') →
  Forall exec_valid es ∧ 0 ≤ rem' ≤ u64_max.
Proof.
  induction l as [|[p o] l IH]; intros rem es l' rem' Hinc Hl Hrem; simpl.
  - intros [= <- <- <-]. done.
  - apply Forall_cons in Hl as [(Hp & Hid & Hq) Hl]. simpl in *. unfold Quantity.valid in Hq.
    destruct (Z.ltb_spec 0 rem); simpl; [|by intros [= <- <- <-]].
    destruct (ok p); [|by intros [= <- <- <-]]. zcase.
    + intros [= <- <- <-]. split; [|unfold u64_max; lia]. constructor; [|done].
      unfold exec_valid, Quantity.valid. simpl. split_and!; (done || lia).
    + destruct (sweep _ _ _ l) as [[es1 l1] r1] eqn:E. intros [= <- <- <-].
      apply IH in E as [Hes Hr]; [|done|done|lia]. split; [|done]. by constructor.
Qed.

Lemma spec_place_valid id seq side type lp units sb es q sb' :
  OrderId.valid id → Forall quote_valid (spec_side (opposite side) sb) → 0 ≤ units ≤ u64_max →
  spec_place id seq side type lp units sb = (es, q, sb') →
  Forall exec_valid es ∧ 0 ≤ remaining_or_zero q ≤ u64_max.
Proof.
  intros Hid Hl Hu. unfold spec_place. destruct (sweep _ _ _ _) as [[es1 contra] rem] eqn:E.
  destruct (sweep_valid _ _ _ _ _ _ _ Hid Hl Hu E) as [Hes Hrem].
  destruct type, lp; try destruct (0 <? rem); intros [= <- <- _]; simpl; split; try done; unfold u64_max in *; lia.
Qed.

Lemma submit_valid o b r b' :
  wf b → NewOrder_wf o → submit o b = Val (r, b') →
  Forall exec_valid (sr_executions r) ∧ 0 ≤ remaining_or_zero (sr_remaining_quantity r) ≤ u64_max.
Proof.
  intros Hwf Ho Hs. destruct (submit_refines_aux o b Hwf Ho) as (r1 & b1 & Hs1 & _ & Hsp).
  rewrite Hs in Hs1. injection Hs1 as <- <-. destruct Ho as (_ & Hid & Hq & _).
  assert (Forall exec_valid [] ∧ 0 ≤ remaining_or_zero None ≤ u64_max) as Hnone
    by (unfold u64_max; simpl; split; [done|lia]).
  unfold spec_submit in Hsp. destruct (negb _); [by injection Hsp as <- _|].
  case_bool_decide; [by injection Hsp as <- _|].
  destruct (spec_place _ _ _ _ _ _ _) as [[es q] sb'] eqn:E. injection Hsp as <- _. simpl.
  apply spec_place_valid in E; [done|done| |unfold Quantity.valid in Hq; lia].
  pose proof (wf_quotes b (opposite (no_side o)) Hwf). by destruct (no_side o).
Qed.

Lemma replace_valid o b r b' :
  wf b → ReplaceOrder_wf o → replace o b = Val (r, b') →
  Forall exec_valid (rr_executions r) ∧ 0 ≤ remaining_or_zero (rr_remaining_quantity r) ≤ u64_max.
Proof.
  intros Hwf Ho Hs. destruct (replace_refines_aux o b Hwf Ho) as (r1 & b1 & Hs1 & _ & Hsp).
  rewrite Hs in Hs1. injection Hs1 as <- <-. destruct Ho as (_ & Hid & Hq & _).
  unfold Quantity.valid in Hq. unfold spec_replace in Hsp.
  destruct (spec_locate _ _) as [[s q]|]; [|injection Hsp as <- _; simpl; unfold u64_max; split; [done|lia]].
  destruct (_ && _); [injection Hsp as <- _; simpl; split; [done|lia]|].
  destruct (spec_place _ _ _ _ _ _ _) as [[es q'] sb'] eqn:E. injection Hsp as <- _. simpl.
  apply spec_place_valid in E; [done|done| |lia].
  pose proof (wf_quotes b (opposite s) Hwf). by destruct s.
Qed.

Lemma cancel_valid o b r b' q :
  wf b → cancel o b = Val (r, b') → cr_cancelled_quantity r = Some q → Quantity.valid q.
Proof.
  intros Hwf Hs. destruct (cancel_refines_aux o b Hwf) as (r1 & b1 & Hs1 & _ & Hsp).
  rewrite Hs in Hs1. injection Hs1 as <- <-. unfold spec_cancel in Hsp.
  destruct (spec_locate _ _) as [[s q']|] eqn:E; [|by injection Hsp as <- _].
  injection Hsp as <- _. simpl. intros [= <-].
  assert (∀ l q, spec_find (co_order_id o) l = Some q → Forall quote_valid l →
    Quantity.valid (ro_remaining_quantity q.2)) as Hfind.
  { intros l q Hf Hv. rewrite Forall_forall in Hv. apply (Hv q). clear -Hf. revert Hf.
    unfold spec_find. induction l as [|x l IH]; csimpl; [done|].
    case_match; [intros [= <-]; by left|]. intros ?. right. by apply IH. }
  pose proof (wf_quotes b buy Hwf) as Hb. pose proof (wf_quotes b sell Hwf) as Ha.
  unfold spec_locate in E. simpl in Hb, Ha.
  destruct (spec_find _ (sb_bids _)) eqn:E1; [injection E as <- <-; by eapply Hfind|].
  destruct (spec_find _ (sb_asks _)) eqn:E2; simplify_eq/=. by eapply Hfind.
Qed.

Lemma execs_replies_ok sid seq b xs : ∀ sessions,
  SequenceNumber.valid seq → Forall exec_valid xs → Forall reply_ok (execs_replies sid seq b sessions xs).
Proof.
  induction xs as [|x xs IH]; intros sessions Hseq Hx; cbn [execs_replies]; [done|].
  apply Forall_cons in Hx as [(H1 & H2 & H3 & H4) Hx]. apply Forall_app. split; [|by apply IH].
  assert (∀ s fl, fl = 0 ∨ fl = kFlagMore → reply_ok (mkOutboundMessage s MessageType.execution fl
    (PayloadExecution (exec_event seq x)))) as Hone by (intros s fl Hfl; split; [split; [by split_and!|done]|done]).
  unfold exec_replies. constructor; [apply Hone; by right|].
  destruct (_ && _); [|done]. constructor; [apply Hone; by left|done].
Qed.

(** Every reply of the engine is well formed. *)
Lemma replies_ok m b b' sessions msgs :
  wf b → inbound_ok (in_command m) → replies m b b' sessions msgs → Forall reply_ok msgs.
Proof.
  intros Hwf Hin Hr. destruct Hr as [o r Hc Hs|o r Hc Hs|o r Hc Hs|]; [| | |done];
    rewrite Hc in Hin; simpl in Hin.
  - destruct (submit_valid _ _ _ _ Hwf Hin Hs) as [Hx Hq]. destruct Hin as (Hseq & Hid & _ & _).
    unfold new_order_replies. destruct (sr_rejection r) as [reason|].
    + constructor; [|done]. split; [|by left]. split; [|by left]. split_and!; [done..| |];
        destruct reason; by vm_compute.
    + apply Forall_app. split; [by apply execs_replies_ok|]. constructor; [|done].
      split; [|by left]. split; [|by left]. split_and!; (done || apply Hq).
  - destruct Hin as [Hseq Hid]. unfold cancel_replies.
    destruct (cr_rejection r) as [reason|].
    + constructor; [|done]. split; [|by left]. split; [|by right; left]. split_and!; [done..| |];
        destruct reason; by vm_compute.
    + destruct (cr_cancelled_quantity r) as [q|] eqn:Hq; [|done]. constructor; [|done].
      split; [|by left]. split; [|done]. split_and!; [done..|]. by eapply cancel_valid.
  - destruct (replace_valid _ _ _ _ Hwf Hin Hs) as [Hx Hq]. destruct Hin as (Hseq & Hid & _ & _).
    unfold replace_replies. destruct (rr_rejection r) as [reason|].
    + constructor; [|done]. split; [|by left]. split; [|by right; right]. split_and!; [done..| |];
        destruct reason; by vm_compute.
    + apply Forall_app. split; [by apply execs_replies_ok|]. constructor; [|done].
      split; [|by left]. split; [|by right]. split_and!; (done || apply Hq).
Qed.
