(* ===== verification/GatewayProps.v ===== *)
(** * Correctness of the TCP gateway

    The gateway as a transition system: its members are called, the operations
    it started complete in any order with any bytes, the engine takes commands
    and queues replies.  In every reachable state no handler can fail, the
    commands of a session reach the engine valid and in strictly increasing
    sequence, and a session that was sent a fatal error reads nothing more and
    is closed when its last frame is written. *)

From stdpp Require Import prelude gmap list relations sorting.
From Stdlib Require Import ZArith Lia.
From S2P Require Import Prelude Types OrderBook Bytes Protocol ProtocolInv ProtocolProps Spsc SpscProps.
From S2P Require Import BookProps EventLog EventLogProps Engine EngineProps EngineSystem Gateway GatewayFrames.

Open Scope Z_scope.
Import layout.

Section Gateway.
Context {QI QO : Type}.
Context `{BI : BoundedQueue QI InboundMessage} `{BO : BoundedQueue QO OutboundMessage}.

Notation TcpGateway := (@TcpGateway QI QO).

(** ** Steps *)

(** [async_read] into [n] bytes: an error, or exactly [n] bytes. *)
Definition read_result (n : nat) (r : option (list Z)) : Prop :=
  match r with None => True | Some bytes => length bytes = n ∧ bytes_ok bytes end.

(** The steps of the gateway's own thread. *)
Inductive own_step : TcpGateway → TcpGateway → Prop :=
| gw_start g : own_step g (start_gateway g)
| gw_stop g : own_step g (stop_gateway g)
| gw_accept g ok :
    pending_accept g = true → next_session_id_ g < u64_max → own_step g (on_accept ok g)
| gw_timer g g' fuel ok :
    pending_timer g = true → on_timer fuel ok g = Val g' → own_step g g'
| gw_header g g' id s result :
    gw_objects g !! id = Some s → pending_read s = ReadHeader → read_result kHeaderSize result →
    on_session id (on_header id result) g = Val g' → own_step g g'
| gw_payload g g' id s header now result :
    gw_objects g !! id = Some s → pending_read s = ReadPayload header →
    read_result (Z.to_nat (payload_length header)) result →
    on_session id (on_payload id now header result) g = Val g' → own_step g g'
| gw_write g g' id s ok :
    gw_objects g !! id = Some s → pending_write s = true →
    on_session id (on_write id ok) g = Val g' → own_step g g'.

(** With those of the engine's. *)
Inductive gw_step : TcpGateway → TcpGateway → Prop :=
| gw_own g g' : own_step g g' → gw_step g g'
| gw_engine_pop g popped m q :
    bq_pop default_inbound (gw_inbound g) = Val (popped, m, q) →
    gw_step g (set_inbound q (gw_history g) g)
| gw_engine_push g pushed m q :
    bq_push m (gw_outbound g) = Val (pushed, q) → gw_step g (set_outbound q g).

(** ** Invariant *)

(** The sequence numbers a session sent to the engine, oldest first. *)
Definition sent_by (id : Z) (h : list InboundMessage) : list Z :=
  (λ m, sequence_of (in_command m)) <$> filter (λ m, in_session_id m = id) h.

Record session_ok (g : TcpGateway) (id : Z) (s : TcpSession) : Prop := {
  ss_payload h : pending_read s = ReadPayload h → validate_header h = None;
  ss_closing : close_after_write_ s = true → pending_read s = NoRead;
  ss_writing : pending_write s = true → write_queue_ s ≠ [];
  ss_idle : write_queue_ s ≠ [] → pending_write s = true ∨ id ∉ gw_sessions g;
  ss_sorted : StronglySorted Z.lt (sent_by id (gw_history g));
  ss_last : Forall (λ n, n ≤ ts_last_sequence_ s) (sent_by id (gw_history g));
}.

(** What the engine gets: a valid command with its exact size on the wire. *)
Definition message_ok (m : InboundMessage) : Prop :=
  command_ok (in_command m) ∧
  in_wire_bytes m = Z.of_nat kHeaderSize + Z.of_nat (length (command_image (in_command m))).

Record gw_inv (g : TcpGateway) : Prop := {
  gi_sessions : gw_sessions g ⊆ dom (gw_objects g);
  gi_ids id : id ∈ dom (gw_objects g) → 0 < id < next_session_id_ g;
  gi_next : 0 < next_session_id_ g ≤ u64_max;
  gi_objects id s : gw_objects g !! id = Some s → session_ok g id s;
  gi_messages : Forall message_ok (gw_history g);
  gi_senders : Forall (λ m, in_session_id m ∈ dom (gw_objects g)) (gw_history g);
  gi_inbound : ∃ n k, (k ≤ length (gw_history g))%nat ∧ bq_rep (gw_inbound g) n (drop k (gw_history g));
  gi_outbound : ∃ n l, bq_rep (gw_outbound g) n l;
}.

(** ** Handlers of a session *)

Lemma sent_by_app id h1 h2 : sent_by id (h1 ++ h2) = sent_by id h1 ++ sent_by id h2.
Proof. unfold sent_by. by rewrite filter_app, fmap_app. Qed.

Lemma sent_by_other id h : Forall (λ m, in_session_id m ≠ id) h → sent_by id h = [].
Proof.
  unfold sent_by. induction 1; [done|]. by rewrite filter_cons_False.
Qed.

(** What a handler of session [id] may do to the gateway. *)
Record handler_post (id : Z) (g g' : TcpGateway) (s' : TcpSession) : Prop := {
  hp_objects : gw_objects g' = gw_objects g;
  hp_next : next_session_id_ g' = next_session_id_ g;
  hp_sessions : gw_sessions g' ⊆ gw_sessions g;
  hp_outbound : gw_outbound g' = gw_outbound g;
  hp_history : ∃ new, gw_history g' = gw_history g ++ new ∧
    Forall (λ m, in_session_id m = id ∧ message_ok m) new;
  hp_inbound n k : (k ≤ length (gw_history g))%nat → bq_rep (gw_inbound g) n (drop k (gw_history g)) →
    ∃ n', bq_rep (gw_inbound g') n' (drop k (gw_history g'));
  hp_session : session_ok g' id s';
}.

Lemma on_session_inv id handler g s s' g' :
  gw_inv g → gw_objects g !! id = Some s → handler s g = Val (s', g') →
  handler_post id g g' s' →
  on_session id handler g = Val (set_objects (<[id := s']> (gw_objects g')) g') ∧
  gw_inv (set_objects (<[id := s']> (gw_objects g')) g').
Proof.
  intros [] Hs Hh [Ho Hn Hss Hout (new & Hhist & Hnew) Hin Hok]. split.
  { unfold on_session. rewrite Hs. cbn [deref_opt]. by rewrite bind_Val, Hh. }
  assert (id ∈ dom (gw_objects g)) as Hid by (by apply elem_of_dom).
  assert (dom (<[id := s']> (gw_objects g')) = dom (gw_objects g)) as Hdom.
  { rewrite dom_insert_L, Ho. set_solver. }
  split; cbn [gw_objects gw_sessions next_session_id_ gw_history gw_inbound gw_outbound set_objects];
    rewrite ?Hdom, ?Hn, ?Hout; try done; [set_solver| | | |].
  - intros j sj. destruct (decide (j = id)) as [->|Hne].
    + rewrite lookup_insert_eq. intros [= <-]. destruct Hok. by split.
    + rewrite lookup_insert_ne, Ho by done. intros Hj. destruct (gi_objects0 j sj Hj).
      assert (sent_by j (gw_history g') = sent_by j (gw_history g)) as Heq.
      { rewrite Hhist, sent_by_app, (sent_by_other j new), app_nil_r; [done|].
        eapply Forall_impl; [done|]. intros m [-> _]. done. }
      split; cbn [gw_history gw_sessions set_objects]; rewrite ?Heq; try done.
      intros Hq. destruct (ss_idle0 Hq); [by left|right; set_solver].
  - rewrite Hhist. apply Forall_app. split; [done|]. eapply Forall_impl; [done|]. by intros m [_ ?].
  - rewrite Hhist. apply Forall_app. split; [done|]. eapply Forall_impl; [done|]. by intros m [-> _].
  - destruct gi_inbound0 as (n & k & Hk & Hrep). destruct (Hin n k Hk Hrep) as (n' & Hrep').
    exists n', k. split; [|done]. rewrite Hhist, length_app. lia.
Qed.

(** A handler that leaves the gateway alone, or only forgets the session. *)
Lemma handler_post_same id g s' :
  gw_inv g → session_ok g id s' → handler_post id g g s'.
Proof. intros [] Hs. split; try done; [exists []; by rewrite app_nil_r|by eauto]. Qed.

Lemma session_ok_unregister id g s :
  session_ok g id s → session_ok (unregister_session id g) id s.
Proof.
  intros []. split; try done. intros Hq. right. cbn [unregister_session set_sessions gw_sessions]. set_solver.
Qed.

Lemma handler_post_unregister id g s' :
  gw_inv g → session_ok (unregister_session id g) id s' →
  handler_post id g (unregister_session id g) s'.
Proof.
  intros [] Hs. split; try done; [cbn [unregister_session set_sessions gw_sessions]; set_solver|..].
  - exists []. by rewrite app_nil_r.
  - by eauto.
Qed.

Lemma session_ok_idle g id s : session_ok g id s → session_ok g id (set_pending_read NoRead s).
Proof. intros []. by split. Qed.

Lemma session_ok_send g id s frame : session_ok g id s → session_ok g id (send_raw_frame frame s).
Proof.
  intros []. unfold send_raw_frame. destruct (_ || _); [by split|]. case_bool_decide as Hq; simpl.
  - split; simpl; try done; [intros _; by destruct (write_queue_ s)|by left].
  - split; simpl; try done; [intros _; by destruct (write_queue_ s)|]. intros _. by apply ss_idle0.
Qed.

Lemma send_raw_frame_read frame s : pending_read (send_raw_frame frame s) = pending_read s.
Proof. unfold send_raw_frame. destruct (_ || _); [done|]. by case_bool_decide. Qed.

(** A fatal error is reported: the gateway is unchanged, the session does not read. *)
Lemma send_protocol_error_ok id code off s g :
  session_ok g id s → pending_read s = NoRead →
  ∃ s', send_protocol_error id code off true s g = Val (s', g) ∧ session_ok g id s' ∧
    s' = send_raw_frame (error_frame code off) (set_close_after_write true s).
Proof.
  intros Hs Hr. unfold send_protocol_error. rewrite make_error_frame_image, bind_Val.
  rewrite bool_decide_eq_false_2 by (by apply frame_of_nonempty).
  eexists. split; [done|]. split; [|done]. apply session_ok_send. destruct Hs. split; try done.
Qed.

(** A push appends its message, or leaves the contents of a full queue. *)
Lemma push_follows {Q T} `{BQ : BoundedQueue Q T} (q q' : Q) n l m pushed :
  bq_push m q = Val (pushed, q') → bq_rep q n l →
  if pushed then bq_rep q' (S n) (l ++ [m]) else bq_rep q' n l.
Proof.
  intros Hp Hrep. destruct (bq_rep_bound _ _ _ Hrep) as [Hle _].
  destruct (decide (length l = bq_capacity (Q:=Q))) as [Hfull|Hroom].
  - destruct (bq_push_full _ _ _ m Hrep Hfull) as (q1 & Hp1 & Hrep1). rewrite Hp in Hp1.
    by injection Hp1 as -> ->.
  - destruct (bq_push_ok _ _ _ m Hrep) as (q1 & Hp1 & Hrep1); [lia|]. rewrite Hp in Hp1.
    by injection Hp1 as -> ->.
Qed.

(** Queueing a command: refused out of order, refused on a full queue, or
    appended with the exact size of its frame. *)
Lemma enqueue_command_ok id now c s g :
  gw_inv g → session_ok g id s → pending_read s = NoRead → close_after_write_ s = false →
  command_ok c →
  ∃ ok s' g', enqueue_command id now (sequence_of c) (command_type c) c s g = Val (ok, s', g') ∧
    handler_post id g g' s' ∧ pending_read s' = NoRead ∧ (ok = true → close_after_write_ s' = false).
Proof.
  intros Hg Hs Hr Hclose Hc. assert (c ≠ monostate) as Hne by (by intros ->).
  destruct (command_image_length c Hne) as (Hexp & _ & Hlen). unfold enqueue_command.
  destruct (Z.leb_spec (sequence_of c) (ts_last_sequence_ s)) as [Hle|Hlt].
  { destruct (send_protocol_error_ok id ErrorCode.sequence_out_of_order (command_type c) s g Hs Hr)
      as (s' & -> & Hs' & Heq). rewrite bind_Val. exists false, s', g.
    split_and!; [done|by apply handler_post_same| |done]. by rewrite Heq, send_raw_frame_read. }
  rewrite Hexp. cbn [default]. set (msg := mkInboundMessage _ _ _ _).
  destruct (gi_inbound _ Hg) as (n & k & Hk & Hrep). destruct (bq_rep_bound _ _ _ Hrep) as [Hcap _].
  destruct (decide (length (drop k (gw_history g)) = bq_capacity (Q:=QI))) as [Hfull|Hroom].
  - destruct (bq_push_full _ _ _ msg Hrep Hfull) as (q & Hpush & _). rewrite Hpush, bind_Val. cbn [negb].
    set (g1 := set_inbound q (gw_history g) g).
    assert (session_ok g1 id s) as Hs1 by (destruct Hs; by split).
    destruct (send_protocol_error_ok id ErrorCode.session_overloaded (command_type c) s g1 Hs1 Hr)
      as (s' & -> & Hs' & Heq). rewrite bind_Val. exists false, s', g1.
    split_and!; [done| |by rewrite Heq, send_raw_frame_read|done].
    split; try done; [exists []; by rewrite app_nil_r|].
    intros n' k' _ Hrep2. eapply push_follows in Hrep2; [|exact Hpush]. by exists n'.
  - destruct (bq_push_ok _ _ _ msg Hrep) as (q & Hpush & _); [lia|]. rewrite Hpush, bind_Val. cbn [negb].
    exists true. do 2 eexists. split; [done|]. split; [|done].
    split; try done; cbn [set_inbound gw_history gw_inbound].
    + exists [msg]. split; [done|]. apply Forall_singleton. split; [done|]. split; [done|].
      cbn [in_wire_bytes in_command msg]. apply wrap_small.
      unfold kRecordPayloadMax, kNewOrderSize, kHeaderSize in *. lia.
    + intros n' k' Hk' Hrep2. eapply push_follows in Hrep2; [|exact Hpush]. exists (S n').
      by rewrite drop_app_le.
    + destruct Hs. assert (sent_by id [msg] = [sequence_of c]) as Hone.
      { unfold sent_by. by rewrite filter_cons_True. }
      split; cbn [set_inbound gw_history gw_sessions set_last_sequence close_after_write_ pending_read
        pending_write write_queue_ ts_last_sequence_]; rewrite ?sent_by_app, ?Hone; try done.
      * apply StronglySorted_app_2; [|done|by repeat constructor].
        intros x y Hx ->%list_elem_of_singleton. rewrite Forall_forall in ss_last0.
        specialize (ss_last0 x Hx). lia.
      * apply Forall_app. split; [|by repeat constructor]. eapply Forall_impl; [done|]. simpl. lia.
Qed.

Lemma after_decode_ok id now c err s g :
  gw_inv g → session_ok g id s → pending_read s = NoRead → close_after_write_ s = false →
  (err = None → command_ok c) →
  ∀ seq, SequenceNumber.value seq = sequence_of c →
  ∃ s' g', after_decode id now (command_type c) err seq c s g = Val (s', g') ∧ handler_post id g g' s'.
Proof.
  intros Hg Hs Hr Hclose Hc seq Hseq. unfold after_decode. destruct err as [e|].
  - destruct (send_protocol_error_ok id e (command_type c) s g Hs Hr) as (s' & -> & Hs' & _).
    exists s', g. split; [done|by apply handler_post_same].
  - rewrite Hseq.
    destruct (enqueue_command_ok id now c s g Hg Hs Hr Hclose (Hc eq_refl))
      as (ok & s' & g' & -> & Hp & Hr' & Hcl). rewrite bind_Val.
    destruct ok; cbn [negb]; do 2 eexists; (split; [done|]); [|done].
    destruct Hp. split; try done. destruct hp_session0. split; try done.
    intros Ht. cbn in Ht. by rewrite Hcl in Ht.
Qed.

(** Reading is idle while a handler runs, and a session that reads is not closing. *)
Lemma session_reading g id s :
  session_ok g id s → pending_read s ≠ NoRead → close_after_write_ s = false.
Proof. intros [] Hr. destruct (close_after_write_ s); [|done]. by destruct Hr, ss_closing0. Qed.

Lemma on_header_ok id result s g :
  gw_inv g → session_ok g id s → pending_read s = ReadHeader → read_result kHeaderSize result →
  ∃ s' g', on_header id result s g = Val (s', g') ∧ handler_post id g g' s'.
Proof.
  intros Hg Hs Hr Hres. pose proof (session_reading g id s Hs ltac:(by rewrite Hr)) as Hcl.
  unfold on_header. pose proof (session_ok_idle g id s Hs) as Hs0.
  set (s0 := set_pending_read NoRead s) in *. destruct result as [bytes|].
  2:{ do 2 eexists. split; [done|]. apply handler_post_unregister; [done|].
      by apply session_ok_unregister. }
  destruct Hres as [Hlen Hok]. cbn [set_buffers header_buf_].
  assert (session_ok g id (set_buffers bytes (payload_buf_ s0) s0)) as Hs1 by (destruct Hs0; by split).
  destruct (split_header bytes Hok) as (h & rest & Heq & Hh); [lia|].
  rewrite Heq, decode_header_image, bind_Val by done. rewrite <- Heq.
  destruct (validate_header h) as [err|] eqn:Hv.
  - destruct (send_protocol_error_ok id err (wh_type h) _ g Hs1 eq_refl) as (s' & -> & Hs' & _).
    do 2 eexists. split; [done|by apply handler_post_same].
  - do 2 eexists. split; [done|]. apply handler_post_same; [done|]. destruct Hs1. split; try done.
    + by intros h' [= <-].
    + intros Ht. cbn in Ht. congruence.
Qed.

Lemma on_payload_ok id now header result s g :
  gw_inv g → session_ok g id s → pending_read s = ReadPayload header →
  read_result (Z.to_nat (payload_length header)) result →
  ∃ s' g', on_payload id now header result s g = Val (s', g') ∧ handler_post id g g' s'.
Proof.
  intros Hg Hs Hr Hres. pose proof (session_reading g id s Hs ltac:(by rewrite Hr)) as Hcl.
  unfold on_payload. pose proof (session_ok_idle g id s Hs) as Hs0.
  set (s0 := set_pending_read NoRead s) in *. destruct result as [bytes|].
  2:{ do 2 eexists. split; [done|]. apply handler_post_unregister; [done|].
      by apply session_ok_unregister. }
  destruct Hres as [Hlen Hok]. cbn [set_buffers payload_buf_]. rewrite take_app_length' by done.
  set (s1 := set_buffers _ _ s0). assert (session_ok g id s1) as Hs1 by (destruct Hs0; by split).
  assert (∀ c err seq, (err = None → command_ok c) → SequenceNumber.value seq = sequence_of c →
    wh_type header = command_type c →
    ∃ s' g', after_decode id now (wh_type header) err seq c s1 g = Val (s', g') ∧
      handler_post id g g' s') as Hafter.
  { intros c err seq Hc Hseq ->. by apply after_decode_ok. }
  pose proof (codec_decodes_safely (A:=NewOrder) bytes Hok placeholder_new) as Hn.
  pose proof (codec_decodes_safely (A:=CancelOrder) bytes Hok placeholder_cancel) as Hc.
  pose proof (codec_decodes_safely (A:=ReplaceOrder) bytes Hok placeholder_replace) as Hp.
  cbn [codec_decode new_order_codec cancel_order_codec replace_order_codec codec_ok] in *.
  destruct (Z.eqb_spec (wh_type header) MessageType.new_order) as [Ht|_].
  { destruct Hn as [[e ->]|(v & -> & Hv)]; rewrite bind_Val; by apply Hafter. }
  destruct (Z.eqb_spec (wh_type header) MessageType.cancel_order) as [Ht|_].
  { destruct Hc as [[e ->]|(v & -> & Hv)]; rewrite bind_Val; by apply Hafter. }
  destruct (Z.eqb_spec (wh_type header) MessageType.replace_order) as [Ht|_].
  { destruct Hp as [[e ->]|(v & -> & Hv)]; rewrite bind_Val; by apply Hafter. }
  destruct (send_protocol_error_ok id ErrorCode.unknown_message_type (wh_type header) s1 g Hs1 eq_refl)
    as (s' & -> & Hs' & _). do 2 eexists. split; [done|by apply handler_post_same].
Qed.

Lemma on_write_ok id ok s g :
  gw_inv g → session_ok g id s → pending_write s = true →
  ∃ s' g', on_write id ok s g = Val (s', g') ∧ handler_post id g g' s'.
Proof.
  intros Hg Hs Hw. pose proof Hs as []. unfold on_write. destruct ok; cbn [negb].
  2:{ do 2 eexists. split; [done|]. apply handler_post_unregister; [done|].
      split; try done. intros _. right. cbn [unregister_session set_sessions gw_sessions]. set_solver. }
  cbn [set_pending_write write_queue_]. destruct (write_queue_ s) as [|frame rest] eqn:Hq;
    [by destruct (ss_writing0 Hw)|].
  case_bool_decide as Hrest; cbn [negb].
  - subst rest. cbn [set_write_queue set_pending_write close_after_write_]. destruct (close_after_write_ s) eqn:Hc.
    + do 2 eexists. split; [done|]. apply handler_post_unregister; [done|]. split; try done.
    + do 2 eexists. split; [done|]. apply handler_post_same; [done|]. split; try done.
      intros Ht. cbn in Ht. congruence.
  - do 2 eexists. split; [done|]. apply handler_post_same; [done|]. split; try done.
    cbn. by left.
Qed.

(** ** Members of the gateway *)

(** The objects after [f] was applied to each. *)
Definition map_objects (f : Z → TcpSession → TcpSession) (g : TcpGateway) : TcpGateway :=
  set_objects (map_imap (λ id s, Some (f id s)) (gw_objects g)) g.

Lemma map_objects_lookup f g id :
  gw_objects (map_objects f g) !! id = f id <$> gw_objects g !! id.
Proof. unfold map_objects. cbn [set_objects gw_objects]. rewrite map_lookup_imap. by destruct (_ !! id). Qed.

Lemma map_objects_id f g : (∀ id s, gw_objects g !! id = Some s → f id s = s) → map_objects f g = g.
Proof.
  intros Hf. destruct g as [? ? ? os ? ? ? ? ?]. unfold map_objects, set_objects. simpl in *.
  f_equal. apply map_eq.
  intros id. rewrite map_lookup_imap. destruct (os !! id) eqn:E; simpl; [|done].
  by rewrite Hf.
Qed.

Lemma map_objects_inv f g :
  gw_inv g → (∀ id s, session_ok g id s → session_ok g id (f id s)) → gw_inv (map_objects f g).
Proof.
  intros [] Hf. assert (dom (gw_objects (map_objects f g)) = dom (gw_objects g)) as Hdom.
  { apply set_eq. intros id. rewrite !elem_of_dom, map_objects_lookup, fmap_is_Some. done. }
  split; rewrite ?Hdom; try done. intros id s. rewrite map_objects_lookup.
  destruct (gw_objects g !! id) as [s0|] eqn:E; intros [= <-].
  destruct (Hf id s0 (gi_objects0 id s0 E)). by split.
Qed.

(** Whether a message goes to a session: it is registered, and addressed or all are. *)
Definition receives (g : TcpGateway) (id : Z) (msg : OutboundMessage) : bool :=
  bool_decide (id ∈ gw_sessions g) && ((out_session_id msg =? 0) || (out_session_id msg =? id)).

Lemma deliver_ok msg g :
  deliver msg g = Val (map_objects
    (λ id s, if receives g id msg then send_raw_frame (frame_of msg) s else s) g).
Proof.
  unfold deliver. rewrite serialize_image, bind_Val. f_equal.
  destruct (Z.eqb_spec (out_session_id msg) 0) as [Heq|Hne].
  - unfold for_sessions, map_objects, receives. f_equal. apply map_eq. intros id.
    rewrite !map_lookup_imap, Heq. cbn [Z.eqb orb]. by rewrite andb_true_r.
  - symmetry. case_bool_decide as Hin.
    + unfold map_objects. f_equal. apply map_eq. intros id. rewrite map_lookup_imap. unfold receives.
      destruct (Z.eqb_spec (out_session_id msg) 0); [done|]. cbn [orb].
      destruct (Z.eqb_spec (out_session_id msg) id) as [<-|Hid].
      * rewrite bool_decide_eq_true_2 by done. rewrite lookup_alter_eq. by destruct (_ !! _).
      * rewrite andb_false_r, lookup_alter_ne by done. by destruct (_ !! _).
    + apply map_objects_id. intros id s _. unfold receives.
      destruct (Z.eqb_spec (out_session_id msg) 0); [done|]. cbn [orb].
      destruct (Z.eqb_spec (out_session_id msg) id) as [<-|]; [|by rewrite andb_false_r].
      by rewrite bool_decide_eq_false_2.
Qed.

Lemma deliver_inv msg g g' :
  gw_inv g → deliver msg g = Val g' → gw_inv g'.
Proof.
  intros Hg. rewrite deliver_ok. intros [= <-]. apply map_objects_inv; [done|].
  intros id s Hs. destruct (receives g id msg); [by apply session_ok_send|done].
Qed.

Lemma set_outbound_inv q n l g : gw_inv g → bq_rep q n l → gw_inv (set_outbound q g).
Proof.
  intros [] Hrep. split; try done; [|by eauto]. intros id s Hs. destruct (gi_objects0 id s Hs). by split.
Qed.

(** Everything queued is delivered, in order, and counted. *)
Lemma poll_loop_ok l : ∀ fuel msg count g n,
  (length l ≤ fuel)%nat → 0 ≤ count → count + Z.of_nat (length l) ≤ u64_max →
  bq_rep (gw_outbound g) n l →
  ∃ q, bq_rep q n [] ∧ poll_loop fuel msg count g = Val (count + Z.of_nat (length l),
    set_outbound q (map_objects (λ id s, foldl (λ s m,
      if receives g id m then send_raw_frame (frame_of m) s else s) s l) g)).
Proof.
  induction l as [|m l IH]; intros fuel msg count g n Hf Hc Hb Hrep.
  - destruct (bq_pop_empty _ _ msg Hrep) as (q & Hp & Hrep'). exists q. split; [done|].
    rewrite Z.add_0_r, map_objects_id by done. destruct fuel; cbn [poll_loop]; by rewrite Hp.
  - destruct (bq_pop_ok _ _ _ _ msg Hrep) as (q & Hp & Hrep'). cbn [length] in *.
    destruct fuel as [|fuel]; [lia|]. cbn [poll_loop]. rewrite Hp, bind_Val. cbn [negb].
    rewrite deliver_ok, bind_Val. unfold u64_max in Hb. rewrite u64_add_small by lia.
    set (g1 := map_objects _ (set_outbound q g)).
    destruct (IH fuel m (count + 1) g1 n) as (q' & Hq' & ->); [lia|lia|unfold u64_max; lia|done|].
    exists q'. split; [done|]. f_equal. f_equal; [lia|].
    unfold g1, map_objects, set_outbound, set_objects. cbn [gw_inbound gw_outbound next_session_id_
      gw_objects gw_sessions stopped_ pending_accept pending_timer gw_history]. f_equal.
    apply map_eq. intros id. rewrite !map_lookup_imap. by destruct (gw_objects g !! id).
Qed.

Lemma poll_loop_inv fuel : ∀ msg count g r g',
  gw_inv g → poll_loop fuel msg count g = Val (r, g') → gw_inv g'.
Proof.
  induction fuel as [|fuel IH]; intros msg count g r g' Hg; cbn [poll_loop];
    destruct (gi_outbound _ Hg) as (n & [|m l] & Hrep).
  1,3: destruct (bq_pop_empty _ _ msg Hrep) as (q & -> & Hrep'); rewrite bind_Val; cbn [negb];
    intros [= _ <-]; by eapply set_outbound_inv.
  1,2: destruct (bq_pop_ok _ _ _ _ msg Hrep) as (q & -> & Hrep'); rewrite bind_Val; cbn [negb];
    intros (g1 & Hd & Hp)%bind_Val_inv; try done.
  eapply IH; [|exact Hp]. eapply deliver_inv; [|done]. by eapply set_outbound_inv.
Qed.

Lemma set_flags_inv a b c g : gw_inv g → gw_inv (set_flags a b c g).
Proof.
  intros []. split; try done. intros id s Hs. destruct (gi_objects0 id s Hs). by split.
Qed.

Lemma stop_inv g : gw_inv g → gw_inv (stop_gateway g).
Proof.
  intros Hg. unfold stop_gateway. destruct (stopped_ g); [done|].
  set (g1 := set_flags _ _ _ g). pose proof (set_flags_inv true (pending_accept g) (pending_timer g) g Hg) as Hg1.
  fold g1 in Hg1. assert (gw_inv (for_sessions close g1)) as Hg2.
  { apply (map_objects_inv (λ id s, if bool_decide (id ∈ gw_sessions g1) then close s else s)); [done|].
    intros id s Hs. case_bool_decide; [|done]. destruct Hs. by split. }
  destruct Hg2. split; try done. intros id s Hs. destruct (gi_objects0 id s Hs). split; try done.
  intros _. right. cbn [set_sessions gw_sessions]. set_solver.
Qed.

Lemma accept_inv ok g :
  gw_inv g → next_session_id_ g < u64_max → gw_inv (on_accept ok g).
Proof.
  intros Hg Hn. unfold on_accept. set (g1 := set_flags _ _ _ g).
  assert (gw_inv g1) as Hg1 by (by apply set_flags_inv).
  assert (∀ g2, gw_inv g2 → gw_inv (if negb (stopped_ g2) then do_accept g2 else g2)) as Hend.
  { intros g2 Hg2. destruct (stopped_ g2); simpl; [done|]. by apply set_flags_inv. }
  destruct ok; [|by apply Hend]. apply Hend. destruct Hg1 as [Hss Hids Hnext Hobj Hmsg Hsend Hin Hout].
  change (next_session_id_ g1) with (next_session_id_ g) in *. set (id := next_session_id_ g) in *.
  assert (id ∉ dom (gw_objects g1)) as Hfresh by (intros ?%Hids; lia).
  assert (u64_add id 1 = id + 1) as Hadd by (unfold u64_max in *; apply u64_add_small; lia).
  split; cbn [set_sessions set_objects set_next_session_id gw_sessions gw_objects gw_history
    next_session_id_ gw_inbound gw_outbound]; rewrite ?dom_insert_L, ?Hadd; try done; try lia.
  - set_solver.
  - intros j [->%elem_of_singleton|?%Hids]%elem_of_union; lia.
  - intros j s. destruct (decide (j = id)) as [->|Hne].
    + rewrite lookup_insert_eq. intros [= <-].
      assert (sent_by id (gw_history g1) = []) as Hnone.
      { apply sent_by_other. eapply Forall_impl; [exact Hsend|]. intros m Hm Heq. apply Hfresh. by rewrite <- Heq. }
      split; cbn [set_sessions set_objects set_next_session_id gw_history]; rewrite ?Hnone; try done; constructor.
    + rewrite lookup_insert_ne by done. intros Hs. destruct (Hobj j s Hs). split; try done.
      cbn [set_sessions set_objects set_next_session_id gw_sessions]. set_solver.
  - eapply Forall_impl; [exact Hsend|]. set_solver.
Qed.

Lemma timer_inv fuel ok g g' : gw_inv g → on_timer fuel ok g = Val g' → gw_inv g'.
Proof.
  intros Hg. unfold on_timer. set (g1 := set_flags _ _ _ g).
  assert (gw_inv g1) as Hg1 by (by apply set_flags_inv).
  destruct (_ && _); [|by intros [= <-]].
  intros ([r g2] & Hp & [= <-])%bind_Val_inv. apply set_flags_inv. by eapply poll_loop_inv.
Qed.

Lemma own_inv_step g g' : gw_inv g → own_step g g' → gw_inv g'.
Proof.
  intros Hg Hstep. destruct Hstep as [g|g|g ok _ Hn|g g' fuel ok _ Ht|g g' id s result Hs Hr Hres Hh|
    g g' id s header now result Hs Hr Hres Hh|g g' id s ok Hs Hw Hh].
  - unfold start_gateway. destruct (stopped_ g); simpl; [|done]. by do 3 apply set_flags_inv.
  - by apply stop_inv.
  - by apply accept_inv.
  - by eapply timer_inv.
  - destruct (on_header_ok id result s g Hg (gi_objects _ Hg id s Hs) Hr Hres) as (s' & g1 & He & Hpost).
    destruct (on_session_inv _ _ _ _ _ _ Hg Hs He Hpost) as [Heq Hinv]. rewrite Hh in Heq. by injection Heq as ->.
  - destruct (on_payload_ok id now header result s g Hg (gi_objects _ Hg id s Hs) Hr Hres)
      as (s' & g1 & He & Hpost).
    destruct (on_session_inv _ _ _ _ _ _ Hg Hs He Hpost) as [Heq Hinv]. rewrite Hh in Heq. by injection Heq as ->.
  - destruct (on_write_ok id ok s g Hg (gi_objects _ Hg id s Hs) Hw) as (s' & g1 & He & Hpost).
    destruct (on_session_inv _ _ _ _ _ _ Hg Hs He Hpost) as [Heq Hinv]. rewrite Hh in Heq. by injection Heq as ->.
Qed.

Lemma gw_inv_step g g' : gw_inv g → gw_step g g' → gw_inv g'.
Proof.
  intros Hg Hstep. destruct Hstep as [g g' Hs|g popped m q Hp|g pushed m q Hp].
  - by eapply own_inv_step.
  - assert (∃ n k, (k ≤ length (gw_history g))%nat ∧ bq_rep q n (drop k (gw_history g))) as Hin.
    { destruct (gi_inbound _ Hg) as (n & k & Hk & Hrep). destruct (drop k (gw_history g)) as [|x l] eqn:Hd.
      - destruct (bq_pop_empty _ _ default_inbound Hrep) as (q' & Hp' & Hrep'). rewrite Hp in Hp'.
        injection Hp' as _ _ <-. exists n, k. by rewrite Hd.
      - destruct (bq_pop_ok _ _ _ _ default_inbound Hrep) as (q' & Hp' & Hrep'). rewrite Hp in Hp'.
        injection Hp' as _ _ <-. exists n, (S k). apply (f_equal length) in Hd as Hl.
        rewrite length_drop in Hl. simpl in Hl. split; [lia|].
        by rewrite <- Nat.add_1_r, <- drop_drop, Hd. }
    destruct Hg. split; try done. intros id s Hs. destruct (gi_objects0 id s Hs). by split.
  - destruct (gi_outbound _ Hg) as (n & l & Hrep). eapply push_follows in Hrep; [|exact Hp].
    destruct pushed; by eapply set_outbound_inv.
Qed.

Lemma gw_inv_new qi qo : bq_rep qi 0 [] → bq_rep qo 0 [] → gw_inv (new_gateway qi qo).
Proof.
  intros Hi Ho. split; simpl.
  - set_solver.
  - intros id. by rewrite dom_empty_L.
  - done.
  - intros id s. by rewrite lookup_empty.
  - constructor.
  - constructor.
  - by exists 0%nat, 0%nat.
  - by exists 0%nat, [].
Qed.

Lemma gw_inv_reachable qi qo g :
  bq_rep qi 0 [] → bq_rep qo 0 [] → rtc gw_step (new_gateway qi qo) g → gw_inv g.
Proof.
  intros Hi Ho Hr. assert (∀ g g', rtc gw_step g g' → gw_inv g → gw_inv g') as H
    by (induction 1; eauto using gw_inv_step).
  eapply H; [done|]. by apply gw_inv_new.
Qed.

(** The commands of a session are in strictly increasing sequence. *)
Lemma history_sorted g id : gw_inv g → StronglySorted Z.lt (sent_by id (gw_history g)).
Proof.
  intros Hg. destruct (gw_objects g !! id) as [s|] eqn:Hs; [by apply (gi_objects _ Hg id s Hs)|].
  rewrite sent_by_other; [constructor|]. eapply Forall_impl; [exact (gi_senders _ Hg)|].
  intros m Hm Heq. simpl in Hm. rewrite Heq in Hm. apply elem_of_dom in Hm as [s Hm]. congruence.
Qed.

(** ** Closing *)

(** The next [k] writes of a session complete. *)
Fixpoint complete_writes (k : nat) (id : Z) (g : TcpGateway) : outcome TcpGateway :=
  match k with
  | O => Val g
  | S k' => g ← on_session id (on_write id true) g; complete_writes k' id g
  end.

Lemma complete_writes_closes id k : ∀ g s,
  gw_objects g !! id = Some s → length (write_queue_ s) = S k → close_after_write_ s = true →
  ∃ g' s', complete_writes (S k) id g = Val g' ∧ gw_objects g' !! id = Some s' ∧
    socket_open s' = false ∧ write_queue_ s' = [] ∧ id ∉ gw_sessions g' ∧
    gw_history g' = gw_history g.
Proof.
  assert (∀ (g : TcpGateway) s f rest, gw_objects g !! id = Some s → write_queue_ s = f :: rest →
    on_session id (on_write id true) g =
    ('(s, g) ← (let s := set_write_queue rest (set_pending_write false s) in
       if negb (bool_decide (rest = [])) then Val (do_write s, g)
       else if close_after_write_ s then
         Val (close (set_close_after_write false s), unregister_session id g)
       else Val (s, g));
     Val (set_objects (<[id := s]> (gw_objects g)) g))) as Hone.
  { intros g s f rest Hs Hq. unfold on_session. rewrite Hs. cbn [deref_opt]. rewrite bind_Val.
    unfold on_write. cbn [negb set_pending_write write_queue_]. by rewrite Hq. }
  induction k as [|k IH]; intros g s Hs Hl Hc;
    (destruct (write_queue_ s) as [|f rest] eqn:Hq; [by simpl in Hl|]).
  - cbn [complete_writes]. rewrite (Hone g s f rest Hs Hq). destruct rest; [|by simpl in Hl].
    rewrite bool_decide_eq_true_2 by done. cbn [negb].
    cbn [set_write_queue close_after_write_ set_pending_write]. rewrite Hc, !bind_Val.
    do 2 eexists. split; [done|]. cbn [set_objects gw_objects unregister_session set_sessions gw_sessions].
    split_and!; [apply lookup_insert_eq|done|done|set_solver|done].
  - change (complete_writes (S (S k)) id g) with
      (g ← on_session id (on_write id true) g; complete_writes (S k) id g).
    rewrite (Hone g s f rest Hs Hq), bool_decide_eq_false_2 by (by destruct rest). cbn [negb].
    rewrite !bind_Val.
    set (s1 := do_write _). set (g1 := set_objects _ _).
    destruct (IH g1 s1) as (g' & s' & Hw & Hrest); [|cbn; simpl in Hl; lia|done|by exists g', s'].
    apply (lookup_insert_eq (M:=gmap Z)).
Qed.

End Gateway.

(** ** Claims *)


(** What reaches the engine: in every reachable state the messages ever
    queued are commands that passed decoding and validation, carry the exact
    number of bytes of their frame and the id of a session that exists, and
    those of one session have strictly increasing sequence numbers; the inbound
    queue holds a suffix of them, in order. *)
Lemma sessions_send_in_sequence {QI QO} `{BI : BoundedQueue QI InboundMessage}
    `{BO : BoundedQueue QO OutboundMessage} qi qo g :
  bq_rep qi 0 [] → bq_rep qo 0 [] → rtc gw_step (new_gateway qi qo) g →
  Forall message_ok (gw_history g) ∧
  (∀ id, StronglySorted Z.lt (sent_by id (gw_history g))) ∧
  Forall (λ m, 0 < in_session_id m < next_session_id_ g) (gw_history g) ∧
  ∃ n k, bq_rep (gw_inbound g) n (drop k (gw_history g)).
Proof.
  intros Hi Ho Hr. pose proof (gw_inv_reachable qi qo g Hi Ho Hr) as Hg.
  pose proof Hg as [_ Hids _ _ Hmsg Hsend Hin _]. split_and!; [done| | |].
  - intros id. by apply history_sorted.
  - eapply Forall_impl; [exact Hsend|]. intros m Hm. by apply Hids.
  - destruct Hin as (n & k & _ & Hrep). eauto.
Qed.

(** C34. A fatal error ends a session: in every reachable state a session with
    [close_after_write_] set has no read pending, so it queues no further
    command, and if its writes go on, completing those still queued closes the
    socket and removes the session from the gateway. *)
Theorem fatal_error_ends_session {QI QO} `{BI : BoundedQueue QI InboundMessage}
    `{BO : BoundedQueue QO OutboundMessage} qi qo g id s :
  bq_rep qi 0 [] → bq_rep qo 0 [] → rtc gw_step (new_gateway qi qo) g →
  gw_objects g !! id = Some s → close_after_write_ s = true →
  pending_read s = NoRead ∧
  (pending_write s = true →
   ∃ g' s', complete_writes (length (write_queue_ s)) id g = Val g' ∧ gw_objects g' !! id = Some s' ∧
     socket_open s' = false ∧ write_queue_ s' = [] ∧ id ∉ gw_sessions g' ∧
     gw_history g' = gw_history g).
Proof.
  intros Hi Ho Hr Hs Hc. pose proof (gw_inv_reachable qi qo g Hi Ho Hr) as Hg.
  destruct (gi_objects _ Hg id s Hs). split; [by apply ss_closing0|]. intros Hw.
  destruct (length (write_queue_ s)) as [|k] eqn:Hl.
  - by destruct (ss_writing0 Hw), (write_queue_ s).
  - by apply complete_writes_closes with s.
Qed.

(** C35. Replies reach their sessions: polling takes everything out of the
    outbound queue, counts it, and appends to the write queue of each open
    registered session exactly the frames of the messages addressed to it (or to
    all), in order; no other session is touched. *)
Theorem poll_outbound_delivers {QI QO} `{BO : BoundedQueue QO OutboundMessage}
    (g : @TcpGateway QI QO) n l :
  bq_rep (gw_outbound g) n l → Z.of_nat (length l) ≤ u64_max →
  Forall (λ m, out_payload m ≠ PayloadNone) l →
  ∃ g', poll_outbound (length l) g = Val (Z.of_nat (length l), g') ∧
    bq_rep (gw_outbound g') n [] ∧ gw_sessions g' = gw_sessions g ∧
    ∀ id s, gw_objects g !! id = Some s → ∃ s', gw_objects g' !! id = Some s' ∧
      if bool_decide (id ∈ gw_sessions g) && socket_open s
      then write_queue_ s' = write_queue_ s ++
             (frame_of <$> filter (λ m, out_session_id m = 0 ∨ out_session_id m = id) l)
      else s' = s.
Proof.
  intros Hrep Hlen Hp. destruct (poll_loop_ok l (length l) default_outbound 0 g n) as (q & Hq & Hpl);
    [done|lia|lia|done|]. eexists. split; [exact Hpl|]. split_and!; [done|done|].
  intros id s Hs. eexists. split.
  { cbn [set_outbound gw_objects]. rewrite map_objects_lookup, Hs. done. }
  clear Hpl Hs Hrep Hlen. revert s. induction Hp as [|m l Hm _ IH]; intros s; cbn [foldl].
  { rewrite app_nil_r. by destruct (_ && _). }
  assert (receives g id m = bool_decide (id ∈ gw_sessions g) &&
    bool_decide (out_session_id m = 0 ∨ out_session_id m = id)) as ->.
  { unfold receives. f_equal.
    destruct (Z.eqb_spec (out_session_id m) 0), (Z.eqb_spec (out_session_id m) id);
      symmetry; (apply bool_decide_eq_true_2; tauto) || (apply bool_decide_eq_false_2; tauto). }
  destruct (decide (id ∈ gw_sessions g)) as [Hin|Hin].
  2:{ rewrite bool_decide_eq_false_2 in * by done. apply IH. }
  rewrite bool_decide_eq_true_2 in * by done. cbn [andb] in *. rewrite filter_cons.
  case_bool_decide; [rewrite decide_True by done|rewrite decide_False by done; apply IH].
  pose proof (frame_of_nonempty m Hm) as Hne.
  assert (socket_open (send_raw_frame (frame_of m) s) = socket_open s ∧
    (socket_open s = false → send_raw_frame (frame_of m) s = s) ∧
    (socket_open s = true → write_queue_ (send_raw_frame (frame_of m) s) = write_queue_ s ++ [frame_of m]))
    as (H1 & H2 & H3).
  { unfold send_raw_frame. rewrite bool_decide_eq_false_2 by done. destruct (socket_open s) eqn:Ho; simpl; [|done].
    by case_bool_decide. }
  specialize (IH (send_raw_frame (frame_of m) s)). rewrite H1 in IH. destruct (socket_open s).
  - rewrite IH, H3, <- app_assoc by done. done.
  - by rewrite IH, H2.
Qed.

(** ** Witnesses

    A client connects, sends a sell, and then a header that is no header. *)

#[local] Existing Instance inbound_queue.
#[local] Existing Instance outbound_queue.

Definition demo_gw0 := new_gateway empty_in empty_out.
Definition demo_gw1 := on_accept true (start_gateway demo_gw0).
Definition demo_sell : NewOrder := demo_order 1 1 sell 10 100.
Definition demo_header : WireHeader := frame_header MessageType.new_order kNewOrderSize 0.
Definition demo_gw2 :=
  value_of (on_session 1 (on_header 1 (Some (header_image demo_header))) demo_gw1) demo_gw1.
Definition demo_gw3 :=
  value_of (on_session 1 (on_payload 1 5000 demo_header (Some (new_order_image demo_sell))) demo_gw2)
    demo_gw2.
Definition demo_gw4 :=
  value_of (on_session 1 (on_header 1 (Some (replicate kHeaderSize 0))) demo_gw3) demo_gw3.
Definition demo_session {QI QO} (g : @TcpGateway QI QO) : TcpSession := default new_session (gw_objects g !! 1).

Lemma demo_read_results :
  read_result kHeaderSize (Some (header_image demo_header)) ∧
  read_result (Z.to_nat (payload_length demo_header)) (Some (new_order_image demo_sell)) ∧
  read_result kHeaderSize (Some (replicate kHeaderSize 0)).
Proof. split_and!; (split; [by vm_compute|]); repeat constructor; vm_compute; intuition discriminate. Qed.

Lemma demo_gateway_runs : rtc own_step demo_gw0 demo_gw3.
Proof.
  destruct demo_read_results as (H1 & H2 & _).
  eapply rtc_l; [apply gw_start|].
  eapply rtc_l; [apply (gw_accept _ true); [done|by vm_compute]|].
  eapply rtc_l; [apply (gw_header demo_gw1 demo_gw2 1 (demo_session demo_gw1) (Some (header_image demo_header)));
    [by vm_compute|done|exact H1|by vm_compute]|].
  eapply rtc_once, (gw_payload demo_gw2 demo_gw3 1 (demo_session demo_gw2) demo_header 5000
    (Some (new_order_image demo_sell))); [by vm_compute|by vm_compute|exact H2|by vm_compute].
Qed.

Lemma demo_gateway_reachable :
  rtc gw_step demo_gw0 demo_gw3 ∧ rtc gw_step demo_gw0 demo_gw4.
Proof.
  assert (rtc gw_step demo_gw0 demo_gw3) as H.
  { eapply (rtc_congruence (λ g, g)); [|exact demo_gateway_runs]. intros ??. by apply gw_own. }
  destruct demo_read_results as (_ & _ & H3). split; [done|]. eapply rtc_r; [exact H|].
  apply gw_own, (gw_header demo_gw3 demo_gw4 1 (demo_session demo_gw3) (Some (replicate kHeaderSize 0)));
    [by vm_compute|by vm_compute|exact H3|by vm_compute].
Qed.


Lemma sessions_send_in_sequence_witness :
  length (gw_history demo_gw4) = 1%nat ∧ Forall message_ok (gw_history demo_gw4) ∧
  ∀ id, StronglySorted Z.lt (sent_by id (gw_history demo_gw4)).
Proof.
  destruct empty_queues as (Hi & Ho & _). split; [by vm_compute|].
  destruct (sessions_send_in_sequence empty_in empty_out demo_gw4 Hi Ho) as (H1 & H2 & _);
    [apply demo_gateway_reachable|]. split; [exact H1|exact H2].
Defined.

Lemma fatal_error_ends_session_witness :
  pending_read (demo_session demo_gw4) = NoRead ∧
  ∃ g' s', complete_writes 1 1 demo_gw4 = Val g' ∧ gw_objects g' !! 1 = Some s' ∧
    socket_open s' = false ∧ write_queue_ s' = [] ∧ 1 ∉ gw_sessions g' ∧
    gw_history g' = gw_history demo_gw4.
Proof.
  destruct empty_queues as (Hi & Ho & _).
  destruct (fatal_error_ends_session empty_in empty_out demo_gw4 1 (demo_session demo_gw4) Hi Ho)
    as (H1 & H2); [apply demo_gateway_reachable|by vm_compute|by vm_compute|].
  split; [exact H1|]. apply H2. by vm_compute.
Defined.

Definition demo_reply : OutboundMessage :=
  mkOutboundMessage 1 MessageType.order_accepted 0 (PayloadOrderAccepted
    {| oa_sequence := SequenceNumber.mk 1; oa_order_id := OrderId.mk 1; oa_remaining_quantity := 10 |}).
Definition demo_out := (value_of (bq_push demo_reply empty_out) (false, empty_out)).2.

Lemma demo_out_rep : bq_rep demo_out 1 [demo_reply].
Proof.
  destruct empty_queues as (_ & Ho & _). unfold demo_out.
  destruct (bq_push_ok _ _ _ demo_reply Ho) as (q' & -> & Hrep); [by apply Nat.ltb_lt|done].
Qed.

Lemma poll_outbound_delivers_witness :
  ∃ g' s', poll_outbound 1 (set_outbound demo_out demo_gw3) = Val (1, g') ∧
    gw_objects g' !! 1 = Some s' ∧ write_queue_ s' = [frame_of demo_reply].
Proof.
  destruct (poll_outbound_delivers (set_outbound demo_out demo_gw3) 1 [demo_reply])
    as (g' & H1 & _ & _ & H4); [exact demo_out_rep|vm_compute; discriminate|by repeat constructor|].
  destruct (H4 1 (demo_session demo_gw3)) as (s' & H5 & H6); [by vm_compute|].
  exists g', s'. split; [exact H1|]. split; [exact H5|]. exact H6.
Defined.
