(* ===== verification/ReferenceBook.v ===== *)
(** * The reference order book of the differential tests

    Models [ReferenceOrderBook] of [tests/reference_order_book.hpp]: resting
    orders in one vector in arrival order, every query a scan of it, matching
    by repeatedly picking the best candidate. *)

From stdpp Require Import prelude gmap list.
From Stdlib Require Import ZArith Lia.
From S2P Require Import Prelude Types OrdMap OrderBook.

Open Scope Z_scope.

Record RestingRefOrder : Type := mkRefOrder {
  rf_order_id : OrderId.t;
  rf_sequence : SequenceNumber.t;
  rf_side : Side;
  rf_price : Price.t;
  rf_remaining_quantity : Quantity.t;
}.

Definition rf_set_remaining (q : Quantity.t) (o : RestingRefOrder) : RestingRefOrder :=
  mkRefOrder (rf_order_id o) (rf_sequence o) (rf_side o) (rf_price o) q.

Record ReferenceOrderBook : Type := mkRefBook {
  rf_resting_orders_ : list RestingRefOrder;
  rf_seen_order_ids_ : list OrderId.t;
}.

Definition empty_ref : ReferenceOrderBook := mkRefBook [] [].

(** ** Matching *)

(** Whether the scan looks at a candidate: the [continue]s of the loop. *)
Definition rf_eligible (side : Side) (type : OrderType) (limit_price : option Price.t)
    (candidate : RestingRefOrder) : outcome bool :=
  if bool_decide (rf_side candidate = side) then Val false
  else if bool_decide (type = limit) then
    lim ← deref_opt limit_price;
    Val (match side with
         | buy => negb (Price.gtb (rf_price candidate) lim)
         | sell => negb (Price.ltb (rf_price candidate) lim)
         end)
  else Val true.

(** Whether a candidate replaces the current best. *)
Definition rf_better (side : Side) (candidate current_best : RestingRefOrder) : bool :=
  match side with
  | buy => Price.ltb (rf_price candidate) (rf_price current_best)
  | sell => Price.gtb (rf_price candidate) (rf_price current_best)
  end ||
  (Price.eqb (rf_price candidate) (rf_price current_best) &&
   SequenceNumber.ltb (rf_sequence candidate) (rf_sequence current_best)).

(** The inner loop from index [i] on; [rest] is what it has not looked at. *)
Fixpoint rf_scan (side : Side) (type : OrderType) (limit_price : option Price.t)
    (orders : list RestingRefOrder) (i : nat) (rest : list RestingRefOrder) (best_idx : option nat)
  : outcome (option nat) :=
  match rest with
  | [] => Val best_idx
  | candidate :: rest' =>
      eligible ← rf_eligible side type limit_price candidate;
      best_idx ←
        (if negb eligible then Val best_idx
         else match best_idx with
              | None => Val (Some i)
              | Some j =>
                  current_best ← deref_opt (orders !! j);
                  Val (if rf_better side candidate current_best then Some i else best_idx)
              end);
      rf_scan side type limit_price orders (S i) rest' best_idx
  end.

(** The outer loop; every iteration that goes on uses up a resting order or the
    incoming one, so one iteration more than there are orders is enough. *)
Fixpoint rf_match (fuel : nat) (incoming_order_id : OrderId.t) (side : Side) (type : OrderType)
    (limit_price : option Price.t) (orders : list RestingRefOrder) (remaining_units : Z)
    (executions : list Execution) : outcome (list RestingRefOrder * Z * list Execution) :=
  if negb (0 <? remaining_units) then Val (orders, remaining_units, executions)
  else match fuel with
  | O => OutOfFuel
  | S fuel' =>
      best_idx ← rf_scan side type limit_price orders 0 orders None;
      match best_idx with
      | None => Val (orders, remaining_units, executions)
      | Some i =>
          contra ← deref_opt (orders !! i);
          let contra_units := Quantity.units (rf_remaining_quantity contra) in
          let executed_units := Z.min remaining_units contra_units in
          executed_quantity ← deref_opt (Quantity.from_units executed_units);
          let executions := executions ++
            [mkExecution (rf_order_id contra) incoming_order_id (rf_price contra) executed_quantity] in
          let remaining_units := u64_sub remaining_units executed_units in
          let contra_remaining := u64_sub contra_units executed_units in
          orders ←
            (if contra_remaining =? 0 then Val (delete i orders)
             else q ← deref_opt (Quantity.from_units contra_remaining);
                  Val (<[i := rf_set_remaining q contra]> orders));
          rf_match fuel' incoming_order_id side type limit_price orders remaining_units executions
      end
  end.

(** ** Commands *)

Definition rf_submit (order : NewOrder) (b : ReferenceOrderBook)
  : outcome (SubmitResult * ReferenceOrderBook) :=
  if negb (is_none (validate order)) then
    Val (mkSubmitResult [] (Some OrderRejectReason.invalid_order) None, b)
  else if existsb (λ id, bool_decide (id = no_order_id order)) (rf_seen_order_ids_ b) then
    Val (mkSubmitResult [] (Some OrderRejectReason.duplicate_order_id) None, b)
  else
    let seen := rf_seen_order_ids_ b ++ [no_order_id order] in
    let orders := rf_resting_orders_ b in
    '(orders, remaining_units, executions) ←
      rf_match (S (length orders)) (no_order_id order) (no_side order) (no_type order)
        (no_limit_price order) orders (Quantity.units (no_quantity order)) [];
    if bool_decide (no_type order = limit) && (0 <? remaining_units) then
      remaining_quantity ← deref_opt (Quantity.from_units remaining_units);
      price ← deref_opt (no_limit_price order);
      Val (mkSubmitResult executions None (Some remaining_quantity),
           mkRefBook (orders ++ [mkRefOrder (no_order_id order) (no_sequence order) (no_side order)
                                   price remaining_quantity]) seen)
    else Val (mkSubmitResult executions None None, mkRefBook orders seen).

(** [std::ranges::find_if] by order id. *)
Fixpoint rf_find (id : OrderId.t) (orders : list RestingRefOrder) : option nat :=
  match orders with
  | [] => None
  | o :: orders' => if bool_decide (rf_order_id o = id) then Some O else S <$> rf_find id orders'
  end.

Definition rf_cancel (command : CancelOrder) (b : ReferenceOrderBook)
  : outcome (CancelResult * ReferenceOrderBook) :=
  match rf_find (co_order_id command) (rf_resting_orders_ b) with
  | None => Val (mkCancelResult (co_order_id command) None (Some CancelRejectReason.order_not_found), b)
  | Some i =>
      o ← deref_opt (rf_resting_orders_ b !! i);
      Val (mkCancelResult (co_order_id command) (Some (rf_remaining_quantity o)) None,
           mkRefBook (delete i (rf_resting_orders_ b)) (rf_seen_order_ids_ b))
  end.

Definition rf_replace (command : ReplaceOrder) (b : ReferenceOrderBook)
  : outcome (ReplaceResult * ReferenceOrderBook) :=
  match rf_find (rp_order_id command) (rf_resting_orders_ b) with
  | None => Val (mkReplaceResult (rp_order_id command) [] None
                   (Some ReplaceRejectReason.order_not_found), b)
  | Some i =>
      o ← deref_opt (rf_resting_orders_ b !! i);
      let side := rf_side o in
      if Price.eqb (rp_new_price command) (rf_price o) &&
         (Quantity.units (rp_new_quantity command) <=? Quantity.units (rf_remaining_quantity o)) then
        Val (mkReplaceResult (rp_order_id command) [] (Some (rp_new_quantity command)) None,
             mkRefBook (<[i := rf_set_remaining (rp_new_quantity command) o]> (rf_resting_orders_ b))
               (rf_seen_order_ids_ b))
      else
        let orders := delete i (rf_resting_orders_ b) in
        '(orders, remaining_units, executions) ←
          rf_match (S (length orders)) (rp_order_id command) side limit (Some (rp_new_price command))
            orders (Quantity.units (rp_new_quantity command)) [];
        if 0 <? remaining_units then
          remaining_quantity ← deref_opt (Quantity.from_units remaining_units);
          Val (mkReplaceResult (rp_order_id command) executions (Some remaining_quantity) None,
               mkRefBook (orders ++ [mkRefOrder (rp_order_id command) (rp_sequence command) side
                                       (rp_new_price command) remaining_quantity])
                 (rf_seen_order_ids_ b))
        else Val (mkReplaceResult (rp_order_id command) executions None None,
                  mkRefBook orders (rf_seen_order_ids_ b))
  end.

(** ** Queries *)

(** The loops of [best_bid] and [best_ask]. *)
Definition rf_best (s : Side) (b : ReferenceOrderBook) : option Price.t :=
  foldl (λ best o,
    if bool_decide (rf_side o = s) then
      match best with
      | None => Some (rf_price o)
      | Some p => if side_ltb s (rf_price o) p then Some (rf_price o) else best
      end
    else best) None (rf_resting_orders_ b).
Definition rf_best_bid : ReferenceOrderBook → option Price.t := rf_best buy.
Definition rf_best_ask : ReferenceOrderBook → option Price.t := rf_best sell.

Definition rf_aggregate_level (s : Side) (price : Price.t) (b : ReferenceOrderBook)
  : outcome LevelQuote :=
  let '(total_units, count) :=
    foldl (λ '(total_units, count) o,
      if bool_decide (rf_side o = s) && Price.eqb (rf_price o) price
      then (u64_add total_units (Quantity.units (rf_remaining_quantity o)), u64_add count 1)
      else (total_units, count)) (0, 0) (rf_resting_orders_ b) in
  quantity ← deref_opt (Quantity.from_units total_units);
  Val (mkLevelQuote price quantity count).

Definition rf_top (s : Side) (b : ReferenceOrderBook) : outcome (option LevelQuote) :=
  match rf_best s b with
  | None => Val None
  | Some p => q ← rf_aggregate_level s p b; Val (Some q)
  end.
Definition rf_top_bid : ReferenceOrderBook → outcome (option LevelQuote) := rf_top buy.
Definition rf_top_ask : ReferenceOrderBook → outcome (option LevelQuote) := rf_top sell.

(** The first loop of [bid_depth]/[ask_depth]: totals and counts per price. *)
Definition rf_levels (s : Side) (b : ReferenceOrderBook) : list (Price.t * (Z * Z)) :=
  foldl (λ levels o,
    if bool_decide (rf_side o = s) then
      let '(units, count) := om_index (side_ltb s) (0, 0) (rf_price o) levels in
      om_put (side_ltb s) (rf_price o)
        (u64_add units (Quantity.units (rf_remaining_quantity o)), u64_add count 1) levels
    else levels) [] (rf_resting_orders_ b).

Fixpoint rf_depth_loop (max_depth : nat) (l : list (Price.t * (Z * Z))) (quotes : list LevelQuote)
  : outcome (list LevelQuote) :=
  match l with
  | [] => Val quotes
  | (price, (units, count)) :: l' =>
      if bool_decide (length quotes = max_depth) then Val quotes
      else q ← deref_opt (Quantity.from_units units);
           rf_depth_loop max_depth l' (quotes ++ [mkLevelQuote price q count])
  end.
Definition rf_bid_depth (max_depth : nat) (b : ReferenceOrderBook) : outcome (list LevelQuote) :=
  rf_depth_loop max_depth (rf_levels buy b) [].
Definition rf_ask_depth (max_depth : nat) (b : ReferenceOrderBook) : outcome (list LevelQuote) :=
  rf_depth_loop max_depth (rf_levels sell b) [].
Definition rf_depth (max_depth : nat) (b : ReferenceOrderBook) : outcome BookDepth :=
  bids ← rf_bid_depth max_depth b;
  asks ← rf_ask_depth max_depth b;
  Val (mkBookDepth bids asks).

Definition rf_resting_order_count (b : ReferenceOrderBook) : Z :=
  Z.of_nat (length (rf_resting_orders_ b)).
