(* ===== verification/ReferenceProps.v ===== *)
(** * The order book is equivalent to the reference order book

    The reference book of the differential tests keeps its orders in one vector
    in arrival order.  [prio] turns such a vector into a priority list by
    inserting its orders one after the other; [mirrors] relates a reference
    book to an [OrderBook] by saying that the priority lists of the two are the
    same.  Every command keeps the relation and returns the same result on
    both, and every query the two have in common returns the same value. *)

From stdpp Require Import prelude gmap list sorting.
From Stdlib Require Import ZArith Lia.
From S2P Require Import Prelude Types OrdMap OrderBook BookSpec BookInv BookMatch BookEdit.
From S2P Require Import BookRefine BookProps BookQueries ReferenceBook.

Open Scope Z_scope.

(** ** Priority lists of a vector in arrival order *)

Definition prio (s : Side) (l : list quote) : list quote :=
  foldl (λ acc q, spec_insert s q acc) [] l.

Lemma prio_snoc s l q : prio s (l ++ [q]) = spec_insert s q (prio s l).
Proof. unfold prio. by rewrite foldl_app. Qed.

Lemma spec_insert_perm s q l : spec_insert s q l ≡ₚ q :: l.
Proof.
  induction l as [|q' l IH]; simpl; [done|]. destruct (side_ltb s q.1 q'.1); [done|].
  rewrite IH. apply Permutation_swap.
Qed.

Lemma prio_perm s l : prio s l ≡ₚ l.
Proof.
  induction l as [|q l IH] using rev_ind; [done|].
  rewrite prio_snoc, spec_insert_perm, IH. apply Permutation_cons_append.
Qed.

Lemma spec_insert_in_priority s q l : in_priority s l → in_priority s (spec_insert s q l).
Proof.
  intros Hl. destruct (spec_insert_position s q l Hl) as (l1 & l2 & -> & -> & H1 & H2).
  apply StronglySorted_app in Hl as (H12 & Hs1 & Hs2).
  apply StronglySorted_app_intro; [by apply Hs1|..].
  - constructor; [done|]. apply (Forall_impl _ _ _ H2). intros x Hx. apply ltb_antisym; [apply _|done].
  - intros x y Hx [->|Hy]%elem_of_cons; [|by apply H12].
    rewrite Forall_forall in H1. by apply H1.
Qed.

Lemma prio_in_priority s l : in_priority s (prio s l).
Proof.
  induction l as [|q l IH] using rev_ind; [constructor|]. rewrite prio_snoc.
  by apply spec_insert_in_priority.
Qed.

Lemma spec_insert_filter s (P : quote → Prop) `{!∀ q, Decision (P q)} q l :
  in_priority s l →
  filter P (spec_insert s q l) =
    if decide (P q) then spec_insert s q (filter P l) else filter P l.
Proof.
  intros Hl. destruct (spec_insert_position s q l Hl) as (l1 & l2 & -> & -> & H1 & H2).
  rewrite !filter_app, filter_cons. destruct (decide (P q)); [|done].
  rewrite spec_insert_skip, spec_insert_stop; [done|..]; by eapply Forall_sublist; [apply sublist_filter|].
Qed.

(** Taking orders out of the vector takes them out of the priority list. *)
Lemma prio_filter s (P : quote → Prop) `{!∀ q, Decision (P q)} l :
  prio s (filter P l) = filter P (prio s l).
Proof.
  induction l as [|q l IH] using rev_ind; [done|].
  rewrite prio_snoc, spec_insert_filter, <- IH by apply prio_in_priority.
  rewrite filter_app, filter_cons, filter_nil. destruct (decide (P q)).
  - by rewrite prio_snoc.
  - by rewrite app_nil_r.
Qed.

(** A change that keeps the prices keeps the order. *)
Lemma prio_fmap s (f : quote → quote) l :
  (∀ q, (f q).1 = q.1) → prio s (f <$> l) = f <$> prio s l.
Proof.
  intros Hf. induction l as [|q l IH] using rev_ind; [done|].
  rewrite fmap_app. change (f <$> [q]) with [f q]. rewrite !prio_snoc, IH. clear IH. induction (prio s l) as [|q' m IH]; [done|].
  csimpl. rewrite !Hf. destruct (side_ltb s q.1 q'.1); [done|]. csimpl. by rewrite IH.
Qed.

(** The first of the best orders of the vector is the head of the list. *)
Lemma prio_best s l1 h l2 :
  Forall (λ x : quote, side_ltb s h.1 x.1 = true) l1 →
  Forall (λ x : quote, side_ltb s x.1 h.1 = false) l2 →
  prio s (l1 ++ h :: l2) = h :: prio s (l1 ++ l2).
Proof.
  intros H1 H2. induction l2 as [|x l2 IH] using rev_ind.
  - rewrite prio_snoc, app_nil_r, spec_insert_stop; [done|].
    by rewrite prio_perm.
  - apply Forall_app in H2 as [H2 [Hx _]%Forall_cons].
    replace (l1 ++ h :: l2 ++ [x]) with ((l1 ++ h :: l2) ++ [x]) by (by rewrite <- app_assoc).
    rewrite app_assoc, !prio_snoc, IH by done. simpl. by rewrite Hx.
Qed.

(** ** The quotes of a vector *)

Definition quote_of (o : RestingRefOrder) : quote :=
  (rf_price o, mkRestingOrder (rf_order_id o) (rf_sequence o) (rf_remaining_quantity o)).

Definition side_quotes (s : Side) (orders : list RestingRefOrder) : list quote :=
  quote_of <$> filter (λ o, rf_side o = s) orders.

Definition ref_prio (s : Side) (orders : list RestingRefOrder) : list quote :=
  prio s (side_quotes s orders).

Lemma side_quotes_app s l1 l2 : side_quotes s (l1 ++ l2) = side_quotes s l1 ++ side_quotes s l2.
Proof. unfold side_quotes. by rewrite filter_app, fmap_app. Qed.

Lemma side_quotes_cons s o l :
  side_quotes s (o :: l) =
    (if decide (rf_side o = s) then [quote_of o] else []) ++ side_quotes s l.
Proof. unfold side_quotes. rewrite filter_cons. by destruct (decide _). Qed.

Lemma elem_of_side_quotes s q orders :
  q ∈ side_quotes s orders ↔ ∃ o, o ∈ orders ∧ rf_side o = s ∧ q = quote_of o.
Proof.
  unfold side_quotes. rewrite list_elem_of_fmap. setoid_rewrite list_elem_of_filter. naive_solver.
Qed.

Lemma Forall_side_quotes (P : quote → Prop) s orders :
  Forall P (side_quotes s orders) ↔ Forall (λ o, rf_side o = s → P (quote_of o)) orders.
Proof.
  rewrite !Forall_forall. setoid_rewrite elem_of_side_quotes. naive_solver.
Qed.

(** ** The scan *)

Section matching.
Context (incoming : OrderId.t) (side : Side) (type : OrderType) (lp : option Price.t).
Context (Hlp : type = limit → is_Some lp).

Definition eligible (o : RestingRefOrder) : bool :=
  bool_decide (rf_side o = opposite side) && tradable side type lp (rf_price o).

Lemma rf_eligible_eq o : rf_eligible side type lp o = Val (eligible o).
Proof.
  unfold rf_eligible, eligible, tradable. destruct type.
  - destruct (Hlp eq_refl) as [lim ->]. simpl.
    destruct side, (rf_side o); simpl; try done; unfold Price.gtb, Price.ltb, Price.leb, Price.geb;
      f_equal; by rewrite Z.leb_antisym.
  - by destruct side, (rf_side o).
Qed.

(** A tradable order is strictly better than one that is not. *)
Lemma tradable_better p p' :
  tradable side type lp p = true → tradable side type lp p' = false →
  side_ltb (opposite side) p p' = true.
Proof.
  unfold tradable. destruct type; [|done]. destruct lp as [lim|]; [|done].
  rewrite !crosses_opposite. rewrite negb_true_iff, negb_false_iff. intros H1 H2.
  destruct (side_ltb (opposite side) p lim) eqn:E; [by eapply ltb_trans|].
  by rewrite <- (ltb_total _ _ H1 E).
Qed.

(** What the index the scan holds means for the orders before [i]. *)
Definition scan_best (seen : list RestingRefOrder) (best_idx : option nat) : Prop :=
  match best_idx with
  | None => Forall (λ o, eligible o = false) seen
  | Some i => ∃ l1 h l2, seen = l1 ++ h :: l2 ∧ length l1 = i ∧ eligible h = true ∧
      Forall (λ o, eligible o = true → side_ltb (opposite side) (rf_price h) (rf_price o) = true) l1 ∧
      Forall (λ o, eligible o = true → side_ltb (opposite side) (rf_price o) (rf_price h) = false) l2
  end.

Definition seqs_sorted (orders : list RestingRefOrder) : Prop :=
  StronglySorted (λ a b, SequenceNumber.value (rf_sequence a) ≤ SequenceNumber.value (rf_sequence b))
    orders.

Lemma rf_better_later h o :
  SequenceNumber.value (rf_sequence h) ≤ SequenceNumber.value (rf_sequence o) →
  rf_better side o h = side_ltb (opposite side) (rf_price o) (rf_price h).
Proof.
  intros Hs. unfold rf_better, SequenceNumber.ltb. rewrite (proj2 (Z.ltb_ge _ _)) by lia.
  rewrite andb_false_r, orb_false_r. by destruct side.
Qed.

Lemma scan_best_step seen best_idx o rest :
  seqs_sorted (seen ++ o :: rest) → scan_best seen best_idx →
  ∃ best_idx',
    (if negb (eligible o) then Val best_idx
     else match best_idx with
          | None => Val (Some (length seen))
          | Some j =>
              current_best ← deref_opt ((seen ++ o :: rest) !! j);
              Val (if rf_better side o current_best then Some (length seen) else best_idx)
          end) = Val best_idx' ∧
    scan_best (seen ++ [o]) best_idx'.
Proof.
  intros Hs Hb. destruct (eligible o) eqn:Ho; simpl.
  - destruct best_idx as [j|]; simpl in Hb.
    + destruct Hb as (l1 & h & l2 & -> & <- & Hh & H1 & H2).
      assert (((l1 ++ h :: l2) ++ o :: rest) !! length l1 = Some h) as Hj
        by (rewrite <- app_assoc; by apply list_lookup_middle).
      rewrite Hj. simpl. rewrite rf_better_later.
      2:{ apply StronglySorted_app in Hs as (Hs & _). apply Hs; list_elem. }
      destruct (side_ltb (opposite side) (rf_price o) (rf_price h)) eqn:E; eexists; split; try done.
      * exists (l1 ++ h :: l2), o, []. split_and!; try done. apply Forall_app. split.
        -- apply (Forall_impl _ _ _ H1). intros x Hx Hex. eapply ltb_trans; [done|by apply Hx].
        -- constructor; [done|]. apply (Forall_impl _ _ _ H2). intros x Hx Hex. specialize (Hx Hex).
           destruct (side_ltb (opposite side) (rf_price h) (rf_price x)) eqn:E'.
           ++ by eapply ltb_trans.
           ++ by rewrite <- (ltb_total _ _ E' Hx).
      * exists l1, h, (l2 ++ [o]). rewrite <- app_assoc. split_and!; try done.
        apply Forall_app. split; [done|]. by apply Forall_singleton.
    + eexists. split; [done|]. exists seen, o, []. split_and!; try done.
      apply (Forall_impl _ _ _ Hb). by intros x ->.
  - eexists. split; [done|]. destruct best_idx as [j|]; simpl in *.
    + destruct Hb as (l1 & h & l2 & -> & <- & Hh & H1 & H2).
      exists l1, h, (l2 ++ [o]). rewrite <- app_assoc. split_and!; try done.
      apply Forall_app. split; [done|]. apply Forall_singleton. by rewrite Ho.
    + apply Forall_app. split; [done|]. by apply Forall_singleton.
Qed.

Lemma rf_scan_ok rest seen best_idx :
  seqs_sorted (seen ++ rest) → scan_best seen best_idx →
  ∃ best_idx', rf_scan side type lp (seen ++ rest) (length seen) rest best_idx = Val best_idx' ∧
    scan_best (seen ++ rest) best_idx'.
Proof.
  revert seen best_idx. induction rest as [|o rest IH]; intros seen best_idx Hs Hb; simpl.
  - rewrite app_nil_r. eauto.
  - rewrite rf_eligible_eq, bind_Val.
    destruct (scan_best_step seen best_idx o rest Hs Hb) as (best_idx' & -> & Hb').
    rewrite bind_Val. specialize (IH (seen ++ [o]) best_idx').
    rewrite length_app, Nat.add_1_r, <- app_assoc in IH. by apply IH.
Qed.

(** ** One iteration of the match loop *)

Lemma ref_prio_head l1 h l2 :
  eligible h = true →
  Forall (λ o, eligible o = true → side_ltb (opposite side) (rf_price h) (rf_price o) = true) l1 →
  Forall (λ o, eligible o = true → side_ltb (opposite side) (rf_price o) (rf_price h) = false) l2 →
  ref_prio (opposite side) (l1 ++ h :: l2) = quote_of h :: ref_prio (opposite side) (l1 ++ l2).
Proof.
  unfold eligible. intros [Hh%bool_decide_eq_true Ht]%andb_true_iff H1 H2. unfold ref_prio.
  rewrite !side_quotes_app, side_quotes_cons, decide_True by done. apply prio_best.
  - apply Forall_side_quotes. apply (Forall_impl _ _ _ H1). intros o Ho Hs.
    rewrite bool_decide_eq_true_2 in Ho by done. simpl in *.
    destruct (tradable side type lp (rf_price o)) eqn:E; [by apply Ho|by apply tradable_better].
  - apply Forall_side_quotes. apply (Forall_impl _ _ _ H2). intros o Ho Hs.
    rewrite bool_decide_eq_true_2 in Ho by done. simpl in *.
    destruct (tradable side type lp (rf_price o)) eqn:E; [by apply Ho|].
    apply ltb_antisym; [apply _|by apply tradable_better].
Qed.

Lemma sweep_stops ok rem l :
  rem = 0 ∨ Forall (λ q : quote, ok q.1 = false) l → sweep ok incoming rem l = ([], l, rem).
Proof.
  destruct l as [|[p o] l]; simpl; [done|]. intros [->|[Hp _]%Forall_cons]; [done|].
  simpl in Hp. by rewrite Hp, andb_false_r.
Qed.

Lemma sweep_none orders rem :
  Forall (λ o, eligible o = false) orders →
  sweep (tradable side type lp) incoming rem (ref_prio (opposite side) orders)
    = ([], ref_prio (opposite side) orders, rem).
Proof.
  intros Hn. apply sweep_stops. right. unfold ref_prio. rewrite prio_perm.
  apply Forall_side_quotes, (Forall_impl _ _ _ Hn). intros o Ho Hs. unfold eligible in Ho.
  by rewrite bool_decide_eq_true_2 in Ho.
Qed.

Definition ref_key (o : RestingRefOrder) : OrderId.t * SequenceNumber.t :=
  (rf_order_id o, rf_sequence o).

Definition units_ok (o : RestingRefOrder) : Prop := Quantity.valid (rf_remaining_quantity o).

Lemma seqs_sorted_keys orders :
  seqs_sorted orders ↔
  StronglySorted (λ a b, SequenceNumber.value a.2 ≤ SequenceNumber.value b.2) (ref_key <$> orders).
Proof.
  unfold seqs_sorted. induction orders as [|o orders IH]; csimpl; [by split; constructor|].
  rewrite !StronglySorted_cons, IH, Forall_fmap. done.
Qed.

Lemma seqs_sorted_sublist orders orders' :
  (ref_key <$> orders') `sublist_of` (ref_key <$> orders) → seqs_sorted orders → seqs_sorted orders'.
Proof. rewrite !seqs_sorted_keys. apply StronglySorted_sublist. Qed.

(** What one iteration does once the scan has picked [h]. *)
Lemma rf_match_pick fuel l1 h l2 rem acc :
  rf_scan side type lp (l1 ++ h :: l2) 0 (l1 ++ h :: l2) None = Val (Some (length l1)) →
  0 < rem ≤ u64_max → units_ok h →
  let u := Quantity.units (rf_remaining_quantity h) in
  let fill n := mkExecution (rf_order_id h) incoming (rf_price h) (Quantity.mk n) in
  rf_match (S fuel) incoming side type lp (l1 ++ h :: l2) rem acc =
    if rem <? u
    then Val (l1 ++ rf_set_remaining (Quantity.mk (u - rem)) h :: l2, 0, acc ++ [fill rem])
    else rf_match fuel incoming side type lp (l1 ++ l2) (rem - u) (acc ++ [fill u]).
Proof.
  intros Hsc Hr Hu u fill. cbn [rf_match]. rewrite (proj2 (Z.ltb_lt 0 rem)) by lia. cbn [negb].
  rewrite Hsc, bind_Val, list_lookup_middle by done. cbn [deref_opt]. rewrite bind_Val. fold u.
  unfold units_ok, Quantity.valid, u64_max in *. fold u in Hu.
  rewrite (from_units_nonzero (Z.min rem u)) by lia. cbn [deref_opt]. rewrite bind_Val.
  rewrite !u64_sub_small by lia. destruct (Z.ltb_spec rem u).
  - rewrite Z.min_l, (proj2 (Z.eqb_neq (u - rem) 0)), from_units_nonzero by lia.
    cbn [deref_opt]. rewrite !bind_Val, insert_app_r_alt, Nat.sub_diag, Z.sub_diag by lia.
    by destruct fuel.
  - rewrite Z.min_r, Z.sub_diag by lia. cbn [Z.eqb]. by rewrite bind_Val, delete_middle.
Qed.

(** The loop sweeps the priority list of the opposite side. *)
Lemma rf_match_ok fuel orders rem acc :
  (length orders < fuel)%nat → 0 ≤ rem ≤ u64_max → seqs_sorted orders → Forall units_ok orders →
  ∃ orders' rem' es,
    rf_match fuel incoming side type lp orders rem acc = Val (orders', rem', acc ++ es) ∧
    sweep (tradable side type lp) incoming rem (ref_prio (opposite side) orders)
      = (es, ref_prio (opposite side) orders', rem') ∧
    side_quotes side orders' = side_quotes side orders ∧ 0 ≤ rem' ≤ rem ∧
    Forall units_ok orders' ∧ (ref_key <$> orders') `sublist_of` (ref_key <$> orders).
Proof.
  revert orders rem acc. induction fuel as [|fuel IH]; intros orders rem acc Hf Hr Hs Hu; [lia|].
  destruct (decide (0 < rem)) as [Hpos|].
  2:{ assert (rem = 0) as -> by lia. exists orders, 0, []. rewrite app_nil_r, sweep_stops by auto.
      split_and!; (done || lia). }
  destruct (rf_scan_ok orders [] None Hs) as ([i|] & Hsc & Hb); [constructor|..]; simpl in Hsc, Hb.
  2:{ exists orders, rem, []. rewrite app_nil_r, sweep_none by done. cbn [rf_match].
      rewrite (proj2 (Z.ltb_lt 0 rem)) by done. cbn [negb]. rewrite Hsc.
      split_and!; (done || lia). }
  destruct Hb as (l1 & h & l2 & -> & <- & Hh & H1 & H2).
  apply Forall_app in Hu as [Hu1 [Huh Hu2]%Forall_cons].
  rewrite (rf_match_pick fuel l1 h l2), (ref_prio_head l1 h l2) by (done || lia).
  pose proof Hh as [Hsd%bool_decide_eq_true Ht]%andb_true_iff.
  assert (rf_side h ≠ side) as Hne by (rewrite Hsd; by destruct side).
  unfold units_ok, Quantity.valid in Huh. set (u := Quantity.units (rf_remaining_quantity h)) in *.
  rewrite length_app in Hf. simpl in Hf |- *. rewrite (proj2 (Z.ltb_lt 0 rem)), Ht by done.
  cbn [andb]. fold u. destruct (Z.ltb_spec rem u).
  - set (h' := rf_set_remaining (Quantity.mk (u - rem)) h). eexists (l1 ++ h' :: l2), 0, _.
    rewrite (ref_prio_head l1 h' l2) by done. split_and!; try done; try lia.
    + rewrite !side_quotes_app, !side_quotes_cons. by rewrite !decide_False.
    + apply Forall_app. split; [done|]. constructor; [|done].
      unfold units_ok, Quantity.valid. simpl. lia.
    + by rewrite !fmap_app.
  - assert ((ref_key <$> l1 ++ l2) `sublist_of` (ref_key <$> l1 ++ h :: l2)) as Hsub
      by (rewrite !fmap_app; csimpl; apply sublist_app; [done|by apply sublist_cons]).
    destruct (IH (l1 ++ l2) (rem - u)
      (acc ++ [mkExecution (rf_order_id h) incoming (rf_price h) (Quantity.mk u)]))
      as (orders' & rem' & es & Hm & Hsw & Hsq & Hr' & Hu' & Hk);
      [rewrite length_app; lia|lia|by eapply seqs_sorted_sublist|by apply Forall_app|].
    eexists orders', rem', _. rewrite Hm, Hsw, <- app_assoc. split_and!; try done; try lia.
    + rewrite Hsq, !side_quotes_app, side_quotes_cons. by rewrite decide_False.
    + by etrans.
Qed.
End matching.

(** ** Vectors and priority lists of both sides *)

Definition agrees (orders : list RestingRefOrder) (sb : SpecBook) : Prop :=
  ∀ s, spec_side s sb = ref_prio s orders.

Definition ids_unique (orders : list RestingRefOrder) : Prop := NoDup (rf_order_id <$> orders).

Lemma spec_side_set s s' l sb :
  spec_side s (set_spec_side s' l sb) = if decide (s = s') then l else spec_side s sb.
Proof. by destruct s, s'. Qed.

Lemma ref_prio_snoc s orders o :
  ref_prio s (orders ++ [o]) =
    if decide (rf_side o = s) then spec_insert s (quote_of o) (ref_prio s orders)
    else ref_prio s orders.
Proof.
  unfold ref_prio. rewrite side_quotes_app, side_quotes_cons. destruct (decide _); simpl.
  - apply prio_snoc.
  - by rewrite app_nil_r.
Qed.

Lemma side_quotes_ids s orders :
  (quote_id <$> side_quotes s orders) `sublist_of` (rf_order_id <$> orders).
Proof.
  unfold side_quotes. rewrite <- list_fmap_compose. unfold compose, quote_id. simpl.
  apply sublist_fmap, sublist_filter.
Qed.

Lemma ids_unique_middle l1 o l2 s :
  ids_unique (l1 ++ o :: l2) →
  rf_order_id o ∉ quote_id <$> side_quotes s l1 ∧ rf_order_id o ∉ quote_id <$> side_quotes s l2.
Proof.
  unfold ids_unique. rewrite fmap_app. csimpl. intros (_ & Hd & [Hn _]%NoDup_cons)%NoDup_app.
  split; intros Hin; apply (sublist_subseteq _ _ (side_quotes_ids _ _)) in Hin; [|done].
  apply (Hd _ Hin). by left.
Qed.

Lemma ref_prio_remove s l1 o l2 :
  ids_unique (l1 ++ o :: l2) →
  ref_prio s (l1 ++ l2) =
    if decide (rf_side o = s) then spec_remove (rf_order_id o) (ref_prio s (l1 ++ o :: l2))
    else ref_prio s (l1 ++ o :: l2).
Proof.
  intros Hnd. destruct (ids_unique_middle l1 o l2 s Hnd) as [H1 H2].
  unfold ref_prio. rewrite !side_quotes_app, side_quotes_cons.
  destruct (decide (rf_side o = s)); [|done].
  unfold spec_remove at 1. rewrite <- prio_filter, !filter_app.
  fold (spec_remove (rf_order_id o) (side_quotes s l1)).
  fold (spec_remove (rf_order_id o) (side_quotes s l2)).
  rewrite !spec_remove_absent by done. by rewrite filter_cons, decide_False by auto.
Qed.

Lemma ref_prio_reduce s l1 o l2 q :
  ids_unique (l1 ++ o :: l2) →
  ref_prio s (l1 ++ rf_set_remaining q o :: l2) =
    if decide (rf_side o = s) then spec_set_units (rf_order_id o) q (ref_prio s (l1 ++ o :: l2))
    else ref_prio s (l1 ++ o :: l2).
Proof.
  intros Hnd. unfold ref_prio. rewrite !side_quotes_app, !side_quotes_cons. simpl.
  destruct (decide (rf_side o = s)) as [Hs|]; [|done].
  unfold spec_set_units. rewrite <- prio_fmap by (intros x; by case_bool_decide).
  fold (spec_set_units (rf_order_id o) q
    (side_quotes s l1 ++ [quote_of o] ++ side_quotes s l2)).
  f_equal. symmetry. apply (spec_set_units_one q (side_quotes s l1) (quote_of o)).
  eapply sublist_NoDup; [exact Hnd|]. etrans; [|apply (side_quotes_ids s)].
  by rewrite side_quotes_app, side_quotes_cons, decide_True.
Qed.

(** ** Placing an order on both *)

Lemma ref_place_ok orders sb id seq side type lp units :
  agrees orders sb → seqs_sorted orders → Forall units_ok orders →
  (type = limit → is_Some lp) → 0 < units ≤ u64_max →
  ∃ orders' rem es q sb',
    rf_match (S (length orders)) id side type lp orders units [] = Val (orders', rem, es) ∧
    spec_place id seq side type lp units sb = (es, q, sb') ∧
    (ref_key <$> orders') `sublist_of` (ref_key <$> orders) ∧
    (type = limit → ∀ p, lp = Some p → 0 < rem →
       q = Some (Quantity.mk rem) ∧
       agrees (orders' ++ [mkRefOrder id seq side p (Quantity.mk rem)]) sb') ∧
    (type = market ∨ rem = 0 → q = None ∧ agrees orders' sb') ∧ 0 ≤ rem.
Proof.
  intros Ha Hs Hu Hlp Hun.
  destruct (rf_match_ok id side type lp Hlp (S (length orders)) orders units [])
    as (orders' & rem & es & Hm & Hsw & Hsq & Hr & _ & Hk); try done; try lia.
  assert (agrees orders' (set_spec_side (opposite side) (ref_prio (opposite side) orders') sb)) as Ha'.
  { intros s. rewrite spec_side_set. destruct (decide (s = opposite side)) as [->|Hne]; [done|].
    assert (s = side) as -> by (by destruct s, side). unfold ref_prio. rewrite Hsq. apply Ha. }
  unfold spec_place. rewrite (Ha (opposite side)), Hsw. exists orders', rem, es.
  assert (type = market ∨ rem = 0 ∨ ∃ p, type = limit ∧ lp = Some p ∧ 0 < rem) as Hcase.
  { destruct type; [|by left]. destruct (Hlp eq_refl) as [p ->]. right.
    destruct (decide (rem = 0)); [by left|right]. exists p. split_and!; (done || lia). }
  destruct Hcase as [->|[->|(p & -> & -> & Hpos)]].
  - eexists _, _. split_and!; try done; try lia.
  - destruct type; [destruct (Hlp eq_refl) as [p ->]|]; simpl;
      (eexists _, _; split_and!; try done; try lia; by intros).
  - rewrite (proj2 (Z.ltb_lt 0 rem)) by done. eexists _, _. split_and!; try done; try lia.
    + intros _ p' [= <-] _. split; [done|]. intros s. rewrite ref_prio_snoc, spec_side_set. simpl.
      destruct (decide (s = side)) as [->|].
      * rewrite decide_True by done. by rewrite Ha'.
      * rewrite decide_False by done. apply Ha'.
    + intros [[=]|]; lia.
Qed.

(** ** The relation between the books *)

(** The orders of the vector arrived with sequence numbers that do not
    decrease and are at most [n]. *)
Definition chronological (n : Z) (orders : list RestingRefOrder) : Prop :=
  seqs_sorted orders ∧ Forall (λ k, SequenceNumber.value k.2 ≤ n) (ref_key <$> orders).

Lemma chronological_weaken n m orders : n ≤ m → chronological n orders → chronological m orders.
Proof.
  intros ? [? Hb]. split; [done|]. apply (Forall_impl _ _ _ Hb). intros ? ?. simpl in *. lia.
Qed.

Lemma chronological_sublist n orders orders' :
  (ref_key <$> orders') `sublist_of` (ref_key <$> orders) →
  chronological n orders → chronological n orders'.
Proof.
  intros Hk [? ?]. split; [by eapply seqs_sorted_sublist|by eapply Forall_sublist].
Qed.

Lemma chronological_snoc n orders o :
  chronological n orders → n ≤ SequenceNumber.value (rf_sequence o) →
  chronological (SequenceNumber.value (rf_sequence o)) (orders ++ [o]).
Proof.
  intros Hc Hn. pose proof (chronological_weaken _ _ _ Hn Hc) as [Hs Hb]. split.
  - apply StronglySorted_app_intro; [done|by repeat constructor|].
    intros x y Hx ->%list_elem_of_singleton. rewrite Forall_fmap, Forall_forall in Hb. by apply Hb.
  - rewrite fmap_app. apply Forall_app. split; [done|]. by apply Forall_singleton.
Qed.

Record mirrors (n : Z) (rb : ReferenceOrderBook) (b : OrderBook) : Prop := {
  mr_wf : wf b;
  mr_agrees : agrees (rf_resting_orders_ rb) (abs b);
  mr_seen id : id ∈ rf_seen_order_ids_ rb ↔ id ∈ sb_seen (abs b);
  mr_chron : chronological n (rf_resting_orders_ rb);
}.

Lemma sides_perm orders : side_quotes buy orders ++ side_quotes sell orders ≡ₚ quote_of <$> orders.
Proof.
  induction orders as [|o orders IH]; [done|]. rewrite !side_quotes_cons. csimpl.
  destruct (rf_side o); simpl; rewrite <- IH; [done|]. by rewrite <- Permutation_middle.
Qed.

Lemma mirrors_perm n rb b :
  mirrors n rb b →
  quote_of <$> rf_resting_orders_ rb ≡ₚ flat (levels buy b) ++ flat (levels sell b).
Proof.
  intros [_ Ha _ _]. rewrite <- !abs_side, !Ha. unfold ref_prio. by rewrite !prio_perm, sides_perm.
Qed.

(** The vector inherits uniqueness of ids and valid quantities from the book. *)
Lemma mirrors_ids n rb b : mirrors n rb b → ids_unique (rf_resting_orders_ rb).
Proof.
  intros Hm. pose proof (mr_wf _ _ _ Hm) as Hwf. unfold ids_unique.
  change rf_order_id with (quote_id ∘ quote_of). rewrite list_fmap_compose, (mirrors_perm _ _ _ Hm).
  rewrite fmap_app. apply NoDup_app. split_and!; [by apply flat_NoDup| |by apply flat_NoDup].
  intros id. apply (flat_sides_disjoint buy b id Hwf).
Qed.

Lemma mirrors_units n rb b : mirrors n rb b → Forall units_ok (rf_resting_orders_ rb).
Proof.
  intros Hm. pose proof (mr_wf _ _ _ Hm) as Hwf.
  assert (Forall quote_ok (quote_of <$> rf_resting_orders_ rb)) as Hq by
    (rewrite (mirrors_perm _ _ _ Hm); apply Forall_app; split; by apply flat_quote_ok).
  rewrite Forall_fmap in Hq. exact Hq.
Qed.

Lemma mirrors_empty : mirrors 0 empty_ref empty_book.
Proof.
  split; [apply wf_empty|by intros []| |by repeat constructor].
  intros id. simpl. set_solver.
Qed.

(** A rejected command. *)
Lemma mirrors_unchanged n m rb b b' :
  mirrors n rb b → n ≤ m → wf b' → abs b = abs b' → mirrors m rb b'.
Proof.
  intros [? Ha Hs ?] ? ? Hb.
  split; [done|by rewrite <- Hb|by setoid_rewrite <- Hb|by eapply chronological_weaken].
Qed.

(** ** Commands *)

Lemma existsb_seen n rb b id :
  mirrors n rb b →
  existsb (λ id', bool_decide (id' = id)) (rf_seen_order_ids_ rb) = bool_decide (id ∈ sb_seen (abs b)).
Proof.
  intros [_ _ Hseen _]. apply eq_bool_prop_intro. rewrite Is_true_true, existsb_exists, bool_decide_spec.
  rewrite <- Hseen. setoid_rewrite bool_decide_eq_true. setoid_rewrite <- list_elem_of_In. naive_solver.
Qed.

(** Matching and resting on both books, from a vector and priority lists that
    agree; [seen] is the vector of ids after the command. *)
Lemma place_mirrors n seen orders sb b' id seq side type lp units es q :
  spec_place id seq side type lp units sb = (es, q, abs b') →
  agrees orders sb → chronological n orders → Forall units_ok orders →
  (type = limit → is_Some lp) → 0 < units ≤ u64_max → n ≤ SequenceNumber.value seq →
  wf b' → (∀ i, i ∈ seen ↔ i ∈ sb_seen (abs b')) →
  ∃ orders' rem,
    rf_match (S (length orders)) id side type lp orders units [] = Val (orders', rem, es) ∧
    (∀ p, type = limit → lp = Some p → 0 < rem → q = Some (Quantity.mk rem) ∧
       mirrors (SequenceNumber.value seq)
         (mkRefBook (orders' ++ [mkRefOrder id seq side p (Quantity.mk rem)]) seen) b') ∧
    (type = market ∨ rem ≤ 0 → q = None ∧
       mirrors (SequenceNumber.value seq) (mkRefBook orders' seen) b').
Proof.
  intros Hpl Ha Hch Hu Hlp Hun Hn Hwf Hseen.
  destruct (ref_place_ok orders sb id seq side type lp units Ha (proj1 Hch) Hu Hlp Hun)
    as (orders' & rem & es' & q' & sb' & Hm & Hpl' & Hk & Hlim & Hmkt & Hr).
  rewrite Hpl in Hpl'. apply pair_equal_spec in Hpl' as [[= <- <-] <-].
  pose proof (chronological_sublist _ _ _ Hk Hch) as Hch'.
  exists orders', rem. split_and!; [done|..].
  - intros p Ht Hp Hpos. destruct (Hlim Ht p Hp Hpos) as [-> Hag]. split; [done|].
    split; [done|done|done|]. by eapply chronological_snoc.
  - intros Hc. destruct Hmkt as [-> Hag]; [destruct Hc; [by left|right; lia]|]. split; [done|].
    split; [done|done|done|]. by eapply chronological_weaken.
Qed.

Lemma submit_mirrors n o rb b :
  mirrors n rb b → NewOrder_wf o → n ≤ SequenceNumber.value (no_sequence o) →
  ∃ r rb' b', submit o b = Val (r, b') ∧ rf_submit o rb = Val (r, rb') ∧
    mirrors (SequenceNumber.value (no_sequence o)) rb' b'.
Proof.
  intros Hm Ho Hn. pose proof Hm as [Hwf Ha Hseen Hch].
  destruct (submit_refines_aux o b Hwf Ho) as (r & b' & Hs & Hwf' & Hsp). rewrite Hs.
  unfold rf_submit. rewrite (existsb_seen _ _ _ _ Hm). unfold spec_submit in Hsp.
  destruct (validate o) as [e|] eqn:Hval; cbn [is_none negb] in Hsp |- *.
  { apply pair_equal_spec in Hsp as [<- Hb]. eexists _, _, _. split_and!; [done..|].
    by eapply mirrors_unchanged. }
  destruct (bool_decide _) eqn:Hd; [|apply bool_decide_eq_false in Hd].
  { apply pair_equal_spec in Hsp as [<- Hb]. eexists _, _, _. split_and!; [done..|].
    by eapply mirrors_unchanged. }
  apply validate_None in Hval. destruct (spec_place _ _ _ _ _ _ _) as [[es q] sb'] eqn:Hpl.
  apply pair_equal_spec in Hsp as [<- ->]. pose proof (spec_place_seen _ _ _ _ _ _ _ _ _ _ Hpl) as Hss.
  destruct (place_mirrors n (rf_seen_order_ids_ rb ++ [no_order_id o]) (rf_resting_orders_ rb)
    _ b' _ _ _ _ _ _ es q Hpl) as (orders' & rem & -> & Hlim & Hmkt);
    [|done|by eapply mirrors_units|by destruct Hval as [[? ?]|[-> ?]]|apply Ho|done|done|..].
  { intros s. rewrite <- Ha. by destruct s. }
  { intros id. rewrite Hss. simpl. rewrite elem_of_app, Hseen. simpl. set_solver. }
  rewrite bind_Val. destruct Hval as [[Ht [p Hp]]|[Ht Hp]]; rewrite Ht, ?Hp in *; simpl.
  - destruct (Z.ltb_spec 0 rem).
    + rewrite from_units_nonzero by lia. destruct (Hlim p) as [-> Hmir]; [done..|].
      eexists _, _, _. by split_and!.
    + destruct Hmkt as [-> Hmir]; [right; lia|]. eexists _, _, _. by split_and!.
  - destruct Hmkt as [-> Hmir]; [by left|]. eexists _, _, _. by split_and!.
Qed.

Lemma rf_find_Some id orders i :
  rf_find id orders = Some i →
  ∃ l1 o l2, orders = l1 ++ o :: l2 ∧ length l1 = i ∧ rf_order_id o = id.
Proof.
  revert i. induction orders as [|o orders IH]; intros i; simpl; [done|].
  case_bool_decide; [intros [= <-]; by exists [], o, orders|].
  destruct (rf_find id orders) as [j|]; [|done]. intros [= <-].
  destruct (IH j eq_refl) as (l1 & o' & l2 & -> & <- & ?). by exists (o :: l1), o', l2.
Qed.

Lemma rf_find_None id orders : rf_find id orders = None → id ∉ rf_order_id <$> orders.
Proof.
  induction orders as [|o orders IH]; csimpl; [set_solver|].
  case_bool_decide; [done|]. destruct (rf_find id orders); [done|]. intros _. set_solver.
Qed.

(** The search finds an order exactly when the index of the book does. *)
Lemma locate_mirrors n rb b id :
  mirrors n rb b →
  match rf_find id (rf_resting_orders_ rb) with
  | None => spec_locate id (abs b) = None
  | Some i => ∃ l1 o l2, rf_resting_orders_ rb = l1 ++ o :: l2 ∧ length l1 = i ∧
      rf_order_id o = id ∧ spec_locate id (abs b) = Some (rf_side o, quote_of o)
  end.
Proof.
  intros Hm. pose proof Hm as [Hwf Ha _ _]. destruct (rf_find _ _) as [i|] eqn:Hf.
  - apply rf_find_Some in Hf as (l1 & o & l2 & Ho & Hi & Hid). exists l1, o, l2. split_and!; try done.
    subst id. apply (locate_Some _ b (quote_of o) Hwf). rewrite <- abs_side, Ha. unfold ref_prio.
    rewrite prio_perm, elem_of_side_quotes. exists o. split_and!; try done. rewrite Ho. list_elem.
  - apply rf_find_None in Hf.
    assert (∀ s, spec_find id (spec_side s (abs b)) = None) as Hs.
    { intros s. apply spec_find_None. rewrite Ha. unfold ref_prio. rewrite prio_perm.
      intros Hin. apply Hf. by apply (sublist_subseteq _ _ (side_quotes_ids s _)). }
    unfold spec_locate. rewrite (Hs buy : spec_find _ (sb_bids _) = _).
    by rewrite (Hs sell : spec_find _ (sb_asks _) = _).
Qed.

(** Taking an order out of the vector and out of its priority list. *)
Lemma agrees_remove l1 o l2 sb :
  ids_unique (l1 ++ o :: l2) → agrees (l1 ++ o :: l2) sb →
  agrees (l1 ++ l2) (set_spec_side (rf_side o)
    (spec_remove (rf_order_id o) (spec_side (rf_side o) sb)) sb).
Proof.
  intros Hnd Ha s. rewrite spec_side_set, (ref_prio_remove s l1 o l2 Hnd), <- !Ha.
  destruct (decide (s = rf_side o)) as [->|]; [by rewrite decide_True|by rewrite decide_False].
Qed.

Lemma agrees_reduce l1 o l2 sb q :
  ids_unique (l1 ++ o :: l2) → agrees (l1 ++ o :: l2) sb →
  agrees (l1 ++ rf_set_remaining q o :: l2) (set_spec_side (rf_side o)
    (spec_set_units (rf_order_id o) q (spec_side (rf_side o) sb)) sb).
Proof.
  intros Hnd Ha s. rewrite spec_side_set, (ref_prio_reduce s l1 o l2 q Hnd), <- !Ha.
  destruct (decide (s = rf_side o)) as [->|]; [by rewrite decide_True|by rewrite decide_False].
Qed.

Lemma sublist_middle {A} (l1 : list A) x l2 : (l1 ++ l2) `sublist_of` (l1 ++ x :: l2).
Proof. apply sublist_app; [done|by apply sublist_cons]. Qed.

Lemma keys_remove l1 o l2 : (ref_key <$> l1 ++ l2) `sublist_of` (ref_key <$> l1 ++ o :: l2).
Proof. apply sublist_fmap, sublist_middle. Qed.

Lemma cancel_mirrors n c rb b :
  mirrors n rb b → n ≤ SequenceNumber.value (co_sequence c) →
  ∃ r rb' b', cancel c b = Val (r, b') ∧ rf_cancel c rb = Val (r, rb') ∧
    mirrors (SequenceNumber.value (co_sequence c)) rb' b'.
Proof.
  intros Hm Hn. pose proof Hm as [Hwf Ha Hseen Hch].
  destruct (cancel_refines_aux c b Hwf) as (r & b' & Hs & Hwf' & Hsp). rewrite Hs.
  pose proof (locate_mirrors _ _ _ (co_order_id c) Hm) as Hl. unfold rf_cancel.
  unfold spec_cancel in Hsp. destruct (rf_find _ _) as [i|].
  - destruct Hl as (l1 & o & l2 & Ho & <- & Hid & Hl). rewrite Hl in Hsp.
    apply pair_equal_spec in Hsp as [<- Hb]. pose proof (mirrors_ids _ _ _ Hm) as Hnd.
    rewrite Ho in *. rewrite list_lookup_middle, delete_middle by done. simpl.
    eexists _, _, _. split_and!; [done..|]. rewrite <- Hid in Hb. split; [done|..].
    + rewrite <- Hb. by apply agrees_remove.
    + intros id. rewrite <- Hb, set_spec_side_seen. apply Hseen.
    + eapply chronological_weaken, chronological_sublist, Hch; [done|apply keys_remove].
  - rewrite Hl in Hsp. apply pair_equal_spec in Hsp as [<- Hb]. eexists _, _, _.
    split_and!; [done..|]. by eapply mirrors_unchanged.
Qed.

Lemma replace_mirrors n c rb b :
  mirrors n rb b → ReplaceOrder_wf c → n ≤ SequenceNumber.value (rp_sequence c) →
  ∃ r rb' b', replace c b = Val (r, b') ∧ rf_replace c rb = Val (r, rb') ∧
    mirrors (SequenceNumber.value (rp_sequence c)) rb' b'.
Proof.
  intros Hm Hc Hn. pose proof Hm as [Hwf Ha Hseen Hch].
  destruct (replace_refines_aux c b Hwf Hc) as (r & b' & Hs & Hwf' & Hsp). rewrite Hs.
  pose proof (locate_mirrors _ _ _ (rp_order_id c) Hm) as Hl. unfold rf_replace.
  unfold spec_replace in Hsp. destruct (rf_find _ _) as [i|].
  2:{ rewrite Hl in Hsp. apply pair_equal_spec in Hsp as [<- Hb]. eexists _, _, _.
      split_and!; [done..|]. by eapply mirrors_unchanged. }
  destruct Hl as (l1 & o & l2 & Ho & <- & Hid & Hl). rewrite Hl in Hsp.
  pose proof (mirrors_ids _ _ _ Hm) as Hnd. pose proof (mirrors_units _ _ _ Hm) as Hu.
  rewrite Ho in *. rewrite list_lookup_middle by done. cbn [deref_opt]. rewrite bind_Val.
  change (quote_of o).1 with (rf_price o) in Hsp.
  change (quote_units (quote_of o)) with (Quantity.units (rf_remaining_quantity o)) in Hsp.
  destruct (_ && _).
  { apply pair_equal_spec in Hsp as [<- Hb]. eexists _, _, _. split_and!; [done..|].
    rewrite <- Hid in Hb. rewrite insert_app_r_alt, Nat.sub_diag by lia. split; [done|..].
    - rewrite <- Hb. by apply agrees_reduce.
    - intros id. rewrite <- Hb, set_spec_side_seen. apply Hseen.
    - eapply chronological_weaken, chronological_sublist, Hch; [done|]. simpl.
      by rewrite !fmap_app. }
  rewrite delete_middle. destruct (spec_place _ _ _ _ _ _ _) as [[es q] sb'] eqn:Hpl.
  apply pair_equal_spec in Hsp as [<- ->]. pose proof (spec_place_seen _ _ _ _ _ _ _ _ _ _ Hpl) as Hss.
  rewrite set_spec_side_seen in Hss.
  destruct (place_mirrors n (rf_seen_order_ids_ rb) (l1 ++ l2) _ b' _ _ _ _ _ _ es q Hpl)
    as (orders' & rem & -> & Hlim & Hmkt); [| | |eauto|apply Hc|done|done|..].
  { rewrite <- Hid. by apply agrees_remove. }
  { eapply chronological_sublist, Hch. apply keys_remove. }
  { eapply Forall_sublist, Hu. apply sublist_middle. }
  { intros id. rewrite Hss. apply Hseen. }
  rewrite bind_Val. destruct (Z.ltb_spec 0 rem).
  - rewrite from_units_nonzero by lia. destruct (Hlim (rp_new_price c)) as [-> Hmir]; [done..|].
    eexists _, _, _. by split_and!.
  - destruct Hmkt as [-> Hmir]; [right; lia|]. eexists _, _, _. by split_and!.
Qed.
