(* ===== verification/ReferenceEquiv.v ===== *)
(** * Queries and command sequences of the two books

    The queries of a reference book and of the [OrderBook] it mirrors return
    the same, and so do whole command sequences from the empty books.  The last
    theorem shows that the condition on the sequence numbers is needed. *)

From stdpp Require Import prelude gmap list sorting.
From Stdlib Require Import ZArith Lia.
From S2P Require Import Prelude Types OrdMap OrderBook BookSpec BookInv BookMatch BookEdit.
From S2P Require Import BookRefine BookProps BookQueries ReferenceBook ReferenceProps.

Open Scope Z_scope.

(** ** Best prices *)

Lemma head_spec_insert s q l :
  head (spec_insert s q l) =
    match head l with
    | None => Some q
    | Some h => if side_ltb s q.1 h.1 then Some q else Some h
    end.
Proof. destruct l as [|h l]; simpl; [done|]. by destruct (side_ltb s q.1 h.1). Qed.

Lemma rf_best_head s rb : rf_best s rb = fst <$> head (ref_prio s (rf_resting_orders_ rb)).
Proof.
  unfold rf_best. induction (rf_resting_orders_ rb) as [|o l IH] using rev_ind; [done|].
  rewrite foldl_app, IH, ref_prio_snoc. simpl. clear IH.
  destruct (decide (rf_side o = s)) as [Hs|Hs].
  - rewrite bool_decide_eq_true_2, head_spec_insert by done.
    destruct (ref_prio s l) as [|h m]; simpl; [done|]. by destruct (side_ltb _ _ _).
  - by rewrite bool_decide_eq_false_2.
Qed.

Lemma head_flat s l : side_ok s l → fst <$> head (flat l) = fst <$> head l.
Proof.
  destruct l as [|[p lvl] l]; intros [_ Hok]; [done|]. apply Forall_cons in Hok as [[_ Hne _ _] _].
  unfold flat. csimpl. unfold level_quotes. simpl in *. by destruct (orders lvl).
Qed.

Lemma best_mirrors n rb b s : mirrors n rb b → rf_best s rb = best s b.
Proof.
  intros [Hwf Ha _ _]. rewrite rf_best_head, <- Ha, abs_side. by rewrite (head_flat s) by apply (wf_side b Hwf).
Qed.

(** ** Levels *)

Definition at_price (p : Price.t) (l : list quote) : list quote := filter (λ q, q.1 = p) l.

(** What the reference book computes of the orders at one price. *)
Definition totals (l : list quote) : Z * Z :=
  (wrap 64 (quotes_units l), wrap 64 (Z.of_nat (length l))).

Definition level_view (lvl : PriceLevel) : Z * Z :=
  (total_units lvl, Z.of_nat (length (orders lvl))).

Lemma quotes_units_app l1 l2 : quotes_units (l1 ++ l2) = quotes_units l1 + quotes_units l2.
Proof. unfold quotes_units. induction l1; simpl in *; lia. Qed.

#[local] Instance quotes_units_perm : Proper ((≡ₚ) ==> (=)) quotes_units.
Proof. intros l1 l2 Hp. unfold quotes_units. induction Hp; simpl in *; lia. Qed.

#[local] Instance totals_perm : Proper ((≡ₚ) ==> (=)) totals.
Proof. intros l1 l2 Hp. unfold totals. by rewrite Hp. Qed.

Lemma totals_snoc l q units count :
  totals l = (units, count) → totals (l ++ [q]) = (u64_add units (quote_units q), u64_add count 1).
Proof.
  unfold totals. intros [= <- <-]. rewrite !u64_add_wrap_l, quotes_units_app, length_app.
  unfold quotes_units at 2. simpl. f_equal; f_equal; lia.
Qed.

Lemma at_price_snoc p l q : at_price p (l ++ [q]) = at_price p l ++ (if decide (q.1 = p) then [q] else []).
Proof. unfold at_price. rewrite filter_app, filter_cons. by destruct (decide _). Qed.

Lemma at_price_mirrors n rb b s p :
  mirrors n rb b →
  at_price p (flat (levels s b)) ≡ₚ at_price p (side_quotes s (rf_resting_orders_ rb)).
Proof.
  intros [_ Ha _ _]. rewrite <- abs_side, Ha. unfold at_price, ref_prio.
  rewrite <- prio_filter. apply prio_perm.
Qed.

Lemma at_price_none (P : quote → Prop) p l : Forall P l → (∀ q, P q → q.1 ≠ p) → at_price p l = [].
Proof.
  intros Hl HP. induction Hl as [|q l Hq _ IH]; [done|]. unfold at_price in *.
  rewrite filter_cons, decide_False by auto. done.
Qed.

Lemma level_quotes_units p lvl : quotes_units (level_quotes (p, lvl)) = sum_units (orders lvl).
Proof.
  unfold level_quotes, quotes_units. simpl. induction (orders lvl) as [|n ns IH]; csimpl; [done|].
  by rewrite IH.
Qed.

(** The orders of a side at one price are those of the level at that price. *)
Lemma at_price_level s l p :
  side_ok s l →
  at_price p (flat l) =
    match om_find (side_ltb s) p l with
    | Some lvl => level_quotes (p, lvl)
    | None => []
    end.
Proof.
  intros [Hs _].
  assert (∀ l', keys_lt (side_ltb s) p l' → at_price p (flat l') = []) as Hlt.
  { intros l' Hl'. eapply at_price_none.
    - apply (flat_prices (λ k, side_ltb s k p = true)). exact Hl'.
    - intros q Hq <-. by rewrite ltb_irrefl in Hq. }
  assert (∀ l', keys_gt (side_ltb s) p l' → at_price p (flat l') = []) as Hgt.
  { intros l' Hl'. eapply at_price_none.
    - apply (flat_prices (λ k, side_ltb s p k = true)). exact Hl'.
    - intros q Hq <-. by rewrite ltb_irrefl in Hq. }
  destruct (om_find (side_ltb s) p l) as [lvl|] eqn:E.
  - destruct (om_find_Some (side_ltb s) l p lvl Hs E) as (m1 & m2 & -> & H1 & H2 & _).
    rewrite flat_app. change (flat ((p, lvl) :: m2)) with (level_quotes (p, lvl) ++ flat m2).
    unfold at_price in *. rewrite !filter_app, Hlt, Hgt, app_nil_r by done. simpl.
    unfold level_quotes. simpl. induction (orders lvl) as [|o os IH]; csimpl; [done|].
    rewrite filter_cons, decide_True by done. by rewrite IH.
  - destruct (om_find_None (side_ltb s) l p Hs E) as (m1 & m2 & -> & H1 & H2 & _).
    rewrite flat_app. unfold at_price in *. by rewrite filter_app, Hlt, Hgt.
Qed.

(** The totals of a level, as the reference book computes them. *)
Lemma level_totals n rb b s p lvl :
  mirrors n rb b → om_find (side_ltb s) p (levels s b) = Some lvl →
  totals (at_price p (side_quotes s (rf_resting_orders_ rb))) = level_view lvl.
Proof.
  intros Hm Hf. pose proof (mr_wf _ _ _ Hm) as Hwf. pose proof (wf_side b Hwf s) as Hok.
  rewrite <- (at_price_mirrors n rb b s p Hm), (at_price_level s _ p Hok), Hf.
  unfold totals, level_view. rewrite level_quotes_units.
  destruct (om_find_Some (side_ltb s) _ p lvl (proj1 Hok) Hf) as (m1 & m2 & Hl & _).
  destruct Hok as [_ Hok]. rewrite Hl in Hok.
  apply Forall_app in Hok as [_ [[_ _ Ht _] _]%Forall_cons]. simpl in Ht. rewrite Ht. f_equal.
  unfold level_quotes. rewrite length_fmap. apply wrap_small.
  pose proof (count_flat b Hwf) as Hc.
  pose proof (index_ok_bound _ _ _ _ _ (wf_index b Hwf)) as Hb. unfold u64_max in Hb.
  assert (length (orders lvl) ≤ length (flat (levels s b)))%nat as Hle.
  { rewrite Hl, flat_app, length_app. unfold flat at 2. csimpl. rewrite length_app.
    replace (length (level_quotes (p, lvl))) with (length (orders lvl))
      by (unfold level_quotes; by rewrite length_fmap). lia. }
  cbn [snd]. rewrite Hc in Hb. destruct s; lia.
Qed.

Definition rf_level_step (s : Side) (levels : list (Price.t * (Z * Z))) (o : RestingRefOrder) :=
  if bool_decide (rf_side o = s) then
    let '(units, count) := om_index (side_ltb s) (0, 0) (rf_price o) levels in
    om_put (side_ltb s) (rf_price o)
      (u64_add units (Quantity.units (rf_remaining_quantity o)), u64_add count 1) levels
  else levels.

(** The map the depth queries of the reference book build. *)
Lemma rf_levels_find s orders :
  let m := foldl (rf_level_step s) [] orders in
  om_sorted (side_ltb s) m ∧
  ∀ p, om_find (side_ltb s) p m =
    match at_price p (side_quotes s orders) with
    | [] => None
    | l => Some (totals l)
    end.
Proof.
  induction orders as [|o orders [IHs IHf]] using rev_ind; [by split; [constructor|]|].
  rewrite foldl_app. simpl. set (m := foldl (rf_level_step s) [] orders) in *.
  rewrite side_quotes_app, side_quotes_cons. unfold rf_level_step.
  destruct (decide (rf_side o = s)) as [Hs|Hs].
  2:{ rewrite bool_decide_eq_false_2 by done. by rewrite app_nil_r. }
  rewrite bool_decide_eq_true_2 by done.
  assert (om_index (side_ltb s) (0, 0) (rf_price o) m =
    totals (at_price (rf_price o) (side_quotes s orders))) as Hix.
  { unfold om_index. rewrite IHf. by destruct (at_price _ _). }
  rewrite Hix. change (side_quotes s []) with (@nil quote). rewrite app_nil_r.
  destruct (totals _) as [units count] eqn:Ht. split; [by apply (om_put_sorted (side_ltb s))|].
  intros p. rewrite at_price_snoc. simpl. destruct (decide (rf_price o = p)) as [<-|Hp].
  - rewrite om_find_put_eq by apply _. apply (totals_snoc _ (quote_of o)) in Ht.
    change (quote_units (quote_of o)) with (Quantity.units (rf_remaining_quantity o)) in Ht.
    rewrite <- Ht. by destruct (at_price _ _).
  - rewrite om_find_put_ne, app_nil_r by (apply _ || done). apply IHf.
Qed.

Lemma rf_levels_mirrors n rb b s :
  mirrors n rb b → rf_levels s rb = prod_map id level_view <$> levels s b.
Proof.
  intros Hm. pose proof (wf_side b (mr_wf _ _ _ Hm) s) as Hok.
  destruct (rf_levels_find s (rf_resting_orders_ rb)) as [Hs Hf].
  apply (om_ext (side_ltb s)); [exact Hs|by apply om_sorted_fmap, Hok|].
  intros p. rewrite om_find_fmap. etrans; [apply Hf|].
  pose proof (at_price_mirrors n rb b s p Hm) as Hp. rewrite (at_price_level s _ p Hok) in Hp.
  destruct (om_find (side_ltb s) p (levels s b)) as [lvl|] eqn:E; simpl.
  - rewrite <- (level_totals n rb b s p lvl Hm E). destruct (at_price _ _) eqn:Ha; [|done].
    symmetry in Hp. apply Permutation_nil in Hp.
    destruct (om_find_Some (side_ltb s) _ p lvl (proj1 Hok) E) as (m1 & m2 & Hl & _).
    destruct Hok as [_ Hok]. rewrite Hl in Hok.
    apply Forall_app in Hok as [_ [[_ Hne _ _] _]%Forall_cons]. simpl in Hne.
    unfold level_quotes in Hp. apply fmap_nil_inv in Hp. done.
  - apply Permutation_nil in Hp. by rewrite Hp.
Qed.

(** ** Depth and top of book *)

Lemma depth_loop_view n l out :
  rf_depth_loop n (prod_map id level_view <$> l) out = depth_loop n l out.
Proof.
  revert out. induction l as [|[p lvl] l IH]; intros out; csimpl; [done|].
  destruct (bool_decide _); [done|]. unfold level_quote. simpl.
  destruct (Quantity.from_units _); simpl; [|done]. apply IH.
Qed.

Lemma depth_mirrors n rb b k : mirrors n rb b → rf_depth k rb = depth k b.
Proof.
  intros Hm. unfold rf_depth, rf_bid_depth, rf_ask_depth, depth, bid_depth, ask_depth.
  by rewrite !(rf_levels_mirrors n rb b _ Hm), !depth_loop_view.
Qed.

Lemma aggregate_totals s p rb :
  rf_aggregate_level s p rb =
    let t := totals (at_price p (side_quotes s (rf_resting_orders_ rb))) in
    q ← deref_opt (Quantity.from_units t.1); Val (mkLevelQuote p q t.2).
Proof.
  unfold rf_aggregate_level.
  match goal with |- context [foldl ?f _ _] => set (step := f) end.
  assert (∀ orders, foldl step (0, 0) orders = totals (at_price p (side_quotes s orders))) as Hfold.
  { intros orders. induction orders as [|o orders IH] using rev_ind; [done|].
    rewrite foldl_app, IH. simpl. rewrite side_quotes_app, side_quotes_cons. unfold step.
    destruct (totals _) as [units count] eqn:Ht. change (side_quotes s []) with (@nil quote).
    rewrite app_nil_r. destruct (decide (rf_side o = s)) as [Hs|Hs].
    - rewrite bool_decide_eq_true_2, at_price_snoc by done. simpl.
      destruct (Price_eqb_spec (rf_price o) p) as [Hp|Hp].
      + rewrite decide_True by done. symmetry. by apply totals_snoc.
      + by rewrite decide_False, app_nil_r.
    - by rewrite bool_decide_eq_false_2, app_nil_r. }
  rewrite Hfold. by destruct (totals _).
Qed.

Lemma top_mirrors n rb b s : mirrors n rb b → rf_top s rb = top s b.
Proof.
  intros Hm. unfold rf_top, top. rewrite (best_mirrors n rb b s Hm). unfold best.
  pose proof (wf_side b (mr_wf _ _ _ Hm) s) as [Hs _].
  destruct (levels s b) as [|[p lvl] l] eqn:Hl; simpl; [done|].
  assert (om_find (side_ltb s) p (levels s b) = Some lvl) as Hf.
  { rewrite Hl. simpl. by rewrite ltb_irrefl. }
  by rewrite aggregate_totals, (level_totals n rb b s p lvl Hm Hf).
Qed.

Lemma count_mirrors n rb b : mirrors n rb b → rf_resting_order_count rb = resting_order_count b.
Proof.
  intros Hm. unfold rf_resting_order_count, resting_order_count.
  rewrite (count_flat b (mr_wf _ _ _ Hm)). f_equal.
  by rewrite <- length_app, <- (mirrors_perm _ _ _ Hm), length_fmap.
Qed.

(** ** The interface the two books share *)

(** What the differential test drives and compares. *)
Class LimitOrderBook (B : Type) : Type := {
  lob_submit : NewOrder → B → outcome (SubmitResult * B);
  lob_cancel : CancelOrder → B → outcome (CancelResult * B);
  lob_replace : ReplaceOrder → B → outcome (ReplaceResult * B);
  lob_best : Side → B → option Price.t;
  lob_top : Side → B → outcome (option LevelQuote);
  lob_depth : nat → B → outcome BookDepth;
  lob_count : B → Z;
}.

#[export] Instance OrderBook_lob : LimitOrderBook OrderBook := {|
  lob_submit := submit; lob_cancel := cancel; lob_replace := replace;
  lob_best := best; lob_top := top; lob_depth := depth; lob_count := resting_order_count |}.

#[export] Instance ReferenceOrderBook_lob : LimitOrderBook ReferenceOrderBook := {|
  lob_submit := rf_submit; lob_cancel := rf_cancel; lob_replace := rf_replace;
  lob_best := rf_best; lob_top := rf_top; lob_depth := rf_depth;
  lob_count := rf_resting_order_count |}.

Inductive Response : Type :=
| Submitted (r : SubmitResult)
| Cancelled (r : CancelResult)
| Replaced (r : ReplaceResult)
| Ignored.

Section drive.
Context {B : Type} `{!LimitOrderBook B}.

Definition respond (c : Command) (b : B) : outcome (Response * B) :=
  match c with
  | CmdNew o => '(r, b) ← lob_submit o b; Val (Submitted r, b)
  | CmdCancel c => '(r, b) ← lob_cancel c b; Val (Cancelled r, b)
  | CmdReplace c => '(r, b) ← lob_replace c b; Val (Replaced r, b)
  | monostate => Val (Ignored, b)
  end.

Fixpoint drive (cs : list Command) (b : B) : outcome (list Response * B) :=
  match cs with
  | [] => Val ([], b)
  | c :: cs' => '(r, b) ← respond c b; '(rs, b) ← drive cs' b; Val (r :: rs, b)
  end.

(** Everything the queries say about a book, to depth [n]. *)
Definition view (n : nat) (b : B) :=
  (lob_best buy b, lob_best sell b, lob_top buy b, lob_top sell b, lob_depth n b, lob_count b).
End drive.

(** No command has a smaller sequence number than one before it. *)
Fixpoint in_order (n : Z) (cs : list Command) : bool :=
  match cs with
  | [] => true
  | c :: cs' =>
      match c with
      | CmdNew o => (n <=? SequenceNumber.value (no_sequence o)) &&
                    in_order (SequenceNumber.value (no_sequence o)) cs'
      | CmdCancel c => (n <=? SequenceNumber.value (co_sequence c)) &&
                       in_order (SequenceNumber.value (co_sequence c)) cs'
      | CmdReplace c => (n <=? SequenceNumber.value (rp_sequence c)) &&
                        in_order (SequenceNumber.value (rp_sequence c)) cs'
      | monostate => in_order n cs'
      end
  end.

Lemma view_mirrors n rb b k : mirrors n rb b → view k rb = view k b.
Proof.
  intros Hm. unfold view. simpl.
  by rewrite !(best_mirrors n rb b), !(top_mirrors n rb b), (depth_mirrors n rb b),
    (count_mirrors n rb b).
Qed.

Lemma respond_mirrors n c cs rb b :
  mirrors n rb b → Command_wf c → in_order n (c :: cs) = true →
  ∃ r rb' b' m, respond c rb = Val (r, rb') ∧ respond c b = Val (r, b') ∧ mirrors m rb' b' ∧
    in_order m cs = true.
Proof.
  intros Hm Hc Ho. destruct c as [|o|c|c]; simpl in Ho |- *; [by eexists _, _, _, _|..];
    apply andb_true_iff in Ho as [Hn%Z.leb_le Ho].
  - destruct (submit_mirrors n o rb b Hm Hc Hn) as (r & rb' & b' & -> & -> & Hm').
    by eexists _, _, _, _.
  - destruct (cancel_mirrors n c rb b Hm Hn) as (r & rb' & b' & -> & -> & Hm').
    by eexists _, _, _, _.
  - destruct (replace_mirrors n c rb b Hm Hc Hn) as (r & rb' & b' & -> & -> & Hm').
    by eexists _, _, _, _.
Qed.

Lemma drive_mirrors cs n rb b :
  mirrors n rb b → Forall Command_wf cs → in_order n cs = true →
  ∃ rs rb' b' m, drive cs rb = Val (rs, rb') ∧ drive cs b = Val (rs, b') ∧ mirrors m rb' b'.
Proof.
  revert n rb b. induction cs as [|c cs IH]; intros n rb b Hm Hcs Ho; [by eexists _, _, _, _|].
  apply Forall_cons in Hcs as [Hc Hcs].
  destruct (respond_mirrors n c cs rb b Hm Hc Ho) as (r & rb1 & b1 & m & Hr & Hb & Hm1 & Ho1).
  destruct (IH m rb1 b1 Hm1 Hcs Ho1) as (rs & rb2 & b2 & m' & Hrs & Hbs & Hm2).
  cbn [drive]. rewrite Hr, Hb, !bind_Val, Hrs, Hbs. by eexists _, _, _, _.
Qed.

(** C12. The order book is equivalent to the reference book of the tests: for
    every sequence of well-typed commands whose sequence numbers do not
    decrease, both terminate without undefined behaviour, give the same result
    to every command (executions, remainders and rejections included) and end
    in states whose best prices, tops, depths and order counts are the same,
    also where a level's total has wrapped. *)
Theorem reference_equivalent cs n :
  Forall Command_wf cs → in_order 0 cs = true →
  ∃ rs rb b, drive cs empty_ref = Val (rs, rb) ∧ drive cs empty_book = Val (rs, b) ∧
    view n rb = view n b.
Proof.
  intros Hcs Ho. destruct (drive_mirrors cs 0 _ _ mirrors_empty Hcs Ho)
    as (rs & rb & b & m & Hr & Hb & Hm).
  exists rs, rb, b. split_and!; [done..|by eapply view_mirrors].
Qed.

(** Two sells at one price, the later one with the smaller sequence number, and
    a buy that trades with one of them. *)
Definition out_of_order : list Command :=
  [CmdNew (demo_order 2 1 sell 5 100); CmdNew (demo_order 1 2 sell 5 100);
   CmdNew (demo_order 3 3 buy 5 100)].

(** The condition on the sequence numbers is needed: the reference book
    breaks ties by sequence number, the order book by arrival, and sequence
    numbers increase per session only, so commands of two sessions can make the
    two books trade with different orders. *)
Lemma reference_differs_out_of_order :
  Forall Command_wf out_of_order ∧
  (fst <$> drive out_of_order empty_ref) ≠ (fst <$> drive out_of_order empty_book).
Proof. split; [repeat constructor; cmd_wf|]. by vm_compute. Qed.

(** ** Witness *)

Definition differential_run : list Command :=
  [CmdNew (demo_order 1 1 sell 10 101); CmdNew (demo_order 2 2 sell 5 100);
   CmdNew (demo_order 3 3 sell 5 100); CmdNew (demo_order 4 4 buy 7 100);
   CmdReplace {| rp_sequence := SequenceNumber.mk 5; rp_order_id := OrderId.mk 1;
                 rp_new_quantity := Quantity.mk 4; rp_new_price := Price.mk 99 |};
   CmdCancel {| co_sequence := SequenceNumber.mk 6; co_order_id := OrderId.mk 3 |}].

Lemma reference_equivalent_witness :
  ∃ rs rb b, drive differential_run empty_ref = Val (rs, rb) ∧
    drive differential_run empty_book = Val (rs, b) ∧ view 2 rb = view 2 b.
Proof.
  apply (reference_equivalent differential_run 2); [repeat constructor; cmd_wf|by vm_compute].
Defined.
