(* ===== verification/StdRandom.v ===== *)
(** * [std::mt19937_64] and binary64 arithmetic

    The parts of the C++ standard library and language the benchmark uses
    beyond integers: the 64-bit Mersenne Twister with the parameters the
    standard fixes, so a seed determines a workload exactly, and [double]
    multiplication, division and conversion from an unsigned integer, rounding
    to nearest even.  The standard's own conformance value for the generator is
    checked at the end. *)

From stdpp Require Import prelude list.
From Stdlib Require Import ZArith Lia SpecFloat.
From S2P Require Import Prelude.

Open Scope Z_scope.

(** ** The generator *)

Definition mt_n : nat := 312.
Definition mt_m : nat := 156.
Definition mt_a : Z := 0xB5026F5AA96619E9.
Definition mt_f : Z := 6364136223846793005.
Definition mt_lower_mask : Z := 2 ^ 31 - 1.
Definition mt_upper_mask : Z := 2 ^ 64 - 2 ^ 31.

Record mt19937_64 : Type := mkMt {
  mt_x : list Z;
  mt_p : nat;
}.

(** The words of a seeded state after [x], the word at index [i - 1]. *)
Fixpoint mt_fill (k : nat) (i : Z) (x : Z) : list Z :=
  match k with
  | O => []
  | S k' =>
      let y := u64_add (u64_mul mt_f (Z.lxor x (Z.shiftr x 62))) i in
      y :: mt_fill k' (i + 1) y
  end.

Definition mt_seed (seed : Z) : mt19937_64 :=
  mkMt (wrap 64 seed :: mt_fill (mt_n - 1) 1 (wrap 64 seed)) mt_n.

Definition mt_word (x : list Z) (i : nat) : Z := x !!! i.

(** One step of the recurrence, in place. *)
Definition mt_twist_at (k : nat) (x : list Z) : list Z :=
  let y := Z.lor (Z.land (mt_word x k) mt_upper_mask)
                 (Z.land (mt_word x ((k + 1) `mod` mt_n)%nat) mt_lower_mask) in
  <[k := Z.lxor (Z.lxor (mt_word x ((k + mt_m) `mod` mt_n)%nat) (Z.shiftr y 1))
           (if Z.odd y then mt_a else 0)]> x.

Definition mt_twist (x : list Z) : list Z := foldl (λ x k, mt_twist_at k x) x (seq 0 mt_n).

Definition mt_temper (z : Z) : Z :=
  let z := Z.lxor z (Z.land (Z.shiftr z 29) 0x5555555555555555) in
  let z := Z.lxor z (Z.land (wrap 64 (Z.shiftl z 17)) 0x71D67FFFEDA60000) in
  let z := Z.lxor z (Z.land (wrap 64 (Z.shiftl z 37)) 0xFFF7EEE000000000) in
  Z.lxor z (Z.shiftr z 43).

(** [operator()] *)
Definition mt_next (g : mt19937_64) : Z * mt19937_64 :=
  let g := if decide (mt_n ≤ mt_p g)%nat then mkMt (mt_twist (mt_x g)) 0 else g in
  (mt_temper (mt_word (mt_x g) (mt_p g)), mkMt (mt_x g) (S (mt_p g))).

Fixpoint mt_discard (k : nat) (g : mt19937_64) : mt19937_64 :=
  match k with
  | O => g
  | S k' => mt_discard k' (mt_next g).2
  end.

(** ** [double] *)

Definition binary64 : Type := spec_float.
Definition dbl_zero : binary64 := S754_zero false.
Definition dbl_of_u64 (n : Z) : binary64 := binary_normalize 53 1024 n 0 false.
Definition dbl_mul : binary64 → binary64 → binary64 := SFmul 53 1024.
Definition dbl_div : binary64 → binary64 → binary64 := SFdiv 53 1024.

(** ** Every output is a 64-bit value *)

Definition word_ok (z : Z) : Prop := 0 ≤ z < 2 ^ 64.

Lemma word_ok_bits z : 0 ≤ z → word_ok z ↔ ∀ i, 64 ≤ i → Z.testbit z i = false.
Proof.
  intros Hz. unfold word_ok. split.
  - intros [_ Hlt] i Hi. apply Z.bits_above_log2; [done|].
    destruct (decide (z = 0)) as [->|]; [simpl; lia|].
    assert (Z.log2 z < 64) by (apply Z.log2_lt_pow2; lia). lia.
  - intros Hb. split; [done|]. destruct (decide (z = 0)) as [->|]; [lia|].
    apply Z.log2_lt_pow2; [lia|]. destruct (decide (Z.log2 z < 64)); [done|].
    specialize (Hb (Z.log2 z)). rewrite Z.bit_log2 in Hb by lia. lia.
Qed.

Lemma word_ok_lxor a b : word_ok a → word_ok b → word_ok (Z.lxor a b).
Proof.
  intros Ha Hb. assert (0 ≤ Z.lxor a b) by (apply Z.lxor_nonneg; unfold word_ok in *; lia).
  apply word_ok_bits; [done|]. intros i Hi. rewrite Z.lxor_spec.
  rewrite (proj1 (word_ok_bits a ltac:(apply Ha))), (proj1 (word_ok_bits b ltac:(apply Hb))); done.
Qed.

Lemma word_ok_land a b : word_ok a → 0 ≤ b → word_ok (Z.land a b).
Proof.
  intros Ha Hb. assert (0 ≤ Z.land a b) by (apply Z.land_nonneg; by left; apply Ha).
  apply word_ok_bits; [done|]. intros i Hi.
  by rewrite Z.land_spec, (proj1 (word_ok_bits a ltac:(apply Ha))).
Qed.

Lemma word_ok_lor a b : word_ok a → word_ok b → word_ok (Z.lor a b).
Proof.
  intros Ha Hb. assert (0 ≤ Z.lor a b) by (apply Z.lor_nonneg; split; [apply Ha|apply Hb]).
  apply word_ok_bits; [done|]. intros i Hi. rewrite Z.lor_spec.
  rewrite (proj1 (word_ok_bits a ltac:(apply Ha))), (proj1 (word_ok_bits b ltac:(apply Hb))); done.
Qed.

Lemma word_ok_shiftr a k : word_ok a → 0 ≤ k → word_ok (Z.shiftr a k).
Proof.
  intros Ha Hk. assert (0 ≤ Z.shiftr a k) by (apply Z.shiftr_nonneg; apply Ha).
  apply word_ok_bits; [done|]. intros i Hi. rewrite Z.shiftr_spec by lia.
  apply (proj1 (word_ok_bits a ltac:(apply Ha)) Ha); lia.
Qed.

Lemma word_ok_wrap z : word_ok (wrap 64 z).
Proof. apply wrap_range. lia. Qed.

#[local] Hint Resolve word_ok_lxor word_ok_land word_ok_lor word_ok_shiftr word_ok_wrap : exchange.

Definition mt_ok (g : mt19937_64) : Prop := Forall word_ok (mt_x g).

Lemma mt_word_ok x i : Forall word_ok x → word_ok (mt_word x i).
Proof.
  intros Hx. unfold mt_word. rewrite list_lookup_total_alt.
  destruct (x !! i) as [z|] eqn:E; simpl; [by eapply Forall_lookup_1|]. by unfold word_ok.
Qed.

#[local] Hint Resolve mt_word_ok : exchange.

Lemma mt_seed_ok seed : mt_ok (mt_seed seed).
Proof.
  unfold mt_ok, mt_seed. cbn [mt_x]. constructor; [apply word_ok_wrap|].
  generalize (wrap 64 seed) 1. induction (mt_n - 1)%nat as [|k IH]; intros x i; simpl; constructor.
  - apply word_ok_wrap.
  - apply IH.
Qed.

Lemma mt_twist_ok x : Forall word_ok x → Forall word_ok (mt_twist x).
Proof.
  unfold mt_twist. generalize (seq 0 mt_n). intros ks. revert x.
  induction ks as [|k ks IH]; intros x Hx; simpl; [done|]. apply IH. unfold mt_twist_at.
  apply Forall_insert; [done|]. apply word_ok_lxor; [apply word_ok_lxor|].
  - eauto with exchange.
  - apply word_ok_shiftr; [|lia]. apply word_ok_lor; apply word_ok_land;
      (eauto with exchange || done).
  - destruct (Z.odd _); by unfold word_ok.
Qed.

Lemma mt_temper_ok z : word_ok z → word_ok (mt_temper z).
Proof.
  intros Hz. unfold mt_temper. cbv zeta.
  repeat first [apply word_ok_lxor | apply word_ok_land | apply word_ok_shiftr | apply word_ok_wrap
               | done | lia].
Qed.

Lemma mt_next_ok g : mt_ok g → word_ok (mt_next g).1 ∧ mt_ok (mt_next g).2.
Proof.
  intros Hg. unfold mt_next, mt_ok in *. case_decide; cbn [fst snd mt_x mt_p];
    (split; [apply mt_temper_ok, mt_word_ok|]); auto using mt_twist_ok.
Qed.

(** The value the C++ standard requires of the ten thousandth invocation of a
    default-constructed engine (seed 5489). *)
Lemma mt_conformance : (mt_next (mt_discard 9999 (mt_seed 5489))).1 = 9981545732273789042.
Proof. vm_compute. reflexivity. Qed.

(** [1e9 / 2] is [5e8], and [1 / 3] is rounded to nearest even. *)
Lemma dbl_division :
  dbl_div (dbl_of_u64 1000000000) (dbl_of_u64 2) = dbl_of_u64 500000000 ∧
  dbl_div (dbl_of_u64 1) (dbl_of_u64 3) = S754_finite false 6004799503160661 (-54).
Proof. by vm_compute. Qed.
