(* ===== verification/Benchmark.v ===== *)
(** * The benchmark workload and the core benchmark

    Models [include/low_latency_exchange/benchmark.hpp] and
    [src/benchmark.cpp].  The clock is a parameter: [clock k] is the [k]-th
    reading of [steady_clock] the benchmark takes, in nanoseconds. *)

From stdpp Require Import prelude list.
From Stdlib Require Import ZArith Lia.
From S2P Require Import Prelude Types OrderBook Observability StdRandom.

Open Scope Z_scope.

Record WorkloadConfig : Type := mkWorkloadConfig {
  wc_command_count : Z;
  wc_symbol_count : Z;
  wc_book_levels : Z;
  wc_cancel_rate_percent : Z;
  wc_crossing_rate_percent : Z;
  wc_seed : Z;
}.

Definition default_config : WorkloadConfig := mkWorkloadConfig 100000 1 32 20 10 0x5EED0006.

Record WorkloadCommand : Type := mkWorkloadCommand {
  wk_symbol_index : Z;
  wk_command : Command;
}.

Record BenchmarkResult : Type := mkBenchmarkResult {
  br_commands : Z;
  br_accepted_commands : Z;
  br_rejected_commands : Z;
  br_accepted_cancels : Z;
  br_rejected_cancels : Z;
  br_executions : Z;
  br_inbound_bytes : Z;
  br_outbound_bytes : Z;
  br_inbound_queue_high_water : Z;
  br_outbound_queue_high_water : Z;
  br_elapsed_nanoseconds : Z;
  br_throughput_per_second : binary64;
  br_latency : LatencyHistogramSnapshot;
}.

Definition empty_snapshot : LatencyHistogramSnapshot :=
  mkSnapshot (replicate kLatencyHistogramBuckets 0) 0 0 0.

Definition empty_result : BenchmarkResult :=
  mkBenchmarkResult 0 0 0 0 0 0 0 0 0 0 0 dbl_zero empty_snapshot.

(** The counters of a result, the fields a run of commands changes. *)
Definition bump (accepted rejected accepted_cancels rejected_cancels executions : Z)
    (r : BenchmarkResult) : BenchmarkResult :=
  mkBenchmarkResult (br_commands r)
    (u64_add (br_accepted_commands r) accepted) (u64_add (br_rejected_commands r) rejected)
    (u64_add (br_accepted_cancels r) accepted_cancels)
    (u64_add (br_rejected_cancels r) rejected_cancels)
    (u64_add (br_executions r) executions)
    (br_inbound_bytes r) (br_outbound_bytes r) (br_inbound_queue_high_water r)
    (br_outbound_queue_high_water r) (br_elapsed_nanoseconds r) (br_throughput_per_second r)
    (br_latency r).

(** ** Generating a workload *)

Record ActiveOrder : Type := mkActiveOrder {
  ao_symbol_index : Z;
  ao_order_id : OrderId.t;
}.

Record generator : Type := mkGenerator {
  gn_random : mt19937_64;
  gn_workload : list WorkloadCommand;
  gn_active_orders : list ActiveOrder;
  gn_next_order_id : Z;
  gn_next_sequence : Z;
}.

(** A signed 64-bit result: overflow is undefined. *)
Definition i64_result (z : Z) : outcome Z :=
  if (- 2 ^ 63 <=? z) && (z <=? i64_max) then Val z else Undef.

(** The branch that cancels an active order; the last one takes its place. *)
Definition make_cancel (random : mt19937_64) (g : generator) : outcome generator :=
  let active_orders := gn_active_orders g in
  let '(r, random) := mt_next random in
  let active_index := Z.to_nat (r `mod` Z.of_nat (length active_orders)) in
  active ← deref_opt (active_orders !! active_index);
  sequence ← deref_opt (SequenceNumber.from_value (gn_next_sequence g));
  back ← deref_opt (last active_orders);
  Val (mkGenerator random
    (gn_workload g ++ [mkWorkloadCommand (ao_symbol_index active)
       (CmdCancel {| co_sequence := sequence; co_order_id := ao_order_id active |})])
    (take (length active_orders - 1) (<[active_index := back]> active_orders))
    (gn_next_order_id g) (u64_add (gn_next_sequence g) 1)).

(** The branch that posts or crosses. *)
Definition make_order (config : WorkloadConfig) (random : mt19937_64) (g : generator)
  : outcome generator :=
  let '(r, random) := mt_next random in
  let symbol_index := r `mod` wc_symbol_count config in
  let '(r, random) := mt_next random in
  let buys := Z.land r 1 =? 0 in
  let '(r, random) := mt_next random in
  let crossing := r `mod` 100 <? wc_crossing_rate_percent config in
  let '(r, random) := mt_next random in
  let level := to_i64 (r `mod` wc_book_levels config) in
  price ← i64_result (if crossing then (if buys then 100002 + level else 100000 - level)
                      else (if buys then 100000 - level else 100002 + level));
  order_id ← deref_opt (OrderId.from_value (gn_next_order_id g));
  sequence ← deref_opt (SequenceNumber.from_value (gn_next_sequence g));
  let '(r, random) := mt_next random in
  quantity ← deref_opt (Quantity.from_units (u64_add 1 (r `mod` 100)));
  Val (mkGenerator random
    (gn_workload g ++ [mkWorkloadCommand symbol_index
       (CmdNew {| no_sequence := sequence; no_order_id := order_id;
                  no_side := if buys then buy else sell; no_type := limit;
                  no_quantity := quantity; no_limit_price := Price.from_ticks price |})])
    (gn_active_orders g ++ [mkActiveOrder symbol_index order_id])
    (u64_add (gn_next_order_id g) 1) (u64_add (gn_next_sequence g) 1)).

(** One iteration: the first random number is drawn only when there is an
    order to cancel. *)
Definition make_command (config : WorkloadConfig) (g : generator) : outcome generator :=
  if negb (bool_decide (gn_active_orders g = [])) then
    let '(r, random) := mt_next (gn_random g) in
    if r `mod` 100 <? wc_cancel_rate_percent config then make_cancel random g
    else make_order config random g
  else make_order config (gn_random g) g.

Definition valid_config (config : WorkloadConfig) : bool :=
  negb ((wc_command_count config =? 0) || (wc_symbol_count config =? 0) ||
        (wc_book_levels config =? 0) || (100 <? wc_cancel_rate_percent config) ||
        (100 <? wc_crossing_rate_percent config)).

Definition make_workload (config : WorkloadConfig) : outcome (list WorkloadCommand) :=
  if negb (valid_config config) then Val []
  else
    g ← for_range (Z.to_nat (wc_command_count config)) (λ _, make_command config)
          (mkGenerator (mt_seed (wc_seed config)) [] [] 1 1);
    Val (gn_workload g).

(** ** Running it *)

Definition apply (book : OrderBook) (command : Command) (result : BenchmarkResult)
  : outcome (bool * OrderBook * BenchmarkResult) :=
  match command with
  | CmdNew o =>
      '(submission, book) ← submit o book;
      Val (submit_accepted submission, book,
           bump 0 0 0 0 (Z.of_nat (length (sr_executions submission))) result)
  | CmdCancel c =>
      '(cancellation, book) ← cancel c book;
      Val (cancel_accepted cancellation, book,
           if cancel_accepted cancellation then bump 0 0 1 0 0 result else bump 0 0 0 1 0 result)
  | CmdReplace c =>
      '(replacement, book) ← replace c book;
      Val (replace_accepted replacement, book,
           bump 0 0 0 0 (Z.of_nat (length (rr_executions replacement))) result)
  | monostate => Val (false, book, result)
  end.

(** [apply(books[item.symbol_index], item.command, result)] *)
Definition apply_item (item : WorkloadCommand) (books : list OrderBook) (result : BenchmarkResult)
  : outcome (bool * list OrderBook * BenchmarkResult) :=
  let i := Z.to_nat (wk_symbol_index item) in
  book ← deref_opt (books !! i);
  '(accepted, book, result) ← apply book (wk_command item) result;
  Val (accepted, <[i := book]> books, result).

Fixpoint warmup_loop (items : list WorkloadCommand) (books : list OrderBook)
    (ignored : BenchmarkResult) : outcome unit :=
  match items with
  | [] => Val tt
  | item :: items' =>
      '(_, books, ignored) ← apply_item item books ignored;
      warmup_loop items' books ignored
  end.

Definition run_warmup (workload : list WorkloadCommand) (symbol_count count : Z) : outcome unit :=
  let books := replicate (Z.to_nat symbol_count) empty_book in
  let limit := Z.min count (Z.of_nat (length workload)) in
  warmup_loop (take (Z.to_nat limit) workload) books empty_result.

Definition throughput (commands elapsed_nanoseconds : Z) : binary64 :=
  if elapsed_nanoseconds =? 0 then dbl_zero
  else dbl_div (dbl_mul (dbl_of_u64 commands) (dbl_of_u64 1000000000))
         (dbl_of_u64 elapsed_nanoseconds).

Section benchmark.
Context (clock : nat → Z).

(** The measured loop; [k] readings of the clock were taken before it. *)
Fixpoint measured_loop (items : list WorkloadCommand) (k : nat) (books : list OrderBook)
    (histogram : LatencyHistogram) (result : BenchmarkResult)
  : outcome (list OrderBook * LatencyHistogram * BenchmarkResult) :=
  match items with
  | [] => Val (books, histogram, result)
  | item :: items' =>
      let command_started_at := clock k in
      '(accepted, books, result) ← apply_item item books result;
      nanoseconds ← i64_result (clock (S k) - command_started_at);
      histogram ← observe (if 0 <? nanoseconds then nanoseconds else 0) histogram;
      let result := if accepted : bool then bump 1 0 0 0 0 result else bump 0 1 0 0 0 result in
      measured_loop items' (S (S k)) books histogram result
  end.

Definition run_core_benchmark (workload : list WorkloadCommand) (symbol_count warmup_commands : Z)
  : outcome BenchmarkResult :=
  if bool_decide (workload = []) || (symbol_count =? 0) then Val empty_result
  else
    _ ← run_warmup workload symbol_count warmup_commands;
    let books := replicate (Z.to_nat symbol_count) empty_book in
    let started_at := clock 0 in
    '(_, histogram, result) ← measured_loop workload 1 books new_histogram empty_result;
    elapsed ← i64_result (clock (S (2 * length workload)) - started_at);
    let elapsed_nanoseconds := of_i64 elapsed in
    let commands := Z.of_nat (length workload) in
    Val (mkBenchmarkResult commands
      (br_accepted_commands result) (br_rejected_commands result)
      (br_accepted_cancels result) (br_rejected_cancels result) (br_executions result)
      (br_inbound_bytes result) (br_outbound_bytes result)
      (br_inbound_queue_high_water result) (br_outbound_queue_high_water result)
      elapsed_nanoseconds
      (throughput commands elapsed_nanoseconds)
      (snapshot_of histogram)).
End benchmark.
