(* ===== verification/BenchmarkProps.v ===== *)
(** * Properties of the benchmark

    A valid configuration gives a workload of the requested length in which
    every command is well formed and every cancel names an order the workload
    posted before; the core benchmark applies each command to the book of its
    symbol, in order, and accounts for every one. *)

From stdpp Require Import prelude gmap list sorting.
From Stdlib Require Import ZArith Lia.
From S2P Require Import Prelude Types OrderBook BookSpec BookInv BookMatch BookRefine BookProps.
From S2P Require Import EventLog Engine EngineProps Observability StdRandom Benchmark.

Open Scope Z_scope.

(** ** What a workload posts and cancels *)

Definition posted_by (x : WorkloadCommand) : option ActiveOrder :=
  match wk_command x with
  | CmdNew o => Some (mkActiveOrder (wk_symbol_index x) (no_order_id o))
  | _ => None
  end.

Definition cancelled_by (x : WorkloadCommand) : option ActiveOrder :=
  match wk_command x with
  | CmdCancel c => Some (mkActiveOrder (wk_symbol_index x) (co_order_id c))
  | _ => None
  end.

Notation posted := (omap posted_by).
Notation cancelled := (omap cancelled_by).

(** A command is fit to be the one after [before]. *)
Record item_ok (config : WorkloadConfig) (before : list WorkloadCommand) (x : WorkloadCommand)
  : Prop := {
  it_symbol : 0 ≤ wk_symbol_index x < wc_symbol_count config;
  it_wf : Command_wf (wk_command x);
  it_sequence : sequence_of (wk_command x) = Z.of_nat (length before) + 1;
  it_kind :
    match wk_command x with
    | CmdNew o => validate o = None ∧
        no_order_id o = OrderId.mk (Z.of_nat (length (posted before)) + 1) ∧
        Quantity.units (no_quantity o) ≤ 100
    | CmdCancel c =>
        mkActiveOrder (wk_symbol_index x) (co_order_id c) ∈ posted before ∧
        mkActiveOrder (wk_symbol_index x) (co_order_id c) ∉ cancelled before
    | _ => False
    end;
}.

(** Every command of a workload is fit for its place. *)
Definition workload_ok (config : WorkloadConfig) (w : list WorkloadCommand) : Prop :=
  ∀ l1 x l2, w = l1 ++ x :: l2 → item_ok config l1 x.

Lemma workload_ok_snoc config w x :
  workload_ok config w → item_ok config w x → workload_ok config (w ++ [x]).
Proof.
  intros Hw Hx l1 y l2 Heq. destruct l2 as [|z l2 _] using rev_ind.
  - by apply app_inj_tail in Heq as [<- <-].
  - change (l1 ++ y :: l2 ++ [z]) with (l1 ++ (y :: l2) ++ [z]) in Heq. rewrite app_assoc in Heq.
    apply app_inj_tail in Heq as [-> _]. by eapply Hw.
Qed.

(** The ids of the posted orders are consecutive. *)
Definition posted_ids (w : list WorkloadCommand) : Prop :=
  ao_order_id <$> posted w = OrderId.mk <$> seqZ 1 (Z.of_nat (length (posted w))).

Lemma posted_snoc w x : posted (w ++ [x]) = posted w ++ option_list (posted_by x).
Proof. rewrite omap_app. simpl. by destruct (posted_by x). Qed.

Lemma cancelled_snoc w x : cancelled (w ++ [x]) = cancelled w ++ option_list (cancelled_by x).
Proof. rewrite omap_app. simpl. by destruct (cancelled_by x). Qed.

Lemma workload_ok_prefix config w x : workload_ok config (w ++ [x]) → workload_ok config w.
Proof. intros Hw l1 y l2 ->. apply (Hw l1 y (l2 ++ [x])). by rewrite <- app_assoc. Qed.

Lemma workload_posted_ids config w : workload_ok config w → posted_ids w.
Proof.
  unfold posted_ids. induction w as [|x w IH] using rev_ind; intros Hw; [done|].
  destruct (Hw w x [] eq_refl) as [_ _ _ Hk].
  rewrite posted_snoc, fmap_app, IH, length_app by (by eapply workload_ok_prefix).
  unfold posted_by. destruct (wk_command x); simpl; [done| |by rewrite !app_nil_r, Nat.add_0_r|done].
  destruct Hk as (_ & -> & _). rewrite Nat2Z.inj_add, seqZ_app, fmap_app by lia. simpl.
  by rewrite Z.add_comm.
Qed.

Lemma posted_ids_NoDup config w : workload_ok config w → NoDup (ao_order_id <$> posted w).
Proof.
  intros Hw. rewrite (workload_posted_ids config w Hw).
  apply NoDup_fmap_2; [|apply NoDup_seqZ]. by intros a b [= ->].
Qed.

Lemma ActiveOrder_eta a : a = mkActiveOrder (ao_symbol_index a) (ao_order_id a).
Proof. by destruct a. Qed.

(** ** The generator *)

Section workload.
Context (config : WorkloadConfig).
Context (Hsymbols : 0 < wc_symbol_count config) (Hlevels : 0 < wc_book_levels config ≤ 100000).

Record generator_ok (g : generator) : Prop := {
  go_random : mt_ok (gn_random g);
  go_sequence : gn_next_sequence g = Z.of_nat (length (gn_workload g)) + 1;
  go_next_id : gn_next_order_id g = Z.of_nat (length (posted (gn_workload g))) + 1;
  go_active : posted (gn_workload g) ≡ₚ gn_active_orders g ++ cancelled (gn_workload g);
  go_workload : workload_ok config (gn_workload g);
}.

Lemma posted_length w : (length (posted w) ≤ length w)%nat.
Proof. induction w as [|x w IH]; csimpl; [done|]. destruct (posted_by x); csimpl; lia. Qed.

(** What the workload says about an order it posted. *)
Lemma posted_ok w a :
  workload_ok config w → a ∈ posted w →
  0 ≤ ao_symbol_index a < wc_symbol_count config ∧ OrderId.valid (ao_order_id a).
Proof.
  intros Hw (x & Hx & Hp)%list_elem_of_omap. apply list_elem_of_split in Hx as (l1 & l2 & ->).
  destruct (Hw l1 x l2 eq_refl) as [Hs Hwf _ _]. unfold posted_by in Hp.
  destruct (wk_command x); simplify_eq. split; [done|]. apply Hwf.
Qed.

(** Replacing an element by the last and dropping the last removes it. *)
Lemma swap_remove {A} (l : list A) i x y :
  l !! i = Some x → last l = Some y → l ≡ₚ x :: take (length l - 1) (<[i := y]> l).
Proof.
  intros Hi Hl. destruct l as [|z l _] using rev_ind; [done|].
  rewrite last_snoc in Hl. injection Hl as ->. rewrite length_app. simpl.
  replace (length l + 1 - 1)%nat with (length l) by lia.
  destruct (decide (i = length l)) as [->|Hne].
  - rewrite list_lookup_middle in Hi by done. injection Hi as ->.
    rewrite insert_app_r_alt, Nat.sub_diag, take_app_length by lia.
    by rewrite <- Permutation_cons_append.
  - assert (i < length l)%nat as Hlt.
    { apply lookup_lt_Some in Hi. rewrite length_app in Hi. simpl in Hi. lia. }
    rewrite lookup_app_l in Hi by done. rewrite insert_app_l by done.
    rewrite <- (length_insert l i y), take_app_length.
    rewrite <- (take_drop_middle l i x Hi) at 1.
    rewrite insert_take_drop by done. rewrite <- Permutation_cons_append.
    rewrite <- !Permutation_middle. by rewrite Permutation_swap.
Qed.

Lemma make_cancel_ok random g :
  generator_ok g → mt_ok random → gn_active_orders g ≠ [] →
  Z.of_nat (length (gn_workload g)) < u64_max - 1 →
  ∃ g', make_cancel random g = Val g' ∧ generator_ok g' ∧
    length (gn_workload g') = S (length (gn_workload g)).
Proof.
  intros [Hr Hseq Hid Hact Hw] Hrnd Hne Hlen. unfold make_cancel.
  destruct (mt_next_ok random Hrnd) as [Hrange Hok]. destruct (mt_next random) as [r random'].
  simpl in Hrange, Hok. set (n := length (gn_active_orders g)).
  assert (0 < n)%nat as Hn by (unfold n; destruct (gn_active_orders g); [done|simpl; lia]).
  set (i := Z.to_nat (r `mod` Z.of_nat n)).
  assert (i < n)%nat as Hi.
  { unfold i. pose proof (Z.mod_pos_bound r (Z.of_nat n)). lia. }
  destruct (lookup_lt_is_Some_2 _ _ Hi) as [a Ha]. rewrite Ha. cbn [deref_opt]. rewrite bind_Val.
  unfold u64_max in Hlen. rewrite SequenceNumber_from_nonzero by lia. cbn [deref_opt].
  rewrite bind_Val. destruct (last (gn_active_orders g)) as [back|] eqn:Hback.
  2:{ by apply last_None in Hback. }
  cbn [deref_opt]. rewrite bind_Val. eexists. split; [done|].
  set (c := {| co_sequence := _; co_order_id := _ |}).
  set (x := mkWorkloadCommand (ao_symbol_index a) (CmdCancel c)).
  pose proof (swap_remove _ _ _ _ Ha Hback) as Hswap. fold n in Hswap.
  assert (cancelled_by x = Some a) as Hx by (unfold cancelled_by; simpl; by destruct a).
  rewrite Hswap in Hact. simpl in Hact.
  assert (a ∈ posted (gn_workload g)) as Hin by (rewrite Hact; by left).
  split; [|simpl; rewrite length_app; simpl; lia].
  split; cbn [gn_random gn_workload gn_active_orders gn_next_order_id gn_next_sequence]; fold c x.
  - done.
  - rewrite length_app, Hseq, u64_add_small by lia. simpl. lia.
  - by rewrite posted_snoc, app_nil_r.
  - rewrite posted_snoc, app_nil_r, cancelled_snoc, Hx, Hact. simpl. solve_Permutation.
  - apply workload_ok_snoc; [done|]. destruct (posted_ok _ _ Hw Hin) as [Hsym Hval]. split.
    + done.
    + split; [|done]. unfold SequenceNumber.valid, u64_max. simpl. lia.
    + simpl. lia.
    + simpl. change (mkActiveOrder _ _) with (mkActiveOrder (ao_symbol_index a) (ao_order_id a)).
      rewrite <- (ActiveOrder_eta a). split; [done|]. intros Hc.
      pose proof (NoDup_fmap_1 _ _ (posted_ids_NoDup _ _ Hw)) as Hids. rewrite Hact in Hids. apply NoDup_cons in Hids as [Hn' _].
      apply Hn', elem_of_app. by right.
Qed.
(** The price of a generated order is positive. *)
Lemma level_price (r : Z) (crossing buys : bool) :
  let level := to_i64 (r `mod` wc_book_levels config) in
  let price := if crossing then (if buys then 100002 + level else 100000 - level)
               else (if buys then 100000 - level else 100002 + level) in
  i64_result price = Val price ∧ Price.from_ticks price = Some (Price.mk price) ∧
  Price.valid (Price.mk price).
Proof.
  intros level price. pose proof (Z.mod_pos_bound r (wc_book_levels config) ltac:(lia)) as Hm.
  assert (0 ≤ level < 100000) as Hl.
  { unfold level, to_i64. rewrite (proj2 (Z.ltb_lt _ _)) by lia. lia. }
  assert (0 < price ≤ 200002) as Hp by (unfold price; destruct crossing, buys; lia).
  unfold i64_result, Price.valid, i64_max. rewrite from_ticks_pos by lia. split_and!; try done; simpl.
  - by rewrite (proj2 (Z.leb_le _ _)), (proj2 (Z.leb_le _ _)) by lia.
  - lia.
  - lia.
Qed.

(** Draws the next random number. *)
Ltac draw r random :=
  match goal with
  | H : mt_ok ?g |- context [mt_next ?g] =>
      let Hr := fresh "Hr" in let Hok := fresh "Hok" in
      destruct (mt_next_ok g H) as [Hr Hok]; destruct (mt_next g) as [r random];
      cbn [fst snd] in Hr, Hok; clear H
  end.

Lemma make_order_ok random g :
  generator_ok g → mt_ok random → Z.of_nat (length (gn_workload g)) < u64_max - 1 →
  ∃ g', make_order config random g = Val g' ∧ generator_ok g' ∧
    length (gn_workload g') = S (length (gn_workload g)).
Proof.
  intros [_ Hseq Hid Hact Hw] Hrnd Hlen. unfold make_order. unfold u64_max in Hlen.
  pose proof (posted_length (gn_workload g)) as Hpl.
  draw r1 g1. draw r2 g2. draw r3 g3. draw r4 g4.
  destruct (level_price r4 (r3 `mod` 100 <? wc_crossing_rate_percent config) (Z.land r2 1 =? 0))
    as (-> & Hticks & Hpv).
  rewrite bind_Val, OrderId_from_nonzero, SequenceNumber_from_nonzero by lia. cbn [deref_opt].
  rewrite !bind_Val. draw r5 g5. pose proof (Z.mod_pos_bound r5 100 ltac:(lia)) as Hq.
  rewrite (u64_add_small 1 (r5 `mod` 100)), from_units_nonzero, Hticks by lia. cbn [deref_opt]. rewrite bind_Val.
  eexists. split; [done|]. clear Hticks.
  set (o := {| no_sequence := _; no_order_id := _; no_side := _; no_type := _; no_quantity := _;
               no_limit_price := _ |}).
  set (x := mkWorkloadCommand (r1 `mod` wc_symbol_count config) (CmdNew o)).
  split; [|simpl; rewrite length_app; simpl; lia].
  split; cbn [gn_random gn_workload gn_active_orders gn_next_order_id gn_next_sequence]; fold o x.
  - done.
  - rewrite length_app, Hseq, u64_add_small by lia. simpl. lia.
  - rewrite posted_snoc, length_app, Hid, u64_add_small by lia. simpl. lia.
  - rewrite posted_snoc, cancelled_snoc, Hact. simpl. rewrite app_nil_r. solve_Permutation.
  - apply workload_ok_snoc; [done|]. split; simpl.
    + apply Z.mod_pos_bound. lia.
    + unfold NewOrder_wf, SequenceNumber.valid, OrderId.valid, Quantity.valid, u64_max. simpl.
      split_and!; (lia || apply Hpv).
    + lia.
    + split_and!; [done|by rewrite Hid|lia].
Qed.

Lemma make_command_ok g :
  generator_ok g → Z.of_nat (length (gn_workload g)) < u64_max - 1 →
  ∃ g', make_command config g = Val g' ∧ generator_ok g' ∧
    length (gn_workload g') = S (length (gn_workload g)).
Proof.
  intros Hg Hlen. pose proof (go_random g Hg) as Hr. unfold make_command.
  case_bool_decide as Hact; cbn [negb]; [by apply make_order_ok|].
  draw r random. destruct (_ <? _); [by apply make_cancel_ok|by apply make_order_ok].
Qed.

Lemma generate_ok n i g :
  generator_ok g → Z.of_nat (length (gn_workload g) + n) < u64_max →
  ∃ g', for_from i n (λ _, make_command config) g = Val g' ∧ generator_ok g' ∧
    length (gn_workload g') = (length (gn_workload g) + n)%nat.
Proof.
  revert i g. induction n as [|n IH]; intros i g Hg Hlen; simpl.
  - exists g. by rewrite Nat.add_0_r.
  - destruct (make_command_ok g Hg) as (g1 & -> & Hg1 & Hl1); [lia|]. rewrite bind_Val.
    destruct (IH (S i) g1 Hg1) as (g2 & -> & Hg2 & Hl2); [rewrite Hl1; lia|].
    exists g2. split_and!; [done..|]. lia.
Qed.

Lemma generator_start seed : generator_ok (mkGenerator (mt_seed seed) [] [] 1 1).
Proof.
  split; try done; [apply mt_seed_ok|]. intros l1 x l2 Heq. by destruct l1.
Qed.
End workload.

Lemma make_workload_ok config :
  valid_config config = true → 0 ≤ wc_symbol_count config →
  0 ≤ wc_book_levels config ≤ 100000 → 0 ≤ wc_command_count config < u64_max →
  ∃ w, make_workload config = Val w ∧ Z.of_nat (length w) = wc_command_count config ∧
    workload_ok config w.
Proof.
  intros Hv Hs Hl Hc. unfold make_workload. rewrite Hv. cbn [negb].
  unfold valid_config in Hv. rewrite negb_true_iff, !orb_false_iff, !Z.eqb_neq in Hv.
  destruct (generate_ok config ltac:(lia) ltac:(lia) (Z.to_nat (wc_command_count config)) 0 _
    (generator_start config (wc_seed config))) as (g & -> & Hg & Hlen); [simpl; lia|].
  rewrite bind_Val. exists (gn_workload g). simpl in Hlen. split_and!; [done|lia|apply Hg].
Qed.

(** ** The core benchmark *)

(** The commands of a workload for one symbol, in order. *)
Definition commands_of (i : nat) (w : list WorkloadCommand) : list Command :=
  wk_command <$> filter (λ x, Z.to_nat (wk_symbol_index x) = i) w.

(** What the code decided about each command. *)
Notation verdicts := (list (Command * bool)).

(** The counters of a result agree with the verdicts. *)
Record counted (v : verdicts) (r : BenchmarkResult) : Prop := {
  ct_accepted : br_accepted_commands r = tally accepted_in v;
  ct_rejected : br_rejected_commands r = tally rejected_in v;
  ct_accepted_cancels : br_accepted_cancels r = tally (cancel_in true) v;
  ct_rejected_cancels : br_rejected_cancels r = tally (cancel_in false) v;
}.

Lemma u64_add_twice a x y :
  0 ≤ a → 0 ≤ x → 0 ≤ y → a + x + y < 2 ^ 64 → u64_add (u64_add a x) y = a + x + y.
Proof. intros. rewrite (u64_add_small a x), u64_add_small; lia. Qed.

Lemma counted_step v r c acc ex :
  counted v r → Z.of_nat (length v) < u64_max →
  counted (v ++ [(c, acc)])
    ((if acc : bool then bump 1 0 0 0 0 else bump 0 1 0 0 0)
       (bump 0 0 (if is_cancel c && acc then 1 else 0)
          (if is_cancel c && negb acc then 1 else 0) ex r)).
Proof.
  intros [Ha Hr Hac Hrc] Hl. unfold u64_max in Hl.
  pose proof (tally_bound accepted_in v). pose proof (tally_bound rejected_in v).
  pose proof (tally_bound (cancel_in true) v). pose proof (tally_bound (cancel_in false) v).
  split; rewrite tally_snoc; destruct acc, (is_cancel c) eqn:Hc;
    unfold bump, cancel_in, rejected_in, accepted_in in *; simpl; rewrite ?Hc;
    rewrite ?Ha, ?Hr, ?Hac, ?Hrc, u64_add_twice; simpl; lia.
Qed.

(** A command applied to the book of its symbol. *)
Lemma apply_ok b c r :
  wf b → Command_wf c → c ≠ monostate →
  ∃ acc b' ex, apply_command b c = Val (acc, b') ∧ wf b' ∧
    apply b c r = Val (acc, b', bump 0 0 (if is_cancel c && acc then 1 else 0)
                                 (if is_cancel c && negb acc then 1 else 0) ex r).
Proof.
  intros Hwf Hc Hm. destruct c as [|o|c|c]; [done|..]; simpl.
  - destruct (submit_refines_aux o b Hwf Hc) as (x & b' & -> & Hwf' & _). simpl. eauto 10.
  - destruct (cancel_refines_aux c b Hwf) as (x & b' & -> & Hwf' & _). simpl.
    exists (cancel_accepted x), b', 0. split_and!; [done..|]. by destruct (cancel_accepted x).
  - destruct (replace_refines_aux c b Hwf Hc) as (x & b' & -> & Hwf' & _). simpl. eauto 10.
Qed.

(** The books after the commands [past], with the verdicts per symbol. *)
Record books_ok (past : list WorkloadCommand) (books : list OrderBook) (vs : list verdicts) : Prop := {
  bk_length : length vs = length books;
  bk_book i b v : books !! i = Some b → vs !! i = Some v →
    wf b ∧ v.*1 = commands_of i past ∧ apply_all empty_book (commands_of i past) = Val (v.*2, b);
}.

Definition item_fits (n : nat) (x : WorkloadCommand) : Prop :=
  (Z.to_nat (wk_symbol_index x) < n)%nat ∧ Command_wf (wk_command x) ∧ wk_command x ≠ monostate.

Lemma commands_of_snoc i w x :
  commands_of i (w ++ [x]) =
    commands_of i w ++ (if decide (Z.to_nat (wk_symbol_index x) = i) then [wk_command x] else []).
Proof. unfold commands_of. rewrite filter_app, fmap_app, filter_cons. by destruct (decide _). Qed.

Lemma apply_item_ok past books vs x r :
  books_ok past books vs → item_fits (length books) x →
  ∃ acc books' vs' ex,
    apply_item x books r = Val (acc, books', bump 0 0 (if is_cancel (wk_command x) && acc then 1 else 0)
      (if is_cancel (wk_command x) && negb acc then 1 else 0) ex r) ∧
    books_ok (past ++ [x]) books' vs' ∧ length books' = length books ∧
    mjoin vs' ≡ₚ mjoin vs ++ [(wk_command x, acc)].
Proof.
  intros [Hl Hb] (Hi & Hc & Hm). unfold apply_item. set (i := Z.to_nat (wk_symbol_index x)) in *.
  destruct (lookup_lt_is_Some_2 _ _ Hi) as [b Hbi]. rewrite Hbi. cbn [deref_opt]. rewrite bind_Val.
  destruct (lookup_lt_is_Some_2 vs i) as [v Hvi]; [lia|].
  destruct (Hb i b v Hbi Hvi) as (Hwf & Hv1 & Hall).
  destruct (apply_ok b (wk_command x) r Hwf Hc Hm) as (acc & b' & ex & Ha & Hwf' & ->).
  rewrite bind_Val. exists acc, (<[i := b']> books), (<[i := v ++ [(wk_command x, acc)]]> vs), ex.
  split_and!; [done| |by rewrite length_insert|].
  - split; [by rewrite !length_insert|]. intros j bj vj Hbj Hvj. rewrite commands_of_snoc. fold i.
    destruct (decide (i = j)) as [<-|Hne].
    + rewrite list_lookup_insert_eq in Hbj by done. rewrite list_lookup_insert_eq in Hvj by lia.
      injection Hbj as <-. injection Hvj as <-. rewrite !fmap_app, Hv1. split_and!; [done..|].
      by eapply apply_all_snoc.
    + rewrite list_lookup_insert_ne in Hbj by done. rewrite list_lookup_insert_ne in Hvj by done.
      rewrite app_nil_r. by apply Hb.
  - rewrite <- (take_drop_middle vs i v Hvi) at 2. rewrite insert_take_drop by lia.
    rewrite !join_app. simpl. solve_Permutation.
Qed.

Lemma counted_perm v1 v2 r : v1 ≡ₚ v2 → counted v1 r → counted v2 r.
Proof. intros Hp []. split; by rewrite <- (tally_perm _ _ _ Hp). Qed.

Lemma join_replicate_nil {A} n : mjoin (replicate n []) = @nil A.
Proof. by induction n. Qed.

Lemma books_ok_start n : books_ok [] (replicate n empty_book) (replicate n []).
Proof.
  split; [by rewrite !length_replicate|].
  intros i b v [-> _]%lookup_replicate [-> _]%lookup_replicate. split_and!; [apply wf_empty|done..].
Qed.

Lemma warmup_loop_ok items past books vs r :
  books_ok past books vs → Forall (item_fits (length books)) items →
  warmup_loop items books r = Val tt.
Proof.
  revert past books vs r. induction items as [|x items IH]; intros past books vs r Hb Hf; [done|].
  apply Forall_cons in Hf as [Hx Hf].
  destruct (apply_item_ok past books vs x r Hb Hx) as (acc & books' & vs' & ex & Ha & Hb' & Hl & _).
  cbn [warmup_loop]. rewrite Ha, bind_Val. eapply IH; [done|]. by rewrite Hl.
Qed.

Section run.
Context (clock : nat → Z) (Hclock : ∀ k, 0 ≤ clock k ≤ i64_max).

Lemma clock_diff i j : i64_result (clock i - clock j) = Val (clock i - clock j).
Proof.
  pose proof (Hclock i). pose proof (Hclock j). unfold i64_result, i64_max in *.
  by rewrite !(proj2 (Z.leb_le _ _)) by lia.
Qed.

Lemma measured_loop_ok items past k books vs h hs r :
  books_ok past books vs → Forall (item_fits (length books)) items → counted (mjoin vs) r →
  summary h hs → length hs = length past → length (mjoin vs) = length past →
  Z.of_nat (length past + length items) ≤ u64_max →
  ∃ books' vs' h' hs' r',
    measured_loop clock items k books h r = Val (books', h', r') ∧
    books_ok (past ++ items) books' vs' ∧ length books' = length books ∧ counted (mjoin vs') r' ∧
    summary h' hs' ∧ length hs' = length (past ++ items) ∧
    length (mjoin vs') = length (past ++ items).
Proof.
  revert past k books vs h hs r. induction items as [|x items IH];
    intros past k books vs h hs r Hb Hf Hc Hs Hhs Hvs Hlen.
  - rewrite app_nil_r. by exists books, vs, h, hs, r.
  - apply Forall_cons in Hf as [Hx Hf]. simpl in Hlen. cbn [measured_loop].
    destruct (apply_item_ok past books vs x r Hb Hx)
      as (acc & books1 & vs1 & ex & -> & Hb1 & Hl1 & Hp).
    rewrite bind_Val, clock_diff, bind_Val. pose proof (Hclock k). pose proof (Hclock (S k)).
    destruct (observe_summary h hs
      (if 0 <? clock (S k) - clock k then clock (S k) - clock k else 0) Hs) as (h1 & -> & Hs1).
    { unfold i64_max, u64_max in *. zcase; lia. }
    { rewrite Hhs. unfold u64_max in *. lia. }
    rewrite bind_Val.
    assert (length (past ++ [x]) = S (length past)) as Hd by (rewrite length_app; simpl; lia).
    pose proof (counted_step _ _ (wk_command x) acc ex Hc ltac:(lia)) as Hc1.
    apply (counted_perm _ (mjoin vs1)) in Hc1; [|done].
    match type of Hc1 with counted _ ?r1 =>
      destruct (IH (past ++ [x]) (S (S k)) books1 vs1 h1 _ r1 Hb1 ltac:(by rewrite Hl1) Hc1 Hs1)
        as (books2 & vs2 & h2 & hs2 & r2 & Hm & Hb2 & Hl2 & Hrest) end.
    + by rewrite Hd, <- Hhs.
    + rewrite Hp, length_app, Hd, Hvs. simpl. lia.
    + lia.
    + rewrite <- app_assoc in Hb2, Hrest. exists books2, vs2, h2, hs2, r2.
      split_and!; [|done|by rewrite Hl2|apply Hrest..].
      rewrite <- Hm. by destruct acc.
Qed.

(** What the benchmark returns, with the verdicts of the books. *)
Lemma run_core_benchmark_ok w symbols warmup :
  w ≠ [] → 0 < symbols → 0 ≤ warmup → Forall (item_fits (Z.to_nat symbols)) w →
  Z.of_nat (length w) ≤ u64_max →
  ∃ r vs, run_core_benchmark clock w symbols warmup = Val r ∧
    length vs = Z.to_nat symbols ∧
    (∀ i v, vs !! i = Some v → v.*1 = commands_of i w ∧
       ∃ b, apply_all empty_book (commands_of i w) = Val (v.*2, b)) ∧
    counted (mjoin vs) r ∧ length (mjoin vs) = length w ∧
    br_commands r = Z.of_nat (length w) ∧ sn_count (br_latency r) = Z.of_nat (length w).
Proof.
  intros Hne Hs Hwm Hf Hlen. unfold run_core_benchmark.
  rewrite bool_decide_eq_false_2, (proj2 (Z.eqb_neq symbols 0)) by (done || lia). cbn [orb].
  set (books := replicate (Z.to_nat symbols) empty_book).
  assert (length books = Z.to_nat symbols) as Hl by apply length_replicate.
  pose proof (books_ok_start (Z.to_nat symbols)) as Hb. fold books in Hb.
  unfold run_warmup. fold books. rewrite <- Hl in Hf.
  rewrite (warmup_loop_ok _ [] books _ _ Hb) by (by apply Forall_take). rewrite bind_Val.
  destruct (measured_loop_ok w [] 1 books _ new_histogram [] empty_result Hb Hf)
    as (books' & vs & h & hs & r & -> & Hb' & Hl' & Hc & Hsum & Hhs & Hv).
  { rewrite join_replicate_nil. by split. }
  { apply summary_new. }
  { done. }
  { by rewrite join_replicate_nil. }
  { done. }
  rewrite bind_Val, clock_diff, bind_Val. eexists _, vs. split; [done|]. simpl in *.
  split_and!; try done.
  - rewrite (bk_length _ _ _ Hb'). by rewrite Hl'.
  - intros i v Hi. destruct (lookup_lt_is_Some_2 books' i) as [b Hbi].
    { rewrite <- (bk_length _ _ _ Hb'). by eapply lookup_lt_Some. }
    destruct (bk_book _ _ _ Hb' i b v Hbi Hi) as (_ & ? & ?). eauto.
  - by destruct Hc.
  - by rewrite (su_count _ _ Hsum), Hhs.
Qed.
End run.

(** ** Which commands of a generated workload are rejected *)

Definition new_id (c : Command) : option OrderId.t :=
  match c with
  | CmdNew o => Some (no_order_id o)
  | _ => None
  end.

(** The commands of a generated workload: valid posts and cancels. *)
Definition post_ok (c : Command) : Prop :=
  Command_wf c ∧
  match c with
  | CmdNew o => validate o = None
  | CmdCancel _ => True
  | _ => False
  end.

Lemma apply_command_seen b c acc b' :
  wf b → Command_wf c → apply_command b c = Val (acc, b') →
  seen_order_ids_ b' ⊆ list_to_set (option_list (new_id c)) ∪ seen_order_ids_ b.
Proof.
  intros Hwf Hc Ha. change (sb_seen (abs b') ⊆ list_to_set (option_list (new_id c)) ∪ sb_seen (abs b)).
  destruct c as [|o|c|c]; simpl in Ha.
  - injection Ha as _ <-. set_solver.
  - destruct (submit_refines_aux o b Hwf Hc) as (r & b1 & Hs & _ & Hsp). rewrite Hs in Ha.
    injection Ha as _ <-. apply (f_equal snd) in Hsp. simpl in Hsp. rewrite <- Hsp.
    unfold spec_submit. destruct (negb _); [set_solver|]. destruct (bool_decide _); [set_solver|].
    destruct (spec_place _ _ _ _ _ _ _) as [[? ?] sb] eqn:E. apply spec_place_seen in E.
    simpl in *. rewrite E. set_solver.
  - destruct (cancel_refines_aux c b Hwf) as (r & b1 & Hs & _ & Hsp). rewrite Hs in Ha.
    injection Ha as _ <-. apply (f_equal snd) in Hsp. simpl in Hsp. rewrite <- Hsp.
    unfold spec_cancel. destruct (spec_locate _ _) as [[? ?]|]; simpl; rewrite ?set_spec_side_seen; set_solver.
  - destruct (replace_refines_aux c b Hwf Hc) as (r & b1 & Hs & _ & Hsp). rewrite Hs in Ha.
    injection Ha as _ <-. apply (f_equal snd) in Hsp. simpl in Hsp. rewrite <- Hsp.
    unfold spec_replace. destruct (spec_locate _ _) as [[? ?]|]; [|set_solver].
    destruct (_ && _); [simpl; rewrite set_spec_side_seen; set_solver|].
    destruct (spec_place _ _ _ _ _ _ _) as [[? ?] sb] eqn:E.
    apply spec_place_seen in E. rewrite set_spec_side_seen in E. simpl. rewrite E. set_solver.
Qed.

Lemma apply_command_wf b c acc b' :
  wf b → Command_wf c → apply_command b c = Val (acc, b') → wf b'.
Proof.
  intros Hwf Hc Ha. destruct c as [|o|c|c]; simpl in Ha.
  - by injection Ha as _ <-.
  - destruct (submit_refines_aux o b Hwf Hc) as (r & b1 & Hs & ? & _). rewrite Hs in Ha. by simplify_eq/=.
  - destruct (cancel_refines_aux c b Hwf) as (r & b1 & Hs & ? & _). rewrite Hs in Ha. by simplify_eq/=.
  - destruct (replace_refines_aux c b Hwf Hc) as (r & b1 & Hs & ? & _). rewrite Hs in Ha. by simplify_eq/=.
Qed.

(** A valid post with an unused id is accepted. *)
Lemma post_accepted b o acc b' :
  wf b → NewOrder_wf o → validate o = None → no_order_id o ∉ seen_order_ids_ b →
  apply_command b (CmdNew o) = Val (acc, b') → acc = true.
Proof.
  intros Hwf Hc Hv Hn Ha. simpl in Ha.
  destruct (submit_refines_aux o b Hwf Hc) as (r & b1 & Hs & _ & Hsp). rewrite Hs in Ha.
  injection Ha as <- _. apply (f_equal fst) in Hsp. simpl in Hsp. rewrite <- Hsp. unfold spec_submit.
  rewrite Hv. simpl. rewrite bool_decide_eq_false_2 by done.
  by destruct (spec_place _ _ _ _ _ _ _) as [[? ?] ?].
Qed.

Lemma posts_accepted b cs accs b' :
  wf b → Forall post_ok cs → NoDup (omap new_id cs) →
  (∀ id, id ∈ omap new_id cs → id ∉ seen_order_ids_ b) →
  apply_all b cs = Val (accs, b') → Forall2 (λ c acc, is_Some (new_id c) → acc = true) cs accs.
Proof.
  revert b accs. induction cs as [|c cs IH]; intros b accs Hwf Hok Hnd Hun Ha; simpl in Ha.
  { injection Ha as <- _. constructor. }
  apply Forall_cons in Hok as [[Hc Hv] Hok].
  apply bind_Val_inv in Ha as ([acc b1] & Hb1 & Ha).
  apply bind_Val_inv in Ha as ([accs1 b2] & Hb2 & Ha). injection Ha as <- <-.
  pose proof (apply_command_seen _ _ _ _ Hwf Hc Hb1) as Hseen.
  assert (omap new_id (c :: cs) = option_list (new_id c) ++ omap new_id cs) as Homap
    by (simpl; by destruct (new_id c)).
  rewrite Homap in Hnd, Hun. apply NoDup_app in Hnd as (_ & Hd & Hnd). constructor.
  - destruct c as [|o|c|c]; simpl; try (by intros [? ?]). intros _.
    eapply post_accepted; [done..| |done]. apply Hun. by left.
  - apply (IH b1); [by eapply apply_command_wf|done|done| |done]. intros id Hid Hin.
    apply Hseen, elem_of_union in Hin as [Hin%elem_of_list_to_set|Hin].
    + by apply (Hd id).
    + eapply Hun; [|done]. apply elem_of_app. by right.
Qed.

(** The commands of one symbol of a generated workload. *)
Lemma commands_of_posts config w i :
  workload_ok config w → Forall post_ok (commands_of i w) ∧ NoDup (omap new_id (commands_of i w)).
Proof.
  intros Hw. split.
  - unfold commands_of. apply Forall_fmap, (Forall_sublist _ _ w); [apply sublist_filter|].
    apply Forall_forall. intros x (l1 & l2 & ->)%list_elem_of_split.
    destruct (Hw l1 x l2 eq_refl) as [_ Hwf _ Hk]. split; [done|].
    destruct (wk_command x); [done|apply Hk|done|done].
  - eapply sublist_NoDup; [exact (posted_ids_NoDup _ _ Hw)|]. clear Hw.
    unfold commands_of. induction w as [|x w IH]; [done|]. rewrite filter_cons. csimpl.
    assert (ao_order_id <$> option_list (posted_by x) = option_list (new_id (wk_command x))) as Hx
      by (unfold posted_by, new_id; by destruct (wk_command x)).
    case_decide; csimpl; destruct (posted_by x), (new_id (wk_command x)); simplify_eq/=; try done;
      try (by apply sublist_skip); by apply sublist_cons.
Qed.

Lemma Forall2_unzip {A B} (P : A → B → Prop) (l : list (A * B)) :
  Forall2 P (l.*1) (l.*2) → Forall (λ x, P x.1 x.2) l.
Proof.
  induction l as [|x l IH]; csimpl; [by constructor|]. intros [? ?]%Forall2_cons.
  constructor; auto.
Qed.

(** The verdicts on a generated workload: every rejected command is a cancel. *)
Lemma rejected_cancels config w vs :
  workload_ok config w →
  (∀ i v, vs !! i = Some v → v.*1 = commands_of i w ∧
     ∃ b, apply_all empty_book (commands_of i w) = Val (v.*2, b)) →
  tally rejected_in (mjoin vs) = tally (cancel_in false) (mjoin vs).
Proof.
  intros Hw Hvs. apply tally_ext, Forall_join, Forall_forall. intros v (i & Hi)%list_elem_of_lookup.
  destruct (Hvs i v Hi) as (Hv1 & b & Hall). destruct (commands_of_posts config w i Hw) as [Hok Hnd].
  pose proof (posts_accepted _ _ _ _ wf_empty Hok Hnd ltac:(set_solver) Hall) as Hacc.
  rewrite <- Hv1 in Hok, Hacc. apply Forall2_unzip in Hacc. rewrite Forall_fmap in Hok.
  apply Forall_forall. intros [c acc] Hin. rewrite Forall_forall in Hok, Hacc.
  specialize (Hok _ Hin). specialize (Hacc _ Hin). unfold rejected_in, cancel_in, post_ok in *. simpl in *.
  destruct c; simpl in *; [tauto|rewrite Hacc by eauto; done|by destruct acc|tauto].
Qed.

(** A generated workload can be run: the core benchmark of a valid configuration
    counts every command once, and only cancels are rejected. *)
Lemma generated_run config clock warmup :
  valid_config config = true → 0 ≤ wc_symbol_count config →
  0 ≤ wc_book_levels config ≤ 100000 → 0 ≤ wc_command_count config < u64_max →
  (∀ k, 0 ≤ clock k ≤ i64_max) → 0 ≤ warmup →
  ∃ w r vs, make_workload config = Val w ∧ w ≠ [] ∧ workload_ok config w ∧
    Z.of_nat (length w) = wc_command_count config ∧
    run_core_benchmark clock w (wc_symbol_count config) warmup = Val r ∧
    length vs = Z.to_nat (wc_symbol_count config) ∧
    (∀ i v, vs !! i = Some v → v.*1 = commands_of i w ∧
       ∃ b, apply_all empty_book (commands_of i w) = Val (v.*2, b)) ∧
    counted (mjoin vs) r ∧ br_commands r = wc_command_count config ∧
    sn_count (br_latency r) = wc_command_count config ∧
    tally accepted_in (mjoin vs) + tally rejected_in (mjoin vs) = wc_command_count config ∧
    tally rejected_in (mjoin vs) = tally (cancel_in false) (mjoin vs).
Proof.
  intros Hv Hs Hl Hc Hclock Hwm.
  destruct (make_workload_ok config Hv Hs Hl Hc) as (w & Hw & Hlen & Hok).
  assert (0 < wc_symbol_count config ∧ 0 < wc_command_count config) as [Hs' Hc'].
  { unfold valid_config in Hv. rewrite negb_true_iff, !orb_false_iff, !Z.eqb_neq in Hv. lia. }
  assert (w ≠ []) as Hne by (intros ->; simpl in Hlen; lia).
  destruct (run_core_benchmark_ok clock Hclock w (wc_symbol_count config) warmup)
    as (r & vs & Hr & Hvl & Hvs & Hcnt & Hj & Hcm & Hlat); [done|done|done| |lia|].
  { apply Forall_forall. intros x (l1 & l2 & ->)%list_elem_of_split.
    destruct (Hok l1 x l2 eq_refl) as [Hsym Hwf _ Hk]. split_and!; [lia|done|].
    intros Hm. by rewrite Hm in Hk. }
  exists w, r, vs. rewrite Hcm, Hlat, Hlen. split_and!; try done.
  - rewrite <- Hlen, <- Hj, <- tally_all. apply tally_split. by intros [c []].
  - by eapply rejected_cancels.
Qed.

(** ** Claims *)

(** C36. A workload generated from a valid configuration of at most 100000
    levels and fewer than 2^64-1 commands has the requested number of commands; each is well formed, for an
    existing symbol, with its position as sequence number; the posted orders
    are priced limit orders of at most 100 units with the ids 1, 2, 3, ...; each
    cancel names an order that was posted before to the same symbol and not cancelled since. *)
Theorem workload_well_formed config :
  valid_config config = true → 0 ≤ wc_symbol_count config →
  0 ≤ wc_book_levels config ≤ 100000 → 0 ≤ wc_command_count config < u64_max →
  ∃ w, make_workload config = Val w ∧ Z.of_nat (length w) = wc_command_count config ∧
    workload_ok config w.
Proof. apply make_workload_ok. Qed.

(** The core benchmark runs every command against the book of its symbol:
    for every workload of well-formed commands for existing symbols it
    terminates without undefined behaviour, whatever the clock shows; the
    verdicts it counts are those of applying, symbol by symbol, that symbol's
    commands in order to an empty book; every command is counted once as
    accepted or rejected, every cancel once as an accepted or rejected cancel,
    and every command has one latency observation. *)
Lemma core_benchmark_accounts clock w symbols warmup :
  (∀ k, 0 ≤ clock k ≤ i64_max) → w ≠ [] → 0 < symbols → 0 ≤ warmup →
  Forall (item_fits (Z.to_nat symbols)) w → Z.of_nat (length w) ≤ u64_max →
  ∃ r vs, run_core_benchmark clock w symbols warmup = Val r ∧
    length vs = Z.to_nat symbols ∧
    (∀ i v, vs !! i = Some v → v.*1 = commands_of i w ∧
       ∃ b, apply_all empty_book (commands_of i w) = Val (v.*2, b)) ∧
    br_accepted_commands r = tally accepted_in (mjoin vs) ∧
    br_commands r = Z.of_nat (length w) ∧
    br_accepted_commands r + br_rejected_commands r = Z.of_nat (length w) ∧
    br_accepted_cancels r + br_rejected_cancels r = tally (λ v, is_cancel v.1) (mjoin vs) ∧
    sn_count (br_latency r) = Z.of_nat (length w).
Proof.
  intros Hclock Hne Hs Hwm Hf Hlen.
  destruct (run_core_benchmark_ok clock Hclock w symbols warmup Hne Hs Hwm Hf Hlen)
    as (r & vs & Hr & Hl & Hvs & [Ha Hrj Hac Hrc] & Hj & Hc & Hlat).
  exists r, vs. rewrite Ha, Hrj, Hac, Hrc. split_and!; try done.
  - rewrite <- Hj, <- tally_all. apply tally_split. by intros [c []].
  - apply tally_split. intros [c acc]. unfold cancel_in. simpl. by destruct (is_cancel c), acc.
Qed.

(** Beyond 100000 levels a valid configuration posts limit orders without a
    price, which the book refuses. *)
Lemma deep_workload_unpriced :
  valid_config (mkWorkloadConfig 1 1 1000000 0 0 1) = true ∧
  ∃ o, make_workload (mkWorkloadConfig 1 1 1000000 0 0 1) = Val [mkWorkloadCommand 0 (CmdNew o)] ∧
    no_type o = limit ∧ no_limit_price o = None ∧ is_Some (validate o).
Proof.
  split; [done|]. eexists. split; [vm_compute; reflexivity|]. split_and!; [done|done|by eexists].
Qed.

(** ** Witnesses *)

Definition demo_config : WorkloadConfig := mkWorkloadConfig 6 2 4 50 50 1234.

Lemma workload_well_formed_witness :
  ∃ w, make_workload demo_config = Val w ∧ Z.of_nat (length w) = 6 ∧ workload_ok demo_config w.
Proof.
  apply (workload_well_formed demo_config); [done|..]; unfold u64_max; simpl; lia.
Defined.

Definition demo_items : list WorkloadCommand :=
  [mkWorkloadCommand 0 (CmdNew (demo_order 1 1 sell 5 100));
   mkWorkloadCommand 1 (CmdNew (demo_order 2 2 sell 5 100));
   mkWorkloadCommand 0 (CmdNew (demo_order 3 3 buy 5 100));
   mkWorkloadCommand 0 (CmdCancel demo_cancel)].

Lemma core_benchmark_accounts_witness :
  ∃ r vs, run_core_benchmark (λ k, Z.of_nat (k `mod` 7)) demo_items 2 1 = Val r ∧
    length vs = 2%nat ∧
    (∀ i v, vs !! i = Some v → v.*1 = commands_of i demo_items ∧
       ∃ b, apply_all empty_book (commands_of i demo_items) = Val (v.*2, b)) ∧
    br_accepted_commands r = tally accepted_in (mjoin vs) ∧ br_commands r = 4 ∧
    br_accepted_commands r + br_rejected_commands r = 4 ∧
    br_accepted_cancels r + br_rejected_cancels r = tally (λ v, is_cancel v.1) (mjoin vs) ∧
    sn_count (br_latency r) = 4.
Proof.
  apply (core_benchmark_accounts (λ k, Z.of_nat (k `mod` 7)) demo_items 2 1); try done.
  - intros k. pose proof (Nat.mod_upper_bound k 7). unfold i64_max. lia.
  - repeat constructor; simpl; (cmd_wf || done).
Defined.
