(* ===== verification/Console.v ===== *)
(** * The command lines of the two programs

    Models [main], [parse_port] and [print_usage] of
    [apps/low_latency_exchange/main.cpp], [replay_main.cpp], [src/version.cpp]
    and [event_log_error_name]: which exit code a command line gives and what
    it prints.  What the gateway run does is [App]; here it is an argument. *)

From stdpp Require Import prelude list strings pretty.
From Stdlib Require Import ZArith Lia Ascii.
From S2P Require Import Prelude OrderBook EventLog.

Open Scope string_scope.
Open Scope Z_scope.

Definition nl : string := String (ascii_of_nat 10) EmptyString.

Definition version : string := "0.1.0".

(** ** [std::from_chars] to an unsigned integer *)

Inductive errc : Type := invalid_argument | result_out_of_range.

Definition is_digit (c : ascii) : bool :=
  let n := Z.of_nat (nat_of_ascii c) in (48 <=? n) && (n <=? 57).
Definition digit (c : ascii) : Z := Z.of_nat (nat_of_ascii c) - 48.

(** The longest prefix of digits: its value after [acc], and what is behind. *)
Fixpoint read_digits (s : string) (acc : Z) : Z * string :=
  match s with
  | EmptyString => (acc, s)
  | String c s' => if is_digit c then read_digits s' (acc * 10 + digit c) else (acc, s)
  end.

(** What is behind the number, the error, and the value ([0] stays in the
    variable when there is an error); [max] is the largest value of the type. *)
Definition from_chars (max : Z) (s : string) : string * option errc * Z :=
  match s with
  | String c _ =>
      if is_digit c then
        let '(value, rest) := read_digits s 0 in
        if max <? value then (rest, Some result_out_of_range, 0) else (rest, None, value)
      else (s, Some invalid_argument, 0)
  | EmptyString => (s, Some invalid_argument, 0)
  end.

Definition kDefaultGatewayPort : Z := 9000.

Definition parse_port (text : string) : option Z :=
  let '(rest, ec, value) := from_chars (2 ^ 32 - 1) text in
  if negb (is_none ec) || negb (bool_decide (rest = EmptyString)) || (value =? 0) ||
     (65535 <? value)
  then None else Some (wrap 16 value).

(** ** The exchange program *)

Record Process : Type := mkProcess {
  pr_code : Z;
  pr_stdout : string;
  pr_stderr : string;
}.

Definition print_usage (program : string) : string :=
  "Usage:" +:+ nl +:+ "  " +:+ program +:+ nl +:+ "  " +:+ program +:+
  " --gateway [port] [event_log_path]" +:+ nl.

(** What [run_gateway] does: it returns, or an exception leaves it. *)
Inductive GatewayRun : Type :=
| Returned (p : Process)
| Threw (what : string).

(** [main]; [argv[1]] of an empty argument vector lies behind its end. *)
Definition main (run_gateway : Z → option string → GatewayRun) (argv : list string)
  : outcome Process :=
  let argc := length argv in
  let program := default "low_latency_exchange" (argv !! 0%nat) in
  if bool_decide (argc = 1%nat) then
    Val (mkProcess 0 ("Low-Latency Exchange " +:+ version +:+ nl +:+ print_usage program) EmptyString)
  else
    arg1 ← deref_opt (argv !! 1%nat);
    if bool_decide (arg1 = "--help") then Val (mkProcess 0 (print_usage program) EmptyString)
    else if negb (bool_decide (arg1 = "--gateway")) || bool_decide (4 < argc)%nat
    then Val (mkProcess 2 EmptyString (print_usage program))
    else
      let port := match argv !! 2%nat with
                  | Some text => parse_port text
                  | None => Some kDefaultGatewayPort
                  end in
      match port with
      | None =>
          Val (mkProcess 2 EmptyString
                 ("Gateway port must be an integer from 1 through 65535." +:+ nl))
      | Some port =>
          let event_log_path := if bool_decide (argc = 4%nat) then argv !! 3%nat else None in
          match run_gateway port event_log_path with
          | Returned p => Val p
          | Threw what => Val (mkProcess 1 EmptyString ("Unable to start gateway: " +:+ what +:+ nl))
          end
      end.

(** ** The replay program *)

Definition event_log_error_name (error : EventLogError.t) : string :=
  match error with
  | EventLogError.io_error => "io_error"
  | EventLogError.truncated_header => "truncated_header"
  | EventLogError.malformed_header => "malformed_header"
  | EventLogError.truncated_payload => "truncated_payload"
  | EventLogError.checksum_mismatch => "checksum_mismatch"
  | EventLogError.invalid_command => "invalid_command"
  | EventLogError.replay_command_rejected => "replay_command_rejected"
  end.

Definition hex_char (d : Z) : ascii :=
  ascii_of_nat (Z.to_nat (if d <? 10 then 48 + d else 87 + d)).

(** The hexadecimal digits of [v] in front of [s]; sixteen are enough for a
    64-bit value. *)
Fixpoint hex_go (fuel : nat) (v : Z) (s : string) : string :=
  match fuel with
  | O => s
  | S fuel' =>
      let s := String (hex_char (v `mod` 16)) s in
      if v <? 16 then s else hex_go fuel' (v `div` 16) s
  end.
Definition hex (v : Z) : string := hex_go 16 v EmptyString.

(** [open path] is the contents of the file, if it can be opened. *)
Definition replay_main (open : string → option (list Z)) (argv : list string) : outcome Process :=
  if negb (bool_decide (length argv = 2%nat)) then
    Val (mkProcess 2 EmptyString
      ("Usage: " +:+ default "low_latency_exchange_replay" (argv !! 0%nat) +:+
       " <event_log_path>" +:+ nl))
  else
    path ← deref_opt (argv !! 1%nat);
    result ← replay_event_log (open path);
    if negb (replay_succeeded result) then
      error ← deref_opt (rr_error result);
      Val (mkProcess 1 EmptyString
        ("Replay failed after " +:+ pretty (rr_replayed_commands result) +:+ " commands: " +:+
         event_log_error_name error +:+ nl))
    else
      Val (mkProcess 0
        ("Replayed " +:+ pretty (rr_replayed_commands result) +:+ " commands; state digest: 0x" +:+
         hex (rr_state_digest result) +:+ nl) EmptyString).

(** ** Ports *)

(** A decimal numeral and its value. *)
Fixpoint numeral (s : string) : bool :=
  match s with
  | EmptyString => true
  | String c s' => is_digit c && numeral s'
  end.
Fixpoint decimal (s : string) (acc : Z) : Z :=
  match s with
  | EmptyString => acc
  | String c s' => decimal s' (acc * 10 + digit c)
  end.

Lemma read_digits_numeral s acc :
  numeral s = true → read_digits s acc = (decimal s acc, EmptyString).
Proof.
  revert acc. induction s as [|c s IH]; intros acc; simpl; [done|].
  intros [-> Hs]%andb_true_iff. by apply IH.
Qed.

Lemma read_digits_rest s acc v : read_digits s acc = (v, EmptyString) → numeral s = true ∧ v = decimal s acc.
Proof.
  revert acc. induction s as [|c s IH]; intros acc; simpl; [by intros [= <-]|].
  destruct (is_digit c); [apply IH|done].
Qed.

Lemma is_digit_range c : is_digit c = true → 0 ≤ digit c ≤ 9.
Proof. unfold is_digit, digit. rewrite andb_true_iff, !Z.leb_le. lia. Qed.

Lemma decimal_nonneg s acc : numeral s = true → 0 ≤ acc → 0 ≤ decimal s acc.
Proof.
  revert acc. induction s as [|c s IH]; intros acc; simpl; [done|].
  intros [Hc%is_digit_range Hs]%andb_true_iff Hacc. apply IH; [done|lia].
Qed.

Lemma parse_port_iff text p :
  parse_port text = Some p ↔
  text ≠ EmptyString ∧ numeral text = true ∧ p = decimal text 0 ∧ 1 ≤ p ≤ 65535.
Proof.
  unfold parse_port, from_chars. destruct text as [|c s]; [simpl; split; [done|by intros [? _]]|].
  destruct (is_digit c) eqn:Hc.
  2:{ split; [done|]. intros (_ & Hn & _). simpl in Hn. by rewrite Hc in Hn. }
  destruct (read_digits (String c s) 0) as [v rest] eqn:Hr. split.
  - destruct (Z.ltb_spec (2 ^ 32 - 1) v); [done|]. cbn [is_none negb orb].
    case_bool_decide as Hrest; [|done]. subst rest. apply read_digits_rest in Hr as [Hn Hv].
    assert (0 ≤ v) by (rewrite Hv; apply decimal_nonneg; [done|lia]). cbn [negb orb].
    destruct (Z.eqb_spec v 0); [done|]. destruct (Z.ltb_spec 65535 v); [done|]. cbn [orb].
    intros [= <-]. rewrite wrap_small by lia. split_and!; (done || lia).
  - intros (_ & Hn & Hv & Hp). rewrite read_digits_numeral, <- Hv in Hr by done.
    injection Hr as <- <-. destruct (Z.ltb_spec (2 ^ 32 - 1) p); [lia|]. cbn [is_none negb orb].
    rewrite bool_decide_eq_true_2 by done. cbn [negb orb].
    destruct (Z.eqb_spec p 0); [lia|]. destruct (Z.ltb_spec 65535 p); [lia|]. cbn [orb].
    by rewrite wrap_small by lia.
Qed.

(** C40. [parse_port] accepts exactly the non-empty decimal numerals (no sign,
    no blank, no trailing character; leading zeros are allowed) whose value is
    from 1 through 65535, and returns that value. *)
Theorem parse_port_exact text p :
  parse_port text = Some p ↔
  text ≠ EmptyString ∧ numeral text = true ∧ p = decimal text 0 ∧ 1 ≤ p ≤ 65535.
Proof. apply parse_port_iff. Qed.

(** Printing a port and parsing it. *)
Lemma pretty_char_digit x : (x < 10)%N → is_digit (pretty_N_char x) = true ∧ digit (pretty_N_char x) = Z.of_N x.
Proof.
  intros Hx. assert (x = 0 ∨ x = 1 ∨ x = 2 ∨ x = 3 ∨ x = 4 ∨ x = 5 ∨ x = 6 ∨ x = 7 ∨ x = 8 ∨ x = 9)%N
    as Hc by lia.
  by destruct Hc as [->|[->|[->|[->|[->|[->|[->|[->|[->| ->]]]]]]]]].
Qed.

Lemma pretty_go_decimal x : ∀ s,
  numeral s = true →
  numeral (pretty_N_go x s) = true ∧ decimal (pretty_N_go x s) 0 = decimal s (Z.of_N x).
Proof.
  induction (N.lt_wf_0 x) as [x _ IH]. intros s Hs. destruct (decide (x = 0)%N) as [->|Hx]; [done|].
  rewrite pretty_N_go_step by lia.
  destruct (pretty_char_digit (x `mod` 10)) as [Hd Hv]; [by apply N.mod_lt|].
  destruct (IH (x `div` 10)%N) with (s := String (pretty_N_char (x `mod` 10)) s) as [Hn Hdec].
  - apply N.div_lt; lia.
  - simpl. by rewrite Hd.
  - split; [done|]. rewrite Hdec. simpl. rewrite Hv. f_equal.
    rewrite N2Z.inj_div, N2Z.inj_mod. change (Z.of_N 10) with 10.
    pose proof (Z.div_mod (Z.of_N x) 10 ltac:(lia)). lia.
Qed.

(** A port survives printing and parsing: the decimal numeral of every
    port from 1 through 65535 is accepted and gives that port. *)
Lemma parse_port_roundtrip p :
  (1 ≤ p ≤ 65535)%N → parse_port (pretty p) = Some (Z.of_N p).
Proof.
  intros Hp. unfold pretty, pretty_N. rewrite decide_False by lia.
  destruct (pretty_go_decimal p EmptyString eq_refl) as [Hn Hd]. apply parse_port_iff. split_and!; [|done|by rewrite Hd|lia..].
  intros He. rewrite He in Hd. simpl in Hd. lia.
Qed.

Lemma parse_port_roundtrip_witness : parse_port (pretty 9000%N) = Some 9000.
Proof. apply (parse_port_roundtrip 9000). lia. Defined.
