(* ===== verification/App.v ===== *)
(** * The threads of the running exchange

    Models [run_gateway] of [apps/low_latency_exchange/main.cpp]: the main
    thread in [io_ctx.run()], the engine, publisher and recorder threads, and
    the shutdown that stops and joins them one after the other.  A thread's
    program counter says where it stands; a turn is one iteration of its loop.
    The gateway works only while the main thread is in [io_ctx.run()]: after a
    signal stopped the context nobody takes replies from the outbound queue. *)

From stdpp Require Import prelude gmap list strings pretty.
From Stdlib Require Import ZArith Lia.
From S2P Require Import Prelude Types OrderBook Bytes Protocol Spsc MarketData EventLog Observability.
From S2P Require Import Engine Console.

Open Scope string_scope.
Open Scope Z_scope.

(** The main thread: in [io_ctx.run()], in one of the joins, or returned. *)
Inductive main_pc : Type :=
| MainRun
| MainJoinEngine
| MainJoinRecorder
| MainJoinPublisher
| MainReturned (code : Z).

(** The engine thread: at its [while], inside [process_available], ended. *)
Inductive engine_pc : Type := EngineLoop | EngineBusy | EngineEnded.

(** The recorder thread: in its first loop, in its second, ended. *)
Inductive recorder_pc : Type := RecorderLoop | RecorderDrain | RecorderEnded.

Inductive publisher_pc : Type := PublisherLoop | PublisherEnded.

#[export] Instance main_pc_eq_dec : EqDecision main_pc.
Proof. solve_decision. Defined.

(** Which stop requests the main thread has made. *)
Definition engine_stop_requested (m : main_pc) : bool :=
  match m with MainRun => false | _ => true end.
Definition recorder_stop_requested (m : main_pc) : bool :=
  match m with MainRun | MainJoinEngine => false | _ => true end.
Definition publisher_stop_requested (m : main_pc) : bool :=
  match m with MainRun | MainJoinEngine | MainJoinRecorder => false | _ => true end.

Section App.
Context {QI QO QM QC : Type}.
Context `{BI : BoundedQueue QI InboundMessage} `{BO : BoundedQueue QO OutboundMessage}.
Context `{BM : BoundedQueue QM MarketDataEvent} `{BC : BoundedQueue QC EventCaptureMessage}.

Notation Service := (@Service QI QO QM QC).

(** [ap_log] is the event log writer with its recorder thread, when a path was
    given. *)
Record app : Type := mkApp {
  ap_service : Service;
  ap_published : MarketDataBook;
  ap_log : option (ofstream * recorder_pc);
  ap_main : main_pc;
  ap_engine : engine_pc;
  ap_publisher : publisher_pc;
  ap_stderr : string;
}.

Definition with_service (s : Service) (a : app) : app :=
  mkApp s (ap_published a) (ap_log a) (ap_main a) (ap_engine a) (ap_publisher a) (ap_stderr a).
Definition with_engine (s : Service) (pc : engine_pc) (a : app) : app :=
  mkApp s (ap_published a) (ap_log a) (ap_main a) pc (ap_publisher a) (ap_stderr a).
Definition with_main (pc : main_pc) (err : string) (a : app) : app :=
  mkApp (ap_service a) (ap_published a) (ap_log a) pc (ap_engine a) (ap_publisher a)
    (ap_stderr a +:+ err).
Definition with_recorder (s : Service) (w : ofstream) (pc : recorder_pc) (err : string) (a : app)
  : app :=
  mkApp s (ap_published a) (Some (w, pc)) (ap_main a) (ap_engine a) (ap_publisher a)
    (ap_stderr a +:+ err).
Definition with_publisher (s : Service) (b : MarketDataBook) (pc : publisher_pc) (a : app) : app :=
  mkApp s b (ap_log a) (ap_main a) (ap_engine a) pc (ap_stderr a).

(** The construction of the components: the log is opened first, an engine
    without a log has no capture feed. *)
Definition app_start (qi : QI) (qo : QO) (qm : QM) (qc : QC) (log : option ofstream)
  : GatewayRun + app :=
  match log with
  | Some w =>
      if negb (writer_good w) then inl (Threw "could not open event log")
      else inr (mkApp (mkService new_engine qi qo (Some (new_feed 64, qm))
                         (Some (new_capture_feed, qc)))
                  new_market_data_book (Some (w, RecorderLoop)) MainRun EngineLoop PublisherLoop
                  EmptyString)
  | None =>
      inr (mkApp (mkService new_engine qi qo (Some (new_feed 64, qm)) None)
             new_market_data_book None MainRun EngineLoop PublisherLoop EmptyString)
  end.

(** The consumer of the outbound queue: the gateway while the context runs,
    nobody afterwards. *)
Definition consumer (env : QO → QO) (m : main_pc) : QO → QO :=
  match m with
  | MainRun => env
  | _ => λ q, q
  end.

(** One iteration of the engine thread: the test of the stop token, or one
    message of [process_available]. *)
Definition engine_turn (env : QO → QO) (fuel : nat) (now : Z) (a : app) : outcome app :=
  match ap_engine a with
  | EngineLoop =>
      Val (with_engine (ap_service a)
             (if engine_stop_requested (ap_main a) then EngineEnded else EngineBusy) a)
  | EngineBusy =>
      '(processed, s) ← process_one (consumer env (ap_main a)) fuel now (ap_service a);
      Val (with_engine s (if processed : bool then EngineBusy else EngineLoop) a)
  | EngineEnded => Val a
  end.

Definition publisher_turn (a : app) : outcome app :=
  match ap_publisher a with
  | PublisherLoop =>
      if publisher_stop_requested (ap_main a)
      then Val (with_publisher (ap_service a) (ap_published a) PublisherEnded a)
      else
        let s := ap_service a in
        match sv_market s with
        | None => Val a
        | Some (f, q) =>
            '(_, b, q) ← publish_one (ap_published a) q;
            Val (with_publisher (mkService (sv_engine s) (sv_inbound s) (sv_outbound s)
                   (Some (f, q)) (sv_capture s)) b PublisherLoop a)
        end
  | PublisherEnded => Val a
  end.

(** One iteration of the recorder's loops; pushing the stream buffer to the file
    ends the thread. *)
Definition recorder_turn (a : app) : outcome app :=
  match ap_log a, sv_capture (ap_service a) with
  | Some (w, pc), Some (f, q) =>
      let s := ap_service a in
      let drained q := mkService (sv_engine s) (sv_inbound s) (sv_outbound s) (sv_market s)
                         (Some (f, q)) in
      match pc with
      | RecorderLoop =>
          if negb (recorder_stop_requested (ap_main a)) && writer_good w then
            '(_, q, w) ← drain_event_capture_one q w;
            Val (with_recorder (drained q) w RecorderLoop EmptyString a)
          else Val (with_recorder s w RecorderDrain EmptyString a)
      | RecorderDrain =>
          '(more, q, w) ← (if writer_good w then drain_event_capture_one q w else Val (false, q, w));
          if more : bool then Val (with_recorder (drained q) w RecorderDrain EmptyString a)
          else
            let '(flushed, w) := flush w in
            Val (with_recorder (drained q) w RecorderEnded
                   (if flushed then EmptyString else "Event log flush failed" +:+ nl) a)
      | RecorderEnded => Val a
      end
  | _, _ => Val a
  end.

(** The end of [run_gateway], once every thread was joined. *)
Definition exit_code (a : app) : Z * string :=
  match ap_log a, sv_capture (ap_service a) with
  | Some (w, _), Some (f, q) =>
      let m := capture_metrics f q in
      if negb (ecm_dropped_commands m =? 0) || negb (writer_good w)
      then (1, "Event log is incomplete: dropped=" +:+ pretty (ecm_dropped_commands m) +:+ nl)
      else (0, EmptyString)
  | _, _ => (0, EmptyString)
  end.

(** The main thread behind [io_ctx.run()]: stop and join the engine, then the
    recorder if there is one, then the publisher; a join waits. *)
Definition main_turn (a : app) : app :=
  match ap_main a with
  | MainRun => with_main MainJoinEngine EmptyString a
  | MainJoinEngine =>
      match ap_engine a with
      | EngineEnded =>
          with_main (match ap_log a with Some _ => MainJoinRecorder | None => MainJoinPublisher end)
            EmptyString a
      | _ => a
      end
  | MainJoinRecorder =>
      match ap_log a with
      | Some (_, RecorderEnded) => with_main MainJoinPublisher EmptyString a
      | _ => a
      end
  | MainJoinPublisher =>
      match ap_publisher a with
      | PublisherEnded => let '(code, err) := exit_code a in with_main (MainReturned code) err a
      | PublisherLoop => a
      end
  | MainReturned _ => a
  end.
End App.
