(* ===== verification/AppProps.v ===== *)
(** * Properties of the running exchange

    The threads of [run_gateway] as a step relation.  A run that returns 0 left
    a complete log: the replay program rebuilds the engine's last book from it.
    The shutdown can hang: the engine thread spins on a full outbound queue
    that nobody drains any more. *)

From stdpp Require Import prelude gmap list relations strings pretty.
From Stdlib Require Import ZArith Lia.
From S2P Require Import Prelude Types OrderBook BookSpec BookInv BookRefine BookProps Bytes Protocol.
From S2P Require Import Spsc SpscProps MarketData MarketDataProps EventLog EventLogProps.
From S2P Require Import Observability Engine EngineProps EngineSystem Console App.

Open Scope list_scope.
Open Scope Z_scope.

(** ** Results that do not depend on a consumer *)

(** [refines P o1 o2]: when the first returns a value, it satisfies [P] and the
    second returns the same. *)
Definition refines {A} (P : A → Prop) (o1 o2 : outcome A) : Prop :=
  ∀ a, o1 = Val a → P a ∧ o2 = Val a.

Lemma refines_bind {A B} (P : A → Prop) (Q : B → Prop) o1 o2 (f1 f2 : A → outcome B) :
  refines P o1 o2 → (∀ a, P a → refines Q (f1 a) (f2 a)) → refines Q (o1 ≫= f1) (o2 ≫= f2).
Proof.
  intros Ho Hf b (a & Ha & Hb)%bind_Val_inv. destruct (Ho a Ha) as [HP ->]. by apply (Hf a).
Qed.

Lemma refines_same {A} (P : A → Prop) o : (∀ a, o = Val a → P a) → refines P o o.
Proof. intros H a Ha. eauto. Qed.

Lemma refines_Val {A} (P : A → Prop) a : P a → refines P (Val a) (Val a).
Proof. intros H ? [= <-]. done. Qed.

Section NoConsumer.
Context {QI QO QM QC : Type}.
Context `{BI : BoundedQueue QI InboundMessage} `{BO : BoundedQueue QO OutboundMessage}.
Context `{BM : BoundedQueue QM MarketDataEvent} `{BC : BoundedQueue QC EventCaptureMessage}.
Context (env : QO → QO).

Notation idle := (λ q : QO, q).
Definition queue_ok (q : QO) : Prop := ∃ n l, bq_rep q n l.

(** A full queue that nobody reads stays full. *)
Lemma push_spin_full fuel msg q n l :
  bq_rep q n l → length l = bq_capacity (Q:=QO) → push_spin idle fuel msg q = OutOfFuel.
Proof.
  revert q. induction fuel as [|fuel IH]; intros q Hrep Hfull; simpl;
    destruct (bq_push_full _ _ _ msg Hrep Hfull) as (q' & -> & Hrep'); rewrite bind_Val; [done|].
  by apply IH.
Qed.

Lemma push_spin_refines fuel fuel' msg q :
  queue_ok q → refines queue_ok (push_spin idle fuel msg q) (push_spin env fuel' msg q).
Proof.
  intros (n & l & Hrep) q' Hp. destruct (bq_rep_bound _ _ _ Hrep) as [Hle _].
  destruct (decide (length l = bq_capacity (Q:=QO))) as [Hfull|Hne].
  { by rewrite (push_spin_full _ _ _ _ _ Hrep Hfull) in Hp. }
  destruct (bq_push_ok _ _ _ msg Hrep ltac:(lia)) as (q1 & Hq1 & Hrep1).
  assert (∀ env f, push_spin env f msg q = Val q1) as Hspin
    by (intros env' []; simpl; by rewrite Hq1).
  rewrite Hspin in Hp. injection Hp as <-. split; [by eexists _, _|apply Hspin].
Qed.

Definition second_ok (p : Engine * QO) : Prop := queue_ok p.2.
Definition third_ok (p : bool * Engine * QO) : Prop := queue_ok p.2.

Lemma push_outbound_refines fuel fuel' msg e q :
  queue_ok q → refines second_ok (push_outbound idle fuel msg e q) (push_outbound env fuel' msg e q).
Proof.
  intros Hq. unfold push_outbound. eapply refines_bind; [by apply push_spin_refines|].
  intros q' Hq'. by apply refines_Val.
Qed.

Lemma emit_executions_refines fuel fuel' sid seq xs e q :
  queue_ok q →
  refines second_ok (emit_executions idle fuel sid seq xs e q) (emit_executions env fuel' sid seq xs e q).
Proof.
  revert e q. induction xs as [|x xs IH]; intros e q Hq; simpl; [by apply refines_Val|].
  eapply (refines_bind second_ok).
  - unfold emit_execution. eapply refines_bind; [by apply push_outbound_refines|].
    intros [e' q'] Hq'. destruct (_ && _); [by apply push_outbound_refines|by apply refines_Val].
  - intros [e' q'] Hq'. by apply IH.
Qed.

#[local] Hint Resolve push_outbound_refines emit_executions_refines : core.

Lemma dispatch_refines fuel fuel' m e q :
  queue_ok q → refines third_ok (dispatch idle fuel m e q) (dispatch env fuel' m e q).
Proof.
  intros Hq. unfold dispatch. destruct (in_command m) as [|o|c|c]; [by apply refines_Val|..].
  - unfold handle_new_order. eapply (refines_bind (λ _, True)); [by apply refines_same|].
    intros [r b] _. destruct (sr_rejection r).
    + eapply refines_bind; [eauto|]. intros [e' q'] Hq'. by apply refines_Val.
    + eapply refines_bind; [eauto|]. intros [e' q'] Hq'.
      eapply refines_bind; [eauto|]. intros [e2 q2] Hq2. by apply refines_Val.
  - unfold handle_cancel_order. eapply (refines_bind (λ _, True)); [by apply refines_same|].
    intros [r b] _. destruct (OrderBook.cancel_accepted r);
      (eapply (refines_bind (λ _, True)); [by apply refines_same|]; intros x _;
       eapply refines_bind; [eauto|]; intros [e' q'] Hq'; by apply refines_Val).
  - unfold handle_replace_order. eapply (refines_bind (λ _, True)); [by apply refines_same|].
    intros [r b] _. destruct (rr_rejection r).
    + eapply refines_bind; [eauto|]. intros [e' q'] Hq'. by apply refines_Val.
    + eapply refines_bind; [eauto|]. intros [e' q'] Hq'.
      eapply refines_bind; [eauto|]. intros [e2 q2] Hq2. by apply refines_Val.
Qed.

(** What [process_one] does without a consumer it also does with one. *)
Lemma process_one_refines fuel fuel' now (s : @Service QI QO QM QC) :
  queue_ok (sv_outbound s) →
  refines (λ _, True) (process_one idle fuel now s) (process_one env fuel' now s).
Proof.
  intros Hq. unfold process_one. eapply (refines_bind (λ _, True)); [by apply refines_same|].
  intros [[popped m] inbound] _. destruct popped; cbn [negb]; [|by apply refines_Val].
  eapply refines_bind; [by apply dispatch_refines|]. intros [[acc e] q'] _. by apply refines_same.
Qed.

(** A command for which the reply cannot be queued is never finished. *)
Lemma dispatch_full fuel m e q n l :
  wf (book_ e) → inbound_ok (in_command m) → in_command m ≠ monostate →
  bq_rep q n l → length l = bq_capacity (Q:=QO) → dispatch idle fuel m e q = OutOfFuel.
Proof.
  intros Hwf Hm Hne Hrep Hfull.
  assert (∀ msg e, push_outbound idle fuel msg e q = OutOfFuel) as Hpush.
  { intros msg e'. unfold push_outbound. by rewrite (push_spin_full _ _ _ _ _ Hrep Hfull). }
  assert (∀ sid seq x xs e, emit_executions idle fuel sid seq (x :: xs) e q = OutOfFuel) as Hemit.
  { intros sid seq x xs e'. simpl. unfold emit_execution. by rewrite Hpush. }
  unfold dispatch. destruct (in_command m) as [|o|c|c]; [done|..].
  - destruct (submit_refines_aux o (book_ e) Hwf Hm) as (r & b & Hs & _ & _).
    unfold handle_new_order. rewrite Hs, bind_Val. destruct (sr_rejection r); [by rewrite Hpush|].
    destruct (sr_executions r); [by cbn [emit_executions]; rewrite bind_Val, Hpush|by rewrite Hemit].
  - destruct (cancel_refines_aux c (book_ e) Hwf) as (r & b & Hs & _ & Hsp).
    unfold handle_cancel_order. rewrite Hs, bind_Val. unfold spec_cancel in Hsp.
    destruct (spec_locate _ _) as [[s q0]|]; apply pair_equal_spec in Hsp as [<- _]; simpl;
      by rewrite Hpush.
  - destruct (replace_refines_aux c (book_ e) Hwf Hm) as (r & b & Hs & _ & _).
    unfold handle_replace_order. rewrite Hs, bind_Val. destruct (rr_rejection r); [by rewrite Hpush|].
    destruct (rr_executions r); [by cbn [emit_executions]; rewrite bind_Val, Hpush|by rewrite Hemit].
Qed.

Lemma process_one_hangs fuel now (s : @Service QI QO QM QC) m inb out n l :
  core_ok s (m :: inb) out → in_command m ≠ monostate →
  bq_rep (sv_outbound s) n l → length l = bq_capacity (Q:=QO) →
  process_one idle fuel now s = OutOfFuel.
Proof.
  intros [(k & Hi) Hc _ Hwf _] Hne Ho Hl. unfold process_one.
  destruct (bq_pop_ok _ _ _ _ default_inbound Hi) as (q' & -> & _). rewrite bind_Val. cbn [negb].
  apply Forall_cons in Hc as [Hm _]. by erewrite dispatch_full.
Qed.
End NoConsumer.

(** ** Steps of the threads *)

Section Threads.
Context {QI QO QM QC : Type}.
Context `{BI : BoundedQueue QI InboundMessage} `{BO : BoundedQueue QO OutboundMessage}.
Context `{BM : BoundedQueue QM MarketDataEvent} `{BC : BoundedQueue QC EventCaptureMessage}.
Context (env : QO → QO).

Notation app := (@app QI QO QM QC).

(** The command the engine's next turn accepts, if it does. *)
Definition accepting (a : app) : list Command :=
  match ap_engine a, bq_pop default_inbound (sv_inbound (ap_service a)) with
  | EngineBusy, Val (true, m, _) =>
      match apply_command (book_ (sv_engine (ap_service a))) (in_command m) with
      | Val (true, _) => [in_command m]
      | _ => []
      end
  | _, _ => []
  end.

(** The gateway queues a command or takes a reply while the context runs; every
    thread takes turns.  The list is the history of accepted commands. *)
Inductive app_step : app * list Command → app * list Command → Prop :=
| app_receive a cs m pushed q :
    ap_main a = MainRun → inbound_ok (in_command m) →
    bq_push m (sv_inbound (ap_service a)) = Val (pushed, q) →
    app_step (a, cs) (with_service (with_inbound q (ap_service a)) a, cs)
| app_send a cs popped m q :
    ap_main a = MainRun →
    bq_pop default_outbound (sv_outbound (ap_service a)) = Val (popped, m, q) →
    app_step (a, cs) (with_service (with_outbound q (ap_service a)) a, cs)
| app_engine a a' cs fuel now :
    (0 < fuel)%nat → engine_turn env fuel now a = Val a' → app_step (a, cs) (a', cs ++ accepting a)
| app_publisher a a' cs : publisher_turn a = Val a' → app_step (a, cs) (a', cs)
| app_recorder a a' cs : recorder_turn a = Val a' → app_step (a, cs) (a', cs)
| app_main a cs : app_step (a, cs) (main_turn a, cs).

(** ** What holds between the steps of a run with a log *)

Definition engine_joined (m : main_pc) : Prop :=
  match m with MainRun | MainJoinEngine => False | _ => True end.
Definition recorder_joined (m : main_pc) : Prop :=
  match m with MainRun | MainJoinEngine | MainJoinRecorder => False | _ => True end.

Record app_inv (a : app) (cs : list Command) (w : ofstream) (pc : recorder_pc) : Prop := {
  ai_log : ap_log a = Some (w, pc);
  ai_exchange : exchange_inv (mkExchange (ap_service a) w cs);
  ai_engine : engine_joined (ap_main a) → ap_engine a = EngineEnded;
  ai_recorder : recorder_joined (ap_main a) → pc = RecorderEnded;
  ai_past : pc ≠ RecorderLoop → os_good w = true → ap_engine a = EngineEnded;
  ai_drained : pc = RecorderEnded → os_good w = true → Z.of_nat (length cs) < 2 ^ 64 →
    ∀ f q, sv_capture (ap_service a) = Some (f, q) → dropped_commands_ f = 0 → ∃ n, bq_rep q n [];
  ai_flushed : pc = RecorderEnded → os_good w = true → os_buffer w = [];
  ai_code c : ap_main a = MainReturned c → c = (exit_code a).1;
}.

Context (Henv : consumer_runs env).

Lemma exchange_inv_market (s : @Service QI QO QM QC) w cs (m : option (MarketDataFeed * QM)) :
  exchange_inv (mkExchange s w cs) →
  exchange_inv (mkExchange (mkService (sv_engine s) (sv_inbound s) (sv_outbound s) m (sv_capture s)) w cs).
Proof.
  intros ((inb & out & []) & Hrun & Hlog). split_and!; [|done|done]. exists inb, out. by split.
Qed.

Lemma core_queue_ok (s : @Service QI QO QM QC) inb out : core_ok s inb out → queue_ok (sv_outbound s).
Proof. intros [_ _ (n & k & _ & Hrep) _ _]. by eexists _, _. Qed.

(** A turn of the busy engine is a step of the exchange, with or without the
    gateway behind it. *)
Lemma engine_turn_inv a cs w fuel now processed s :
  (0 < fuel)%nat → exchange_inv (mkExchange (ap_service a) w cs) → ap_engine a = EngineBusy →
  process_one (consumer env (ap_main a)) fuel now (ap_service a) = Val (processed, s) →
  exchange_inv (mkExchange s w (cs ++ accepting a)).
Proof.
  intros Hf Hx Hb Hp. pose proof Hx as ((inb & out & Hcore) & _). cbn [xc_service] in Hcore.
  assert (process_one env fuel now (ap_service a) = Val (processed, s)) as Hp'.
  { destruct (ap_main a); [done|..];
      by apply (process_one_refines env fuel fuel now _ (core_queue_ok _ _ _ Hcore)). }
  clear Hp. unfold accepting. rewrite Hb.
  destruct (co_inbound _ _ _ Hcore) as (n & Hi). destruct inb as [|m inb].
  - destruct (bq_pop_empty _ _ default_inbound Hi) as (q & Hq & Hi').
    unfold process_one in Hp'. rewrite Hq, bind_Val in Hp'. cbn [negb] in Hp'.
    injection Hp' as _ <-. rewrite Hq, app_nil_r. destruct Hx as (_ & Hrun & Hlog).
    split_and!; [|done|done]. exists [], out. destruct Hcore. split; try done. by eexists.
  - destruct (bq_pop_ok _ _ _ _ default_inbound Hi) as (q & Hq & Hi'). rewrite Hq.
    destruct (process_one_runs env Henv fuel now _ m inb out Hf Hcore)
      as (acc & e1 & outbound & inbound & msgs & Ha & _ & _ & _ & _ & _ & _ & Heq).
    assert (processed = true) as ->.
    { rewrite Heq in Hp'. apply bind_Val_inv in Hp' as (? & _ & Hp').
      apply bind_Val_inv in Hp' as (? & _ & Hp'). apply bind_Val_inv in Hp' as (? & _ & Hp').
      by injection Hp' as <- _. }
    rewrite Ha. pose proof (exchange_inv_process env fuel Henv Hf _ _ _ _ _ _ _ _ _ Hx Hq Ha Hp') as Hx'.
    destruct acc; [done|]. by rewrite app_nil_r.
Qed.
(** ** The recorder *)

Lemma drain_good (q q' : QC) w r w' :
  drain_event_capture_one q w = Val (r, q', w') → os_good w' = true → os_good w = true.
Proof.
  unfold drain_event_capture_one. intros ([[popped m] q1] & _ & H)%bind_Val_inv Hg.
  destruct popped; cbn [negb] in H; [|by injection H as _ _ <-].
  apply bind_Val_inv in H as ([ok w1] & Ha & H). injection H as _ _ <-.
  destruct (os_good w) eqn:E; [done|]. unfold append in Ha. rewrite E in Ha.
  injection Ha as _ <-. congruence.
Qed.

Lemma os_flush_good w : os_good (os_flush w) = true → os_good w = true.
Proof. unfold os_flush. destruct (os_good w) eqn:E; [done|]. cbn. congruence. Qed.

Lemma os_flush_empties w : os_good (os_flush w) = true → os_buffer (os_flush w) = [].
Proof.
  intros Hg. pose proof (os_flush_good w Hg) as Hw. revert Hg. unfold os_flush, os_drain.
  rewrite Hw. cbn [negb]. rewrite Nat.min_id. case_decide; [|done]. intros _. apply drop_all.
Qed.

(** Flushing the writer does not change what was written. *)
Lemma exchange_inv_flush (s : @Service QI QO QM QC) w cs :
  exchange_inv (mkExchange s w cs) → exchange_inv (mkExchange s (os_flush w) cs).
Proof.
  intros (Hcore & Hrun & (f & q & n & queued & d & Hc & Hrep & Hd & Hle & Hlog)).
  split_and!; [done|done|]. exists f, q, n, queued, d. split_and!; try done.
  cbn [xc_service xc_writer xc_accepted] in *. intros Hd0. destruct (Hlog Hd0) as (size & logged & -> & Hst). exists size, logged.
  split; [done|]. by destruct (flush_stream _ _ _ Hst) as (o' & [= _ <-] & Ho' & _).
Qed.

(** When a drain reports the end and the device is still good, the capture queue
    is empty. *)
Lemma drain_empties (s : @Service QI QO QM QC) w cs b f q q' w' :
  logging s w cs → accepted_run empty_book cs b → Z.of_nat (length cs) < 2 ^ 64 →
  sv_capture s = Some (f, q) → dropped_commands_ f = 0 → os_good w' = true →
  drain_event_capture_one q w = Val (false, q', w') → ∃ n, bq_rep q' n [].
Proof.
  intros (f0 & q0 & n & queued & d & Hc & Hrep & Hd & Hle & Hlog) Hrun Hlen Hc' Hdr0 Hg Hdr.
  rewrite Hc in Hc'. injection Hc' as -> ->. pose proof (drain_good _ _ _ _ _ Hdr Hg) as Hgw.
  rewrite Hdr0, wrap_small in Hd by lia. destruct (Hlog ltac:(lia)) as (_ & logged & -> & _).
  unfold drain_event_capture_one in Hdr. destruct queued as [|c queued].
  - destruct (bq_pop_empty _ _ default_message Hrep) as (q1 & Hp & Hrep'). rewrite Hp, bind_Val in Hdr.
    injection Hdr as <- _. by exists n.
  - destruct (bq_pop_ok _ _ _ _ default_message Hrep) as (q1 & Hp & Hrep'). rewrite Hp, bind_Val in Hdr.
    cbn [negb msg_command] in Hdr. apply accepted_run_ok in Hrun. rewrite Forall_app, Forall_cons in Hrun.
    destruct Hrun as (_ & Hok & _). rewrite append_writes in Hdr; [|by destruct c|done].
    rewrite bind_Val in Hdr. injection Hdr as Hf _ Hw. rewrite Hw in Hf. congruence.
Qed.

(** ** Every step keeps the invariant *)

Lemma app_inv_engine a a' cs w pc fuel now :
  app_inv a cs w pc → (0 < fuel)%nat → engine_turn env fuel now a = Val a' →
  app_inv a' (cs ++ accepting a) w pc.
Proof.
  intros [Hlog Hx He Hr Hpast Hdr Hfl Hcode] Hf Ht. unfold engine_turn in Ht.
  destruct (ap_engine a) eqn:Hpc.
  - injection Ht as <-. unfold accepting. rewrite Hpc, app_nil_r.
    split; cbn [ap_log ap_service ap_main ap_engine with_engine]; try done.
    + intros Hj. by specialize (He Hj).
    + intros Hne Hg. by specialize (Hpast Hne Hg).
  - apply bind_Val_inv in Ht as ([processed s] & Hp & Ht). injection Ht as <-.
    assert (pc ≠ RecorderLoop → os_good w = true → False) as Hno.
    { intros Hne Hg. by specialize (Hpast Hne Hg). }
    split; cbn [ap_log ap_service ap_main ap_engine with_engine]; try done.
    + by eapply engine_turn_inv.
    + intros Hj. by specialize (He Hj).
    + intros Hne Hg. by destruct (Hno Hne Hg).
    + intros -> Hg. by destruct (Hno ltac:(done) Hg).
    + intros c Hc. rewrite Hc in He. by specialize (He I).
  - injection Ht as <-. unfold accepting. rewrite Hpc, app_nil_r. by split.
Qed.

Lemma app_inv_publisher a a' cs w pc :
  app_inv a cs w pc → publisher_turn a = Val a' → app_inv a' cs w pc.
Proof.
  intros Hinv Ht. unfold publisher_turn in Ht. destruct (ap_publisher a); [|by injection Ht as <-].
  destruct (publisher_stop_requested _).
  { injection Ht as <-. destruct Hinv. by split. }
  destruct (sv_market (ap_service a)) as [[f q]|]; [|by injection Ht as <-].
  apply bind_Val_inv in Ht as ([[r b] q'] & _ & Ht). injection Ht as <-.
  destruct Hinv as [Hlog Hx He Hr Hpast Hdr Hfl Hcode]. split; try done. by apply exchange_inv_market.
Qed.

Lemma app_inv_recorder a a' cs w pc :
  app_inv a cs w pc → recorder_turn a = Val a' → ∃ w' pc', app_inv a' cs w' pc'.
Proof.
  intros Hinv Ht. pose proof Hinv as [Hlog Hx He Hr Hpast Hdr Hfl Hcode].
  unfold recorder_turn in Ht. rewrite Hlog in Ht.
  pose proof Hx as (_ & Hrun & Hl). pose proof Hl as (f & q & _ & _ & _ & Hc & _).
  cbn [xc_service xc_writer xc_accepted] in *. rewrite Hc in Ht.
  assert (∀ r q' w', drain_event_capture_one q w = Val (r, q', w') →
    exchange_inv (mkExchange (with_capture (Some (f, q')) (ap_service a)) w' cs)) as Hdrain.
  { intros r q' w' Hd. eapply (exchange_inv_step env 1 Henv ltac:(lia)); [exact Hx|].
    by eapply sys_record. }
  destruct pc.
  - destruct (negb (recorder_stop_requested (ap_main a)) && writer_good w) eqn:Hcond.
    + apply andb_true_iff in Hcond as [Hstop%negb_true_iff _].
      apply bind_Val_inv in Ht as ([[r q'] w'] & Hd & Ht). injection Ht as <-.
      exists w', RecorderLoop. split; try done; [by eapply Hdrain|..].
      intros c Hm. cbn [with_recorder ap_main] in Hm. by rewrite Hm in Hstop.
    + injection Ht as <-. exists w, RecorderDrain. split; try done.
      * intros Hj. by specialize (Hr Hj).
      * intros _ Hg. unfold writer_good in Hcond. rewrite Hg, andb_true_r in Hcond. apply He.
        apply negb_false_iff in Hcond. by destruct (ap_main a).
      * intros c Hm. cbn [with_recorder ap_main] in Hm. rewrite Hm in Hr. by specialize (Hr I).
  - apply bind_Val_inv in Ht as ([[more q'] w'] & Hd & Ht).
    assert (exchange_inv (mkExchange (with_capture (Some (f, q')) (ap_service a)) w' cs) ∧
      (os_good w' = true → os_good w = true ∧ drain_event_capture_one q w = Val (more, q', w')))
      as [Hx' Hgood].
    { unfold writer_good in Hd. destruct (os_good w) eqn:Hg.
      - split; [by eapply Hdrain|]. done.
      - injection Hd as <- <- <-. split; [|congruence].
        unfold with_capture. rewrite <- Hc. destruct (ap_service a). exact Hx. }
    assert (∀ c, ap_main a ≠ MainReturned c) as Hret.
    { intros c Hm. rewrite Hm in Hr. by specialize (Hr I). }
    destruct more; [|cbn [flush] in Ht]; injection Ht as <-.
    + exists w', RecorderDrain. split; try done.
      * intros _ Hg. by apply Hpast, Hgood.
      * intros c Hm. by destruct (Hret c).
    + exists (os_flush w'), RecorderEnded. split; try done.
      * by apply exchange_inv_flush.
      * intros _ Hg%os_flush_good. by apply Hpast, Hgood.
      * intros _ Hg%os_flush_good Hlen f' q'' Hc' Hd0. cbn [with_recorder ap_service sv_capture] in Hc'.
        injection Hc' as <- <-. destruct (Hgood Hg) as [_ Hd']. by eapply drain_empties.
      * intros _. apply os_flush_empties.
      * intros c Hm. by destruct (Hret c).
  - injection Ht as <-. by exists w, RecorderEnded.
Qed.

Lemma app_inv_main a cs w pc : app_inv a cs w pc → app_inv (main_turn a) cs w pc.
Proof.
  intros Hinv. pose proof Hinv as [Hlog Hx He Hr Hpast Hdr Hfl Hcode]. unfold main_turn.
  destruct (ap_main a) eqn:Hm.
  - by split.
  - destruct (ap_engine a) eqn:Hpc; [done..|]. rewrite Hlog.
    by split.
  - rewrite Hlog. destruct pc; [done..|]. by split.
  - destruct (ap_publisher a) eqn:Hp; [done|]. destruct (exit_code a) as [code err] eqn:Hex.
    split; try done. intros c Hm'. injection Hm' as <-. unfold exit_code in *.
    cbn [with_main ap_log ap_service]. by rewrite Hex.
  - done.
Qed.

Lemma app_inv_step a cs a' cs' w pc :
  app_inv a cs w pc → app_step (a, cs) (a', cs') → ∃ w' pc', app_inv a' cs' w' pc'.
Proof.
  intros Hinv Hstep. inversion Hstep as [? ? m pushed q Hm Hok Hp|? ? popped m q Hm Hp|
    ? ? ? fuel now Hf Ht|? ? ? Ht|? ? ? Ht|? ?]; subst.
  - destruct Hinv as [Hlog Hx He Hr Hpast Hdr Hfl Hcode]. exists w, pc. split; try done.
    eapply (exchange_inv_step env 1 Henv ltac:(lia)); [exact Hx|]. by eapply sys_receive.
  - destruct Hinv as [Hlog Hx He Hr Hpast Hdr Hfl Hcode]. exists w, pc. split; try done.
    eapply (exchange_inv_step env 1 Henv ltac:(lia)); [exact Hx|]. by eapply sys_send.
  - exists w, pc. by eapply app_inv_engine.
  - exists w, pc. by eapply app_inv_publisher.
  - by eapply app_inv_recorder.
  - exists w, pc. by apply app_inv_main.
Qed.
End Threads.

(** ** Claims *)

Section Claims.
Context {QI QO QM QC : Type}.
Context `{BI : BoundedQueue QI InboundMessage} `{BO : BoundedQueue QO OutboundMessage}.
Context `{BM : BoundedQueue QM MarketDataEvent} `{BC : BoundedQueue QC EventCaptureMessage}.
Context (env : QO → QO).

Lemma app_inv_start qi qo (qm : QM) qc spill room a :
  bq_rep qi 0 [] → bq_rep qo 0 [] → bq_rep qc 0 [] →
  app_start qi qo qm qc (Some (open_log spill room)) = inr a →
  app_inv a [] (open_log spill room) RecorderLoop.
Proof.
  intros Hi Ho Hc [= <-]. split; try done.
  apply (exchange_inv_started qi qo qc (Some (new_feed 64, qm)) spill room Hi Ho Hc).
Qed.

Lemma app_inv_reachable x y :
  consumer_runs env → rtc (app_step env) x y →
  ∀ w pc, app_inv x.1 x.2 w pc → ∃ w' pc', app_inv y.1 y.2 w' pc'.
Proof.
  intros Henv. induction 1 as [x|[a cs] [a' cs'] z Hstep _ IH]; intros w pc Hinv; [by eauto|].
  destruct (app_inv_step env Henv a cs a' cs' w pc Hinv Hstep) as (w' & pc' & Hinv').
  by apply (IH w' pc').
Qed.

(** What the replay program prints for the log of a run. *)
Definition replay_report (n : nat) (b : OrderBook) : Process :=
  mkProcess 0 ("Replayed " +:+ pretty (Z.of_nat n) +:+ " commands; state digest: 0x" +:+
               hex (state_digest b) +:+ nl) EmptyString.

(** C13. Exit code 0 means a complete log: when the exchange was started with
    an event log and [run_gateway] returns 0 after fewer than 2^64 accepted
    commands, with a gateway that takes a reply whenever the engine waits for
    room ([consumer_runs]), whatever the clients sent, however
    the threads were scheduled, whenever the stream emptied its buffer and
    wherever the signal fell, the stream buffer is empty (so closing the stream
    writes nothing more), the file holds exactly the accepted commands, and the
    replay program run on it exits with 0 and reports their number and the
    digest of the engine's last book. *)
Theorem clean_exit_log_complete qi qo (qm : QM) qc spill room a0 a cs program path :
  consumer_runs env → bq_rep qi 0 [] → bq_rep qo 0 [] → bq_rep qc 0 [] →
  app_start qi qo qm qc (Some (open_log spill room)) = inr a0 →
  rtc (app_step env) (a0, []) (a, cs) → ap_main a = MainReturned 0 →
  Z.of_nat (length cs) < 2 ^ 64 →
  ∃ w pc, ap_log a = Some (w, pc) ∧ os_buffer w = [] ∧ os_device w = log_image cs ∧
    accepted_run empty_book cs (book_ (sv_engine (ap_service a))) ∧
    replay_main (λ _, Some (os_device w)) [program; path] =
      Val (replay_report (length cs) (book_ (sv_engine (ap_service a)))).
Proof.
  intros Henv Hi Ho Hc Hstart Hr Hm Hlen.
  destruct (app_inv_reachable _ _ Henv Hr _ _ (app_inv_start _ _ _ _ _ _ _ Hi Ho Hc Hstart))
    as (w & pc & [Hlog Hx _ Hrec _ Hdr Hfl Hcode]). cbn [fst snd] in *.
  exists w, pc. split; [done|]. specialize (Hcode 0 Hm). rewrite Hm in Hrec. specialize (Hrec I).
  destruct Hx as (_ & Hrun & (f & q & n & queued & d & Hc' & Hrep & Hd & Hle & Hl)).
  cbn [xc_service xc_writer xc_accepted] in *. unfold exit_code in Hcode. rewrite Hlog, Hc' in Hcode.
  cbn [capture_metrics ecm_dropped_commands] in Hcode.
  destruct (Z.eqb_spec (dropped_commands_ f) 0) as [Hd0|]; [|done]. cbn [negb orb] in Hcode.
  unfold writer_good in Hcode. destruct (os_good w) eqn:Hg; [|done].
  destruct (Hdr Hrec eq_refl Hlen f q Hc' Hd0) as (n' & Hrep').
  rewrite Hd0, wrap_small in Hd by lia. destruct (Hl ltac:(lia)) as (size & logged & Heq & Hst).
  specialize (Hfl Hrec eq_refl). revert Hst. unfold stream. rewrite Hg, Hfl, app_nil_r. intros [Hb _].
  assert (queued = []) as ->.
  { destruct queued as [|c queued]; [done|]. exfalso.
    destruct (bq_pop_ok _ _ _ _ default_message Hrep) as (? & H1 & _).
    destruct (bq_pop_empty _ _ default_message Hrep') as (? & H2 & _). congruence. }
  rewrite app_nil_r in Heq. subst logged. split_and!; [done..|].
  unfold replay_main. change ([program; path] !! 1%nat) with (Some path).
  rewrite bool_decide_eq_true_2 by done. cbn [negb deref_opt].
  by rewrite bind_Val, Hb, (replay_log_image _ _ Hrun Hlen), bind_Val.
Qed.

(** The engine can no longer answer. *)
Definition stuck (a : @app QI QO QM QC) : Prop :=
  ap_main a = MainJoinEngine ∧ ap_engine a = EngineBusy ∧
  (∃ m inb out, core_ok (ap_service a) (m :: inb) out ∧ in_command m ≠ monostate) ∧
  ∃ n l, bq_rep (sv_outbound (ap_service a)) n l ∧ length l = bq_capacity (Q:=QO).

Lemma stuck_step a cs a' cs' : stuck a → app_step env (a, cs) (a', cs') → stuck a'.
Proof.
  intros Hst Hstep. pose proof Hst as (Hm & He & (m & inb & out & Hcore & Hne) & n & l & Ho & Hl).
  inversion Hstep as [? ? m' pushed q Hm' Hok Hp|? ? popped m' q Hm' Hp|
    ? ? ? fuel now Hf Ht|? ? ? Ht|? ? ? Ht|? ?]; subst; [congruence|congruence|..].
  - unfold engine_turn in Ht. rewrite He, Hm in Ht. cbn [consumer] in Ht.
    by rewrite (process_one_hangs fuel now _ m inb out n l Hcore Hne Ho Hl) in Ht.
  - unfold publisher_turn in Ht. destruct (ap_publisher a); [|by injection Ht as <-].
    rewrite Hm in Ht. cbn [publisher_stop_requested] in Ht.
    destruct (sv_market (ap_service a)) as [[f q]|]; [|by injection Ht as <-].
    apply bind_Val_inv in Ht as ([[r b] q'] & _ & Ht). injection Ht as <-.
    split_and!; try done; [|by eexists _, _]. exists m, inb, out. destruct Hcore. by split.
  - assert (∀ s w pc err, core_ok s (m :: inb) out → sv_outbound s = sv_outbound (ap_service a) →
      stuck (with_recorder s w pc err a)) as Hrec.
    { intros s w pc err Hs Hso. split_and!; try done; [by eexists _, _, _|].
      cbn [with_recorder ap_service]. rewrite Hso. by eexists _, _. }
    unfold recorder_turn in Ht. destruct (ap_log a) as [[w pc]|]; [|by injection Ht as <-].
    destruct (sv_capture (ap_service a)) as [[f q]|]; [|by injection Ht as <-].
    assert (∀ q : QC, core_ok (mkService (sv_engine (ap_service a)) (sv_inbound (ap_service a))
      (sv_outbound (ap_service a)) (sv_market (ap_service a)) (Some (f, q))) (m :: inb) out) as Hdr
      by (intros q0; destruct Hcore; by split).
    destruct pc; [destruct (_ && _)| |by injection Ht as <-].
    + apply bind_Val_inv in Ht as ([[r q'] w'] & _ & Ht). injection Ht as <-. apply Hrec; [apply Hdr|done].
    + injection Ht as <-. apply Hrec; [exact Hcore|done].
    + apply bind_Val_inv in Ht as ([[more q'] w'] & _ & Ht).
      destruct more; injection Ht as <-; (apply Hrec; [apply Hdr|done]).
  - unfold main_turn. by rewrite Hm, He.
Qed.

(** C39. The shutdown can hang: after the signal nobody takes replies from the
    outbound queue, so when it is full and a command is still queued the engine
    thread spins for ever in [push_outbound], the join of the engine thread
    waits for ever and [run_gateway] returns in no continuation. *)
Theorem shutdown_hangs a cs a' cs' :
  stuck a → rtc (app_step env) (a, cs) (a', cs') →
  ap_main a' = MainJoinEngine ∧ ap_engine a' = EngineBusy.
Proof.
  intros Hst Hr. assert (∀ x y, rtc (app_step env) x y → stuck x.1 → stuck y.1) as H.
  { induction 1 as [|[? ?] [? ?] ? Hstep _ IH]; [done|]. intros Hs. apply IH. by eapply stuck_step. }
  destruct (H _ _ Hr Hst) as (? & ? & _). done.
Qed.
End Claims.

(** ** Witnesses *)

(** A gateway that takes one reply whenever the engine yields. *)
Definition take_front {Q} `{BQ : BoundedQueue Q OutboundMessage} (q : Q) : Q :=
  (value_of (bq_pop default_outbound q) (false, default_outbound, q)).2.

Lemma take_front_runs {Q} `{BQ : BoundedQueue Q OutboundMessage} :
  (0 < bq_capacity (Q:=Q))%nat → consumer_runs (take_front (Q:=Q)).
Proof.
  intros Hcap. split; [done|]. intros q n l Hrep. unfold take_front. destruct l as [|m l].
  - destruct (bq_pop_empty _ _ default_outbound Hrep) as (q' & -> & Hrep'). by exists 0%nat.
  - destruct (bq_pop_ok _ _ _ _ default_outbound Hrep) as (q' & -> & Hrep'). exists 1%nat.
    split; [done|lia].
Qed.

(** The queues of the program, with an outbound queue of two places. *)
Definition small_outbound : BoundedQueue (BoundedSPSCQueue.Queue OutboundMessage) OutboundMessage :=
  spsc_bounded_queue 2 (λ m, m) eq_refl.

#[local] Existing Instance inbound_queue.
#[local] Existing Instance small_outbound.
#[local] Existing Instance capture_queue.
#[local] Existing Instance md_queue.

Definition small_out : BoundedSPSCQueue.Queue OutboundMessage :=
  BoundedSPSCQueue.new_queue 2 default_outbound.

Definition run_log : ofstream := open_log demo_spill 1000.
Definition run_service := mkService new_engine empty_in small_out (Some (new_feed 64, md_empty))
  (Some (new_capture_feed, empty_cap)).
Definition run0 := mkApp run_service new_market_data_book (Some (run_log, RecorderLoop)) MainRun
  EngineLoop PublisherLoop EmptyString.

Lemma run0_start : app_start empty_in small_out md_empty empty_cap (Some run_log) = inr run0.
Proof. done. Qed.

Notation run_app := (@app (BoundedSPSCQueue.Queue InboundMessage)
  (BoundedSPSCQueue.Queue OutboundMessage) (BoundedSPSCQueue.Queue MarketDataEvent)
  (BoundedSPSCQueue.Queue EventCaptureMessage)).

Definition receive (m : InboundMessage) (a : run_app) : run_app :=
  with_service (with_inbound
    (value_of (bq_push m (sv_inbound (ap_service a))) (false, sv_inbound (ap_service a))).2
    (ap_service a)) a.
Definition engine (a : run_app) : run_app := value_of (engine_turn take_front 1 2000 a) a.
Definition recorder (a : run_app) : run_app := value_of (recorder_turn a) a.
Definition publisher (a : run_app) : run_app := value_of (publisher_turn a) a.

(** One order, then the signal: the engine is done before it sees the request,
    the recorder drains and flushes, the publisher stops. *)
Definition run1 := receive demo_inbound1 run0.
Definition run2 := engine run1.
Definition run3 := engine run2.
Definition run4 := engine run3.
Definition run5 := main_turn run4.
Definition run6 := engine run5.
Definition run7 := main_turn run6.
Definition run8 := recorder run7.
Definition run9 := recorder run8.
Definition run10 := recorder run9.
Definition run11 := main_turn run10.
Definition run12 := publisher run11.
Definition run13 := main_turn run12.

Lemma engine_step a cs cs' :
  engine_turn take_front 1 2000 a = Val (engine a) → cs' = cs ++ accepting a →
  app_step take_front (a, cs) (engine a, cs').
Proof. intros Ht ->. apply (app_engine _ _ _ _ 1 2000); [lia|done]. Qed.

Lemma run_accepts : rtc (app_step take_front) (run0, []) (run4, [in_command demo_inbound1]).
Proof.
  eapply rtc_l; [eapply (app_receive _ run0 [] demo_inbound1 true); [done|apply demo_inbound_ok|by vm_compute]|].
  eapply rtc_l; [apply (engine_step run1 [] []); by vm_compute|].
  eapply rtc_l; [apply (engine_step run2 [] [in_command demo_inbound1]); by vm_compute|].
  eapply rtc_l; [apply (engine_step run3 _ [in_command demo_inbound1]); by vm_compute|].
  apply rtc_refl.
Qed.

Lemma run_returns :
  rtc (app_step take_front) (run0, []) (run13, [in_command demo_inbound1]) ∧
  ap_main run13 = MainReturned 0.
Proof.
  split; [|by vm_compute]. etrans; [apply run_accepts|].
  eapply rtc_l; [apply app_main|].
  eapply rtc_l; [apply (engine_step run5 _ [in_command demo_inbound1]); by vm_compute|].
  eapply rtc_l; [apply app_main|].
  eapply rtc_l; [apply (app_recorder _ run7 run8); by vm_compute|].
  eapply rtc_l; [apply (app_recorder _ run8 run9); by vm_compute|].
  eapply rtc_l; [apply (app_recorder _ run9 run10); by vm_compute|].
  eapply rtc_l; [apply app_main|].
  eapply rtc_l; [apply (app_publisher _ run11 run12); by vm_compute|].
  apply rtc_once, app_main.
Qed.

Lemma run_queues :
  consumer_runs (take_front (BQ:=small_outbound)) ∧
  bq_rep empty_in 0 [] ∧ bq_rep small_out 0 [] ∧ bq_rep empty_cap 0 [].
Proof.
  split; [apply take_front_runs; simpl; lia|]. split_and!; by apply queue_rep_init.
Qed.

Lemma clean_exit_log_complete_witness :
  ∃ w pc, ap_log run13 = Some (w, pc) ∧ os_buffer w = [] ∧
    os_device w = log_image [in_command demo_inbound1] ∧
    accepted_run empty_book [in_command demo_inbound1] (book_ (sv_engine (ap_service run13))) ∧
    replay_main (λ _, Some (os_device w)) ["replay"; "orders.lxlg"]%string =
      Val (replay_report 1 (book_ (sv_engine (ap_service run13)))).
Proof.
  destruct run_queues as (Henv & Hi & Ho & Hc). destruct run_returns as [Hr Hm].
  apply (clean_exit_log_complete take_front empty_in small_out md_empty empty_cap demo_spill 1000 run0 run13
    [in_command demo_inbound1] "replay"%string "orders.lxlg"%string Henv Hi Ho Hc run0_start Hr Hm).
  by vm_compute.
Defined.

(** Three orders; two replies fill the outbound queue before the signal. *)
Definition demo_inbound3 : InboundMessage :=
  mkInboundMessage 8 (CmdNew (demo_order 3 3 buy 4 50)) 56 1000.
Definition demo_inbound4 : InboundMessage :=
  mkInboundMessage 8 (CmdNew (demo_order 4 4 buy 4 50)) 56 1000.

Definition hang1 := receive demo_inbound4 (receive demo_inbound3 run1).
Definition hang2 := engine hang1.
Definition hang3 := engine hang2.
Definition hang4 := engine hang3.
Definition hang5 := main_turn hang4.
Definition hang_history : list Command := [in_command demo_inbound1; in_command demo_inbound3].

Lemma hang_inbound : inbound_ok (in_command demo_inbound3) ∧ inbound_ok (in_command demo_inbound4).
Proof. split; unfold inbound_ok, demo_inbound3, demo_inbound4; cbn [in_command]; cmd_wf. Qed.

Lemma hang_reachable : rtc (app_step take_front) (run0, []) (hang5, hang_history).
Proof.
  eapply rtc_l; [eapply (app_receive _ run0 [] demo_inbound1 true); [done|apply demo_inbound_ok|by vm_compute]|].
  eapply rtc_l; [eapply (app_receive _ run1 [] demo_inbound3 true); [done|apply hang_inbound|by vm_compute]|].
  eapply rtc_l; [eapply (app_receive _ (receive demo_inbound3 run1) [] demo_inbound4 true);
    [done|apply hang_inbound|by vm_compute]|].
  eapply rtc_l; [apply (engine_step hang1 [] []); by vm_compute|].
  eapply rtc_l; [apply (engine_step hang2 [] [in_command demo_inbound1]); by vm_compute|].
  eapply rtc_l; [apply (engine_step hang3 _ hang_history); by vm_compute|].
  apply rtc_once. exact (app_main _ hang4 hang_history).
Qed.

Lemma hang_stuck : stuck hang5.
Proof.
  destruct run_queues as (Henv & Hi & Ho & Hc).
  destruct (app_inv_reachable _ _ _ Henv hang_reachable _ _
    (app_inv_start _ _ _ _ _ _ _ Hi Ho Hc run0_start)) as (w & pc & [_ Hx _ _ _ _ _ _]).
  destruct Hx as ((inb & out & Hcore) & _). cbn [xc_service fst snd] in Hcore.
  split_and!; [by vm_compute|by vm_compute|..].
  - destruct (co_inbound _ _ _ Hcore) as (n & Hn).
    destruct (popped_head _ _ _ demo_inbound4
      (value_of (bq_pop default_inbound (sv_inbound (ap_service hang5)))
         (false, default_inbound, empty_in)).2 Hn) as (inb' & ->); [by vm_compute|].
    by exists demo_inbound4, inb', out.
  - destruct (co_outbound _ _ _ Hcore) as (n & k & _ & Hrep). exists n, (drop k out). split; [done|].
    destruct (bq_rep_bound _ _ _ Hrep) as [Hle _].
    destruct (decide (length (drop k out) = 2%nat)) as [|Hne]; [done|]. exfalso.
    destruct (bq_push_ok _ _ _ default_outbound Hrep) as (q' & Hp & _).
    { change (bq_capacity (BoundedQueue:=small_outbound)) with 2%nat in *. lia. }
    assert (fst <$> bq_push default_outbound (sv_outbound (ap_service hang5)) = Val false) as Hf
      by (by vm_compute).
    by rewrite Hp in Hf.
Qed.

Lemma shutdown_hangs_witness :
  rtc (app_step take_front) (run0, []) (hang5, hang_history) ∧
  ∀ a' cs', rtc (app_step take_front) (hang5, hang_history) (a', cs') →
    ap_main a' = MainJoinEngine ∧ ap_engine a' = EngineBusy.
Proof.
  split; [exact hang_reachable|]. intros a' cs' Hr.
  exact (shutdown_hangs take_front hang5 hang_history a' cs' hang_stuck Hr).
Defined.
