(* ===== verification/Replies.v ===== *)
(** * What the engine pushes and what a client reads of it

    While the outbound queue has room the engine thread never waits, so what a
    command pushes can be read off the queue: exactly its replies, in order,
    behind what was queued before.  Every one of them is serialized to a frame
    from which a client decodes the same message. *)

From stdpp Require Import prelude gmap list.
From Stdlib Require Import ZArith Lia.
From S2P Require Import Prelude Types OrderBook BookSpec BookInv BookMatch BookRefine BookProps.
From S2P Require Import Bytes Protocol ProtocolInv ProtocolProps Spsc SpscProps EventLog EventLogProps.
From S2P Require Import Observability Engine EngineProps EngineSystem Gateway GatewayFrames AppProps.

Open Scope Z_scope.

Section Replies.
Context {QO : Type} `{BO : BoundedQueue QO OutboundMessage}.

Notation idle := (λ q : QO, q).

(** ** A queue with room *)

(** [k] more messages fit. *)
Definition roomy (k : nat) (q : QO) : Prop :=
  ∃ n l, bq_rep q n l ∧ (length l + k ≤ bq_capacity (Q:=QO))%nat.

Lemma roomy_le j k q : (j ≤ k)%nat → roomy k q → roomy j q.
Proof. intros Hjk (n & l & Hrep & Hk). exists n, l. split; [done|lia]. Qed.

Lemma push_outbound_room k fuel msg e q :
  roomy (S k) q → ∃ e' q', push_outbound idle fuel msg e q = Val (e', q') ∧ roomy k q'.
Proof.
  intros (n & l & Hrep & Hk). destruct (bq_push_ok _ _ _ msg Hrep) as (q' & Hp & Hrep'); [lia|].
  assert (push_spin idle fuel msg q = Val q') as Hs by (destruct fuel; cbn [push_spin]; by rewrite Hp).
  unfold push_outbound. rewrite Hs, bind_Val. do 2 eexists. split; [done|]. eexists _, _.
  split; [done|]. rewrite length_app. simpl. lia.
Qed.

Lemma emit_executions_room xs : ∀ k fuel sid seq e q,
  roomy (2 * length xs + k) q →
  ∃ e' q', emit_executions idle fuel sid seq xs e q = Val (e', q') ∧ roomy k q'.
Proof.
  induction xs as [|x xs IH]; intros k fuel sid seq e q Hq; cbn [emit_executions]; [by eexists _, _|].
  cbn [length] in Hq. unfold emit_execution.
  edestruct (push_outbound_room (S (2 * length xs + k)) fuel) as (e1 & q1 & -> & Hq1);
    [by eapply roomy_le, Hq; lia|]. rewrite bind_Val. destruct (_ && _).
  - edestruct (push_outbound_room (2 * length xs + k) fuel) as (e2 & q2 & -> & Hq2); [done|].
    rewrite bind_Val. by apply IH.
  - rewrite bind_Val. apply IH. by eapply roomy_le, Hq1; lia.
Qed.

Lemma dispatch_room fuel m e q :
  wf (book_ e) → inbound_ok (in_command m) → roomy (2 * fills_of (book_ e) (in_command m) + 1) q →
  ∃ r, dispatch idle fuel m e q = Val r.
Proof.
  intros Hwf Hok Hq. unfold dispatch. destruct (in_command m) as [|o|o|o]; simpl in Hok.
  - by eexists.
  - destruct (submit_refines_aux o (book_ e) Hwf Hok) as (r & b & Hs & _ & _).
    unfold handle_new_order. cbn [fills_of] in Hq. rewrite Hs in Hq |- *. rewrite bind_Val.
    destruct (sr_rejection r).
    + edestruct (push_outbound_room 0 fuel) as (e1 & q1 & -> & _); [by eapply roomy_le, Hq; lia|].
      rewrite bind_Val. by eexists.
    + edestruct (emit_executions_room (sr_executions r) 1 fuel) as (e1 & q1 & -> & Hq1); [done|].
      rewrite bind_Val. edestruct (push_outbound_room 0 fuel) as (e2 & q2 & -> & _); [done|].
      rewrite bind_Val. by eexists.
  - destruct (cancel_refines_aux o (book_ e) Hwf) as (r & b & Hs & _ & _).
    destruct (cancel_ids o _ _ _ Hwf Hs) as [_ Hids]. unfold handle_cancel_order. rewrite Hs, bind_Val.
    unfold OrderBook.cancel_accepted in *.
    destruct (cr_rejection r); cbn [is_none] in *.
    + cbn [deref_opt]. rewrite bind_Val.
      edestruct (push_outbound_room 0 fuel) as (e1 & q1 & -> & _); [done|]. rewrite bind_Val. by eexists.
    + destruct Hids as [[qty ->] _]. cbn [deref_opt]. rewrite bind_Val.
      edestruct (push_outbound_room 0 fuel) as (e1 & q1 & -> & _); [done|]. rewrite bind_Val. by eexists.
  - destruct (replace_refines_aux o (book_ e) Hwf Hok) as (r & b & Hs & _ & _).
    unfold handle_replace_order. cbn [fills_of] in Hq. rewrite Hs in Hq |- *. rewrite bind_Val.
    destruct (rr_rejection r).
    + edestruct (push_outbound_room 0 fuel) as (e1 & q1 & -> & _); [by eapply roomy_le, Hq; lia|].
      rewrite bind_Val. by eexists.
    + edestruct (emit_executions_room (rr_executions r) 1 fuel) as (e1 & q1 & -> & Hq1); [done|].
      rewrite bind_Val. edestruct (push_outbound_room 0 fuel) as (e2 & q2 & -> & _); [done|].
      rewrite bind_Val. by eexists.
Qed.

(** ** The replies of a command *)

(** While at most the capacity was pushed, the queue holds all of it. *)
Definition exact (q : QO) (n : nat) (l : list OutboundMessage) : Prop :=
  streams q n l ∧ ((length l ≤ bq_capacity (Q:=QO))%nat → bq_rep q n l).

Lemma pushes_exact : (0 < bq_capacity (Q:=QO))%nat → pushes take_front exact.
Proof.
  intros Hcap fuel msg q n l Hf [Hs He].
  destruct (push_spin_ok take_front (take_front_runs Hcap) fuel msg q n l Hf Hs) as (q' & Hp & Hs').
  exists q'. split; [done|]. split; [done|]. rewrite length_app. intros Hl. simpl in Hl.
  destruct (bq_push_ok q n l msg (He ltac:(lia)) ltac:(lia)) as (q1 & Hq1 & Hrep).
  assert (push_spin take_front fuel msg q = Val q1) as Hp1
    by (destruct fuel; cbn [push_spin]; by rewrite Hq1).
  rewrite Hp1 in Hp. by injection Hp as <-.
Qed.

Lemma execs_replies_length sid seq b xs : ∀ sessions,
  (length (execs_replies sid seq b sessions xs) ≤ 2 * length xs)%nat ∧
  length (to_session sid (execs_replies sid seq b sessions xs)) = length xs.
Proof.
  induction xs as [|x xs IH]; intros sessions; cbn [execs_replies length]; [done|].
  unfold to_session in *. rewrite filter_app, !length_app.
  destruct (IH (forget b sessions x)) as [H1 H2].
  destruct (exec_replies_framed sid seq (owner sessions x) x) as [H3 _]. unfold to_session in H3.
  rewrite H2, H3. split; [|done]. unfold exec_replies. cbn [length]. destruct (_ && _); simpl; lia.
Qed.

(** At most two messages per execution and one more; the sender gets one per
    execution and one more. *)
Lemma replies_length m b b' sessions msgs :
  replies m b b' sessions msgs →
  (length msgs ≤ 2 * fills_of b (in_command m) + 1)%nat ∧
  (length (to_session (in_session_id m) msgs) ≤ fills_of b (in_command m) + 1)%nat.
Proof.
  assert (∀ sid (l : list OutboundMessage), (length (to_session sid l) ≤ length l)%nat) as Hf
    by (intros; apply length_filter).
  assert (∀ sid (msg : OutboundMessage) k, (length [msg] ≤ 2 * k + 1)%nat ∧
    (length (to_session sid [msg]) ≤ k + 1)%nat) as Hone.
  { intros sid msg k. pose proof (Hf sid [msg]). simpl in *. lia. }
  assert (∀ sid seq xs sessions' msg,
    (length (execs_replies sid seq b' sessions' xs ++ [msg]) ≤ 2 * length xs + 1)%nat ∧
    (length (to_session sid (execs_replies sid seq b' sessions' xs ++ [msg])) ≤ length xs + 1)%nat) as Hmany.
  { intros sid seq xs sessions' msg. destruct (execs_replies_length sid seq b' xs sessions') as [H1 H2].
    pose proof (Hf sid [msg]). unfold to_session in *. rewrite filter_app, !length_app, H2. simpl in *. lia. }
  intros [o r Hc Hs|o r Hc Hs|o r Hc Hs|Hc _]; rewrite Hc; cbn [fills_of]; rewrite ?Hs.
  - unfold new_order_replies. destruct (sr_rejection r); [apply Hone|apply Hmany].
  - unfold cancel_replies. destruct (cr_rejection r); [apply (Hone _ _ 0%nat)|].
    destruct (cr_cancelled_quantity r); [apply (Hone _ _ 0%nat)|simpl; lia].
  - unfold replace_replies. destruct (rr_rejection r); [apply Hone|apply Hmany].
  - simpl. lia.
Qed.

(** With room for its replies a command pushes exactly them, whoever reads the
    queue. *)
Lemma dispatch_pushes (env : QO → QO) fuel m e q n out :
  bq_rep q n out → wf (book_ e) → inbound_ok (in_command m) →
  (length out + (2 * fills_of (book_ e) (in_command m) + 1) ≤ bq_capacity (Q:=QO))%nat →
  ∃ acc e' q' msgs, dispatch env fuel m e q = Val (acc, e', q') ∧
    bq_rep q' (n + length msgs) (out ++ msgs) ∧
    apply_command (book_ e) (in_command m) = Val (acc, book_ e') ∧
    replies m (book_ e) (book_ e') (order_sessions_ e) msgs ∧
    wf (book_ e') ∧ (routed e → routed e') ∧
    tallied (fills_of (book_ e) (in_command m)) e e'.
Proof.
  intros Ho Hwf Hok Hcap.
  destruct (dispatch_room fuel m e q Hwf Hok) as ([[acc e1] q1] & Hd); [by eexists _, _|].
  assert (queue_ok q) as Hq by (by eexists _, _).
  destruct (dispatch_refines take_front fuel 1 m e q Hq _ Hd) as [_ Hd'].
  destruct (dispatch_refines env fuel fuel m e q Hq _ Hd) as [_ Hde].
  destruct (dispatch_ok take_front exact (pushes_exact ltac:(lia)) 1 m e q n out ltac:(lia) Hwf Hok)
    as (acc1 & e2 & q2 & msgs & Hd2 & Ha & Hrep & [[_ Hst] Hwf' Hr' Ht]).
  { split; [|done]. exists 0%nat. split; [lia|done]. }
  rewrite Hd' in Hd2. injection Hd2 as <- <- <-.
  destruct (replies_length _ _ _ _ _ Hrep) as [Hlen _]. rewrite length_app in Hst.
  exists acc, e1, q1, msgs. split_and!; try done. apply Hst. lia.
Qed.
End Replies.

(** ** Claims *)

(** C16. Clients read what the engine pushed: when the outbound queue has room
    for the replies of a command (at most two per execution and one more), the
    engine's dispatch of the command to its handler returns, having pushed
    exactly the replies the command calls for behind what was queued, whoever
    reads the queue meanwhile; and each pushed message is serialized to one
    frame, from which a client decodes a valid header with the type and flags of
    the message, exactly the announced number of payload bytes, and the same
    event. *)
Theorem replies_reach_clients {QO} `{BO : BoundedQueue QO OutboundMessage} (env : QO → QO)
    fuel m e q n out :
  bq_rep q n out → wf (book_ e) → inbound_ok (in_command m) →
  (length out + (2 * fills_of (book_ e) (in_command m) + 1) ≤ bq_capacity (Q:=QO))%nat →
  ∃ acc e' q' n' msgs, dispatch env fuel m e q = Val (acc, e', q') ∧
    bq_rep q' n' (out ++ msgs) ∧
    replies m (book_ e) (book_ e') (order_sessions_ e) msgs ∧
    Forall (λ msg, ∃ frame, serialize_outbound msg = Val frame ∧ client_reads msg frame) msgs.
Proof.
  intros Ho Hwf Hok Hcap.
  destruct (dispatch_pushes env fuel m e q n out Ho Hwf Hok Hcap)
    as (acc & e' & q' & msgs & Hd & Hq & _ & Hrep & _).
  exists acc, e', q', (n + length msgs)%nat, msgs. split_and!; try done.
  eapply Forall_impl; [by eapply replies_ok|]. intros msg Hm.
  exists (frame_of msg). split; [apply serialize_image|by apply client_reads_frame].
Qed.

(** ** Witness

    A buy that takes part of a resting sell of another session: an execution
    for each of the two, then the acceptance. *)

#[local] Existing Instance outbound_queue.

Definition demo_cross : InboundMessage :=
  mkInboundMessage 8 (CmdNew (demo_order 3 3 buy 4 100)) 56 0.
Definition demo_cross_engine : Engine :=
  mkEngine demo_book (<[OrderId.mk 2 := 7]> ∅) (metrics_ new_engine) (command_to_ack_latency_ new_engine).

Definition demo_cross_result :=
  value_of (submit (demo_order 3 3 buy 4 100) demo_book) (rejected_submit, demo_book).

Lemma demo_cross_replies r b :
  submit (demo_order 3 3 buy 4 100) demo_book = Val (r, b) →
  length (new_order_replies 8 (demo_order 3 3 buy 4 100) r b (<[OrderId.mk 2 := 7]> ∅)) = 3%nat.
Proof.
  intros Hs. assert (submit (demo_order 3 3 buy 4 100) demo_book = Val demo_cross_result) as Hr
    by (by vm_compute).
  assert (∀ x : SubmitResult * OrderBook, Val x = Val (r, b) → r = x.1 ∧ b = x.2) as Hx
    by (by intros ? [= ->]).
  rewrite Hr in Hs. apply Hx in Hs as [-> ->].
  by vm_compute.
Qed.

Lemma replies_reach_clients_witness :
  ∃ acc e' q' n' msgs, dispatch take_one 1 demo_cross demo_cross_engine empty_out = Val (acc, e', q') ∧
    bq_rep q' n' ([] ++ msgs) ∧ length msgs = 3%nat ∧
    Forall (λ msg, ∃ frame, serialize_outbound msg = Val frame ∧ client_reads msg frame) msgs.
Proof.
  destruct empty_queues as (_ & Ho & _).
  destruct (replies_reach_clients take_one 1 demo_cross demo_cross_engine empty_out 0 [])
    as (acc & e' & q' & n' & msgs & H1 & H2 & H3 & H4).
  - exact Ho.
  - exact demo_wf.
  - unfold demo_cross, inbound_ok. cbn [in_command]. cmd_wf.
  - apply Nat.leb_le. by vm_compute.
  - exists acc, e', q', n', msgs. split_and!; [exact H1|exact H2| |exact H4].
    inversion H3 as [o r Hc Hs| | |]; [|discriminate..]. injection Hc as <-.
    exact (demo_cross_replies _ _ Hs).
Defined.
