(* ===== verification/TypeSafety.v ===== *)
(** * Results are well typed

    The constructors of the wrapped integers are private, so a [Price],
    [Quantity], [OrderId] or [SequenceNumber] outside the range of its validating
    constructor cannot be written down in the code.  The model's records do not
    enforce that; these lemmas show that the order book never needs it: from
    well-typed commands it computes only values the constructors would accept,
    and results of one of the shapes their readers expect. *)

From stdpp Require Import prelude gmap list relations.
From Stdlib Require Import ZArith Lia.
From S2P Require Import Prelude Types OrderBook BookSpec BookInv BookMatch BookEdit BookRefine BookProps.
From S2P Require Import Engine GatewayFrames ReferenceEquiv.

Open Scope Z_scope.

Definition quantity_typed (q : option Quantity.t) : Prop := default True (Quantity.valid <$> q).

(** A result is a rejection with nothing in it, or carries valid values. *)
Definition response_typed (r : Response) : Prop :=
  match r with
  | Submitted r =>
      Forall exec_valid (sr_executions r) ∧ quantity_typed (sr_remaining_quantity r) ∧
      (is_Some (sr_rejection r) → sr_executions r = [] ∧ sr_remaining_quantity r = None)
  | Cancelled r =>
      quantity_typed (cr_cancelled_quantity r) ∧
      (is_Some (cr_rejection r) ↔ cr_cancelled_quantity r = None)
  | Replaced r =>
      Forall exec_valid (rr_executions r) ∧ quantity_typed (rr_remaining_quantity r) ∧
      (is_Some (rr_rejection r) → rr_executions r = [] ∧ rr_remaining_quantity r = None)
  | Ignored => True
  end.

(** Every stored value of a book. *)
Definition book_typed (b : OrderBook) : Prop :=
  ∀ s, Forall (λ q, quote_valid q ∧ SequenceNumber.valid (ro_sequence q.2)) (flat (levels s b)).

Lemma flat_sequences s b : wf b → Forall (λ q : quote, SequenceNumber.valid (ro_sequence q.2)) (flat (levels s b)).
Proof.
  intros Hwf. destruct (wf_side b Hwf s) as [_ Hok]. apply Forall_bind, (Forall_impl _ _ _ Hok).
  intros pl [_ _ _ Hns]. unfold level_quotes. apply Forall_fmap, (Forall_impl _ _ _ Hns).
  by intros n [_ ?].
Qed.

Lemma wf_typed b : wf b → book_typed b.
Proof.
  intros Hwf s. apply Forall_and. split; [|by apply flat_sequences].
  rewrite <- abs_side. by apply wf_quotes.
Qed.

(** A remainder that is reported is positive. *)
Lemma spec_place_remainder id seq side type lp units sb es q sb' :
  spec_place id seq side type lp units sb = (es, Some q, sb') → 0 < Quantity.units q.
Proof.
  unfold spec_place. destruct (sweep _ _ _ _) as [[es1 contra] rem].
  destruct type, lp; try done. destruct (Z.ltb_spec 0 rem); [|done]. by intros [= _ <- _].
Qed.

Lemma submit_shape o b r b' :
  wf b → NewOrder_wf o → submit o b = Val (r, b') →
  (∀ q, sr_remaining_quantity r = Some q → 0 < Quantity.units q) ∧
  (is_Some (sr_rejection r) → sr_executions r = [] ∧ sr_remaining_quantity r = None).
Proof.
  intros Hwf Ho Hs. destruct (submit_refines_aux o b Hwf Ho) as (r1 & b1 & Hs1 & _ & Hsp).
  rewrite Hs in Hs1. injection Hs1 as <- <-. unfold spec_submit in Hsp.
  destruct (negb _); [by injection Hsp as <- _|]. case_bool_decide; [by injection Hsp as <- _|].
  destruct (spec_place _ _ _ _ _ _ _) as [[es q] sb'] eqn:E. injection Hsp as <- _. simpl.
  split; [|by intros [? ?]]. intros q' ->. by eapply spec_place_remainder.
Qed.

Lemma replace_shape o b r b' :
  wf b → ReplaceOrder_wf o → replace o b = Val (r, b') →
  (∀ q, rr_remaining_quantity r = Some q → 0 < Quantity.units q) ∧
  (is_Some (rr_rejection r) → rr_executions r = [] ∧ rr_remaining_quantity r = None).
Proof.
  intros Hwf Ho Hs. destruct (replace_refines_aux o b Hwf Ho) as (r1 & b1 & Hs1 & _ & Hsp).
  rewrite Hs in Hs1. injection Hs1 as <- <-. destruct Ho as (_ & _ & Hq & _). unfold spec_replace in Hsp.
  destruct (spec_locate _ _) as [[s q]|]; [|by injection Hsp as <- _].
  destruct (_ && _).
  { injection Hsp as <- _. simpl. split; [|by intros [? ?]]. intros q' [= <-]. apply Hq. }
  destruct (spec_place _ _ _ _ _ _ _) as [[es q'] sb'] eqn:E. injection Hsp as <- _. simpl.
  split; [|by intros [? ?]]. intros q'' ->. by eapply spec_place_remainder.
Qed.

Lemma cancel_shape o b r b' :
  wf b → cancel o b = Val (r, b') → is_Some (cr_rejection r) ↔ cr_cancelled_quantity r = None.
Proof.
  intros Hwf Hs. destruct (cancel_refines_aux o b Hwf) as (r1 & b1 & Hs1 & _ & Hsp).
  rewrite Hs in Hs1. injection Hs1 as <- <-. unfold spec_cancel in Hsp.
  destruct (spec_locate _ _) as [[s q]|]; injection Hsp as <- _; simpl; split; try done; by intros [? ?].
Qed.

Lemma remainder_typed q :
  0 ≤ remaining_or_zero q ≤ u64_max → (∀ x, q = Some x → 0 < Quantity.units x) → quantity_typed q.
Proof.
  intros Hr Hp. destruct q as [q|]; [|done]. specialize (Hp q eq_refl). cbn [remaining_or_zero] in Hr.
  unfold quantity_typed. simpl. unfold Quantity.valid. lia.
Qed.

(** C17. The order book is type correct: in every reachable book every price,
    quantity, id and sequence number is one its validating constructor accepts,
    and every well-typed command gives, in such a book, a result whose
    executions and quantities are such values again; a rejected submission or
    replacement carries neither executions nor a remainder, and a cancel has
    either a reason or a cancelled quantity, never both or neither. *)
Theorem order_book_type_correct b c :
  reachable b → Command_wf c →
  ∃ r b', respond c b = Val (r, b') ∧ response_typed r ∧ book_typed b ∧ book_typed b'.
Proof.
  intros Hr Hc. pose proof (reachable_wf b Hr) as Hwf. pose proof (wf_typed b Hwf) as Hb.
  destruct c as [|o|c|c]; simpl; [by eexists _, _|..].
  - destruct (submit_refines_aux o b Hwf Hc) as (r & b' & Hs & Hwf' & _). rewrite Hs.
    destruct (submit_valid _ _ _ _ Hwf Hc Hs), (submit_shape _ _ _ _ Hwf Hc Hs).
    eexists _, _. split; [done|]. cbn [response_typed].
    split_and!; auto using remainder_typed, wf_typed.
  - destruct (cancel_refines_aux c b Hwf) as (r & b' & Hs & Hwf' & _). rewrite Hs.
    eexists _, _. split; [done|]. cbn [response_typed].
    split; [split; [|exact (cancel_shape _ _ _ _ Hwf Hs)]|split; [done|by apply wf_typed]].
    destruct (cr_cancelled_quantity r) as [q|] eqn:E; [|done].
    exact (cancel_valid _ _ _ _ q Hwf Hs E).
  - destruct (replace_refines_aux c b Hwf Hc) as (r & b' & Hs & Hwf' & _). rewrite Hs.
    destruct (replace_valid _ _ _ _ Hwf Hc Hs), (replace_shape _ _ _ _ Hwf Hc Hs).
    eexists _, _. split; [done|]. cbn [response_typed].
    split_and!; auto using remainder_typed, wf_typed.
Qed.

Lemma order_book_type_correct_witness :
  ∃ r b', respond (CmdNew demo_buy) demo_book = Val (r, b') ∧ response_typed r ∧
    book_typed demo_book ∧ book_typed b'.
Proof. apply (order_book_type_correct demo_book (CmdNew demo_buy)); [exact demo_reachable|change (NewOrder_wf demo_buy); cmd_wf]. Defined.
