(* ===== verification/System.v ===== *)
(** * The whole exchange, from the sockets to the book

    The gateway and the matching engine over the queues they share, with the
    publisher and recorder threads behind the engine's feeds.  Between the bytes
    the clients sent and the book nothing is lost, duplicated, reordered or
    invented.  An engine step is one message; it is taken when the outbound
    queue has room for the replies, otherwise the engine waits for the gateway's
    next poll. *)

From stdpp Require Import prelude gmap list relations sorting.
From Stdlib Require Import ZArith Lia.
From S2P Require Import Prelude Types OrderBook BookInv BookProps Bytes Protocol Spsc SpscProps.
From S2P Require Import MarketData MarketDataProps EventLog EventLogProps Observability.
From S2P Require Import Engine EngineProps EngineSystem Gateway GatewayFrames GatewayProps.
From S2P Require Import BenchmarkProps AppProps.

Open Scope Z_scope.

Section System.
Context {QI QO QM QC : Type}.
Context `{BI : BoundedQueue QI InboundMessage} `{BO : BoundedQueue QO OutboundMessage}.
Context `{BM : BoundedQueue QM MarketDataEvent} `{BC : BoundedQueue QC EventCaptureMessage}.

Notation TcpGateway := (@TcpGateway QI QO).
Notation Service := (@Service QI QO QM QC).

Record system : Type := mkSystem {
  sy_gateway : TcpGateway;
  sy_engine : Engine;
  sy_market : option (MarketDataFeed * QM);
  sy_capture : option (EventCaptureFeed * QC);
  sy_published : MarketDataBook;
  sy_log : ofstream;
}.

(** The engine with the gateway's queues. *)
Definition service_of (x : system) : Service :=
  mkService (sy_engine x) (gw_inbound (sy_gateway x)) (gw_outbound (sy_gateway x)) (sy_market x)
    (sy_capture x).

Definition with_gateway (g : TcpGateway) (x : system) : system :=
  mkSystem g (sy_engine x) (sy_market x) (sy_capture x) (sy_published x) (sy_log x).

(** The system after the engine turned its service into [s]. *)
Definition after_engine (s : Service) (x : system) : system :=
  let g := sy_gateway x in
  mkSystem (set_outbound (sv_outbound s) (set_inbound (sv_inbound s) (gw_history g) g))
    (sv_engine s) (sv_market s) (sv_capture s) (sy_published x) (sy_log x).

Inductive system_step : system → system → Prop :=
| sy_net x g' : own_step (sy_gateway x) g' → system_step x (with_gateway g' x)
| sy_process x fuel now r s :
    process_one (λ q, q) fuel now (service_of x) = Val (r, s) → system_step x (after_engine s x)
| sy_publish x f q r b q' :
    sy_market x = Some (f, q) → publish_one (sy_published x) q = Val (r, b, q') →
    system_step x (mkSystem (sy_gateway x) (sy_engine x) (Some (f, q')) (sy_capture x) b (sy_log x))
| sy_record x f q r q' w :
    sy_capture x = Some (f, q) → drain_event_capture_one q (sy_log x) = Val (r, q', w) →
    system_step x (mkSystem (sy_gateway x) (sy_engine x) (sy_market x) (Some (f, q')) (sy_published x) w).

Definition system_start (qi : QI) (qo : QO) (market : option (MarketDataFeed * QM))
    (capture : option (EventCaptureFeed * QC)) (log : ofstream) : system :=
  mkSystem (new_gateway qi qo) new_engine market capture new_market_data_book log.

(** ** What the gateway does to the queues *)

Definition same_queues (g g' : TcpGateway) : Prop :=
  gw_inbound g' = gw_inbound g ∧ gw_history g' = gw_history g ∧ gw_outbound g' = gw_outbound g.

Lemma stop_queues g : same_queues g (stop_gateway g).
Proof. unfold stop_gateway. by destruct (stopped_ g). Qed.

Lemma accept_queues ok g : same_queues g (on_accept ok g).
Proof.
  unfold on_accept. destruct ok; cbn [stopped_ set_flags set_sessions set_objects set_next_session_id];
    by destruct (stopped_ g).
Qed.

Lemma poll_queues fuel : ∀ msg count (g : TcpGateway) r g' n l,
  bq_rep (gw_outbound g) n l → poll_loop fuel msg count g = Val (r, g') →
  gw_inbound g' = gw_inbound g ∧ gw_history g' = gw_history g ∧
  ∃ j, bq_rep (gw_outbound g') n (drop j l).
Proof.
  induction fuel as [|fuel IH]; intros msg count g r g' n l Hrep; cbn [poll_loop];
    destruct l as [|m l].
  1,3: destruct (bq_pop_empty _ _ msg Hrep) as (q & -> & Hrep'); rewrite bind_Val; cbn [negb];
    intros [= _ <-]; split_and!; [done|done|]; by exists 0%nat.
  1,2: destruct (bq_pop_ok _ _ _ _ msg Hrep) as (q & -> & Hrep'); rewrite bind_Val; cbn [negb];
    rewrite deliver_ok, bind_Val.
  { done. }
  intros Hp. eapply IH in Hp as (Hi & Hh & j & Hj); [|exact Hrep'].
  split_and!; [done|done|]. by exists (S j).
Qed.

(** The history grows, the inbound queue keeps holding its end from [k] on, and
    the gateway only takes from the outbound queue. *)
Record follows (g g' : TcpGateway) : Prop := {
  fl_history : ∃ new, gw_history g' = gw_history g ++ new;
  fl_inbound n k : (k ≤ length (gw_history g))%nat →
    bq_rep (gw_inbound g) n (drop k (gw_history g)) →
    ∃ n', bq_rep (gw_inbound g') n' (drop k (gw_history g'));
  fl_outbound n l : bq_rep (gw_outbound g) n l → ∃ j, bq_rep (gw_outbound g') n (drop j l);
}.

Lemma follows_same g g' : same_queues g g' → follows g g'.
Proof.
  intros (Hi & Hh & Ho). split; rewrite ?Hi, ?Hh, ?Ho.
  - exists []. by rewrite app_nil_r.
  - eauto.
  - intros n l Hrep. by exists 0%nat.
Qed.

Lemma follows_handler id handler g s s' g1 g' :
  gw_inv g → gw_objects g !! id = Some s → handler s g = Val (s', g1) → handler_post id g g1 s' →
  on_session id handler g = Val g' → follows g g'.
Proof.
  intros Hg Hs Hh Hp Ho. destruct (on_session_inv _ _ _ _ _ _ Hg Hs Hh Hp) as [Heq _].
  rewrite Ho in Heq. injection Heq as ->. destruct Hp as [_ _ _ Hout (new & Hhist & _) Hin _].
  split; cbn [set_objects gw_history gw_inbound gw_outbound].
  - by exists new.
  - apply Hin.
  - rewrite Hout. intros n l Hrep. by exists 0%nat.
Qed.

Lemma follows_timer fuel ok g g' : gw_inv g → on_timer fuel ok g = Val g' → follows g g'.
Proof.
  intros Hg. unfold on_timer. set (g1 := set_flags _ _ _ g).
  destruct (_ && _); [|intros [= <-]; by apply follows_same].
  intros ([r g2] & Hp & [= <-])%bind_Val_inv. unfold poll_outbound in Hp.
  assert (gw_inbound g2 = gw_inbound g ∧ gw_history g2 = gw_history g) as [Hi Hh].
  { destruct (gi_outbound _ Hg) as (n & l & Hrep).
    by destruct (poll_queues _ _ _ g1 _ _ n l Hrep Hp) as (? & ? & _). }
  split; cbn [schedule_outbound_drain set_flags gw_history gw_inbound gw_outbound]; rewrite ?Hi, ?Hh.
  - exists []. by rewrite app_nil_r.
  - eauto.
  - intros n l Hrep. by destruct (poll_queues _ _ _ g1 _ _ n l Hrep Hp) as (_ & _ & ?).
Qed.

Lemma own_step_follows g g' : gw_inv g → own_step g g' → follows g g'.
Proof.
  intros Hg Hstep. destruct Hstep as [g|g|g ok _ Hn|g g' fuel ok _ Ht|g g' id s result Hs Hr Hres Hh|
    g g' id s header now result Hs Hr Hres Hh|g g' id s ok Hs Hw Hh].
  - apply follows_same. unfold start_gateway. by destruct (stopped_ g).
  - apply follows_same, stop_queues.
  - apply follows_same, accept_queues.
  - by eapply follows_timer.
  - destruct (on_header_ok id result s g Hg (gi_objects _ Hg id s Hs) Hr Hres) as (s' & g1 & He & Hpost).
    by eapply follows_handler.
  - destruct (on_payload_ok id now header result s g Hg (gi_objects _ Hg id s Hs) Hr Hres)
      as (s' & g1 & He & Hpost). by eapply follows_handler.
  - destruct (on_write_ok id ok s g Hg (gi_objects _ Hg id s Hs) Hw) as (s' & g1 & He & Hpost).
    by eapply follows_handler.
Qed.

(** ** What holds between the steps *)

(** The engine applied [cs], decided [accs] and counted both. *)
Definition applied (cs : list Command) (accs : list bool) (e : Engine) : Prop :=
  apply_all empty_book cs = Val (accs, book_ e) ∧ metrics_count cs accs (metrics_ e).

(** The engine took the first [k] messages the gateway ever queued, and answered
    each with a block of replies. *)
Record system_inv (x : system) (k : nat) (blocks : list (list OutboundMessage)) : Prop := {
  si_gateway : gw_inv (sy_gateway x);
  si_taken : (k ≤ length (gw_history (sy_gateway x)))%nat;
  si_core : core_ok (service_of x) (drop k (gw_history (sy_gateway x))) (concat blocks);
  si_answered : answered (take k (gw_history (sy_gateway x))) blocks;
  si_book : ∃ accs, applied (in_command <$> take k (gw_history (sy_gateway x))) accs (sy_engine x);
  si_replies : Forall reply_ok (concat blocks);
}.

Lemma command_inbound_ok c : command_ok c → inbound_ok c.
Proof. destruct c; [done|by intros [? _]|done|done]. Qed.

Lemma messages_inbound_ok h : Forall message_ok h → Forall (λ m, inbound_ok (in_command m)) h.
Proof. intros H. eapply Forall_impl; [exact H|]. intros m [Hm _]. by apply command_inbound_ok. Qed.

Lemma streams_drop (q q' : QO) l :
  (∀ n l, bq_rep q n l → ∃ j, bq_rep q' n (drop j l)) →
  (∃ n, streams q n l) → ∃ n, streams q' n l.
Proof.
  intros Hq (n & k & Hk & Hrep). destruct (Hq _ _ Hrep) as (j & Hj). exists n.
  rewrite drop_drop in Hj. destruct (decide (k + j ≤ length l)%nat); [by exists (k + j)%nat|].
  exists (length l). split; [done|]. by rewrite drop_all, drop_ge in * by lia.
Qed.

Lemma system_inv_net x k blocks g' :
  system_inv x k blocks → own_step (sy_gateway x) g' → system_inv (with_gateway g' x) k blocks.
Proof.
  intros [Hg Hk [(n & Hi) Hc Ho Hwf Hr] Ha Hb Hre] Hs.
  pose proof (own_inv_step _ _ Hg Hs) as Hg'.
  destruct (own_step_follows _ _ Hg Hs) as [(new & Hh) Hin Hout].
  assert (take k (gw_history g') = take k (gw_history (sy_gateway x))) as Ht
    by (by rewrite Hh, take_app_le).
  split; cbn [with_gateway sy_gateway sy_engine]; rewrite ?Ht; try done.
  - rewrite Hh, length_app. lia.
  - split; cbn [service_of with_gateway sy_gateway sy_engine sv_inbound sv_outbound sv_engine]; try done.
    + by eapply Hin.
    + by apply messages_inbound_ok, Forall_drop, gi_messages.
    + by eapply streams_drop.
Qed.

Lemma queues_inv qi qo n k n' l g :
  gw_inv g → (k ≤ length (gw_history g))%nat → bq_rep qi n (drop k (gw_history g)) → bq_rep qo n' l →
  gw_inv (set_outbound qo (set_inbound qi (gw_history g) g)).
Proof.
  intros [? ? ? Hobj ? ? _ _] Hk Hi Ho. split; try done; [|by exists n, k|by exists n', l].
  intros id s Hs. destruct (Hobj id s Hs). by split.
Qed.

(** The invariant of the system with the engine's service [s]. *)
Lemma system_inv_engine x s k blocks accs :
  gw_inv (sy_gateway x) → (k ≤ length (gw_history (sy_gateway x)))%nat →
  core_ok s (drop k (gw_history (sy_gateway x))) (concat blocks) →
  answered (take k (gw_history (sy_gateway x))) blocks →
  applied (in_command <$> take k (gw_history (sy_gateway x))) accs (sv_engine s) →
  Forall reply_ok (concat blocks) → system_inv (after_engine s x) k blocks.
Proof.
  intros Hg Hk Hcore Ha Hb Hre. pose proof Hcore as [(n & Hi) Hc (m & j & Hj & Ho) Hwf Hr].
  split; try done; [by eapply queues_inv| |by exists accs]. 
  split; try done; [by exists n|by exists m, j].
Qed.

Context (Hcap : (0 < bq_capacity (Q:=QO))%nat).

Lemma system_inv_process x k blocks fuel now r s :
  system_inv x k blocks → process_one (λ q, q) fuel now (service_of x) = Val (r, s) →
  ∃ k' blocks', system_inv (after_engine s x) k' blocks'.
Proof.
  intros [Hg Hk Hcore Ha (accs & Hb) Hre] Hp.
  apply (process_one_refines take_front fuel 1 now _ (core_queue_ok _ _ _ Hcore)) in Hp as [_ Hp].
  set (h := gw_history (sy_gateway x)) in *. destruct (drop k h) as [|m rest] eqn:Hd.
  - pose proof Hcore as [(n & Hi) Hc Ho Hwf Hr]. unfold process_one in Hp.
    destruct (bq_pop_empty _ _ default_inbound Hi) as (q & Hq & Hi'). rewrite Hq, bind_Val in Hp.
    cbn [negb] in Hp. injection Hp as _ <-. exists k, blocks.
    apply system_inv_engine with accs; fold h; rewrite ?Hd; try done.
    + split; try done. by exists n.
    + destruct Hb as [Hb []]. by split.
  - destruct (process_one_runs take_front (take_front_runs Hcap) 1 now _ m rest _ Nat.lt_0_1 Hcore)
      as (acc & e1 & outbound & inbound & msgs & Hc1 & Hrep & Hst & Hi' & Hwf & Hr & Ht & Heq).
    rewrite Heq in Hp. apply bind_Val_inv in Hp as (e2 & (Hb2 & Hs2 & Hm2)%record_result_keeps & Hp).
    apply bind_Val_inv in Hp as (cap & _ & Hp). apply bind_Val_inv in Hp as (mkt & _ & Hp).
    injection Hp as _ <-. destruct Hcore as [_ Hc _ Hwf0 _]. apply Forall_cons in Hc as [Hm Hc].
    assert (h !! k = Some m) as Hlook by (by rewrite <- (Nat.add_0_r k), <- lookup_drop, Hd).
    assert (drop (S k) h = rest) as Hd' by (by rewrite <- Nat.add_1_r, <- drop_drop, Hd).
    assert (concat (blocks ++ [msgs]) = concat blocks ++ msgs) as Hcc
      by (by rewrite concat_app, concat_cons, app_nil_r).
    exists (S k), (blocks ++ [msgs]). apply system_inv_engine with (accs ++ [acc]); fold h;
      rewrite ?Hd', ?Hcc, ?(take_S_r _ _ _ Hlook); cbn [sv_engine]; rewrite ?Hb2; try done.
    + by apply lookup_lt_Some in Hlook.
    + split; cbn [sv_inbound sv_outbound sv_engine]; rewrite ?Hb2; try done.
      unfold routed in *. by rewrite Hs2, Hb2.
    + apply Forall2_app; [done|]. constructor; [|constructor]. intros Hne. eapply replies_framed; [exact Hwf0|done|exact Hrep].
    + destruct Hb as [Hb Hmc]. rewrite fmap_app. split; [rewrite Hb2|rewrite Hm2].
      * eapply apply_all_snoc; [exact Hb|exact Hc1].
      * eapply metrics_count_snoc; [exact Hb|exact Hmc|exact Ht].
    + apply Forall_app. split; [done|]. eapply replies_ok; [exact Hwf0|exact Hm|exact Hrep].
Qed.

Lemma system_inv_step x y k blocks :
  system_inv x k blocks → system_step x y → ∃ k' blocks', system_inv y k' blocks'.
Proof.
  intros Hx Hstep. destruct Hstep as [x g' Hs|x fuel now r s Hp|x f q r b q' Hm Hp|x f q r q' w Hc Hp].
  - exists k, blocks. by apply system_inv_net.
  - by eapply system_inv_process.
  - exists k, blocks. destruct Hx as [Hg Hk [] Ha Hb Hre]. split; try done.
  - exists k, blocks. destruct Hx as [Hg Hk [] Ha Hb Hre]. split; try done.
Qed.

Lemma system_inv_start qi qo market capture log :
  bq_rep qi 0 [] → bq_rep qo 0 [] → system_inv (system_start qi qo market capture log) 0 [].
Proof.
  intros Hi Ho. split; simpl.
  - by apply gw_inv_new.
  - done.
  - split; simpl; [by eexists|done|by exists 0%nat, 0%nat|apply wf_empty|done].
  - constructor.
  - by exists [].
  - done.
Qed.

Lemma system_inv_reachable qi qo market capture log x :
  bq_rep qi 0 [] → bq_rep qo 0 [] → rtc system_step (system_start qi qo market capture log) x →
  ∃ k blocks, system_inv x k blocks.
Proof.
  intros Hi Ho Hr. assert (∀ x y, rtc system_step x y → (∃ k blocks, system_inv x k blocks) →
    ∃ k blocks, system_inv y k blocks) as H.
  { induction 1 as [|x1 x2 x3 Hs _ IH]; [done|]. intros (k & blocks & Hx).
    apply IH. by eapply system_inv_step. }
  eapply H; [done|]. exists 0%nat, []. by apply system_inv_start.
Qed.
End System.

(** ** Claim *)

(** C11. End to end: in every reachable state of the gateway, the engine and the
    threads behind them, whatever bytes the clients sent and in whatever order
    the handlers and threads ran, the commands the gateway decoded split into a
    first part that was applied to the book, in that order from the empty book,
    and a rest that is exactly what the inbound queue holds; the metrics of the
    engine count the applied commands by verdict and their executions; all are valid
    commands, those of one session in strictly increasing sequence; each applied
    command has its own framed block of replies, and the outbound queue holds
    the end of these blocks, each message of which a client can read back from
    its frame. *)
Theorem end_to_end {QI QO QM QC} `{BI : BoundedQueue QI InboundMessage}
    `{BO : BoundedQueue QO OutboundMessage} `{BM : BoundedQueue QM MarketDataEvent}
    `{BC : BoundedQueue QC EventCaptureMessage} qi qo market capture log
    (x : @system QI QO QM QC) :
  (0 < bq_capacity (Q:=QO))%nat → bq_rep qi 0 [] → bq_rep qo 0 [] →
  rtc system_step (system_start qi qo market capture log) x →
  ∃ applied waiting accs blocks,
    gw_history (sy_gateway x) = applied ++ waiting ∧
    apply_all empty_book (in_command <$> applied) = Val (accs, book_ (sy_engine x)) ∧
    metrics_count (in_command <$> applied) accs (metrics_ (sy_engine x)) ∧
    (∃ n, bq_rep (gw_inbound (sy_gateway x)) n waiting) ∧
    Forall message_ok (applied ++ waiting) ∧
    (∀ id, StronglySorted Z.lt (sent_by id (applied ++ waiting))) ∧
    answered applied blocks ∧
    (∃ n j, bq_rep (gw_outbound (sy_gateway x)) n (drop j (concat blocks))) ∧
    Forall (λ msg, client_reads msg (frame_of msg)) (concat blocks).
Proof.
  intros Hcap Hi Ho Hr.
  destruct (system_inv_reachable Hcap qi qo market capture log x Hi Ho Hr) as (k & blocks & [Hg Hk Hcore Ha (accs & Hb & Hmc) Hre]).
  destruct Hcore as [Hin _ (n & j & _ & Hout) _ _]. set (h := gw_history (sy_gateway x)) in *.
  exists (take k h), (drop k h), accs, blocks. rewrite take_drop. split_and!; try done.
  - apply Hg.
  - intros id. by apply history_sorted.
  - by exists n, j.
  - eapply Forall_impl; [exact Hre|]. intros msg. apply client_reads_frame.
Qed.

(** ** Witness

    A client connects and sends a sell; the engine takes it. *)

#[local] Existing Instance inbound_queue.
#[local] Existing Instance outbound_queue.
#[local] Existing Instance capture_queue.
#[local] Existing Instance md_queue.

Definition demo_system0 :=
  system_start empty_in empty_out (Some (new_feed 64, md_empty)) (Some (new_capture_feed, empty_cap))
    (open_log (filebuf_spill 8191) 1000).
Definition demo_system1 := with_gateway demo_gw3 demo_system0.
Definition demo_system2 :=
  after_engine (value_of (process_one (λ q, q) 1 6000 (service_of demo_system1))
    (false, service_of demo_system1)).2 demo_system1.

Lemma own_steps_system g g' x :
  rtc own_step g g' → sy_gateway x = g → rtc system_step x (with_gateway g' x).
Proof.
  intros Hr. revert x. induction Hr as [g|g g1 g' Hs _ IH]; intros x Hx.
  - subst g. by destruct x.
  - subst g. eapply rtc_l; [by apply sy_net|]. by apply (IH (with_gateway g1 x)).
Qed.

Lemma demo_system_reachable : rtc system_step demo_system0 demo_system2.
Proof.
  eapply rtc_r; [by apply (own_steps_system demo_gw0 demo_gw3 demo_system0 demo_gateway_runs)|].
  apply (sy_process demo_system1 1 6000 true). by vm_compute.
Qed.

Lemma end_to_end_witness :
  length (gw_history (sy_gateway demo_system2)) = 1%nat ∧
  resting_order_count_ (book_ (sy_engine demo_system2)) = 1 ∧
  ∃ applied waiting accs blocks,
    gw_history (sy_gateway demo_system2) = applied ++ waiting ∧
    apply_all empty_book (in_command <$> applied) = Val (accs, book_ (sy_engine demo_system2)) ∧
    answered applied blocks ∧ Forall (λ msg, client_reads msg (frame_of msg)) (concat blocks).
Proof.
  split; [by vm_compute|]. split; [by vm_compute|]. destruct empty_queues as (Hi & Ho & _).
  destruct (end_to_end empty_in empty_out (Some (new_feed 64, md_empty)) (Some (new_capture_feed, empty_cap))
    (open_log (filebuf_spill 8191) 1000) demo_system2) as (applied & waiting & accs & blocks & H1 & H2 & _ & _ & _ & _ & H6 & _ & H8);
    [by apply Nat.ltb_lt|exact Hi|exact Ho|exact demo_system_reachable|].
  exists applied, waiting, accs, blocks. split_and!; [exact H1|exact H2|exact H6|exact H8].
Defined.
