(* ===== verification/BenchmarkApp.v ===== *)
(** * The benchmark program

    Models [apps/benchmark/main.cpp]: the command line, the client that sends a
    workload over the loopback connection and waits for the terminal reply of
    each command, and [main].  Boost.Asio and the server behind the connection
    are a parameter ([Socket]); the clock is one too, as in [Benchmark].  The
    text of [print_result] is not modelled: the result it prints is. *)

From stdpp Require Import prelude list strings pretty.
From Stdlib Require Import ZArith Lia.
From S2P Require Import Prelude Types OrderBook Bytes Protocol Observability Engine StdRandom.
From S2P Require Import Benchmark Console.

Open Scope string_scope.
Open Scope list_scope.
Open Scope Z_scope.
Import layout.

Inductive Mode : Type := core | gateway.

#[export] Instance Mode_eq_dec : EqDecision Mode.
Proof. solve_decision. Defined.

Record Options : Type := mkOptions {
  op_mode : Mode;
  op_workload : WorkloadConfig;
  op_warmup_commands : Z;
}.
Definition default_options : Options := mkOptions core default_config 10000.

Definition print_usage (program : string) : string :=
  "Usage: " +:+ program +:+ " [--mode core|gateway] [options]" +:+ nl +:+ nl +:+
  "Options:" +:+ nl +:+
  "  --commands N       Measured commands (default 100000)" +:+ nl +:+
  "  --warmup N         Commands applied before timing core mode (default 10000)" +:+ nl +:+
  "  --symbols N        Independent books in core mode (default 1)" +:+ nl +:+
  "  --levels N         Price levels in synthetic book shape (default 32)" +:+ nl +:+
  "  --cancel-rate N    Percentage of generated cancellations (default 20)" +:+ nl +:+
  "  --cross-rate N     Percentage of crossing new orders (default 10)" +:+ nl +:+
  "  --seed N           Deterministic workload seed" +:+ nl.

(** ** The command line *)

(** The common body of [parse_size], [parse_u32] and [parse_u64]. *)
Definition parse_number (max : Z) (text : string) : option Z :=
  let '(rest, error, value) := from_chars max text in
  if negb (is_none error) || negb (bool_decide (rest = EmptyString)) then None else Some value.

Definition parse_size : string → option Z := parse_number (2 ^ 64 - 1).
Definition parse_u32 : string → option Z := parse_number (2 ^ 32 - 1).
Definition parse_u64 : string → option Z := parse_number (2 ^ 64 - 1).

(** Members of [options.workload]. *)
Definition set_mode (m : Mode) (o : Options) : Options :=
  mkOptions m (op_workload o) (op_warmup_commands o).
Definition set_warmup (n : Z) (o : Options) : Options := mkOptions (op_mode o) (op_workload o) n.
Definition set_workload (f : WorkloadConfig → WorkloadConfig) (o : Options) : Options :=
  mkOptions (op_mode o) (f (op_workload o)) (op_warmup_commands o).

(** The chain of tests on one argument and its value. *)
Definition set_option (argument value : string) (o : Options) : option Options :=
  if bool_decide (argument = "--mode") then
    if bool_decide (value = "core") then Some (set_mode core o)
    else if bool_decide (value = "gateway") then Some (set_mode gateway o)
    else None
  else if bool_decide (argument = "--commands") then
    n ← parse_size value;
    Some (set_workload (λ w, mkWorkloadConfig n (wc_symbol_count w) (wc_book_levels w)
      (wc_cancel_rate_percent w) (wc_crossing_rate_percent w) (wc_seed w)) o)
  else if bool_decide (argument = "--warmup") then
    n ← parse_size value; Some (set_warmup n o)
  else if bool_decide (argument = "--symbols") then
    n ← parse_size value;
    Some (set_workload (λ w, mkWorkloadConfig (wc_command_count w) n (wc_book_levels w)
      (wc_cancel_rate_percent w) (wc_crossing_rate_percent w) (wc_seed w)) o)
  else if bool_decide (argument = "--levels") then
    n ← parse_size value;
    Some (set_workload (λ w, mkWorkloadConfig (wc_command_count w) (wc_symbol_count w) n
      (wc_cancel_rate_percent w) (wc_crossing_rate_percent w) (wc_seed w)) o)
  else if bool_decide (argument = "--cancel-rate") then
    n ← parse_u32 value;
    Some (set_workload (λ w, mkWorkloadConfig (wc_command_count w) (wc_symbol_count w)
      (wc_book_levels w) n (wc_crossing_rate_percent w) (wc_seed w)) o)
  else if bool_decide (argument = "--cross-rate") then
    n ← parse_u32 value;
    Some (set_workload (λ w, mkWorkloadConfig (wc_command_count w) (wc_symbol_count w)
      (wc_book_levels w) (wc_cancel_rate_percent w) n (wc_seed w)) o)
  else if bool_decide (argument = "--seed") then
    n ← parse_u64 value;
    Some (set_workload (λ w, mkWorkloadConfig (wc_command_count w) (wc_symbol_count w)
      (wc_book_levels w) (wc_cancel_rate_percent w) (wc_crossing_rate_percent w) n) o)
  else None.

(** The loop over the arguments behind the program's name; [None] is the early
    [return false]. *)
Fixpoint parse_arguments (args : list string) (o : Options) : option Options :=
  match args with
  | [] => Some o
  | argument :: rest =>
      if bool_decide (argument = "--help") then None
      else match rest with
           | [] => None
           | value :: rest' => o ← set_option argument value o; parse_arguments rest' o
           end
  end.

Definition options_valid (o : Options) : bool :=
  let w := op_workload o in
  (0 <? wc_command_count w) && (0 <? wc_symbol_count w) && (0 <? wc_book_levels w) &&
  (wc_cancel_rate_percent w <=? 100) && (wc_crossing_rate_percent w <=? 100).

Definition parse_options (argv : list string) (options : Options) : option Options :=
  o ← parse_arguments (drop 1 argv) options;
  if options_valid o then Some o else None.

(** ** Frames *)

(** [frame.resize] of the empty vector the caller declared. *)
Definition encode_frame (type : MessageType.t) (payload : list Z) : outcome (bool * list Z) :=
  Protocol.encode_frame type payload (replicate (kHeaderSize + length payload) 0) 0.

Definition encode_command (command : Command) : outcome (bool * list Z) :=
  match command with
  | CmdNew o =>
      '(ok, payload) ← encode_new_order o (replicate kNewOrderSize 0);
      if negb ok then Val (false, []) else encode_frame MessageType.new_order payload
  | CmdCancel c =>
      '(ok, payload) ← encode_cancel_order c (replicate kCancelOrderSize 0);
      if negb ok then Val (false, []) else encode_frame MessageType.cancel_order payload
  | CmdReplace r =>
      '(ok, payload) ← encode_replace_order r (replicate kReplaceOrderSize 0);
      if negb ok then Val (false, []) else encode_frame MessageType.replace_order payload
  | monostate => Val (false, [])
  end.

Definition is_terminal (type : MessageType.t) : bool :=
  (type =? MessageType.order_accepted) || (type =? MessageType.order_rejected) ||
  (type =? MessageType.cancel_accepted) || (type =? MessageType.cancel_rejected) ||
  (type =? MessageType.replace_accepted) || (type =? MessageType.replace_rejected).

(** ** The client *)

(** The connection with everything behind it: [sk_connect], [sk_write] and
    [sk_read] fail with an error; a read delivers exactly the bytes asked for;
    [sk_stop] stops the server and returns the metrics of its engine. *)
Class Socket (S : Type) : Type := {
  sk_connect : S → bool * S;
  sk_write : list Z → S → bool * S;
  sk_read : nat → S → option (list Z) * S;
  sk_stop : S → MatchingEngineMetrics;
}.

Section client.
Context {S : Type} `{SK : Socket S}.
Context (clock : nat → Z).

(** The payload goes into an array of [kMaxPayloadLength] bytes, whatever
    length the header announces. *)
Definition read_frame (s : S) : outcome (option WireHeader * S) :=
  let '(header_bytes, s) := sk_read kHeaderSize s in
  match header_bytes with
  | None => Val (None, s)
  | Some header_bytes =>
      decoded ← decode_header header_bytes;
      match decoded with
      | None => Val (None, s)
      | Some header =>
          if 0 <? payload_length header then
            if kMaxPayloadLength <? payload_length header then Undef
            else
              let '(payload, s) := sk_read (Z.to_nat (payload_length header)) s in
              Val (match payload with Some _ => Some header | None => None end, s)
          else Val (Some header, s)
      end
  end.

(** The [do] loop: whether a terminal reply arrived. *)
Fixpoint await_terminal (fuel : nat) (s : S) : outcome (bool * S) :=
  '(header, s) ← read_frame s;
  match header with
  | None => Val (false, s)
  | Some header =>
      if is_terminal (wh_type header) then Val (true, s)
      else match fuel with
           | O => OutOfFuel
           | Datatypes.S fuel' => await_terminal fuel' s
           end
  end.

(** The measured loop: [k] readings of the clock were taken, [commands]
    commands answered; a failure leaves the loop. *)
Fixpoint client_loop (fuel : nat) (items : list WorkloadCommand) (k : nat) (s : S)
    (latency : LatencyHistogram) (commands : Z) : outcome (nat * S * LatencyHistogram * Z) :=
  match items with
  | [] => Val (k, s, latency, commands)
  | item :: items' =>
      '(encoded, frame) ← encode_command (wk_command item);
      if negb encoded then Val (k, s, latency, commands)
      else
        let command_started_at := clock k in
        let '(written, s) := sk_write frame s in
        if negb written then Val (Datatypes.S k, s, latency, commands)
        else
          '(answered, s) ← await_terminal fuel s;
          if negb answered then Val (Datatypes.S k, s, latency, commands)
          else
            nanoseconds ← i64_result (clock (Datatypes.S k) - command_started_at);
            latency ← observe (if 0 <? nanoseconds then nanoseconds else 0) latency;
            client_loop fuel items' (Datatypes.S (Datatypes.S k)) s latency (u64_add commands 1)
  end.

Definition run_gateway_benchmark (fuel : nat) (workload : list WorkloadCommand) (server : S)
  : outcome BenchmarkResult :=
  if bool_decide (workload = []) then Val empty_result
  else
    let '(connected, s) := sk_connect server in
    if negb connected then Val empty_result
    else
      let started_at := clock 0 in
      '(k, s, latency, commands) ← client_loop fuel workload 1 s new_histogram 0;
      elapsed ← i64_result (clock k - started_at);
      let elapsed_nanoseconds := of_i64 elapsed in
      let metrics := sk_stop s in
      Val (mkBenchmarkResult commands (accepted_commands metrics) (rejected_commands metrics)
        (accepted_cancels metrics) (rejected_cancels metrics) (executions metrics)
        (inbound_bytes metrics) (outbound_bytes metrics) (inbound_queue_high_water metrics)
        (outbound_queue_high_water metrics) elapsed_nanoseconds
        (throughput commands elapsed_nanoseconds) (snapshot_of latency)).

(** ** The program *)

(** The exit code, the first line of the output, the messages, and the result
    that is printed with its label. *)
Record BenchmarkProcess : Type := mkBenchmarkProcess {
  bp_code : Z;
  bp_stdout : string;
  bp_stderr : string;
  bp_result : option (string * BenchmarkResult);
}.

Definition banner (w : WorkloadConfig) : string :=
  "seed=" +:+ pretty (wc_seed w) +:+ " commands=" +:+ pretty (wc_command_count w) +:+
  " symbols=" +:+ pretty (wc_symbol_count w) +:+ " levels=" +:+ pretty (wc_book_levels w) +:+
  " cancel_rate=" +:+ pretty (wc_cancel_rate_percent w) +:+
  " crossing_rate=" +:+ pretty (wc_crossing_rate_percent w) +:+ nl.

Definition benchmark_main (fuel : nat) (server : S) (argv : list string)
  : outcome BenchmarkProcess :=
  match parse_options argv default_options with
  | None =>
      Val (mkBenchmarkProcess 2 EmptyString
        (print_usage (default "low_latency_exchange_benchmark" (argv !! 0%nat))) None)
  | Some options =>
      let w := op_workload options in
      workload ← make_workload w;
      if bool_decide (workload = []) then
        Val (mkBenchmarkProcess 2 EmptyString ("Invalid workload configuration." +:+ nl) None)
      else if bool_decide (op_mode options = gateway) && negb (wc_symbol_count w =? 1) then
        Val (mkBenchmarkProcess 2 EmptyString
          ("Gateway v1 carries no symbol identifier; --mode gateway requires --symbols 1." +:+ nl) None)
      else
        match op_mode options with
        | core =>
            r ← run_core_benchmark clock workload (wc_symbol_count w) (op_warmup_commands options);
            Val (mkBenchmarkProcess 0 (banner w) EmptyString (Some ("core matching benchmark", r)))
        | gateway =>
            r ← run_gateway_benchmark fuel workload server;
            Val (mkBenchmarkProcess 0 (banner w) EmptyString
                   (Some ("loopback TCP gateway benchmark", r)))
        end
  end.
End client.
