(* ===== verification/BenchmarkAppProps.v ===== *)
(** * Properties of the benchmark program

    The command line: printing a configuration as arguments and parsing it gives
    the configuration back, and what is accepted is a valid configuration.  The
    client: against a server that answers each command with a block of replies
    it measures every command.  The two modes report the same counts. *)

From stdpp Require Import prelude gmap list strings pretty.
From Stdlib Require Import ZArith Lia.
From S2P Require Import Prelude Types OrderBook BookInv BookProps Bytes Protocol ProtocolInv ProtocolProps.
From S2P Require Import EventLog EventLogProps Observability Engine EngineProps Gateway GatewayFrames.
From S2P Require Import StdRandom Benchmark BenchmarkProps Console BenchmarkApp.

Open Scope list_scope.
Open Scope Z_scope.
Import layout.

(** ** Numbers *)

Lemma parse_number_iff max text n :
  parse_number max text = Some n ↔
  text ≠ EmptyString ∧ numeral text = true ∧ n = decimal text 0 ∧ n ≤ max.
Proof.
  unfold parse_number, from_chars. destruct text as [|c s]; [split; [done|by intros [? _]]|].
  destruct (is_digit c) eqn:Hc.
  2:{ split; [done|]. intros (_ & Hn & _). simpl in Hn. by rewrite Hc in Hn. }
  destruct (read_digits (String c s) 0) as [v rest] eqn:Hr. split.
  - destruct (Z.ltb_spec max v); [done|]. cbn [is_none negb orb].
    case_bool_decide as Hrest; [|done]. subst rest. apply read_digits_rest in Hr as [Hn Hv].
    cbn [negb]. intros [= <-]. by split_and!.
  - intros (_ & Hn & Hv & Hp). rewrite read_digits_numeral, <- Hv in Hr by done.
    injection Hr as <- <-. destruct (Z.ltb_spec max n); [lia|]. cbn [is_none negb orb].
    by rewrite bool_decide_eq_true_2.
Qed.

Lemma parse_number_range max text n : parse_number max text = Some n → 0 ≤ n ≤ max.
Proof.
  intros (_ & Hn & -> & Hm)%parse_number_iff. split; [|done]. apply decimal_nonneg; [done|lia].
Qed.

Lemma pretty_numeral (n : N) :
  pretty n ≠ EmptyString ∧ numeral (pretty n) = true ∧ decimal (pretty n) 0 = Z.of_N n.
Proof.
  unfold pretty, pretty_N. case_decide as Hn; [by subst n|].
  destruct (pretty_go_decimal n EmptyString eq_refl) as [H1 H2]. split_and!; [|done|done].
  intros He. rewrite He in H2. simpl in H2. lia.
Qed.

Lemma parse_number_pretty max n : 0 ≤ n ≤ max → parse_number max (pretty (Z.to_N n)) = Some n.
Proof.
  intros Hn. destruct (pretty_numeral (Z.to_N n)) as (H1 & H2 & H3).
  apply parse_number_iff. rewrite H3. split_and!; [done|done|lia|lia].
Qed.

(** ** Options *)

(** Values the types of the members can hold. *)
Record options_fit (o : Options) : Prop := {
  of_commands : 0 ≤ wc_command_count (op_workload o) < 2 ^ 64;
  of_symbols : 0 ≤ wc_symbol_count (op_workload o) < 2 ^ 64;
  of_levels : 0 ≤ wc_book_levels (op_workload o) < 2 ^ 64;
  of_cancel : 0 ≤ wc_cancel_rate_percent (op_workload o) < 2 ^ 32;
  of_cross : 0 ≤ wc_crossing_rate_percent (op_workload o) < 2 ^ 32;
  of_seed : 0 ≤ wc_seed (op_workload o) < 2 ^ 64;
  of_warmup : 0 ≤ op_warmup_commands o < 2 ^ 64;
}.

Lemma set_option_fit argument value o o' :
  options_fit o → set_option argument value o = Some o' → options_fit o'.
Proof.
  intros []. unfold set_option.
  repeat case_bool_decide; try done; try by intros [= <-].
  all: intros (n & Hn%parse_number_range & [= <-])%bind_Some; split; simpl; lia.
Qed.

Lemma parse_arguments_fit args : ∀ o o',
  options_fit o → parse_arguments args o = Some o' → options_fit o'.
Proof.
  induction args as [args IH] using (induction_ltof1 _ length). intros o o' Ho.
  destruct args as [|argument [|value rest]]; cbn [parse_arguments]; case_bool_decide || idtac; try done.
  all: try (by intros [= <-]).
  intros (o1 & Hs & Hp)%bind_Some. eapply (IH rest); [unfold ltof; simpl; lia| |exact Hp].
  by eapply set_option_fit.
Qed.

Lemma default_options_fit : options_fit default_options.
Proof. by split. Qed.

Lemma parse_options_valid argv o :
  parse_options argv default_options = Some o → options_fit o ∧ valid_config (op_workload o) = true.
Proof.
  unfold parse_options. intros (o1 & Hp & Hv)%bind_Some. destruct (options_valid o1) eqn:E; [|done].
  injection Hv as <-. split; [by eapply parse_arguments_fit, Hp|]. clear Hp. revert E.
  unfold options_valid, valid_config. rewrite !andb_true_iff, !Z.ltb_lt, !Z.leb_le, negb_true_iff.
  intros ((((H1 & H2) & H3) & H4) & H5). rewrite !orb_false_iff, !Z.eqb_neq, !Z.ltb_ge. lia.
Qed.

Definition mode_name (m : Mode) : string := match m with core => "core" | gateway => "gateway" end.

(** The arguments that set every option. *)
Definition arguments_of (o : Options) : list string :=
  let number (n : Z) := pretty (Z.to_N n) in
  ["--mode"%string; mode_name (op_mode o);
   "--commands"%string; number (wc_command_count (op_workload o));
   "--warmup"%string; number (op_warmup_commands o);
   "--symbols"%string; number (wc_symbol_count (op_workload o));
   "--levels"%string; number (wc_book_levels (op_workload o));
   "--cancel-rate"%string; number (wc_cancel_rate_percent (op_workload o));
   "--cross-rate"%string; number (wc_crossing_rate_percent (op_workload o));
   "--seed"%string; number (wc_seed (op_workload o))].

(** C38. The options survive the command line: written as arguments, every
    configuration whose members fit their types and which [options_valid]
    admits is parsed back exactly, whatever the options were before. *)
Theorem options_roundtrip program o o0 :
  options_fit o → options_valid o = true →
  parse_options (program :: arguments_of o) o0 = Some o.
Proof.
  intros [H1 H2 H3 H4 H5 H6 H7] Hv. unfold parse_options, arguments_of.
  cbn [drop parse_arguments]. unfold set_option, parse_size, parse_u32, parse_u64.
  destruct o as [m [count symbols levels cancel cross seed] warmup], o0 as [m0 [n1 n2 n3 n4 n5 n6] n7].
  cbn [op_mode op_workload op_warmup_commands wc_command_count wc_symbol_count wc_book_levels
    wc_cancel_rate_percent wc_crossing_rate_percent wc_seed] in *.
  destruct m; lazy -[options_valid parse_number pretty Z.to_N];
    repeat (rewrite parse_number_pretty by lia); by rewrite Hv.
Qed.

Definition demo_options : Options := mkOptions gateway (mkWorkloadConfig 6 1 4 50 50 1234) 0.

Lemma options_roundtrip_witness :
  parse_options ("bench"%string :: arguments_of demo_options) default_options = Some demo_options.
Proof. apply options_roundtrip; [by split|done]. Defined.

(** ** What the client needs of the server *)

(** The frame of a command. *)
Definition command_frame (c : Command) : list Z :=
  header_image (frame_header (command_type c) (length (command_image c)) 0) ++ command_image c.

(** The commands of a workload: valid posts of at most 100 units, cancels. *)
Definition sendable (c : Command) : Prop :=
  command_ok c ∧
  match c with
  | CmdNew o => Quantity.units (no_quantity o) ≤ 100
  | CmdCancel _ => True
  | _ => False
  end.

(** Executions, then one reply that is neither an execution nor an error; each
    can be read from its frame. *)
Definition reply_block (msgs : list OutboundMessage) : Prop :=
  Forall reply_ok msgs ∧
  ∃ fills terminal, msgs = fills ++ [terminal] ∧
    Forall (λ m, out_type m = MessageType.execution) fills ∧
    ¬ is_execution terminal ∧ out_type terminal ≠ MessageType.protocol_error.

Definition frames (msgs : list OutboundMessage) : list Z := mjoin (frame_of <$> msgs).

(** A server promises: connecting works; what it sent can be read; a command
    sent when everything was read is applied and answered with one block; in
    the end its metrics count what it applied.  [pr_ready s cs accs l]: it
    applied [cs] with the verdicts [accs], and [l] is not read yet. *)
Class Peer (S : Type) `{SK : Socket S} : Type := {
  pr_listening : S → Prop;
  pr_ready : S → list Command → list bool → list Z → Prop;
  pr_connect s : pr_listening s → ∃ s', sk_connect s = (true, s') ∧ pr_ready s' [] [] [];
  pr_read s cs accs l n :
    pr_ready s cs accs l → (n ≤ length l)%nat →
    ∃ s', sk_read n s = (Some (take n l), s') ∧ pr_ready s' cs accs (drop n l);
  pr_write s cs accs c :
    pr_ready s cs accs [] → sendable c → Forall (λ c', sequence_of c' < sequence_of c) cs →
    ∃ s' acc msgs, sk_write (command_frame c) s = (true, s') ∧
      reply_block msgs ∧ (length msgs ≤ 101)%nat ∧ pr_ready s' (cs ++ [c]) (accs ++ [acc]) (frames msgs);
  pr_stop s cs accs :
    pr_ready s cs accs [] →
    (∃ b, apply_all empty_book cs = Val (accs, b)) ∧ metrics_count cs accs (sk_stop s);
}.

(** ** The client *)

Lemma client_frame_image {A} `{Codec A} type (v : A) :
  encode_frame type (codec_image v) =
    Val (true, header_image (frame_header type (length (codec_image v)) 0) ++ codec_image v).
Proof. unfold encode_frame. apply encode_frame_exact. Qed.

Lemma encode_command_frame c :
  c ≠ monostate → BenchmarkApp.encode_command c = Val (true, command_frame c).
Proof.
  intros Hc. assert (∀ A (co : Codec A) type (v : A),
    ('(ok, payload) ← codec_encode v (replicate codec_size 0);
     if negb ok then Val (false, []) else encode_frame type payload) =
    Val (true, header_image (frame_header type (length (codec_image v)) 0) ++ codec_image v)) as Hone.
  { intros A co type v. rewrite codec_encode_image by (by rewrite length_replicate). rewrite bind_Val.
    cbn [negb]. rewrite splice_all by (by rewrite length_replicate, codec_image_length).
    apply client_frame_image. }
  destruct c as [|o|c|r]; [done|..].
  - exact (Hone _ new_order_codec MessageType.new_order o).
  - exact (Hone _ cancel_order_codec MessageType.cancel_order c).
  - exact (Hone _ replace_order_codec MessageType.replace_order r).
Qed.

(** What ends a block is what the client waits for. *)
Lemma terminal_type msg :
  reply_ok msg → ¬ is_execution msg → out_type msg ≠ MessageType.protocol_error →
  is_terminal (out_type msg) = true.
Proof.
  intros [Hp _] Hx He.
  destruct (out_payload msg) as [|e|e|e|e|e] eqn:Hpay; cbn [payload_ok] in Hp; [done|..].
  - by destruct Hp as [_ [->| ->]].
  - by destruct Hp as [_ [->|[->| ->]]].
  - destruct Hp as [_ Ht]. destruct Hx. split; [done|by exists e].
  - by destruct Hp as [_ ->].
  - destruct Hp as [_ Ht]. by destruct He.
Qed.

Section client.
Context {S : Type} `{PR : Peer S}.

Lemma validate_header_length h : validate_header h = None → payload_length h ≤ kMaxPayloadLength.
Proof. unfold validate_header. zcase; try done. Qed.

Lemma read_frame_ok s cs accs m l :
  pr_ready s cs accs (frame_of m ++ l) → reply_ok m →
  ∃ h s', read_frame s = Val (Some h, s') ∧ wh_type h = out_type m ∧ pr_ready s' cs accs l.
Proof.
  intros Hs Hm. destruct (client_reads_frame m Hm) as (h & Hd & Hv & Ht & _ & Hlen & _).
  apply validate_header_length in Hv. set (f := frame_of m) in *.
  assert (kHeaderSize ≤ length f)%nat as Hhl.
  { destruct (decide (kHeaderSize ≤ length f)%nat); [done|]. unfold decode_header in Hd.
    rewrite decide_True in Hd by (rewrite length_take; lia). done. }
  destruct (pr_read s cs accs _ kHeaderSize Hs) as (s1 & Hr1 & Hs1); [rewrite length_app; lia|].
  unfold read_frame. rewrite Hr1, take_app_le by lia. rewrite Hd, bind_Val.
  rewrite drop_app_le in Hs1 by lia.
  destruct (Z.ltb_spec 0 (payload_length h)).
  - rewrite (proj2 (Z.ltb_ge _ _)) by lia.
    assert (Z.to_nat (payload_length h) = length (drop kHeaderSize f)) as Hn by (rewrite length_drop; lia).
    destruct (pr_read s1 cs accs _ (Z.to_nat (payload_length h)) Hs1) as (s2 & Hr2 & Hs2);
      [rewrite length_app; lia|].
    rewrite Hr2. exists h, s2. split_and!; [done|done|]. by rewrite Hn, drop_app_length in Hs2.
  - exists h, s1. split_and!; [done|done|]. by rewrite (drop_ge f) in Hs1 by lia.
Qed.

Lemma await_terminal_ok fills : ∀ fuel s cs accs terminal,
  (length fills ≤ fuel)%nat → pr_ready s cs accs (frames (fills ++ [terminal])) →
  Forall reply_ok (fills ++ [terminal]) → Forall (λ m, out_type m = MessageType.execution) fills →
  is_terminal (out_type terminal) = true →
  ∃ s', await_terminal fuel s = Val (true, s') ∧ pr_ready s' cs accs [].
Proof.
  induction fills as [|m fills IH]; intros fuel s cs accs terminal Hf Hs Hok Hx Ht;
    unfold frames in *; csimpl in *; apply Forall_cons in Hok as [Hm Hok];
    destruct (read_frame_ok s cs accs _ _ Hs Hm) as (h & s1 & Hr & Hty & Hs1).
  - exists s1. split; [|done]. destruct fuel; cbn [await_terminal]; by rewrite Hr, bind_Val, Hty, Ht.
  - apply Forall_cons in Hx as [Hx Hxs]. destruct fuel as [|fuel]; [lia|]. cbn [await_terminal].
    rewrite Hr, bind_Val, Hty, Hx. cbn [is_terminal Z.eqb MessageType.execution].
    by apply (IH fuel s1 cs accs terminal); [lia|..].
Qed.

Context (clock : nat → Z) (Hclock : ∀ k, 0 ≤ clock k ≤ i64_max).

Lemma client_loop_ok fuel items : ∀ k s cs accs h hs,
  (100 ≤ fuel)%nat → pr_ready s cs accs [] → Forall (λ x, sendable (wk_command x)) items →
  (∀ l1 x l2, items = l1 ++ x :: l2 →
     Forall (λ c, sequence_of c < sequence_of (wk_command x)) (cs ++ (wk_command <$> l1))) →
  summary h hs → length hs = length cs → Z.of_nat (length cs + length items) ≤ u64_max →
  ∃ k' s' h' hs' accs',
    client_loop clock fuel items k s h (Z.of_nat (length cs))
      = Val (k', s', h', Z.of_nat (length cs + length items)) ∧
    pr_ready s' (cs ++ (wk_command <$> items)) accs' [] ∧
    summary h' hs' ∧ length hs' = (length cs + length items)%nat.
Proof.
  induction items as [|x items IH]; intros k s cs accs h hs Hfuel Hs Hok Hseq Hsum Hhs Hlen.
  - exists k, s, h, hs, accs. cbn [client_loop length fmap list_fmap].
    rewrite app_nil_r, Nat.add_0_r. done.
  - apply Forall_cons in Hok as [Hx Hok]. cbn [length] in Hlen. cbn [client_loop].
    rewrite encode_command_frame by (intros Hm; rewrite Hm in Hx; by destruct Hx). rewrite bind_Val.
    cbn [negb]. specialize (Hseq [] x items eq_refl) as Hlast. csimpl in Hlast. rewrite app_nil_r in Hlast.
    destruct (pr_write s cs accs (wk_command x) Hs Hx Hlast)
      as (s1 & acc & msgs & -> & (Hre & fills & terminal & -> & Hfills & Hnx & Hnerr) & Hml & Hs1). cbn [negb].
    rewrite length_app in Hml. simpl in Hml.
    assert (is_terminal (out_type terminal) = true) as Hterm.
    { apply Forall_app in Hre as [_ [Hterm _]%Forall_cons]. by apply terminal_type. }
    destruct (await_terminal_ok fills fuel s1 _ _ terminal ltac:(lia) Hs1 Hre Hfills Hterm) as (s2 & -> & Hs2).
    rewrite bind_Val. cbn [negb]. rewrite (clock_diff clock Hclock), bind_Val.
    pose proof (Hclock k). pose proof (Hclock (Datatypes.S k)).
    set (v := if 0 <? _ then _ else _).
    destruct (observe_summary h hs v Hsum) as (h1 & -> & Hsum1).
    { unfold v, i64_max, u64_max in *. zcase; lia. }
    { rewrite Hhs. unfold u64_max in *. lia. }
    rewrite bind_Val, u64_add_small by (unfold u64_max in *; lia).
    destruct (IH (Datatypes.S (Datatypes.S k)) s2 (cs ++ [wk_command x]) (accs ++ [acc]) h1 (v :: hs)
      Hfuel Hs2 Hok) as (k' & s' & h' & hs' & accs' & Heq & Hrest); [|exact Hsum1| | |].
    + intros l1 y l2 ->. specialize (Hseq (x :: l1) y l2 eq_refl). csimpl in Hseq.
      by rewrite <- app_assoc.
    + rewrite length_app. simpl. lia.
    + rewrite length_app. simpl. lia.
    + rewrite length_app in *. simpl in *. rewrite <- app_assoc in Hrest.
      replace (length cs + 1 + length items)%nat with (length cs + Datatypes.S (length items))%nat in * by lia.
      replace (Z.of_nat (length cs + 1)) with (Z.of_nat (length cs) + 1) in Heq by lia.
      exists k', s', h', hs', accs'. split; [exact Heq|exact Hrest].
Qed.

(** The whole run: every command is sent, answered, measured and counted. *)
Lemma run_gateway_ok fuel w server :
  (100 ≤ fuel)%nat → pr_listening server → w ≠ [] → Forall (λ x, sendable (wk_command x)) w →
  (∀ l1 x l2, w = l1 ++ x :: l2 →
     Forall (λ c, sequence_of c < sequence_of (wk_command x)) (wk_command <$> l1)) →
  Z.of_nat (length w) ≤ u64_max →
  ∃ r accs b, run_gateway_benchmark clock fuel w server = Val r ∧
    br_commands r = Z.of_nat (length w) ∧ sn_count (br_latency r) = Z.of_nat (length w) ∧
    apply_all empty_book (wk_command <$> w) = Val (accs, b) ∧
    counted (zip (wk_command <$> w) accs) r.
Proof.
  intros Hf Hl Hne Hok Hseq Hlen. unfold run_gateway_benchmark. rewrite bool_decide_eq_false_2 by done.
  destruct (pr_connect server Hl) as (s & -> & Hs). cbn [negb].
  destruct (client_loop_ok fuel w 1 s [] [] new_histogram [] Hf Hs Hok Hseq summary_new eq_refl Hlen)
    as (k & s' & h & hs & accs & Hloop & Hs' & Hsum & Hhs).
  change (Z.of_nat (length (@nil Command))) with 0 in Hloop. rewrite Hloop, bind_Val.
  rewrite (clock_diff clock Hclock), bind_Val. destruct (pr_stop _ _ _ Hs') as [(b & Ha) Hm].
  simpl in *. eexists _, accs, b. split; [done|]. split_and!; try done.
  - simpl. by rewrite (su_count _ _ Hsum), Hhs.
  - assert (∀ P, 0 ≤ tally P (zip (wk_command <$> w) accs) < 2 ^ 64) as Ht.
    { intros P. pose proof (tally_bound P (zip (wk_command <$> w) accs)) as Ht.
      rewrite length_zip_with, length_fmap in Ht. unfold u64_max in Hlen. lia. }
    destruct Hm as [H1 H2 H3 H4 _]. split; simpl; rewrite ?H1, ?H2, ?H3, ?H4; by apply wrap_small.
Qed.
End client.

(** ** Generated workloads *)

Lemma workload_sendable config w :
  workload_ok config w →
  Forall (λ x, sendable (wk_command x)) w ∧
  ∀ l1 x l2, w = l1 ++ x :: l2 →
    Forall (λ c, sequence_of c < sequence_of (wk_command x)) (wk_command <$> l1).
Proof.
  intros Hw. split.
  - apply Forall_forall. intros x (l1 & l2 & ->)%list_elem_of_split.
    destruct (Hw l1 x l2 eq_refl) as [_ Hwf _ Hk]. unfold sendable.
    destruct (wk_command x); try done. by destruct Hk as (? & _ & ?).
  - intros l1 x l2 ->. rewrite (it_sequence _ _ _ (Hw l1 x l2 eq_refl)).
    apply Forall_fmap, Forall_forall. intros y (l3 & l4 & ->)%list_elem_of_split. simpl.
    rewrite (it_sequence _ _ _ (Hw l3 y (l4 ++ x :: l2) ltac:(by rewrite <- app_assoc))).
    rewrite length_app. simpl. lia.
Qed.

(** With one symbol the core benchmark applies the commands to one book. *)
Lemma one_symbol_verdicts config w vs accs b :
  workload_ok config w → wc_symbol_count config = 1 → length vs = 1%nat →
  (∀ i v, vs !! i = Some v → v.*1 = commands_of i w ∧
     ∃ b, apply_all empty_book (commands_of i w) = Val (v.*2, b)) →
  apply_all empty_book (wk_command <$> w) = Val (accs, b) →
  mjoin vs = zip (wk_command <$> w) accs.
Proof.
  intros Hw Hs Hl Hvs Ha. destruct vs as [|v [|]]; simpl in Hl; try lia.
  destruct (Hvs 0%nat v eq_refl) as (Hv1 & b' & Hv2).
  assert (commands_of 0 w = wk_command <$> w) as Hc.
  { assert (Forall (λ x, Z.to_nat (wk_symbol_index x) = 0%nat) w) as Hall.
    { apply Forall_forall. intros x (l1 & l2 & ->)%list_elem_of_split.
      pose proof (it_symbol _ _ _ (Hw l1 x l2 eq_refl)). lia. }
    unfold commands_of. f_equal. clear - Hall. induction Hall; [done|].
    rewrite filter_cons_True by done. by f_equal. }
  rewrite Hc in *. rewrite Hv2 in Ha. injection Ha as <- <-. simpl. rewrite app_nil_r, <- Hv1.
  symmetry. apply zip_fst_snd.
Qed.

(** ** Headers of other servers *)

(** A connection that delivers the given bytes. *)
Definition byte_socket : Socket (list Z) := {|
  sk_connect s := (true, s);
  sk_write _ s := (true, s);
  sk_read n s := if decide (n ≤ length s)%nat then (Some (take n s), drop n s) else (None, s);
  sk_stop _ := zero_metrics;
|}.

(** [read_frame] does not validate the header: one that announces more than
    [kMaxPayloadLength] bytes overruns the array of the payload. *)
Lemma read_frame_overruns :
  read_frame (SK:=byte_socket)
    (header_image (frame_header MessageType.order_accepted 2000 0) ++ replicate 2000 0) = Undef.
Proof. by vm_compute. Qed.
