(* ===== verification/Loopback.v ===== *)
(** * The server of the loopback benchmark

    The gateway and the engine of [run_gateway_benchmark] behind the client's
    connection, as an instance of the interface the client is proved against.
    Sending a frame lets the server threads run until they are idle: the
    session reads the frame, the engine processes the command, the drain timer
    hands out the replies and the session writes them.  The client only sees
    bytes, and a read waits for them, so when they arrive does not matter. *)

From stdpp Require Import prelude gmap list strings.
From Stdlib Require Import ZArith Lia.
From S2P Require Import Prelude Types OrderBook BookSpec BookInv BookMatch BookRefine BookProps.
From S2P Require Import Bytes Protocol ProtocolInv ProtocolProps.
From S2P Require Import Spsc SpscProps MarketData MarketDataProps EventLog EventLogProps Observability.
From S2P Require Import Engine EngineProps EngineSystem Gateway GatewayFrames GatewayProps AppProps Replies System.
From S2P Require Import StdRandom Benchmark BenchmarkProps BenchmarkApp BenchmarkAppProps.

Open Scope list_scope.
Open Scope Z_scope.
Import layout.

Section Loopback.
Context {QI QO QM QC : Type}.
Context `{BI : BoundedQueue QI InboundMessage} `{BO : BoundedQueue QO OutboundMessage}.
Context `{BM : BoundedQueue QM MarketDataEvent} `{BC : BoundedQueue QC EventCaptureMessage}.

Notation TcpGateway := (@TcpGateway QI QO).
Notation Service := (@Service QI QO QM QC).
Notation idle := (λ q : QO, q).

(** [lb_sent] was sent by the client and not read by its session, [lb_received]
    was written by the session and not read by the client. *)
Record Loopback : Type := mkLoopback {
  lb_gateway : TcpGateway;
  lb_engine : Engine;
  lb_sent : list Z;
  lb_received : list Z;
}.

(** The server of [run_gateway_benchmark]; the engine has no feeds. *)
Definition lb_start (inbound : QI) (outbound : QO) : Loopback :=
  mkLoopback (start_gateway (new_gateway inbound outbound)) new_engine [] [].

(** The client is the first session. *)
Definition lb_session : Z := 1.

(** A read of the session that has its bytes completes. *)
Definition complete_read (now : Z) (x : Loopback) : outcome Loopback :=
  let take_bytes (n : nat) handler :=
    if decide (n ≤ length (lb_sent x))%nat then
      g ← on_session lb_session (handler (Some (take n (lb_sent x)))) (lb_gateway x);
      Val (mkLoopback g (lb_engine x) (drop n (lb_sent x)) (lb_received x))
    else Val x in
  match pending_read <$> gw_objects (lb_gateway x) !! lb_session with
  | Some ReadHeader => take_bytes kHeaderSize (on_header lb_session)
  | Some (ReadPayload h) =>
      take_bytes (Z.to_nat (payload_length h)) (on_payload lb_session now h)
  | _ => Val x
  end.

(** [engine.process_one()] *)
Definition engine_round (fuel : nat) (now : Z) (x : Loopback) : outcome Loopback :=
  let g := lb_gateway x in
  '(_, s) ← process_one idle fuel now
    (mkService (lb_engine x) (gw_inbound g) (gw_outbound g) None None : Service);
  Val (mkLoopback (set_outbound (sv_outbound s) (set_inbound (sv_inbound s) (gw_history g) g))
         (sv_engine s) (lb_sent x) (lb_received x)).

Definition timer_round (fuel : nat) (x : Loopback) : outcome Loopback :=
  g ← on_timer fuel true (lb_gateway x);
  Val (mkLoopback g (lb_engine x) (lb_sent x) (lb_received x)).

(** The session writes what it has queued. *)
Fixpoint write_round (fuel : nat) (x : Loopback) : outcome Loopback :=
  match gw_objects (lb_gateway x) !! lb_session with
  | Some s =>
      if pending_write s then
        match fuel with
        | O => OutOfFuel
        | S fuel' =>
            frame ← deref_opt (head (write_queue_ s));
            g ← on_session lb_session (on_write lb_session true) (lb_gateway x);
            write_round fuel' (mkLoopback g (lb_engine x) (lb_sent x) (lb_received x ++ frame))
        end
      else Val x
  | None => Val x
  end.

(** One frame through the server: at most as many replies as the outbound queue
    holds are handed out and written. *)
Definition serve (now : Z) (x : Loopback) : outcome Loopback :=
  x ← complete_read now x;
  x ← complete_read now x;
  x ← engine_round 0 now x;
  x ← timer_round (bq_capacity (Q:=QO)) x;
  write_round (bq_capacity (Q:=QO)) x.

Context (now : Z).

#[export] Instance loopback_socket : Socket Loopback := {|
  sk_connect x := (true, mkLoopback (on_accept true (lb_gateway x)) (lb_engine x) [] []);
  sk_write frame x :=
    match serve now (mkLoopback (lb_gateway x) (lb_engine x) (lb_sent x ++ frame) (lb_received x)) with
    | Val x' => (true, x')
    | _ => (false, x)
    end;
  sk_read n x :=
    if decide (n ≤ length (lb_received x))%nat
    then (Some (take n (lb_received x)),
          mkLoopback (lb_gateway x) (lb_engine x) (lb_sent x) (drop n (lb_received x)))
    else (None, x);
  sk_stop x := metrics_ (lb_engine x);
|}.

(** ** One command through the engine *)

Lemma process_one_exact fuel e qi qo m n1 n2 :
  bq_rep qi n1 [m] → bq_rep qo n2 [] → wf (book_ e) → routed e → inbound_ok (in_command m) →
  length (buckets_ (command_to_ack_latency_ e)) = kLatencyHistogramBuckets →
  now - in_received_at m ≤ u64_max →
  (2 * fills_of (book_ e) (in_command m) + 1 ≤ bq_capacity (Q:=QO))%nat →
  ∃ acc e1 e' qi' qo' n3 msgs,
    process_one idle fuel now (mkService e qi qo None None : Service)
      = Val (true, mkService e' qi' qo' None None) ∧
    bq_rep qi' n1 [] ∧ bq_rep qo' n3 msgs ∧
    apply_command (book_ e) (in_command m) = Val (acc, book_ e') ∧
    replies m (book_ e) (book_ e') (order_sessions_ e) msgs ∧
    tallied (fills_of (book_ e) (in_command m)) e e1 ∧
    metrics_ e' = count_result acc (is_cancel (in_command m)) (metrics_ e1) ∧
    wf (book_ e') ∧ routed e' ∧
    length (buckets_ (command_to_ack_latency_ e')) = kLatencyHistogramBuckets.
Proof.
  intros Hi Ho Hwf Hr Hok Hh Hnow Hcap. unfold process_one.
  cbn [sv_engine sv_inbound sv_outbound sv_market sv_capture].
  destruct (bq_pop_ok _ _ _ _ default_inbound Hi) as (qi' & -> & Hi'). rewrite bind_Val. cbn [negb].
  set (e0 := with_metrics _ e).
  destruct (dispatch_pushes (λ q, q) fuel m e0 qo n2 [] Ho Hwf Hok Hcap)
    as (acc & e1 & qo' & msgs & Hd & Ho' & Ha & Hrep & Hwf' & Hr' & Ht). rewrite Hd, bind_Val.
  set (e3 := with_metrics _ e1).
  destruct (record_result_total m acc now e3) as (e4 & He4 & Hb4 & Hs4 & Hh4);
    [by rewrite (tl_latency _ _ _ Ht : command_to_ack_latency_ e3 = _)|done|].
  destruct (record_result_keeps _ _ _ _ _ He4) as (_ & _ & Hm4).
  rewrite He4, bind_Val. assert (match acc with true => Val None | false => Val None end
    = Val (@None (EventCaptureFeed * QC))) as -> by (by destruct acc). rewrite !bind_Val.
  exists acc, e3, e4, qi', qo', (n2 + length msgs)%nat, msgs. rewrite Hb4. split_and!; try done.
  - by destruct Ht.
  - unfold routed in *. rewrite Hs4, Hb4. by apply Hr'.
Qed.

(** An order has at most as many executions as units. *)
Lemma sendable_fills b c : wf b → sendable c → (fills_of b c ≤ 100)%nat.
Proof.
  intros Hwf [Hok Hsmall]. destruct c as [|o|c|c]; cbn [fills_of]; try lia.
  destruct Hok as [Ho _]. destruct (submit_refines_aux o b Hwf Ho) as (r & b' & Hs & _ & _). rewrite Hs.
  destruct (submit_accepted r) eqn:Ha.
  2:{ unfold submit_accepted in Ha. destruct (sr_rejection r) eqn:Hr; [|done].
      rewrite (submit_rejected_empty _ _ _ _ _ Hs Hr). simpl. lia. }
  destruct (submit_valid _ _ _ _ Hwf Ho Hs) as [Hv _].
  destruct (submit_accepted_place o b r b' Hwf Ho Hs Ha) as (contra & rem & Hsw & _ & _).
  destruct Ho as (_ & _ & [? ?] & _).
  apply sweep_spec in Hsw as (_ & Hsum & Hrem & _ & _); [|by apply flat_quote_ok|lia].
  assert (Z.of_nat (length (sr_executions r)) ≤ exec_units (sr_executions r)) as Hle.
  { clear - Hv. induction Hv as [|x xs (_ & _ & _ & Hq) _ IH]; simpl; [done|].
    unfold Quantity.valid in Hq. lia. }
  lia.
Qed.

(** ** One frame through the session *)

(** Nothing is queued to be written, the session and the gateway are running. *)
Record quiet (g : TcpGateway) (s : TcpSession) : Prop := {
  qu_object : gw_objects g !! lb_session = Some s;
  qu_registered : lb_session ∈ gw_sessions g;
  qu_open : socket_open s = true;
  qu_writes : write_queue_ s = [];
  qu_writing : pending_write s = false;
  qu_closing : close_after_write_ s = false;
  qu_running : stopped_ g = false;
}.

Definition command_header (c : Command) : WireHeader :=
  frame_header (command_type c) (length (command_image c)) 0.

Lemma command_header_ok c :
  c ≠ monostate →
  header_ok (command_header c) ∧ validate_header (command_header c) = None ∧
  Z.to_nat (payload_length (command_header c)) = length (command_image c).
Proof.
  intros Hc. destruct (command_image_length c Hc) as (He & _ & Hl).
  destruct (frame_header_ok (command_type c) (length (command_image c)) 0 He) as (H1 & H2 & H3).
  - by destruct c.
  - unfold kRecordPayloadMax, kNewOrderSize in Hl. lia.
  - by left.
  - split_and!; [done|done|]. unfold command_header. rewrite H3. lia.
Qed.

Lemma header_read g e s c r :
  quiet g s → pending_read s = ReadHeader → c ≠ monostate →
  ∃ g' s', complete_read now (mkLoopback g e (command_frame c) r)
      = Val (mkLoopback g' e (command_image c) r) ∧
    quiet g' s' ∧ pending_read s' = ReadPayload (command_header c) ∧
    ts_last_sequence_ s' = ts_last_sequence_ s ∧
    gw_inbound g' = gw_inbound g ∧ gw_outbound g' = gw_outbound g.
Proof.
  intros [] Hr Hc. destruct (command_header_ok c Hc) as (Hok & Hv & _).
  unfold complete_read. cbn [lb_gateway lb_sent lb_engine lb_received]. rewrite qu_object0.
  cbn [fmap option_fmap option_map]. rewrite Hr. unfold command_frame. fold (command_header c).
  assert (length (header_image (command_header c)) = kHeaderSize) as Hl by done.
  rewrite decide_True by (rewrite length_app; lia).
  rewrite take_app_length', drop_app_length' by done.
  unfold on_session. rewrite qu_object0. cbn [deref_opt]. rewrite bind_Val.
  unfold on_header. cbn [set_buffers header_buf_].
  rewrite <- (app_nil_r (header_image (command_header c))), decode_header_image, bind_Val by done.
  rewrite Hv, bind_Val, bind_Val. eexists _, _. split; [done|].
  split; [split; [apply (lookup_insert_eq (M:=gmap Z))|done..]|done].
Qed.

(** The decoders of the switch, at once. *)
Lemma on_payload_command c s (g : TcpGateway) :
  command_ok c →
  on_payload lb_session now (command_header c) (Some (command_image c)) s g =
    after_decode lb_session now (command_type c) None (SequenceNumber.mk (sequence_of c)) c
      (set_buffers (header_buf_ s)
         (command_image c ++ drop (length (command_image c)) (payload_buf_ s))
         (set_pending_read NoRead s)) g.
Proof.
  intros Hc. assert (c ≠ monostate) as Hne by (by intros ->).
  destruct (command_header_ok c Hne) as (_ & _ & Hl).
  unfold on_payload. rewrite Hl. cbn [set_buffers payload_buf_]. rewrite take_app_length' by done.
  destruct c as [|o|c|o]; [done|..].
  - cbn [command_header frame_header wh_type command_type command_image Z.eqb].
    rewrite decode_new_order_image by done. rewrite bind_Val. by destruct o as [[] ? ? ? ? ?].
  - cbn [command_header frame_header wh_type command_type command_image Z.eqb].
    rewrite decode_cancel_order_image by done. rewrite bind_Val. by destruct c as [[] ?].
  - cbn [command_header frame_header wh_type command_type command_image Z.eqb].
    rewrite decode_replace_order_image by done. rewrite bind_Val. by destruct o as [[] ? ? ?].
Qed.

Lemma payload_read g e s c r n :
  quiet g s → pending_read s = ReadPayload (command_header c) → command_ok c →
  ts_last_sequence_ s < sequence_of c → bq_rep (gw_inbound g) n [] →
  (0 < bq_capacity (Q:=QI))%nat →
  ∃ g' s' m, complete_read now (mkLoopback g e (command_image c) r) = Val (mkLoopback g' e [] r) ∧
    quiet g' s' ∧ pending_read s' = ReadHeader ∧ ts_last_sequence_ s' = sequence_of c ∧
    in_command m = c ∧ in_session_id m = lb_session ∧ in_received_at m = now ∧
    bq_rep (gw_inbound g') (S n) [m] ∧ gw_outbound g' = gw_outbound g.
Proof.
  intros [] Hr Hc Hseq Hrep Hcap. assert (c ≠ monostate) as Hne by (by intros ->).
  destruct (command_header_ok c Hne) as (_ & _ & Hl).
  unfold complete_read. cbn [lb_gateway lb_sent lb_engine lb_received]. rewrite qu_object0.
  cbn [fmap option_fmap option_map]. rewrite Hr, Hl, decide_True by done.
  rewrite take_ge, drop_ge by done. unfold on_session. rewrite qu_object0. cbn [deref_opt].
  rewrite bind_Val, on_payload_command by done. unfold after_decode, enqueue_command.
  cbn [SequenceNumber.value set_buffers set_pending_read ts_last_sequence_].
  rewrite (proj2 (Z.leb_gt _ _)) by lia. set (m := mkInboundMessage _ _ _ _).
  destruct (bq_push_ok _ _ _ m Hrep) as (q & -> & Hrep'); [simpl; lia|]. rewrite !bind_Val. cbn [negb].
  rewrite !bind_Val. eexists _, _, m. split; [done|].
  split; [split; [apply (lookup_insert_eq (M:=gmap Z))|done..]|done].
Qed.

(** ** The replies *)

(** What sending frames leaves alone. *)
Record same_session (s s' : TcpSession) : Prop := {
  sm_open : socket_open s' = socket_open s;
  sm_closing : close_after_write_ s' = close_after_write_ s;
  sm_read : pending_read s' = pending_read s;
  sm_last : ts_last_sequence_ s' = ts_last_sequence_ s;
}.

Lemma receives_client (g : TcpGateway) m :
  lb_session ∈ gw_sessions g →
  receives g lb_session m = bool_decide (out_session_id m = 0 ∨ out_session_id m = lb_session).
Proof.
  intros Hin. unfold receives. rewrite bool_decide_eq_true_2 by done. cbn [andb].
  destruct (Z.eqb_spec (out_session_id m) 0), (Z.eqb_spec (out_session_id m) lb_session);
    symmetry; (apply bool_decide_eq_true_2; tauto) || (apply bool_decide_eq_false_2; tauto).
Qed.

Lemma send_frames (g : TcpGateway) l : ∀ s,
  lb_session ∈ gw_sessions g → socket_open s = true → Forall (λ m, out_payload m ≠ PayloadNone) l →
  (write_queue_ s ≠ [] → pending_write s = true) →
  (write_queue_ s = [] → pending_write s = false) →
  let s' := foldl (λ s m, if receives g lb_session m then send_raw_frame (frame_of m) s else s) s l in
  same_session s s' ∧
  write_queue_ s' = write_queue_ s ++
    (frame_of <$> filter (λ m, out_session_id m = 0 ∨ out_session_id m = lb_session) l) ∧
  (write_queue_ s' ≠ [] → pending_write s' = true) ∧ (write_queue_ s' = [] → pending_write s' = false).
Proof.
  induction l as [|m l IH]; intros s Hin Ho Hp Hw Hi; cbn [foldl].
  { rewrite app_nil_r. done. }
  apply Forall_cons in Hp as [Hm Hp]. rewrite receives_client by done.
  rewrite filter_cons. case_bool_decide; [rewrite decide_True by done|rewrite decide_False by done; by apply IH].
  pose proof (frame_of_nonempty m Hm) as Hne. set (s1 := send_raw_frame (frame_of m) s).
  assert (same_session s s1 ∧ write_queue_ s1 = write_queue_ s ++ [frame_of m] ∧ pending_write s1 = true)
    as ([] & Hq1 & Hw1).
  { unfold s1, send_raw_frame. rewrite bool_decide_eq_false_2, Ho by done. cbn [negb orb].
    case_bool_decide; cbn [negb]; [by split_and!|]. split_and!; [done|done|]. by apply Hw. }
  destruct (IH s1) as ([] & Hq & Hrest); [done|congruence|done|done| |].
  { rewrite Hq1. by destruct (write_queue_ s). }
  split_and!; [split; congruence| |apply Hrest..]. by rewrite Hq, Hq1, <- app_assoc.
Qed.

(** The session with replies queued and the first being written, or quiet. *)
Record writing (g : TcpGateway) (s : TcpSession) (fs : list (list Z)) : Prop := {
  wr_object : gw_objects g !! lb_session = Some s;
  wr_registered : lb_session ∈ gw_sessions g;
  wr_open : socket_open s = true;
  wr_queue : write_queue_ s = fs;
  wr_pending : pending_write s = negb (bool_decide (fs = []));
  wr_closing : close_after_write_ s = false;
  wr_running : stopped_ g = false;
}.

Lemma writing_done g s : writing g s [] → quiet g s.
Proof. intros []. by split. Qed.

Lemma timer_round_ok g e s r n msgs :
  quiet g s → bq_rep (gw_outbound g) n msgs → Forall (λ m, out_payload m ≠ PayloadNone) msgs →
  Z.of_nat (bq_capacity (Q:=QO)) ≤ u64_max →
  ∃ g' s' n', timer_round (bq_capacity (Q:=QO)) (mkLoopback g e [] r) = Val (mkLoopback g' e [] r) ∧
    writing g' s' (frame_of <$> filter (λ m, out_session_id m = 0 ∨ out_session_id m = lb_session) msgs) ∧
    same_session s s' ∧ gw_inbound g' = gw_inbound g ∧ bq_rep (gw_outbound g') n' [].
Proof.
  intros [] Hrep Hp Hcap. destruct (bq_rep_bound _ _ _ Hrep) as [Hle _].
  unfold timer_round, on_timer. cbn [lb_gateway set_flags stopped_]. rewrite qu_running0. cbn [negb andb].
  set (g1 := set_flags false (pending_accept g) false g).
  destruct (poll_loop_ok msgs (bq_capacity (Q:=QO)) default_outbound 0 g1 n) as (q & Hq & Hpl);
    [done|lia|lia|done|]. unfold poll_outbound. rewrite Hpl, !bind_Val.
  destruct (send_frames g1 msgs s) as (Hsame & Hwq & Hw & Hi);
    [done|done|done|by rewrite qu_writes0|by rewrite qu_writing0|].
  eexists _, _, n. split; [done|]. split; [|split; [exact Hsame|done]].
  rewrite qu_writes0 in Hwq. cbn [app] in Hwq.
  split; cbn [schedule_outbound_drain set_flags set_outbound gw_objects gw_sessions stopped_]; try done.
  - rewrite map_objects_lookup. cbn [g1 set_flags gw_objects]. by rewrite qu_object0.
  - by rewrite (sm_open _ _ Hsame).
  - rewrite <- Hwq. case_bool_decide as Hc; cbn [negb]; [by apply Hi|by apply Hw].
  - by rewrite (sm_closing _ _ Hsame).
Qed.

Lemma on_write_next (g : TcpGateway) s f fs :
  write_queue_ s = f :: fs → close_after_write_ s = false →
  on_write lb_session true s g =
    Val (set_pending_write (negb (bool_decide (fs = []))) (set_write_queue fs s), g).
Proof.
  intros Hq Hc. destruct s as [x1 x2 x3 q x4 c x5 x6]. simpl in Hq, Hc. subst q c. unfold on_write.
  cbn [negb set_pending_write write_queue_ set_write_queue close_after_write_ socket_open header_buf_
    payload_buf_ ts_last_sequence_ pending_read].
  by case_bool_decide.
Qed.

Lemma write_round_ok fs : ∀ fuel g e s r,
  (length fs ≤ fuel)%nat → writing g s fs →
  ∃ g' s', write_round fuel (mkLoopback g e [] r) = Val (mkLoopback g' e [] (r ++ mjoin fs)) ∧
    quiet g' s' ∧ same_session s s' ∧ gw_inbound g' = gw_inbound g ∧ gw_outbound g' = gw_outbound g.
Proof.
  induction fs as [|f fs IH]; intros fuel g e s r Hf Hw; pose proof Hw as [Ho Hreg Hop Hq Hp Hc Hrun].
  - exists g, s. split; [|split; [by apply writing_done|by split_and!]].
    destruct fuel; cbn [write_round lb_gateway]; rewrite Ho, Hp, app_nil_r; done.
  - destruct fuel as [|fuel]; [simpl in Hf; lia|]. cbn [write_round lb_gateway].
    rewrite Ho, Hp, bool_decide_eq_false_2 by done. cbn [negb]. rewrite Hq. cbn [head deref_opt].
    rewrite bind_Val. unfold on_session. rewrite Ho. cbn [deref_opt]. rewrite bind_Val.
    rewrite (on_write_next g s f fs Hq Hc), !bind_Val. set (s1 := set_pending_write _ _).
    set (g1 := set_objects _ g). destruct (IH fuel g1 e s1 (r ++ f)) as (g' & s' & Heq & Hqu & Hsame & Hrest).
    + simpl in Hf. lia.
    + split; try done. apply (lookup_insert_eq (M:=gmap Z)).
    + exists g', s'. rewrite <- app_assoc in Heq. split_and!; [exact Heq|done|by destruct Hsame|apply Hrest..].
Qed.

(** ** The block of replies the client gets *)

Lemma replies_no_error m b b' sessions msgs :
  replies m b b' sessions msgs → Forall (λ x, out_type x ≠ MessageType.protocol_error) msgs.
Proof.
  assert (∀ sid seq xs sessions', Forall (λ x, out_type x ≠ MessageType.protocol_error)
    (execs_replies sid seq b' sessions' xs)) as Hx.
  { intros sid seq xs. induction xs as [|x xs IH]; intros sessions'; cbn [execs_replies]; [done|].
    apply Forall_app. split; [|apply IH]. unfold exec_replies.
    constructor; [done|]. destruct (_ && _); by repeat constructor. }
  intros [o r Hc Hs|o r Hc Hs|o r Hc Hs|Hc _].
  - unfold new_order_replies. destruct (sr_rejection r); [by repeat constructor|].
    apply Forall_app. split; [apply Hx|by repeat constructor].
  - unfold cancel_replies. destruct (cr_rejection r), (cr_cancelled_quantity r); by repeat constructor.
  - unfold replace_replies. destruct (rr_rejection r); [by repeat constructor|].
    apply Forall_app. split; [apply Hx|by repeat constructor].
  - done.
Qed.

Lemma client_block m b b' sessions msgs :
  wf b → inbound_ok (in_command m) → in_command m ≠ monostate → in_session_id m = lb_session →
  replies m b b' sessions msgs →
  reply_block (to_session lb_session msgs) ∧
  (length (to_session lb_session msgs) ≤ fills_of b (in_command m) + 1)%nat ∧
  filter (λ x, out_session_id x = 0 ∨ out_session_id x = lb_session) msgs = to_session lb_session msgs ∧
  Forall (λ x, out_payload x ≠ PayloadNone) msgs.
Proof.
  intros Hwf Hok Hne Hid Hr. pose proof (replies_ok _ _ _ _ _ Hwf Hok Hr) as Hre.
  pose proof (replies_no_error _ _ _ _ _ Hr) as Herr.
  destruct (replies_framed _ _ _ _ _ Hwf Hne Hr) as [(fills & last & Hto & Hfills & Hlast & _) Hother].
  destruct (replies_length _ _ _ _ _ Hr) as [_ Hlen]. rewrite Hid in *. split_and!; [|done| |].
  - assert (Forall (λ x, reply_ok x ∧ out_type x ≠ MessageType.protocol_error) (to_session lb_session msgs)) as Hall.
    { apply (Forall_sublist _ _ msgs); [apply sublist_filter|]. by apply Forall_and. }
    split; [eapply Forall_impl; [exact Hall|]; by intros x [? _]|].
    exists fills, last. split; [done|]. rewrite Hto in Hall. apply Forall_app in Hall as [_ Hall].
    apply Forall_singleton in Hall as [H1 H2]. split; [|done].
    eapply Forall_impl; [exact Hfills|]. by intros x [[? _] _].
  - clear - Hother. unfold to_session. induction Hother as [|x l Hx _ IH]; [done|].
    rewrite !filter_cons, IH. destruct (decide (out_session_id x = lb_session)) as [Hs|Hs].
    + by rewrite decide_True by tauto.
    + rewrite decide_False; [done|]. destruct (Hx Hs) as (_ & _ & ?). tauto.
  - eapply Forall_impl; [exact Hre|]. intros x [Hp _] Hn. by rewrite Hn in Hp.
Qed.

(** ** The instance *)

Record lb_ready (x : Loopback) (cs : list Command) (accs : list bool) (l : list Z) : Prop := {
  lr_session : ∃ s, quiet (lb_gateway x) s ∧ pending_read s = ReadHeader ∧
    (ts_last_sequence_ s = 0 ∨ ∃ c, c ∈ cs ∧ ts_last_sequence_ s = sequence_of c);
  lr_inbound : ∃ n, bq_rep (gw_inbound (lb_gateway x)) n [];
  lr_outbound : ∃ n, bq_rep (gw_outbound (lb_gateway x)) n [];
  lr_wf : wf (book_ (lb_engine x));
  lr_routed : routed (lb_engine x);
  lr_histogram : length (buckets_ (command_to_ack_latency_ (lb_engine x))) = kLatencyHistogramBuckets;
  lr_applied : applied cs accs (lb_engine x);
  lr_sent : lb_sent x = [];
  lr_received : lb_received x = l;
}.

Definition lb_listening (x : Loopback) : Prop :=
  ∃ qi qo, x = lb_start qi qo ∧ bq_rep qi 0 [] ∧ bq_rep qo 0 [].

Lemma lb_connect x :
  lb_listening x → ∃ x', sk_connect x = (true, x') ∧ lb_ready x' [] [] [].
Proof.
  intros (qi & qo & -> & Hi & Ho). eexists. split; [done|]. split; simpl; try done; try by eexists.
  - eexists. split; [split; [apply (lookup_insert_eq (M:=gmap Z))|done..]|]. split; [done|by left].
  - apply wf_empty.
Qed.

Context (Hcap_in : (0 < bq_capacity (Q:=QI))%nat) (Hcap_out : (201 ≤ bq_capacity (Q:=QO))%nat).
Context (Hcap_max : Z.of_nat (bq_capacity (Q:=QO)) ≤ u64_max).

Lemma lb_write x cs accs c :
  lb_ready x cs accs [] → sendable c → Forall (λ c', sequence_of c' < sequence_of c) cs →
  ∃ x' acc msgs, sk_write (command_frame c) x = (true, x') ∧
    reply_block msgs ∧ (length msgs ≤ 101)%nat ∧ lb_ready x' (cs ++ [c]) (accs ++ [acc]) (frames msgs).
Proof.
  intros [(s & Hs & Hread & Hlast) (n1 & Hi) (n2 & Ho) Hwf Hr Hh [Happ Hmc] Hsent Hrecv] Hc Hcs.
  destruct x as [g e sent recv]. cbn [lb_gateway lb_engine lb_sent lb_received] in *. subst sent recv.
  pose proof (sendable_fills _ c Hwf Hc) as Hfills. destruct Hc as [Hc _].
  assert (c ≠ monostate) as Hne by (by intros ->).
  pose proof (command_inbound_ok _ Hc) as Hok.
  assert (0 < sequence_of c) as Hpos.
  { destruct c as [|o|c|o]; [done|destruct Hok as [[? _] _]; simpl; lia..]. }
  destruct (header_read g e s c [] Hs Hread Hne) as (g1 & s1 & H1 & Hs1 & Hread1 & Hl1 & Hi1 & Ho1).
  rewrite <- Hi1 in Hi. rewrite <- Ho1 in Ho.
  destruct (payload_read g1 e s1 c [] n1 Hs1 Hread1 Hc) as (g2 & s2 & m & H2 & Hs2 & Hread2 & Hl2 & Hm & Hid & Hat & Hi2 & Ho2);
    [|done|done|].
  { rewrite Hl1. destruct Hlast as [->|(c' & Hin & ->)]; [done|]. rewrite Forall_forall in Hcs. by apply Hcs. }
  rewrite <- Ho2 in Ho.
  destruct (process_one_exact 0 e (gw_inbound g2) (gw_outbound g2) m (S n1) n2)
    as (acc & e1 & e' & qi' & qo' & n3 & msgs & Hp & Hi3 & Ho3 & Ha & Hrep & Ht & Hme & Hwf' & Hr' & Hh');
    [done|done|done|done|by rewrite Hm|done|rewrite Hat; unfold u64_max; lia|rewrite Hm; lia|].
  destruct (client_block m _ _ _ _ Hwf ltac:(by rewrite Hm) ltac:(by rewrite Hm) Hid Hrep)
    as (Hblock & Hlen & Hfilter & Hpay). rewrite Hm in *.
  set (g3 := set_outbound qo' (set_inbound qi' (gw_history g2) g2)).
  assert (quiet g3 s2) as Hs3 by (by destruct Hs2; split).
  destruct (timer_round_ok g3 e' s2 [] n3 msgs Hs3 Ho3 Hpay Hcap_max) as (g4 & s4 & n4 & H4 & Hw4 & Hsame4 & Hi4 & Ho4).
  rewrite Hfilter in Hw4.
  destruct (write_round_ok (frame_of <$> to_session lb_session msgs) (bq_capacity (Q:=QO)) g4 e' s4 []
    ltac:(rewrite length_fmap; lia) Hw4) as (g5 & s5 & H5 & Hs5 & Hsame5 & Hi5 & Ho5).
  exists (mkLoopback g5 e' [] (frames (to_session lb_session msgs))), acc, (to_session lb_session msgs).
  split.
  { cbn [sk_write loopback_socket lb_gateway lb_engine lb_sent lb_received app]. unfold serve.
    rewrite H1, bind_Val, H2, bind_Val. unfold engine_round. cbn [lb_gateway lb_engine lb_sent lb_received].
    rewrite Hp, !bind_Val. cbn [sv_inbound sv_outbound sv_engine]. fold g3. rewrite H4, bind_Val, H5. done. }
  split; [done|]. split; [lia|]. split; cbn [lb_gateway lb_engine lb_sent lb_received]; try done.
  - exists s5. split; [done|]. rewrite (sm_read _ _ Hsame5), (sm_read _ _ Hsame4), (sm_last _ _ Hsame5), (sm_last _ _ Hsame4).
    split; [done|]. right. exists c. split; [set_solver|done].
  - exists (S n1). by rewrite Hi5, Hi4.
  - exists n4. by rewrite Ho5.
  - split; [by eapply apply_all_snoc|]. rewrite Hme. by eapply metrics_count_snoc.
Qed.

Lemma lb_read x cs accs l n :
  lb_ready x cs accs l → (n ≤ length l)%nat →
  ∃ x', sk_read n x = (Some (take n l), x') ∧ lb_ready x' cs accs (drop n l).
Proof.
  intros [] Hn. eexists. cbn [sk_read loopback_socket].
  rewrite decide_True by (by rewrite lr_received0). rewrite lr_received0. split; [done|]. by split.
Qed.

Lemma lb_stop x cs accs :
  lb_ready x cs accs [] →
  (∃ b, apply_all empty_book cs = Val (accs, b)) ∧ metrics_count cs accs (sk_stop x).
Proof. intros []. destruct lr_applied0. split; [by eexists|done]. Qed.

#[export] Instance loopback_peer : Peer Loopback := {|
  pr_listening := lb_listening;
  pr_ready := lb_ready;
  pr_connect := lb_connect;
  pr_read := lb_read;
  pr_write := lb_write;
  pr_stop := lb_stop;
|}.
End Loopback.
