(* ===== verification/BenchmarkRun.v ===== *)
(** * The benchmark program from its command line to its result

    Both modes on generated workloads.  The lemmas hold for every server that
    keeps the promises of [Peer]; the claims are about the server the program
    starts, the modelled gateway and engine behind a loopback connection. *)

From stdpp Require Import prelude gmap list strings.
From Stdlib Require Import ZArith Lia.
From S2P Require Import Prelude Types OrderBook BookProps Spsc SpscProps MarketData MarketDataProps.
From S2P Require Import EventLog EventLogProps Observability Engine EngineProps EngineSystem Gateway AppProps.
From S2P Require Import StdRandom Benchmark BenchmarkProps Console BenchmarkApp BenchmarkAppProps Loopback.

Open Scope list_scope.
Open Scope Z_scope.

Section run.
Context {S : Type} `{PR : Peer S}.

(** Both modes on the same workload, with the verdicts both count. *)
Lemma both_modes config clock clock' warmup fuel (server : S) :
  pr_listening server → (100 ≤ fuel)%nat →
  valid_config config = true → wc_symbol_count config = 1 →
  0 ≤ wc_book_levels config ≤ 100000 → 0 ≤ wc_command_count config < u64_max →
  (∀ k, 0 ≤ clock k ≤ i64_max) → (∀ k, 0 ≤ clock' k ≤ i64_max) → 0 ≤ warmup →
  ∃ w rc rg v, make_workload config = Val w ∧ w ≠ [] ∧
    run_core_benchmark clock w 1 warmup = Val rc ∧ run_gateway_benchmark clock' fuel w server = Val rg ∧
    counted v rc ∧ counted v rg ∧
    br_commands rc = wc_command_count config ∧ br_commands rg = wc_command_count config ∧
    sn_count (br_latency rc) = wc_command_count config ∧
    sn_count (br_latency rg) = wc_command_count config ∧
    tally accepted_in v + tally rejected_in v = wc_command_count config ∧
    tally rejected_in v = tally (cancel_in false) v.
Proof.
  intros Hsrv Hf Hv Hs Hl Hc Hclock Hclock' Hwm.
  destruct (generated_run config clock warmup Hv ltac:(lia) Hl Hc Hclock Hwm)
    as (w & rc & vs & Hw & Hne & Hok & Hlen & Hrc & Hvl & Hvs & Hcnt & Hcm & Hlat & Hsum & Hrej).
  destruct (workload_sendable config w Hok) as [Hsend Hseq].
  destruct (run_gateway_ok clock' Hclock' fuel w server Hf Hsrv Hne Hsend Hseq ltac:(lia))
    as (rg & accs & b & Hrg & Hcm' & Hlat' & Ha & Hcnt').
  rewrite Hs in Hrc, Hvl. rewrite <- (one_symbol_verdicts config w vs accs b Hok Hs Hvl Hvs Ha) in Hcnt'.
  exists w, rc, rg, (mjoin vs). rewrite Hcm', Hlat', Hlen. by split_and!.
Qed.

Lemma main_exits clock fuel (server : S) argv :
  pr_listening server → (100 ≤ fuel)%nat → (∀ k, 0 ≤ clock k ≤ i64_max) →
  match parse_options argv default_options with
  | None => ∃ usage, benchmark_main clock fuel server argv =
      Val (mkBenchmarkProcess 2 EmptyString usage None)
  | Some o =>
      wc_book_levels (op_workload o) ≤ 100000 → wc_command_count (op_workload o) < u64_max →
      ∃ p, benchmark_main clock fuel server argv = Val p ∧
        if bool_decide (op_mode o = gateway) && negb (wc_symbol_count (op_workload o) =? 1)
        then bp_code p = 2 ∧ bp_result p = None
        else bp_code p = 0 ∧ bp_stderr p = EmptyString ∧
          ∃ label r, bp_result p = Some (label, r) ∧
            br_commands r = wc_command_count (op_workload o) ∧
            br_accepted_commands r + br_rejected_commands r = wc_command_count (op_workload o) ∧
            br_rejected_commands r = br_rejected_cancels r
  end.
Proof.
  intros Hsrv Hf Hclock. unfold benchmark_main.
  destruct (parse_options argv default_options) as [o|] eqn:Hp; [|by eexists].
  intros Hl Hc. destruct (parse_options_valid argv o Hp) as [[] Hv]. set (config := op_workload o) in *.
  destruct (generated_run config clock (op_warmup_commands o) Hv)
    as (w & rc & vs & Hw & Hne & Hok & Hlen & Hrc & Hvl & Hvs & [Ha Hr _ Hrj] & Hcm & _ & Hsum & Hrej);
    [lia|lia|lia|done|lia|].
  rewrite Hw, bind_Val, bool_decide_eq_false_2 by done. destruct (op_mode o) eqn:Hm.
  - rewrite bool_decide_eq_false_2 by done. cbn [andb]. rewrite Hrc, bind_Val. eexists. split; [done|].
    split; [done|]. split; [done|]. eexists _, rc. split; [done|]. rewrite Ha, Hr, Hrj. by split_and!.
  - rewrite bool_decide_eq_true_2 by done. cbn [andb].
    destruct (Z.eqb_spec (wc_symbol_count config) 1) as [Hs|Hs]; cbn [negb]; [|by eexists].
    destruct (both_modes config clock clock 0 fuel server Hsrv Hf Hv Hs)
      as (w' & rc' & rg & v & Hw' & _ & _ & Hrg & _ & [Ha' Hr' _ Hrj'] & _ & Hcm' & _ & _ & Hsum' & Hrej');
      [lia|lia|done|done|lia|]. rewrite Hw in Hw'. injection Hw' as <-.
    rewrite Hrg, bind_Val. eexists. split; [done|]. split; [done|]. split; [done|].
    eexists _, rg. split; [done|]. rewrite Ha', Hr', Hrj'. by split_and!.
Qed.
End run.

(** ** Claims *)

(** C14. The two modes of the benchmark measure the same exchange: for a valid
    configuration with one symbol, at most 100000 levels and fewer than 2^64-1
    commands, the core benchmark and the gateway benchmark of the generated
    workload both finish, each measures every command once, and they report the
    same numbers of accepted and rejected commands and of accepted and rejected
    cancels.  The server of the gateway mode is the modelled gateway and engine
    with new queues of any capacity that holds the replies of one order (201 or
    more outbound messages), which answers each frame the client sends before
    the client reads again. *)
Theorem benchmark_modes_agree {QI QO QM QC} `{BI : BoundedQueue QI InboundMessage}
    `{BO : BoundedQueue QO OutboundMessage} `{BM : BoundedQueue QM MarketDataEvent}
    `{BC : BoundedQueue QC EventCaptureMessage} (qi : QI) (qo : QO) now config clock clock' warmup fuel :
  bq_rep qi 0 [] → bq_rep qo 0 [] → (0 < bq_capacity (Q:=QI))%nat →
  (201 ≤ bq_capacity (Q:=QO))%nat → Z.of_nat (bq_capacity (Q:=QO)) ≤ u64_max →
  (100 ≤ fuel)%nat → valid_config config = true → wc_symbol_count config = 1 →
  0 ≤ wc_book_levels config ≤ 100000 → 0 ≤ wc_command_count config < u64_max →
  (∀ k, 0 ≤ clock k ≤ i64_max) → (∀ k, 0 ≤ clock' k ≤ i64_max) → 0 ≤ warmup →
  ∃ w rc rg, make_workload config = Val w ∧
    run_core_benchmark clock w 1 warmup = Val rc ∧
    run_gateway_benchmark (SK:=loopback_socket (QM:=QM) (QC:=QC) now) clock' fuel w (lb_start qi qo)
      = Val rg ∧
    br_commands rc = wc_command_count config ∧ br_commands rg = wc_command_count config ∧
    sn_count (br_latency rc) = wc_command_count config ∧
    sn_count (br_latency rg) = wc_command_count config ∧
    br_accepted_commands rc = br_accepted_commands rg ∧
    br_rejected_commands rc = br_rejected_commands rg ∧
    br_accepted_cancels rc = br_accepted_cancels rg ∧
    br_rejected_cancels rc = br_rejected_cancels rg.
Proof.
  intros Hi Ho Hci Hco Hcm Hf Hv Hs Hl Hc Hclock Hclock' Hwm.
  destruct (both_modes (PR:=loopback_peer now Hci Hco Hcm) config clock clock' warmup fuel (lb_start qi qo))
    as (w & rc & rg & v & Hw & _ & Hrc & Hrg & [] & [] & ? & ? & ? & ? & _ & _); try done.
  { by exists qi, qo. }
  exists w, rc, rg. split_and!; (done || congruence).
Qed.

(** C37. The benchmark program: a command line that [parse_options] refuses ends
    with exit code 2, the usage and no run.  For one that it accepts, with at
    most 100000 levels and fewer than 2^64-1 commands: gateway mode with several
    symbols ends with exit code 2; every other one ends with exit code 0 and a
    result that counts the requested number of commands, each accepted or
    rejected, the rejected ones being the rejected cancels.  The server of the
    gateway mode is the modelled gateway and engine with new queues (201 or more
    outbound messages), the connection to it succeeds, and it answers each frame
    the client sends before the client reads again. *)
Theorem benchmark_main_exits {QI QO QM QC} `{BI : BoundedQueue QI InboundMessage}
    `{BO : BoundedQueue QO OutboundMessage} `{BM : BoundedQueue QM MarketDataEvent}
    `{BC : BoundedQueue QC EventCaptureMessage} (qi : QI) (qo : QO) now clock fuel argv :
  bq_rep qi 0 [] → bq_rep qo 0 [] → (0 < bq_capacity (Q:=QI))%nat →
  (201 ≤ bq_capacity (Q:=QO))%nat → Z.of_nat (bq_capacity (Q:=QO)) ≤ u64_max →
  (100 ≤ fuel)%nat → (∀ k, 0 ≤ clock k ≤ i64_max) →
  let run := benchmark_main (SK:=loopback_socket (QM:=QM) (QC:=QC) now) clock fuel (lb_start qi qo) argv in
  match parse_options argv default_options with
  | None => ∃ usage, run = Val (mkBenchmarkProcess 2 EmptyString usage None)
  | Some o =>
      wc_book_levels (op_workload o) ≤ 100000 → wc_command_count (op_workload o) < u64_max →
      ∃ p, run = Val p ∧
        if bool_decide (op_mode o = gateway) && negb (wc_symbol_count (op_workload o) =? 1)
        then bp_code p = 2 ∧ bp_result p = None
        else bp_code p = 0 ∧ bp_stderr p = EmptyString ∧
          ∃ label r, bp_result p = Some (label, r) ∧
            br_commands r = wc_command_count (op_workload o) ∧
            br_accepted_commands r + br_rejected_commands r = wc_command_count (op_workload o) ∧
            br_rejected_commands r = br_rejected_cancels r
  end.
Proof.
  intros Hi Ho Hci Hco Hcm Hf Hclock.
  apply (main_exits (PR:=loopback_peer now Hci Hco Hcm)); [by exists qi, qo|done..].
Qed.

(** ** Witnesses *)

#[local] Existing Instance inbound_queue.
#[local] Existing Instance outbound_queue.
#[local] Existing Instance capture_queue.
#[local] Existing Instance md_queue.

Notation loopback :=
  (@Loopback (BoundedSPSCQueue.Queue InboundMessage) (BoundedSPSCQueue.Queue OutboundMessage)).

Lemma demo_capacities :
  (0 < bq_capacity (BoundedQueue:=inbound_queue))%nat ∧
  (201 ≤ bq_capacity (BoundedQueue:=outbound_queue))%nat ∧
  Z.of_nat (bq_capacity (BoundedQueue:=outbound_queue)) ≤ u64_max.
Proof. split_and!; [by apply Nat.ltb_lt|by apply Nat.leb_le|vm_compute; discriminate]. Qed.

(** The server with the queues of the program, its clock standing at 7. *)
Definition demo_server : loopback := lb_start empty_in empty_out.
#[local] Instance demo_socket : Socket loopback :=
  loopback_socket (QM:=BoundedSPSCQueue.Queue MarketDataEvent)
    (QC:=BoundedSPSCQueue.Queue EventCaptureMessage) 7.

Definition demo_run_config : WorkloadConfig := mkWorkloadConfig 6 1 4 50 50 1234.

Lemma demo_clock k : 0 ≤ (λ _ : nat, 5) k ≤ i64_max.
Proof. unfold i64_max. lia. Qed.

Lemma benchmark_modes_agree_witness :
  ∃ w rc rg, make_workload demo_run_config = Val w ∧
    run_core_benchmark (λ _, 5) w 1 2 = Val rc ∧
    run_gateway_benchmark (λ _, 5) 100 w demo_server = Val rg ∧
    br_commands rg = 6 ∧ br_accepted_commands rc = br_accepted_commands rg.
Proof.
  destruct empty_queues as (Hi & Ho & _). destruct demo_capacities as (Hci & Hco & Hcm).
  destruct (benchmark_modes_agree (QM:=BoundedSPSCQueue.Queue MarketDataEvent)
      (QC:=BoundedSPSCQueue.Queue EventCaptureMessage) empty_in empty_out 7 demo_run_config
      (λ _, 5) (λ _, 5) 2 100 Hi Ho Hci Hco Hcm)
    as (w & rc & rg & H1 & H2 & H3 & _ & H5 & _ & _ & H8 & _);
    [lia|done|done|simpl; lia|unfold u64_max; simpl; lia|exact demo_clock|exact demo_clock|lia|].
  exists w, rc, rg. split_and!; [exact H1|exact H2|exact H3|exact H5|exact H8].
Defined.

Lemma benchmark_main_exits_witness :
  ∃ p label r,
    benchmark_main (λ _, 5) 100 demo_server ("bench"%string :: arguments_of demo_options) = Val p ∧
    bp_code p = 0 ∧ bp_result p = Some (label, r) ∧ br_commands r = 6.
Proof.
  destruct empty_queues as (Hi & Ho & _). destruct demo_capacities as (Hci & Hco & Hcm).
  pose proof (benchmark_main_exits (QM:=BoundedSPSCQueue.Queue MarketDataEvent)
    (QC:=BoundedSPSCQueue.Queue EventCaptureMessage) empty_in empty_out 7 (λ _, 5) 100
    ("bench"%string :: arguments_of demo_options) Hi Ho Hci Hco Hcm ltac:(lia) demo_clock) as H.
  cbv zeta in H.
  assert (parse_options ("bench"%string :: arguments_of demo_options) default_options = Some demo_options)
    as Hp by (by vm_compute).
  rewrite Hp in H. destruct H as (p & H1 & H2); [simpl; lia|unfold u64_max; simpl; lia|].
  destruct H2 as (H2 & _ & label & r & H3 & H4 & _). exists p, label, r.
  split_and!; [exact H1|exact H2|exact H3|exact H4].
Defined.
